(* ===== verification/_CoqProject ===== *)
-Q . S2P
Prelude.v
CacheTypes.v
Ring.v
Cache.v
CacheProps.v
CacheSpec.v
CacheSystem.v
CacheSystemRefs.v
CacheSystemWaiters.v
CacheSystemSteps.v
CacheSystemLive.v
CacheLasting.v
CacheTests.v
CacheTheorems.v
Filter.v
FilterProps.v
Proxy.v
ProxyMirror.v
ProxyLasting.v
ProxyTheorems.v
Config.v
HttpTypes.v
HttpUrl.v
HttpExec.v
HttpStates.v
HttpHeaders.v
HttpParser.v
HttpLogic.v
HttpSafe.v
HttpTotal.v
HttpScan.v
HttpRel.v
HttpTied.v
HttpTiedCases.v
HttpTiedHeaders.v
HttpTiedValues.v
HttpCross.v
HttpRuns.v
HttpSplit.v
HttpHandover.v
HttpPieces.v
HttpBytes.v
HttpMethod.v
HttpLines.v
HttpNames.v
HttpFields.v
HttpOptions.v
HttpBodies.v
HttpMessages.v
HttpPayloads.v
HttpRequests.v
HttpResponses.v
HttpUpgrade.v
HttpUrlProps.v
HttpChunks.v
HttpTheorems.v
