(* ===== verification/Prelude.v ===== *)
(** * Verification of the Envoy ring cache filter and of http_parser

    The repository holds an HTTP filter for Envoy that caches responses
    (src/ring-cache/) and a copy of http_parser, the C parser of HTTP/1 messages
    that Envoy is built with (src/bazel/external/http_parser/).  This library
    models both and proves what makes them correct.  The models are shallow:
    C++ methods are functions in a monad of faults over an explicit store, the
    cases of the C parser are functions in a monad of control flow over its
    locals, and everything can be run.

    ** The parts of the program, and where they are

    *** The cache: cache.h, cache.cc

    [RingBufferCache] is one object shared by the worker threads of Envoy,
    under one mutex.  A ring of slots owns the entries; [cache_map_] finds them
    by key; [inflight_map_] holds the responses that are on their way, each led
    by one stream (the leader, which publishes it) and followed by others (the
    waiters, which are fed through the dispatchers of their own threads).

    - CacheTypes.v: the structs [Entry], [Inflight], [Waiter], the members of
      the cache, and the store [world] with the heap objects and the queues of
      the dispatchers.  Addresses are never reused, so a stale pointer is seen.
    - Ring.v: [evictTillCapacityLocked], [evictHeadLocked], [insertEntryLocked];
      the invariant [ring_ok]; the search for room as a function [sweep].
    - Cache.v: [lookup], [publishHeaders], [publishData], [removeWaiter],
      [finalizeLocked], [attachBackfillWaiterLocked], the closures posted to
      dispatchers.  A method that goes on after the mutex is released is the
      composition of its locked and its unlocked part.
    - CacheProps.v: the invariant [cache_ok] and that all methods keep it.
    - CacheSpec.v: the abstract cache, a map from keys to absent, pending or
      stored, and the refinement of each method.
    - CacheSystem.v: threads.  A step is a locked part, a post, a turn of an
      event loop, the release of a buffer; the label says which, and
      [sys_exec] runs it; all interleavings are reachable.  CacheSystemRefs.v
      (pins), CacheSystemWaiters.v (followers), CacheSystemSteps.v (all steps)
      and CacheSystemLive.v (what is due gets done) prove its invariant [sys_ok].
      CacheLasting.v: what no step takes away, the contents of a pinned entry
      and the flag of a waiter that has left ([step_lasting]).
    - CacheTests.v: the scenarios of the unit tests, run on the model.
    - CacheTheorems.v: the properties.

    *** The filter and its configuration: filter.h, filter.cc, config.h, config.cc, cache.proto

    A [RingCacheFilter] per stream builds the key, looks it up, and becomes
    cached, leader or follower; a leader publishes what passes through it.

    - Filter.v: every handler.  FilterProps.v: what they do, alone and one
      stream after the other.
    - Proxy.v: streams with a filter each, over one cache, as Envoy runs them.
      A handler is cut where the mutex is released ([start], [resume]; in a row
      they are the handler, [handler_pieces]); an event ([happen]) is one
      piece, a turn of an event loop, the release of a buffer, or a new stream,
      and [may_call] is the order in which Envoy calls a filter.
      ProxyMirror.v: every event is a step of the system of CacheSystem.v or
      none ([event_mirrored]).  ProxyLasting.v: whole handlers as runs of
      events, and what lasts.  ProxyTheorems.v: the properties.
    - Config.v: the configuration object, its getters, the validation rules and
      the factory, which shares one cache through the singleton manager.

    *** http_parser: http_parser.h, http_parser.c

    [http_parser_execute] is a machine of 60 odd states over the bytes of a
    buffer, which keeps its place in a struct between buffers and tells a user
    of ranges of the buffer through callbacks; [http_parser_parse_url] takes a
    URL apart.

    - HttpTypes.v: enumerations, the struct, the tables, the character classes.
    - HttpUrl.v: URLs.
    - HttpExec.v: the queries, the locals of [http_parser_execute] (pointers as
      offsets), the monad of its control flow ([break], [goto reexecute],
      [goto error], [return]) and its macros.
    - HttpStates.v, HttpHeaders.v: the cases of the switch, one definition each.
    - HttpParser.v: the dispatch, the loop, entry and exit; whole messages run.
    - HttpLogic.v: a calculus of specifications for that monad, and the
      invariant.  HttpSafe.v: each case keeps it.  HttpTotal.v: the loop ends.
    - HttpRel.v: two runs side by side, and the interface [Reader] of users that
      take a message in parts.  HttpTied.v: what ties a call with a whole buffer
      to one with its end; HttpTiedCases.v, HttpTiedHeaders.v, HttpTiedValues.v:
      each case keeps them tied.  HttpScan.v: the inner loops in closed form.
      HttpCross.v: a byte at the end of a buffer and the same byte with more
      after it.  HttpRuns.v: the loop as a relation.  HttpSplit.v: calls that
      are tied end alike.  HttpHandover.v: what is given to the user between two
      calls.  HttpPieces.v: a message may be cut anywhere.
    - HttpBytes.v: what a call with one byte does, and how calls with single
      bytes make up calls with any buffers ([eats], [eats_feed]).  HttpLines.v
      (request lines), HttpNames.v, HttpFields.v (headers), HttpOptions.v (the list
      of a Connection field, against its elements split at commas), HttpBodies.v
      (the end of the headers, bodies, chunks): a rule for each byte of a message.
      HttpMessages.v: fields, bodies and chunks as they are written, what a user
      is told of them ([news]), and rules for the groups of their bytes.
      HttpPayloads.v: a message after its first line ([rest_text]).
      HttpRequests.v, HttpResponses.v: requests and responses as data, their text
      ([request_text], [response_text]), what a user should be told of them
      ([request_news], [response_news]), and that the text is read back as that;
      HttpResponses.v also has the rules for the bytes of a status line.
      HttpUpgrade.v: requests after which another protocol goes on.
    - HttpMethod.v: methods.  HttpUrlProps.v: URLs.  HttpChunks.v: the sizes of
      chunks.  HttpTheorems.v: the other properties.

    Prelude.v holds the fault monad with its proof rules, machine words, sums,
    positions on a ring, and the tactics and hints of the library.

    ** What the theorems show

    - Safety of the cache: no enabled step of any interleaving fails an ASSERT
      or follows a null or dangling pointer; entries being read are neither
      evicted nor changed; pins count readers; used size is the size of what is
      stored and within the capacity; one leader per key.
    - Coherence: a follower is sent exactly what its leader publishes, in
      order, and all of it once the leader has ended; a hit serves what was
      published, and its bytes are the same in every later state until it is
      released; a follower hears nothing more once [onDestroy] has run.
    - Refinement: for callers that keep the contract [allowed] (a follower has
      callbacks, headers are published before data) the methods implement a map
      from keys to responses.
    - Eviction: when it succeeds, and exactly what it evicts.
    - The filter: the answer on every branch, and a fetch followed by a hit
      exactly when the cache had room for the response ([has_room]).
    - Filters together: every piece of a handler and every handler completes in
      any interleaving; coalesced and cached clients are sent what an upstream
      sent through the filter of their leader; a leader that is destroyed too
      early blocks its key for ever.
    - The parser: it always returns, on any bytes, in any number of buffers,
      and stays inside the buffer; a message is parsed the same however it is
      cut into buffers; a sequence of requests, or of responses, that is written
      out is read back as those requests or responses, with the body of the last
      response ended by the connection if it says no length; what follows a
      request to go on with another protocol is left to that protocol; methods, lengths, ports and characters are read
      exactly; conflicting or unbounded framing is refused.
    - Faults of the code, proved as the code behaves: a full ring drops
      responses, a follower can stay attached after its end, a body without
      headers dereferences a null pointer, the capacity getter truncates, bytes
      from 128 on are hex digits, a field whose name begins with
      Transfer-Encoding has its request refused, the first byte of a value may
      be a control character, the options of a Connection field are lost after a
      tab, an empty element or a part of an option ([options_lost]).

    ** Parameters and assumptions

    Envoy's header maps are a type with a size and a copy ([HeaderMapApi],
    [HeaderMapLaws]); the singleton manager is an interface ([SingletonManager],
    [SingletonLaws]); both are instantiated by the witnesses.  The callbacks of
    http_parser's users are arguments; the theorems ask of them that they leave
    the parser alone but for its errno ([settings_ok]), as http_parser.h asks.
    That cutting makes no difference is a theorem on users that take parts of a
    message as text, whose laws are [ReaderLaws] ([transcript], which writes
    everything down, is one), and on messages that are not longer than the
    maximal header size, since the inner loops over a header count the bytes of
    a buffer at once and a call may refuse at another byte.  The theorems that
    build on it have the same bound on all the bytes they are about: the whole
    sequence of requests or responses ([requests_roundtrip],
    [responses_roundtrip]), and the request with what follows it in the buffers
    ([upgrade_handed_over]).  The requests that
    are read back ([request_ok]) have any method, a target that the URL automaton
    takes, and no body, a body of the length they announce, or non-empty chunks;
    only the last of a connection may ask to close it, and those that leave HTTP
    ([leaves]) have a theorem of their own, for which they have no body.  Their
    fields ([field_ok]) are such whose names are tokens the parser has no special
    treatment for ([ordinary]), Upgrade, and the options of a connection
    ([options_ok]): elements that begin with a token, and are not a part of an
    option where a comma follows.  The responses ([response_ok]) have any status of three digits
    and any phrase, and such fields and bodies, where only a response that the
    connection ends with ([closing]) or one whose status is 1xx, 204 or 304
    announces no body; their user skips no body, as the user of the responses to
    a HEAD would.
    ASSERT is taken to be enabled.  A pin counter has 32 bits; a system has
    fewer streams, finished ones included, than it can count.  A closure that
    catches a follower up makes both of its calls in one turn ([run_task]), so
    no handler of that stream runs between them.  The bytes of a C buffer are numbers from 0
    to 255.  STRICT is an argument, and so is the maximal
    header size, the one global of http_parser.c: a session threads it, and may
    set it between two calls ([session_total]).

    ** Fuel

    The two loops of the eviction get one turn more than there are slots: each
    visits a slot once before it is back at the start ([capacity_loop_spec],
    [slot_loop_spec]).  The loop of the parser gets five turns for each byte and
    one more: without advancing it goes through at most three states more
    ([rank] decreases at each [goto reexecute], [loop_returns]).  The inner loops
    of header fields and values get one turn more than there are bytes.  That
    fuel never runs out is part of every theorem that says a call returns.

    ** Not modelled

    Logging; the registration of the factory; the build files, patches and
    toolchains under bazel/ and ci/; test code (its scenarios are run on the
    model).  Weak memory: pins and cancellation flags are read and
    written in one order. *)
From stdpp Require Export prelude gmap strings list fin_maps.
From Stdlib Require Export ZArith Lia.

Local Open Scope Z_scope.

(** ** Machine words *)

Definition u64 (z : Z) : Z := z mod 2 ^ 64.
Definition u32 (z : Z) : Z := z mod 2 ^ 32.
Definition u16 (z : Z) : Z := z mod 2 ^ 16.

Lemma u64_range z : 0 <= u64 z < 2 ^ 64.
Proof. apply Z.mod_pos_bound; lia. Qed.

Lemma u32_range z : 0 <= u32 z < 2 ^ 32.
Proof. apply Z.mod_pos_bound; lia. Qed.

Lemma u16_range z : 0 <= u16 z < 2 ^ 16.
Proof. apply Z.mod_pos_bound; lia. Qed.

Lemma u64_small z : 0 <= z < 2 ^ 64 -> u64 z = z.
Proof. apply Z.mod_small. Qed.

Lemma u32_small z : 0 <= z < 2 ^ 32 -> u32 z = z.
Proof. apply Z.mod_small. Qed.

Lemma u16_small z : 0 <= z < 2 ^ 16 -> u16 z = z.
Proof. apply Z.mod_small. Qed.

Lemma u64_add_l a b : u64 (u64 a + b) = u64 (a + b).
Proof. apply Zplus_mod_idemp_l. Qed.

(** ** Faults, and the state monad of the C++ code

    A C++ operation reads and writes a store [S]; it may run into undefined
    behaviour or a failed ASSERT, which the model makes a value. *)

Inductive fault :=
| AssertFailure        (* an ASSERT whose condition is false *)
| NullDereference      (* dereferencing an empty smart pointer *)
| DanglingPointer      (* dereferencing a pointer whose object was destroyed *)
| IndexOutOfRange      (* indexing a std::vector out of its bounds *)
| ModuloByZero         (* the remainder of a division by zero *)
| OutOfFuel.           (* the bound given to a loop was too small *)

#[export] Instance fault_eq_dec : EqDecision fault.
Proof. solve_decision. Defined.

Inductive outcome (A : Type) :=
| Done (a : A)
| Faulted (f : fault).
Arguments Done {A} a.
Arguments Faulted {A} f.

Definition M (S A : Type) : Type := S -> outcome (A * S).

Section Monad.
Context {S : Type}.

Definition ret {A} (a : A) : M S A := fun s => Done (a, s).
Definition fail {A} (f : fault) : M S A := fun _ => Faulted f.
Definition bind {A B} (m : M S A) (k : A -> M S B) : M S B :=
  fun s => match m s with
           | Done (a, s') => k a s'
           | Faulted f => Faulted f
           end.
Definition gets {A} (f : S -> A) : M S A := fun s => Done (f s, s).
Definition modify (f : S -> S) : M S unit := fun s => Done (tt, f s).
(** [ASSERT(b)] *)
Definition assert_ (b : bool) : M S unit :=
  if b then ret tt else fail AssertFailure.
(** Unwraps an option, or runs into the given fault. *)
Definition or_fault {A} (f : fault) (o : option A) : M S A :=
  match o with Some a => ret a | None => fail f end.
Definition when (b : bool) (m : M S unit) : M S unit := if b then m else ret tt.

(** Total correctness: [m] run from [s] ends without a fault, in a result
    and a store that satisfy [Q]. *)
Definition wp {A} (m : M S A) (Q : A -> S -> Prop) (s : S) : Prop :=
  match m s with
  | Done (a, s') => Q a s'
  | Faulted _ => False
  end.

Lemma wp_ret {A} (a : A) (Q : A -> S -> Prop) s : Q a s -> wp (ret a) Q s.
Proof. done. Qed.

Lemma wp_bind {A B} (m : M S A) (k : A -> M S B) Q s :
  wp m (fun a s' => wp (k a) Q s') s -> wp (bind m k) Q s.
Proof. unfold wp, bind. by destruct (m s) as [[a s']|]. Qed.

Lemma wp_gets {A} (f : S -> A) (Q : A -> S -> Prop) s : Q (f s) s -> wp (gets f) Q s.
Proof. done. Qed.

Lemma wp_modify (f : S -> S) (Q : unit -> S -> Prop) s : Q tt (f s) -> wp (modify f) Q s.
Proof. done. Qed.

Lemma wp_assert b (Q : unit -> S -> Prop) s : b = true -> Q tt s -> wp (assert_ b) Q s.
Proof. by intros ->. Qed.

Lemma wp_or_fault {A} f (o : option A) a (Q : A -> S -> Prop) s :
  o = Some a -> Q a s -> wp (or_fault f o) Q s.
Proof. by intros ->. Qed.

(** Equations that run a computation step by step. *)
Lemma bind_Done {A B} (m : M S A) (k : A -> M S B) s a s' :
  m s = Done (a, s') -> bind m k s = k a s'.
Proof. unfold bind. by intros ->. Qed.

Lemma bind_ret {A B} (a : A) (k : A -> M S B) s : bind (ret a) k s = k a s.
Proof. done. Qed.

Lemma bind_gets {A B} (f : S -> A) (k : A -> M S B) s : bind (gets f) k s = k (f s) s.
Proof. done. Qed.

Lemma bind_modify {B} f (k : unit -> M S B) s : bind (modify f) k s = k tt (f s).
Proof. done. Qed.

Lemma bind_assert {B} b (k : unit -> M S B) s :
  b = true -> bind (assert_ b) k s = k tt s.
Proof. by intros ->. Qed.

Lemma bind_or_fault {A B} f (o : option A) a (k : A -> M S B) s :
  o = Some a -> bind (or_fault f o) k s = k a s.
Proof. by intros ->. Qed.

Lemma bind_assoc {A B C} (m : M S A) (k : A -> M S B) (l : B -> M S C) s :
  bind (bind m k) l s = bind m (fun a => bind (k a) l) s.
Proof. unfold bind. by destruct (m s) as [[a s']|]. Qed.

Lemma wp_mono {A} (m : M S A) (P Q : A -> S -> Prop) s :
  wp m P s -> (forall a s', P a s' -> Q a s') -> wp m Q s.
Proof. unfold wp. destruct (m s) as [[a s']|]; eauto. Qed.

Lemma wp_done {A} (m : M S A) (Q : A -> S -> Prop) s :
  wp m Q s <-> exists a s', m s = Done (a, s') /\ Q a s'.
Proof.
  unfold wp. destruct (m s) as [[a s']|f].
  - split; [eauto|]. intros (? & ? & ? & ?). by simplify_eq.
  - split; [done|]. by intros (? & ? & ? & ?).
Qed.

Lemma wp_result {A} (m : M S A) (Q : A -> S -> Prop) s a s' :
  wp m Q s -> m s = Done (a, s') -> Q a s'.
Proof. unfold wp. intros H E. by rewrite E in H. Qed.
End Monad.

Declare Scope cpp_scope.
Delimit Scope cpp_scope with cpp.
Notation "'let*' x ':=' m 'in' k" := (bind m (fun x => k))
  (at level 10, x name, m at level 100, k at level 200,
   format "'let*'  x  ':='  m  'in' '//' k") : cpp_scope.
Notation "m ';;;' k" := (bind m (fun _ => k))
  (at level 199, right associativity, format "m ';;;' '//' k") : cpp_scope.

Arguments ret : simpl never.
Arguments bind : simpl never.
Arguments wp : simpl never.

(** ** Sums over lists *)

Section Sum.
Context {A : Type}.
Implicit Types (f g : A -> Z) (l : list A).

Fixpoint sumZ f l : Z :=
  match l with
  | [] => 0
  | x :: l => f x + sumZ f l
  end.

Lemma sumZ_nonneg f l : (forall x, 0 <= f x) -> 0 <= sumZ f l.
Proof. intros Hf. induction l as [|x l IH]; simpl; [lia|]. specialize (Hf x). lia. Qed.

Lemma sumZ_insert f l i x y :
  l !! i = Some x -> sumZ f (<[i := y]> l) = sumZ f l - f x + f y.
Proof.
  revert i. induction l as [|z l IH]; intros [|i] Hi; simplify_eq/=; [lia|].
  rewrite (IH _ Hi). lia.
Qed.

Lemma sumZ_ext f g l : (forall x, x ∈ l -> f x = g x) -> sumZ f l = sumZ g l.
Proof.
  induction l as [|x l IH]; intros Hfg; simpl; [done|].
  rewrite Hfg by set_solver. f_equal. apply IH. set_solver.
Qed.

Lemma sumZ_le f g l : (forall x, x ∈ l -> f x <= g x) -> sumZ f l <= sumZ g l.
Proof.
  induction l as [|x l IH]; intros Hfg; simpl; [lia|].
  pose proof (Hfg x ltac:(set_solver)). pose proof (IH ltac:(set_solver)). lia.
Qed.

Lemma sumZ_pointwise f g l l' :
  length l = length l' ->
  (forall i x y, l !! i = Some x -> l' !! i = Some y -> f x = g y) -> sumZ f l = sumZ g l'.
Proof.
  revert l'. induction l as [|x l IH]; intros [|y l'] Hlen Hfg; simplify_eq/=; [done|].
  rewrite (Hfg O x y), (IH l'); try done. intros i. apply (Hfg (S i)).
Qed.

Lemma sumZ_elem f l i x :
  (forall y, 0 <= f y) -> l !! i = Some x -> f x <= sumZ f l.
Proof.
  intros Hf. revert i. induction l as [|y l IH]; intros [|i] Hi; simplify_eq/=.
  - pose proof (sumZ_nonneg f l Hf). lia.
  - pose proof (IH _ Hi). pose proof (Hf y). lia.
Qed.

Lemma sumZ_replicate f n x : sumZ f (replicate n x) = Z.of_nat n * f x.
Proof. induction n as [|n IH]; simpl; [lia|]. rewrite IH. lia. Qed.
End Sum.

(** ** Positions on a ring of [n] slots *)

Section Ring_positions.
Variable n : Z.

Lemma ring_step_ne s d : 0 <= s < n -> 0 < d < n -> (s + d) mod n <> s.
Proof.
  intros Hs Hd Heq. destruct (Z.lt_ge_cases (s + d) n).
  - rewrite Z.mod_small in Heq by lia. lia.
  - rewrite <- (Z_mod_plus_full _ (-1)), Z.mod_small in Heq by lia. lia.
Qed.

Lemma ring_step_full s : 0 <= s < n -> (s + n) mod n = s.
Proof. intros Hs. rewrite <- (Z_mod_plus_full _ (-1)), Z.mod_small; lia. Qed.

(** [i] is [k] steps from [s] exactly when [k] steps from [s] lead to [i]. *)
Lemma ring_distance s i k :
  0 <= i < n -> 0 <= k < n -> (i - s) mod n = k <-> (s + k) mod n = i.
Proof.
  intros Hi Hk. split; intros <-.
  - rewrite Zplus_mod_idemp_r. replace (s + (i - s)) with i by lia. by apply Z.mod_small.
  - rewrite Zminus_mod_idemp_l. replace (s + k - s) with k by lia. by apply Z.mod_small.
Qed.
End Ring_positions.

(** ** Ranges of lists *)

Section Slice.
Context {A : Type}.
Implicit Types (l : list A).

(** The [n] elements from [i] on *)
Definition slice l (i n : Z) : list A := take (Z.to_nat n) (drop (Z.to_nat i) l).

Lemma slice_cons_shift x l i n : 0 <= i -> slice (x :: l) (i + 1) n = slice l i n.
Proof. intros Hi. unfold slice. by replace (Z.to_nat (i + 1)) with (S (Z.to_nat i)) by lia. Qed.

Lemma slice_cons_zero x l n : 0 <= n -> slice (x :: l) 0 (n + 1) = x :: slice l 0 n.
Proof. intros Hn. unfold slice. by replace (Z.to_nat (n + 1)) with (S (Z.to_nat n)) by lia. Qed.

Lemma slice_app_left l l' i n : 0 <= i -> i + n <= Z.of_nat (length l) -> slice (l ++ l') i n = slice l i n.
Proof.
  intros Hi Hn. unfold slice. destruct (decide (n < 0)).
  { by replace (Z.to_nat n) with O by lia. }
  rewrite drop_app_le, take_app_le; [done| |lia]. rewrite length_drop. lia.
Qed.
End Slice.

(** The length of the longest prefix of [l] whose elements satisfy [f] *)
Fixpoint prefix_len {A} (f : A -> bool) (l : list A) : nat :=
  match l with
  | [] => 0
  | x :: l => if f x then S (prefix_len f l) else 0
  end.

Section Prefix.
Context {A : Type} (f : A -> bool).
Implicit Types l : list A.

Lemma prefix_len_drop l i x :
  l !! i = Some x -> prefix_len f (drop i l) = if f x then S (prefix_len f (drop (S i) l)) else 0%nat.
Proof. intros Hx. by rewrite (drop_S l x i Hx). Qed.

Lemma prefix_len_le l : (prefix_len f l <= length l)%nat.
Proof. induction l as [|x l IH]; simpl; [done|]. destruct (f x); lia. Qed.

Lemma prefix_len_next l : (prefix_len f l < length l)%nat -> exists x, l !! prefix_len f l = Some x /\ f x = false.
Proof.
  induction l as [|x l IH]; simpl; [lia|]. destruct (f x) eqn:Hx; [|by exists x].
  intros Hl. apply IH. lia.
Qed.
End Prefix.

(** ** Maps *)

Lemma alter_as_insert {K A} `{Countable K} (m : gmap K A) (f : A -> A) k x :
  m !! k = Some x -> alter f k m = <[k := f x]> m.
Proof.
  intros Hk. apply map_eq. intros j. destruct (decide (k = j)) as [->|].
  - by rewrite lookup_alter_eq, lookup_insert_eq, Hk.
  - by rewrite lookup_alter_ne, lookup_insert_ne.
Qed.

(** ** Tactics and hints *)

Create HintDb cpp.

(** Runs the computation of a goal [m w = _] as far as the primitive
    operations, the equations in the context and the hints of [cpp] allow. *)
Ltac mstep :=
  first
  [ rewrite bind_assoc | rewrite bind_ret | rewrite bind_gets | rewrite bind_modify
  | rewrite bind_assert by (first [done | by apply bool_decide_eq_true; eauto | auto with cpp])
  | erewrite bind_or_fault by (first [eassumption | done | eauto with cpp])
  | erewrite bind_Done by (first [eassumption | eauto with cpp]) ]; cbv beta iota.
Ltac mrun := repeat mstep.

#[export] Hint Resolve u64_range u32_range u16_range : cpp.

