(* ===== verification/CacheTypes.v ===== *)
(** Data of the ring cache (src/ring-cache/cache.h): entries, inflight
    responses, waiters, the closures posted to event dispatchers, and the
    store [world] that the methods of [RingBufferCache] read and write. *)
From S2P Require Import Prelude.

Local Open Scope Z_scope.

(** ** Envoy's interfaces, as far as the cache relies on them *)

(** [Http::ResponseHeaderMap] is Envoy's: the cache only counts its headers
    ([size()]) and copies it ([Http::createHeaderMap]). *)
Class HeaderMapApi (H : Type) := {
  headers_size : H -> Z;
  createHeaderMap : H -> H
}.

(** What the cache relies on: a count is a [size_t], a copy has the contents
    of its source. *)
Class HeaderMapLaws (H : Type) `{HeaderMapApi H} := {
  headers_size_range h : 0 <= headers_size h < 2 ^ 64;
  createHeaderMap_copy h : createHeaderMap h = h
}.

(** Pointers to [Entry] and [Waiter] objects, identities of dispatchers and of
    stream callbacks. *)
Abbreviation eptr := nat (only parsing).
Abbreviation wptr := nat (only parsing).
Abbreviation dispatcher := nat (only parsing).

(** [Http::StreamDecoderFilterCallbacks]: an identity, and the dispatcher of
    the worker thread the stream lives on ([callbacks->dispatcher()]). *)
Record StreamDecoderFilterCallbacks := Callbacks {
  cb_id : nat;
  cb_dispatcher : dispatcher
}.

#[export] Instance callbacks_eq_dec : EqDecision StreamDecoderFilterCallbacks.
Proof. solve_decision. Defined.

(** ** The structs of cache.h *)

Inductive ResultType := Hit | Leader | Follower.

#[export] Instance result_type_eq_dec : EqDecision ResultType.
Proof. solve_decision. Defined.

Record Waiter := {
  dispatcher_ : dispatcher;
  callbacks_ : StreamDecoderFilterCallbacks;
  cancelled : bool
}.

Section Types.
Context {H : Type} `{HeaderMapApi H}.

Record Entry := {
  key_ : string;
  headers_ : option H;
  body_ : string;
  pins_ : Z
}.

Record Inflight := {
  inflight_headers_ : option H;
  inflight_body_ : string;
  waiters_ : list wptr
}.

(** A closure handed to [Dispatcher::post], by the values it captures. *)
Inductive Task :=
| PostHeaders (w : wptr) (h : H) (end_stream : bool)
| PostData (w : wptr) (c : string) (end_stream : bool)
| PostBackfill (w : wptr) (h : H) (b : string).

(** The private members of [RingBufferCache], the heap objects it owns or
    shares, and the queues of the dispatchers it posts to.  Addresses are
    never reused, so a stale pointer is always seen to dangle. *)
Record world := World {
  capacity_ : Z;
  slot_count_ : Z;
  used_size_ : Z;
  cache_map_ : gmap string eptr;
  inflight_map_ : gmap string Inflight;
  slots_ : list (option eptr);
  head_ : Z;
  entries : gmap eptr Entry;
  next_entry : eptr;
  waiter_heap : gmap wptr Waiter;
  next_waiter : wptr;
  queues : gmap dispatcher (list Task)
}.

Definition str_size (s : string) : Z := Z.of_nat (String.length s).

(** [Entry::size()]; the headers pointer is dereferenced. *)
Definition Entry_size (e : Entry) : option Z :=
  match headers_ e with
  | Some h => Some (u64 (u64 (str_size (key_ e) + headers_size h) + str_size (body_ e)))
  | None => None
  end.

(** [Inflight::size()] *)
Definition Inflight_size (i : Inflight) : option Z :=
  match inflight_headers_ i with
  | Some h => Some (u64 (headers_size h + str_size (inflight_body_ i)))
  | None => None
  end.

(** A value-initialised [Inflight], as [try_emplace(key)] makes. *)
Definition empty_inflight : Inflight :=
  {| inflight_headers_ := None; inflight_body_ := ""; waiters_ := [] |}.

Definition set_pins (f : Z -> Z) (e : Entry) : Entry :=
  {| key_ := key_ e; headers_ := headers_ e; body_ := body_ e; pins_ := f (pins_ e) |}.

(** ** Field updates *)

Definition set_used_size (f : Z -> Z) (w : world) : world :=
  {| capacity_ := capacity_ w; slot_count_ := slot_count_ w; used_size_ := f (used_size_ w);
     cache_map_ := cache_map_ w; inflight_map_ := inflight_map_ w; slots_ := slots_ w;
     head_ := head_ w; entries := entries w; next_entry := next_entry w;
     waiter_heap := waiter_heap w; next_waiter := next_waiter w; queues := queues w |}.
Definition set_cache_map (f : gmap string eptr -> gmap string eptr) (w : world) : world :=
  {| capacity_ := capacity_ w; slot_count_ := slot_count_ w; used_size_ := used_size_ w;
     cache_map_ := f (cache_map_ w); inflight_map_ := inflight_map_ w; slots_ := slots_ w;
     head_ := head_ w; entries := entries w; next_entry := next_entry w;
     waiter_heap := waiter_heap w; next_waiter := next_waiter w; queues := queues w |}.
Definition set_inflight_map (f : gmap string Inflight -> gmap string Inflight) (w : world) : world :=
  {| capacity_ := capacity_ w; slot_count_ := slot_count_ w; used_size_ := used_size_ w;
     cache_map_ := cache_map_ w; inflight_map_ := f (inflight_map_ w); slots_ := slots_ w;
     head_ := head_ w; entries := entries w; next_entry := next_entry w;
     waiter_heap := waiter_heap w; next_waiter := next_waiter w; queues := queues w |}.
Definition set_slots (f : list (option eptr) -> list (option eptr)) (w : world) : world :=
  {| capacity_ := capacity_ w; slot_count_ := slot_count_ w; used_size_ := used_size_ w;
     cache_map_ := cache_map_ w; inflight_map_ := inflight_map_ w; slots_ := f (slots_ w);
     head_ := head_ w; entries := entries w; next_entry := next_entry w;
     waiter_heap := waiter_heap w; next_waiter := next_waiter w; queues := queues w |}.
Definition set_head (f : Z -> Z) (w : world) : world :=
  {| capacity_ := capacity_ w; slot_count_ := slot_count_ w; used_size_ := used_size_ w;
     cache_map_ := cache_map_ w; inflight_map_ := inflight_map_ w; slots_ := slots_ w;
     head_ := f (head_ w); entries := entries w; next_entry := next_entry w;
     waiter_heap := waiter_heap w; next_waiter := next_waiter w; queues := queues w |}.
Definition set_entries (f : gmap eptr Entry -> gmap eptr Entry) (w : world) : world :=
  {| capacity_ := capacity_ w; slot_count_ := slot_count_ w; used_size_ := used_size_ w;
     cache_map_ := cache_map_ w; inflight_map_ := inflight_map_ w; slots_ := slots_ w;
     head_ := head_ w; entries := f (entries w); next_entry := next_entry w;
     waiter_heap := waiter_heap w; next_waiter := next_waiter w; queues := queues w |}.
Definition set_next_entry (f : eptr -> eptr) (w : world) : world :=
  {| capacity_ := capacity_ w; slot_count_ := slot_count_ w; used_size_ := used_size_ w;
     cache_map_ := cache_map_ w; inflight_map_ := inflight_map_ w; slots_ := slots_ w;
     head_ := head_ w; entries := entries w; next_entry := f (next_entry w);
     waiter_heap := waiter_heap w; next_waiter := next_waiter w; queues := queues w |}.
Definition set_waiter_heap (f : gmap wptr Waiter -> gmap wptr Waiter) (w : world) : world :=
  {| capacity_ := capacity_ w; slot_count_ := slot_count_ w; used_size_ := used_size_ w;
     cache_map_ := cache_map_ w; inflight_map_ := inflight_map_ w; slots_ := slots_ w;
     head_ := head_ w; entries := entries w; next_entry := next_entry w;
     waiter_heap := f (waiter_heap w); next_waiter := next_waiter w; queues := queues w |}.
Definition set_next_waiter (f : wptr -> wptr) (w : world) : world :=
  {| capacity_ := capacity_ w; slot_count_ := slot_count_ w; used_size_ := used_size_ w;
     cache_map_ := cache_map_ w; inflight_map_ := inflight_map_ w; slots_ := slots_ w;
     head_ := head_ w; entries := entries w; next_entry := next_entry w;
     waiter_heap := waiter_heap w; next_waiter := f (next_waiter w); queues := queues w |}.
Definition set_queues
    (f : gmap dispatcher (list Task) -> gmap dispatcher (list Task)) (w : world) : world :=
  {| capacity_ := capacity_ w; slot_count_ := slot_count_ w; used_size_ := used_size_ w;
     cache_map_ := cache_map_ w; inflight_map_ := inflight_map_ w; slots_ := slots_ w;
     head_ := head_ w; entries := entries w; next_entry := next_entry w;
     waiter_heap := waiter_heap w; next_waiter := next_waiter w; queues := f (queues w) |}.

(** The constructor [RingBufferCache(capacity, slot_count)], in an otherwise
    empty world. *)
Definition RingBufferCache (capacity slot_count : Z) : world :=
  {| capacity_ := capacity; slot_count_ := slot_count; used_size_ := 0;
     cache_map_ := ∅; inflight_map_ := ∅;
     slots_ := replicate (Z.to_nat slot_count) None; head_ := 0;
     entries := ∅; next_entry := O; waiter_heap := ∅; next_waiter := O; queues := ∅ |}.

(** ** Dereferences *)

(** [*p] for a pointer to an [Entry] *)
Definition deref_entry (p : eptr) : M world Entry :=
  fun w => or_fault DanglingPointer (entries w !! p) w.

(** [slots_[head_]] *)
Definition head_slot : M world (option eptr) :=
  fun w => or_fault IndexOutOfRange (slots_ w !! Z.to_nat (head_ w)) w.

(** [head_ = (head_ + 1) % slot_count_] *)
Definition advance_head : M world unit :=
  fun w => if slot_count_ w =? 0 then Faulted ModuloByZero
           else Done (tt, set_head (fun h => u64 (h + 1) mod slot_count_ w) w).

(** [capacity_ - used_size_] *)
Definition room (w : world) : Z := u64 (capacity_ w - used_size_ w).

(** [dispatcher.post(task)] appends to the queue of that dispatcher. *)
Definition post (d : dispatcher) (t : Task) : M world unit :=
  modify (set_queues (fun q => <[d := default [] (q !! d) ++ [t]]> q)).

Lemma str_size_pos s : s <> "" -> 0 < str_size s.
Proof. unfold str_size. destruct s; simpl; [done|lia]. Qed.

Lemma deref_entry_eq p e w :
  entries w !! p = Some e -> deref_entry p w = Done (e, w).
Proof. unfold deref_entry. by intros ->. Qed.

Lemma head_slot_eq s w :
  slots_ w !! Z.to_nat (head_ w) = Some s -> head_slot w = Done (s, w).
Proof. unfold head_slot. by intros ->. Qed.
End Types.

#[export] Hint Resolve deref_entry_eq head_slot_eq : cpp.

Arguments Entry H : clear implicits.
Arguments Inflight H : clear implicits.
Arguments Task H : clear implicits.
Arguments world H : clear implicits.
