(* ===== verification/Ring.v ===== *)
(** The slot ring of the cache (src/ring-cache/cache.cc): eviction, the search
    for room, and insertion. *)
From S2P Require Import Prelude CacheTypes.

Local Open Scope Z_scope.
Local Open Scope cpp_scope.

Section Ring.
Context {H : Type} `{HeaderMapApi H}.
Implicit Types w : world H.

(** ** Operations *)

(** [slots_[head_].reset()]: runs [Entry::~Entry], frees the entry, empties
    the slot. *)
Definition reset_head_slot (p : eptr) : M (world H) unit :=
  let* entry := deref_entry p in
  assert_ (pins_ entry =? 0);;;
  modify (set_entries (delete p));;;
  modify (fun w => set_slots (fun s => <[Z.to_nat (head_ w) := None]> s) w).

Definition evictHeadLocked : M (world H) unit :=
  let* slot := head_slot in
  assert_ (bool_decide (is_Some slot));;;
  let* p := or_fault NullDereference slot in
  let* entry := deref_entry p in
  let* size := or_fault NullDereference (Entry_size entry) in
  modify (set_used_size (fun u => u64 (u - size)));;;
  modify (set_cache_map (delete (key_ entry)));;;
  reset_head_slot p.

(** The body of the first loop up to the advance: evicts the entry in the
    head slot when there is one and nobody has it pinned. *)
Definition try_evict_head : M (world H) unit :=
  let* slot := head_slot in
  match slot with
  | None => ret tt
  | Some p =>
      let* entry := deref_entry p in
      when (pins_ entry =? 0) evictHeadLocked
  end.

(** [while (capacity_ - used_size_ < size_needed)] *)
Fixpoint capacity_loop (fuel : nat) (start size_needed : Z) : M (world H) bool :=
  match fuel with
  | O => fail OutOfFuel
  | S fuel =>
      let* r := gets room in
      if r <? size_needed then
        try_evict_head;;;
        advance_head;;;
        let* head := gets head_ in
        let* r := gets room in
        if (start =? head) && (r <? size_needed) then ret false
        else capacity_loop fuel start size_needed
      else ret true
  end.

(** [while (slots_[head_])] *)
Fixpoint slot_loop (fuel : nat) (start_slot : Z) : M (world H) bool :=
  match fuel with
  | O => fail OutOfFuel
  | S fuel =>
      let* slot := head_slot in
      match slot with
      | None => ret true
      | Some _ =>
          advance_head;;;
          let* head := gets head_ in
          if head =? start_slot then ret false else slot_loop fuel start_slot
      end
  end.

(** The loops get one more turn than there are slots. *)
Definition evictTillCapacityLocked (size_needed : Z) : M (world H) bool :=
  let* capacity := gets capacity_ in
  if size_needed >? capacity then ret false
  else
    let* n := gets slot_count_ in
    let* start := gets head_ in
    let* enough := capacity_loop (S (Z.to_nat n)) start size_needed in
    if enough then
      let* start_slot := gets head_ in
      let* found := slot_loop (S (Z.to_nat n)) start_slot in
      if found then
        let* slot := head_slot in
        assert_ (bool_decide (slot = None));;;
        ret true
      else ret false
    else ret false.

(** [std::make_unique<Entry>()] *)
Definition new_entry (e : Entry H) : M (world H) eptr :=
  let* p := gets next_entry in
  modify (set_entries (fun m => <[p := e]> m));;;
  modify (set_next_entry S);;;
  ret p.

Definition insertEntryLocked (key : string) (headers : option H) (body : string)
    : M (world H) unit :=
  let* slot := head_slot in
  assert_ (bool_decide (slot = None));;;
  let e := {| key_ := key; headers_ := headers; body_ := body; pins_ := 0 |} in
  let* p := new_entry e in
  modify (fun w => set_slots (fun s => <[Z.to_nat (head_ w) := Some p]> s) w);;;
  modify (set_cache_map (fun m => <[key := p]> m));;;
  advance_head;;;
  let* size := or_fault NullDereference (Entry_size e) in
  modify (set_used_size (fun u => u64 (u + size))).

(** ** The invariant of the ring *)

(** The size of what a slot holds. *)
Definition slot_size (es : gmap eptr (Entry H)) (s : option eptr) : Z :=
  match s with
  | Some p => match es !! p ≫= Entry_size with Some z => z | None => 0 end
  | None => 0
  end.

(** A slot whose entry may not be evicted. *)
Definition pinned (es : gmap eptr (Entry H)) (s : option eptr) : bool :=
  match s with
  | Some p => match es !! p with Some e => negb (pins_ e =? 0) | None => false end
  | None => false
  end.

Definition slots_size (w : world H) : Z := sumZ (slot_size (entries w)) (slots_ w).

Record ring_ok (w : world H) : Prop := {
  ro_count : 0 < slot_count_ w < 2 ^ 64;
  ro_length : Z.of_nat (length (slots_ w)) = slot_count_ w;
  ro_head : 0 <= head_ w < slot_count_ w;
  ro_slot i p : slots_ w !! i = Some (Some p) ->
    exists e z, entries w !! p = Some e /\ Entry_size e = Some z /\
                cache_map_ w !! key_ e = Some p;
  ro_map k p : cache_map_ w !! k = Some p ->
    exists i e, slots_ w !! i = Some (Some p) /\ entries w !! p = Some e /\ key_ e = k;
  ro_inj i j p : slots_ w !! i = Some (Some p) -> slots_ w !! j = Some (Some p) -> i = j;
  ro_heap p e : entries w !! p = Some e ->
    (p < next_entry w)%nat /\ exists i, slots_ w !! i = Some (Some p);
  ro_used : used_size_ w = slots_size w;
  ro_capacity : used_size_ w <= capacity_ w < 2 ^ 64
}.

(** ** What one turn of the eviction scan does, without faults or loops *)

(** Drops entry [e], at [p], from slot [i]. *)
Definition drop_entry (i : nat) (p : eptr) (e : Entry H) (z : Z) (w : world H) : world H :=
  set_slots (fun s => <[i := None]> s)
    (set_entries (delete p)
      (set_cache_map (delete (key_ e))
        (set_used_size (fun u => u - z) w))).

Definition evict_head (w : world H) : world H :=
  match slots_ w !! Z.to_nat (head_ w) with
  | Some (Some p) =>
      match entries w !! p with
      | Some e =>
          match Entry_size e with
          | Some z => if pins_ e =? 0 then drop_entry (Z.to_nat (head_ w)) p e z w else w
          | None => w
          end
      | None => w
      end
  | _ => w
  end.

Definition next_head (w : world H) : world H :=
  set_head (fun h => (h + 1) mod slot_count_ w) w.

(** [k] turns: [k] slots from the head on, round the ring. *)
Fixpoint sweep (k : nat) (w : world H) : world H :=
  match k with
  | O => w
  | S k => sweep k (next_head (evict_head w))
  end.

(** *** Basic facts of the invariant *)

Lemma Entry_size_range (e : Entry H) z : Entry_size e = Some z -> 0 <= z < 2 ^ 64.
Proof. unfold Entry_size. destruct (headers_ e); intros ?; simplify_eq. apply u64_range. Qed.

Lemma slot_size_nonneg es s : 0 <= slot_size es s.
Proof.
  unfold slot_size. destruct s as [p|]; [|lia].
  destruct (es !! p ≫= Entry_size) as [z|] eqn:E; [|lia].
  apply bind_Some in E as (e & _ & E%Entry_size_range). lia.
Qed.

Lemma slot_size_delete es p s :
  s <> Some p -> slot_size (delete p es) s = slot_size es s.
Proof. intros Hs. destruct s as [q|]; simpl; [|done]. rewrite lookup_delete_ne; congruence. Qed.

Lemma slot_size_insert es p e s :
  s <> Some p -> slot_size (<[p := e]> es) s = slot_size es s.
Proof. intros Hs. destruct s as [q|]; simpl; [|done]. rewrite lookup_insert_ne; congruence. Qed.

Lemma slots_size_nonneg w : 0 <= slots_size w.
Proof. apply sumZ_nonneg, slot_size_nonneg. Qed.

Lemma ring_used_range w : ring_ok w -> 0 <= used_size_ w <= capacity_ w /\ capacity_ w < 2 ^ 64.
Proof.
  intros Hw. pose proof (ro_used _ Hw). pose proof (ro_capacity _ Hw).
  pose proof (slots_size_nonneg w). lia.
Qed.

Lemma ring_room w : ring_ok w -> room w = capacity_ w - used_size_ w.
Proof. intros Hw. pose proof (ring_used_range _ Hw). apply u64_small. lia. Qed.

Lemma ring_head_lookup w : ring_ok w -> is_Some (slots_ w !! Z.to_nat (head_ w)).
Proof.
  intros Hw. apply lookup_lt_is_Some. pose proof (ro_head _ Hw). pose proof (ro_length _ Hw). lia.
Qed.

Lemma ring_slot_size w i p e z :
  ring_ok w -> slots_ w !! i = Some (Some p) -> entries w !! p = Some e ->
  Entry_size e = Some z -> slot_size (entries w) (Some p) = z /\ 0 <= z <= used_size_ w.
Proof.
  intros Hw Hi He Hz. assert (Hs : slot_size (entries w) (Some p) = z) by (by simpl; rewrite He; simpl; rewrite Hz).
  split; [done|]. split; [apply Entry_size_range in Hz; lia|].
  rewrite (ro_used _ Hw), <- Hs. eapply (sumZ_elem (slot_size (entries w))); eauto using slot_size_nonneg.
Qed.

Lemma insert_None_lookup (l : list (option eptr)) i j p :
  <[i := None]> l !! j = Some (Some p) -> i <> j /\ l !! j = Some (Some p).
Proof.
  intros Hj. destruct (decide (i = j)) as [->|Hne].
  - apply list_lookup_insert_Some in Hj as [(? & ? & ?)|[? ?]]; congruence.
  - by rewrite list_lookup_insert_ne in Hj.
Qed.

(** *** The scan keeps the invariant *)

Lemma drop_entry_ok w i p e z :
  ring_ok w -> slots_ w !! i = Some (Some p) -> entries w !! p = Some e ->
  Entry_size e = Some z -> ring_ok (drop_entry i p e z w).
Proof.
  intros Hw Hi He Hz. destruct (ring_slot_size _ _ _ _ _ Hw Hi He Hz) as [Hsz Hle].
  assert (Hother : forall j q, <[i := None]> (slots_ w) !! j = Some (Some q) ->
            slots_ w !! j = Some (Some q) /\ q <> p).
  { intros j q [Hij Hj]%insert_None_lookup. split; [done|]. intros ->.
    eauto using ro_inj. }
  split; simpl.
  - apply Hw.
  - rewrite length_insert. apply Hw.
  - apply Hw.
  - intros j q [Hj Hq]%Hother. destruct (ro_slot _ Hw _ _ Hj) as (e' & z' & He' & Hz' & Hk).
    exists e', z'. rewrite lookup_delete_ne by done. split_and!; [done..|].
    rewrite lookup_delete_ne; [done|]. intros Hkey.
    destruct (ro_slot _ Hw _ _ Hi) as (? & ? & ? & _ & Hk'). simplify_eq. congruence.
  - intros k q [Hk Hq]%lookup_delete_Some.
    destruct (ro_map _ Hw _ _ Hq) as (j & e' & Hj & He' & <-).
    assert (q <> p) by congruence. exists j, e'. rewrite lookup_delete_ne by done.
    split_and!; [|done..]. rewrite list_lookup_insert_ne; [done|]. congruence.
  - intros j1 j2 q [H1 _]%Hother [H2 _]%Hother. eauto using ro_inj.
  - intros q e' [Hq He']%lookup_delete_Some. destruct (ro_heap _ Hw _ _ He') as (? & j & Hj).
    split; [done|]. exists j. rewrite list_lookup_insert_ne; [done|]. congruence.
  - unfold slots_size. simpl.
    rewrite (sumZ_ext _ (slot_size (entries w))).
    + rewrite (sumZ_insert _ _ _ _ _ Hi), Hsz, (ro_used _ Hw). unfold slots_size. simpl. lia.
    + intros s [j Hj]%list_elem_of_lookup. apply slot_size_delete. intros ->.
      by destruct (Hother _ _ Hj).
  - pose proof (ring_used_range _ Hw). lia.
Qed.

Lemma evict_head_ok w : ring_ok w -> ring_ok (evict_head w).
Proof.
  intros Hw. unfold evict_head. repeat case_match; try done. by apply drop_entry_ok.
Qed.

Lemma next_head_ok w : ring_ok w -> ring_ok (next_head w).
Proof.
  intros Hw. destruct Hw as []. split; simpl; try done. apply Z.mod_pos_bound. lia.
Qed.

Lemma sweep_ok k w : ring_ok w -> ring_ok (sweep k w).
Proof.
  revert w. induction k as [|k IH]; intros w Hw; simpl; [done|].
  by apply IH, next_head_ok, evict_head_ok.
Qed.

Lemma sweep_S k w : sweep (S k) w = next_head (evict_head (sweep k w)).
Proof. revert w. induction k as [|k IH]; intros w; [done|]. simpl in *. by rewrite IH. Qed.

(** *** The code of the scan is that function *)

Lemma evictHeadLocked_eq w p e z :
  ring_ok w -> slots_ w !! Z.to_nat (head_ w) = Some (Some p) -> entries w !! p = Some e ->
  Entry_size e = Some z -> pins_ e = 0 ->
  evictHeadLocked w = Done (tt, drop_entry (Z.to_nat (head_ w)) p e z w).
Proof.
  intros Hw Hs He Hz Hp. destruct (ring_slot_size _ _ _ _ _ Hw Hs He Hz) as [_ Hle].
  pose proof (ring_used_range _ Hw).
  unfold evictHeadLocked. mrun. unfold reset_head_slot. mrun.
  rewrite Hp. mrun. unfold modify, drop_entry. simpl. unfold set_used_size at 1.
  rewrite u64_small by lia. done.
Qed.

Lemma try_evict_head_eq w : ring_ok w -> try_evict_head w = Done (tt, evict_head w).
Proof.
  intros Hw. unfold try_evict_head, evict_head.
  destruct (ring_head_lookup _ Hw) as [[p|] Hs]; rewrite Hs; mrun; [|done].
  destruct (ro_slot _ Hw _ _ Hs) as (e & z & He & Hz & _). rewrite He, Hz. mrun.
  destruct (Z.eqb_spec (pins_ e) 0); [|done]. by apply evictHeadLocked_eq.
Qed.

Lemma advance_head_eq w : ring_ok w -> advance_head w = Done (tt, next_head w).
Proof.
  intros Hw. unfold advance_head, next_head. pose proof (ro_count _ Hw). pose proof (ro_head _ Hw).
  destruct (Z.eqb_spec (slot_count_ w) 0); [lia|]. do 2 f_equal.
  unfold set_head. f_equal. rewrite u64_small by lia. done.
Qed.

(** *** The loops *)

Lemma sweep_const k w :
  slot_count_ (sweep k w) = slot_count_ w /\ capacity_ (sweep k w) = capacity_ w /\
  inflight_map_ (sweep k w) = inflight_map_ w /\ next_entry (sweep k w) = next_entry w /\
  waiter_heap (sweep k w) = waiter_heap w /\ next_waiter (sweep k w) = next_waiter w /\
  queues (sweep k w) = queues w.
Proof.
  induction k as [|k IH]; [done|]. rewrite sweep_S. unfold next_head, evict_head.
  simpl. repeat case_match; simpl; exact IH.
Qed.

Lemma evict_head_head w : head_ (evict_head w) = head_ w.
Proof. unfold evict_head. by repeat case_match. Qed.

Lemma evict_head_count w : slot_count_ (evict_head w) = slot_count_ w.
Proof. unfold evict_head. by repeat case_match. Qed.

Lemma sweep_head k w :
  ring_ok w -> head_ (sweep k w) = (head_ w + Z.of_nat k) mod slot_count_ w.
Proof.
  intros Hw. induction k as [|k IH].
  - simpl. rewrite Z.add_0_r, Z.mod_small; [done|]. apply Hw.
  - rewrite sweep_S. simpl. rewrite evict_head_head, evict_head_count, IH.
    destruct (sweep_const k w) as [-> _]. rewrite Zplus_mod_idemp_l. f_equal. lia.
Qed.

Local Hint Resolve try_evict_head_eq advance_head_eq evict_head_ok sweep_ok : cpp.

Lemma capacity_loop_spec w need fuel k :
  ring_ok w -> Z.of_nat k <= slot_count_ w < Z.of_nat k + Z.of_nat fuel ->
  (forall j, (j < k)%nat -> room (sweep j w) < need) ->
  (Z.of_nat k = slot_count_ w -> need <= room (sweep k w)) ->
  exists k' (b : bool),
    capacity_loop fuel (head_ w) need (sweep k w) = Done (b, sweep k' w) /\
    Z.of_nat k' <= slot_count_ w /\ (forall j, (j < k')%nat -> room (sweep j w) < need) /\
    if b then need <= room (sweep k' w)
    else Z.of_nat k' = slot_count_ w /\ room (sweep k' w) < need.
Proof.
  intros Hw. revert k. induction fuel as [|fuel IH]; intros k Hk Hj Hn; [lia|].
  simpl. mrun. destruct (Z.ltb_spec (room (sweep k w)) need) as [Hlt|Hge].
  - mrun. rewrite <- sweep_S. mrun.
    assert (Hjk : forall j, (j < S k)%nat -> room (sweep j w) < need).
    { intros j ?. destruct (decide (j = k)) as [->|]; [done|]. apply Hj. lia. }
    pose proof (ro_head _ Hw) as Hh. rewrite sweep_head by done.
    destruct (decide (Z.of_nat (S k) = slot_count_ w)) as [Heq|Hne].
    + rewrite Heq, ring_step_full by lia. rewrite Z.eqb_refl. cbn [andb].
      destruct (Z.ltb_spec (room (sweep (S k) w)) need).
      * exists (S k), false. split_and!; [done|lia|done..].
      * apply IH; [lia|done|done].
    + assert (Hs : Z.of_nat (S k) < slot_count_ w).
      { destruct (decide (Z.of_nat k = slot_count_ w)) as [Hk'|]; [specialize (Hn Hk')|]; lia. }
      pose proof (ring_step_ne (slot_count_ w) (head_ w) (Z.of_nat (S k)) Hh ltac:(lia)).
      destruct (Z.eqb_spec (head_ w) ((head_ w + Z.of_nat (S k)) mod slot_count_ w)); [congruence|].
      apply IH; [lia|done|lia].
  - exists k, true. split_and!; [done|lia|done|done].
Qed.

(** The world with the head elsewhere. *)
Definition at_head (h : Z) (w : world H) : world H := set_head (fun _ => h) w.

Lemma at_head_same w : at_head (head_ w) w = w.
Proof. by destruct w. Qed.

Lemma at_head_ok h w : ring_ok w -> 0 <= h < slot_count_ w -> ring_ok (at_head h w).
Proof. intros [] ?. by split. Qed.

(** [h] is the first free slot from position [s] on, round the ring. *)
Definition first_free (s h : Z) (w : world H) : Prop :=
  exists k, 0 <= k < slot_count_ w /\ h = (s + k) mod slot_count_ w /\
    slots_ w !! Z.to_nat h = Some None /\
    forall j, 0 <= j < k -> exists p, slots_ w !! Z.to_nat ((s + j) mod slot_count_ w) = Some (Some p).

Definition all_occupied (w : world H) : Prop :=
  forall i, (i < length (slots_ w))%nat -> exists p, slots_ w !! i = Some (Some p).

Lemma slot_loop_spec w fuel k :
  ring_ok w -> 0 <= k < slot_count_ w -> slot_count_ w < k + Z.of_nat fuel ->
  (forall j, 0 <= j < k -> exists p, slots_ w !! Z.to_nat ((head_ w + j) mod slot_count_ w) = Some (Some p)) ->
  (exists h, slot_loop fuel (head_ w) (at_head ((head_ w + k) mod slot_count_ w) w)
             = Done (true, at_head h w) /\ first_free (head_ w) h w) \/
  (slot_loop fuel (head_ w) (at_head ((head_ w + k) mod slot_count_ w) w) = Done (false, w) /\
   forall j, 0 <= j < slot_count_ w ->
     exists p, slots_ w !! Z.to_nat ((head_ w + j) mod slot_count_ w) = Some (Some p)).
Proof.
  intros Hw. pose proof (ro_count _ Hw) as Hn. pose proof (ro_head _ Hw) as Hh.
  revert k. induction fuel as [|fuel IH]; intros k Hk Hf Hj; [lia|]. simpl.
  set (h := (head_ w + k) mod slot_count_ w).
  assert (Hhr : 0 <= h < slot_count_ w) by (apply Z.mod_pos_bound; lia).
  pose proof (at_head_ok h w Hw Hhr) as Hok.
  destruct (ring_head_lookup _ Hok) as [[p|] Hs]; mrun.
  2: { left. exists h. split; [done|]. by exists k. }
  assert (Hj' : forall j, 0 <= j < k + 1 ->
    exists p, slots_ w !! Z.to_nat ((head_ w + j) mod slot_count_ w) = Some (Some p)).
  { intros j ?. destruct (decide (j = k)) as [->|]; [by exists p|]. apply Hj. lia. }
  assert (Hnext : next_head (at_head h w) = at_head ((head_ w + (k + 1)) mod slot_count_ w) w).
  { unfold next_head, at_head, set_head; simpl. f_equal. unfold h.
    rewrite Zplus_mod_idemp_l. f_equal. lia. }
  rewrite Hnext. simpl.
  destruct (decide (k + 1 = slot_count_ w)) as [He|Hne].
  - right. rewrite He in *. split; [|done].
    rewrite ring_step_full, Z.eqb_refl, at_head_same by lia. done.
  - pose proof (ring_step_ne (slot_count_ w) (head_ w) (k + 1) Hh ltac:(lia)).
    destruct (Z.eqb_spec ((head_ w + (k + 1)) mod slot_count_ w) (head_ w)); [done|].
    apply IH; [lia|lia|done].
Qed.

(** *** Which entries a scan evicts *)

(** How many steps the head has to make to reach slot [i]. *)
Definition ring_dist (w : world H) (i : nat) : Z := (Z.of_nat i - head_ w) mod slot_count_ w.

Lemma evict_head_submap w :
  entries (evict_head w) ⊆ entries w /\ cache_map_ (evict_head w) ⊆ cache_map_ w.
Proof.
  unfold evict_head. repeat case_match; simpl; split; first [reflexivity|apply delete_subseteq].
Qed.

Lemma sweep_submap k w :
  entries (sweep k w) ⊆ entries w /\ cache_map_ (sweep k w) ⊆ cache_map_ w.
Proof.
  induction k as [|k [IH1 IH2]]; [done|]. rewrite sweep_S. simpl.
  destruct (evict_head_submap (sweep k w)). split; etrans; eauto.
Qed.

Lemma evict_head_slot w i s :
  ring_ok w -> slots_ w !! i = Some s ->
  slots_ (evict_head w) !! i =
    Some (if (Z.of_nat i =? head_ w) && negb (pinned (entries w) s) then None else s).
Proof.
  intros Hw Hi. pose proof (ro_head _ Hw). unfold evict_head.
  destruct (Z.eqb_spec (Z.of_nat i) (head_ w)) as [He|Hne]; simpl.
  - rewrite <- He, Nat2Z.id, Hi. destruct s as [p|]; [|done]. simpl.
    destruct (ro_slot _ Hw _ _ Hi) as (e & z & Hp & Hz & _). rewrite Hp, Hz, negb_involutive.
    destruct (pins_ e =? 0); [|done]. simpl. apply list_lookup_insert_eq.
    by apply lookup_lt_Some in Hi.
  - repeat case_match; simpl; try done. rewrite list_lookup_insert_ne; [done|]. lia.
Qed.

Lemma pinned_submap es es' s :
  es' ⊆ es -> (forall p, s = Some p -> is_Some (es' !! p)) -> pinned es' s = pinned es s.
Proof.
  intros Hsub Hs. destruct s as [p|]; [|done]. simpl.
  destruct (Hs p eq_refl) as [e He]. rewrite He. by rewrite (lookup_weaken _ _ _ _ He Hsub).
Qed.

(** [k] turns empty exactly the unpinned slots among the first [k]. *)
Lemma sweep_slot k w i s :
  ring_ok w -> slots_ w !! i = Some s ->
  Z.of_nat k <= slot_count_ w ->
  slots_ (sweep k w) !! i =
    Some (if (ring_dist w i <? Z.of_nat k) && negb (pinned (entries w) s) then None else s).
Proof.
  intros Hw Hi. pose proof (ro_count _ Hw). pose proof (ro_length _ Hw).
  assert (Hin : 0 <= Z.of_nat i < slot_count_ w) by (apply lookup_lt_Some in Hi; lia).
  assert (Hd : 0 <= ring_dist w i < slot_count_ w) by (apply Z.mod_pos_bound; lia).
  induction k as [|k IH]; intros Hk.
  { destruct (Z.ltb_spec (ring_dist w i) (Z.of_nat 0)); [lia|done]. }
  specialize (IH ltac:(lia)). rewrite sweep_S. simpl.
  rewrite (evict_head_slot _ _ _ (sweep_ok _ _ Hw) IH), sweep_head by done. f_equal.
  assert (Hpos : (Z.of_nat i =? (head_ w + Z.of_nat k) mod slot_count_ w) = (ring_dist w i =? Z.of_nat k)).
  { apply Bool.eq_iff_eq_true. rewrite !Z.eqb_eq. unfold ring_dist.
    rewrite ring_distance by lia. split; auto. }
  rewrite Hpos. destruct (Z.ltb_spec (ring_dist w i) (Z.of_nat k)).
  - destruct (Z.eqb_spec (ring_dist w i) (Z.of_nat k)); [lia|]. simpl.
    by destruct (Z.ltb_spec (ring_dist w i) (Z.of_nat (S k))); [|lia].
  - simpl in *. rewrite (pinned_submap (entries w)); [|apply sweep_submap|].
    + destruct (Z.eqb_spec (ring_dist w i) (Z.of_nat k));
        destruct (Z.ltb_spec (ring_dist w i) (Z.of_nat (S k))); (done || lia).
    + intros p ->. destruct (ro_slot _ (sweep_ok k _ Hw) _ _ IH) as (e & z & He & _). eauto.
Qed.

(** What the pinned entries take. *)
Definition pinned_size (w : world H) : Z :=
  sumZ (fun s => if pinned (entries w) s then slot_size (entries w) s else 0) (slots_ w).

Lemma sweep_length k w : length (slots_ (sweep k w)) = length (slots_ w).
Proof.
  induction k as [|k IH]; [done|]. rewrite sweep_S. simpl. rewrite <- IH. unfold evict_head.
  repeat case_match; simpl; rewrite ?length_insert; done.
Qed.

Lemma slot_size_submap es es' s :
  es' ⊆ es -> (forall p, s = Some p -> is_Some (es' !! p)) -> slot_size es' s = slot_size es s.
Proof.
  intros Hsub Hs. destruct s as [p|]; [|done]. simpl.
  destruct (Hs p eq_refl) as [e He]. rewrite He. by rewrite (lookup_weaken _ _ _ _ He Hsub).
Qed.

(** A full turn leaves the pinned entries and nothing else. *)
Lemma sweep_full_used w :
  ring_ok w -> used_size_ (sweep (Z.to_nat (slot_count_ w)) w) = pinned_size w.
Proof.
  intros Hw. pose proof (ro_count _ Hw). set (k := Z.to_nat (slot_count_ w)).
  rewrite (ro_used _ (sweep_ok k _ Hw)). apply sumZ_pointwise; [apply sweep_length|].
  intros i x s Hx Hi. pose proof (sweep_slot k w i s Hw Hi ltac:(lia)) as Hs. rewrite Hx in Hs.
  assert (Hd : 0 <= ring_dist w i < slot_count_ w) by (apply Z.mod_pos_bound; lia).
  destruct (Z.ltb_spec (ring_dist w i) (Z.of_nat k)); [|lia]. simpl in Hs.
  destruct (pinned (entries w) s); simplify_eq/=; [|done].
  apply slot_size_submap; [apply sweep_submap|]. intros p ->.
  destruct (ro_slot _ (sweep_ok k _ Hw) _ _ Hx) as (e & z & He & _). eauto.
Qed.

Lemma evict_head_used w : ring_ok w -> used_size_ (evict_head w) <= used_size_ w.
Proof.
  intros Hw. unfold evict_head.
  destruct (ring_head_lookup _ Hw) as [[p|] Hs]; rewrite Hs; [|lia].
  destruct (ro_slot _ Hw _ _ Hs) as (e & z & He & Hz & _). rewrite He, Hz.
  destruct (ring_slot_size _ _ _ _ _ Hw Hs He Hz). case_match; simpl; lia.
Qed.

Lemma sweep_room_mono k w : ring_ok w -> room w <= room (sweep k w).
Proof.
  intros Hw. rewrite !ring_room by auto using sweep_ok.
  destruct (sweep_const k w) as (_ & -> & _).
  enough (used_size_ (sweep k w) <= used_size_ w) by lia.
  induction k as [|k IH]; [apply Z.le_refl|]. rewrite sweep_S. etrans; [|exact IH]. simpl.
  apply evict_head_used, sweep_ok, Hw.
Qed.

(** *** [evictTillCapacityLocked] *)

(** The four ways the search for [need] bytes and a slot can end. *)
Inductive evict_result (need : Z) (w : world H) : bool -> world H -> Prop :=
| evict_too_big :
    capacity_ w < need -> evict_result need w false w
| evict_all_pinned :
    need <= capacity_ w -> capacity_ w - pinned_size w < need ->
    evict_result need w false (sweep (Z.to_nat (slot_count_ w)) w)
| evict_no_slot :
    need <= capacity_ w - used_size_ w -> all_occupied w -> evict_result need w false w
| evict_found k h :
    Z.of_nat k <= slot_count_ w ->
    (forall j, (j < k)%nat -> room (sweep j w) < need) -> need <= room (sweep k w) ->
    first_free (head_ (sweep k w)) h (sweep k w) ->
    evict_result need w true (at_head h (sweep k w)).

Lemma sweep_add a b w : sweep (a + b) w = sweep b (sweep a w).
Proof. revert w. induction a as [|a IH]; intros w; [done|]. apply IH. Qed.

(** No scan makes more room than the pinned entries leave. *)
Lemma sweep_room_max k w :
  ring_ok w -> Z.of_nat k <= slot_count_ w -> room (sweep k w) <= capacity_ w - pinned_size w.
Proof.
  intros Hw Hk. rewrite <- sweep_full_used by done.
  replace (Z.to_nat (slot_count_ w)) with (k + (Z.to_nat (slot_count_ w) - k))%nat by lia.
  rewrite sweep_add. etrans; [apply (sweep_room_mono (Z.to_nat (slot_count_ w) - k)), sweep_ok, Hw|].
  rewrite ring_room by auto using sweep_ok. rewrite <- !sweep_add.
  destruct (sweep_const (k + (Z.to_nat (slot_count_ w) - k)) w) as (_ & -> & _). apply Z.le_refl.
Qed.

Lemma pinned_size_nonneg w : 0 <= pinned_size w.
Proof. apply sumZ_nonneg. intros s. case_match; [apply slot_size_nonneg|done]. Qed.

(** The search succeeds exactly when the pinned entries leave enough room,
    unless room was there at once and every slot is taken. *)
Lemma evict_result_iff need w b w' :
  ring_ok w -> evict_result need w b w' ->
  b = true <-> need <= capacity_ w - pinned_size w /\
               ~ (need <= capacity_ w - used_size_ w /\ all_occupied w).
Proof.
  intros Hw Hres. pose proof (pinned_size_nonneg w). split.
  - intros ->. inversion Hres as [| | |k h Hk Hj Hr (d & Hd & -> & Hs & _)]; subst.
    pose proof (sweep_room_max k w Hw Hk). split; [lia|]. intros [Hfit Hocc].
    destruct k as [|k].
    + cbn [sweep] in Hs. destruct (Hocc _ (lookup_lt_Some _ _ _ Hs)) as [p Hp]. congruence.
    + specialize (Hj O ltac:(lia)). rewrite <- ring_room in Hfit by done. cbn [sweep] in Hj. lia.
  - intros [Hfit Hocc]. destruct Hres; [lia|lia|by destruct Hocc|done].
Qed.

(** The head of a ring whose slots are all taken from the head on. *)
Lemma all_occupied_from_head w :
  ring_ok w ->
  (forall j, 0 <= j < slot_count_ w ->
     exists p, slots_ w !! Z.to_nat ((head_ w + j) mod slot_count_ w) = Some (Some p)) ->
  all_occupied w.
Proof.
  intros Hw Hj i Hi. pose proof (ro_length _ Hw). pose proof (ro_count _ Hw).
  destruct (Hj (ring_dist w i)) as [p Hp]; [apply Z.mod_pos_bound; lia|].
  assert (Hd : 0 <= ring_dist w i < slot_count_ w) by (apply Z.mod_pos_bound; lia).
  destruct (ring_distance (slot_count_ w) (head_ w) (Z.of_nat i) (ring_dist w i)) as [Hr _]; [lia..|].
  rewrite Hr, Nat2Z.id in Hp by done. eauto.
Qed.

(** If the last turn of a scan made room, it emptied a slot. *)
Lemma sweep_no_slot k w need :
  ring_ok w -> (forall j, (j < k)%nat -> room (sweep j w) < need) -> need <= room (sweep k w) ->
  all_occupied (sweep k w) -> k = O.
Proof.
  intros Hw Hj Hr Hocc. destruct k as [|k]; [done|]. exfalso.
  specialize (Hj k ltac:(lia)). rewrite sweep_S in Hr, Hocc.
  pose proof (sweep_ok k _ Hw) as Hk.
  destruct (ring_head_lookup _ Hk) as [s Hs].
  destruct (Hocc (Z.to_nat (head_ (sweep k w)))) as [p Hp].
  { simpl. apply lookup_lt_Some in Hs.
    rewrite <- (sweep_length 1 (sweep k w)) in Hs. exact Hs. }
  simpl in Hp. unfold evict_head, next_head in Hr, Hp. rewrite Hs in Hr, Hp.
  destruct s as [q|]; [|by rewrite Hs in Hp].
  repeat case_match; simpl in *; unfold room in *; simpl in *; try lia.
  rewrite list_lookup_insert_eq in Hp; [done|]. by apply lookup_lt_Some in Hs.
Qed.

Lemma evictTillCapacityLocked_result w need :
  ring_ok w -> 
  exists b w', evictTillCapacityLocked need w = Done (b, w') /\ evict_result need w b w'.
Proof.
  intros Hw. unfold evictTillCapacityLocked. mrun.
  destruct (Z.gtb_spec need (capacity_ w)) as [Hbig|Hfit].
  { exists false, w. split; [done|]. by constructor. }
  mrun. pose proof (ro_count _ Hw).
  destruct (capacity_loop_spec w need (S (Z.to_nat (slot_count_ w))) 0 Hw)
    as (k & b & Hrun & Hk & Hj & Hb); [lia|lia|lia|]. simpl sweep in Hrun. mrun. destruct b; mrun.
  2: { destruct Hb as [Hn Hr]. exists false, (sweep k w). split; [done|].
    replace k with (Z.to_nat (slot_count_ w)) in * by lia. apply evict_all_pinned; [done|].
    rewrite ring_room, sweep_full_used in Hr by auto using sweep_ok.
    by destruct (sweep_const (Z.to_nat (slot_count_ w)) w) as (_ & <- & _). }
  pose proof (sweep_ok k w Hw) as Hok. pose proof (ro_head _ Hok) as Hh.
  destruct (sweep_const k w) as [Hcount _].
  destruct (slot_loop_spec (sweep k w) (S (Z.to_nat (slot_count_ w))) 0 Hok)
    as [(h & Hloop & Hfree)|[Hloop Hfull]]; [lia|lia|lia| |];
    rewrite Z.add_0_r, Z.mod_small, at_head_same in Hloop by done; mrun.
  - destruct Hfree as (d & Hd & -> & Hs & Hocc).
    set (h := (head_ (sweep k w) + d) mod slot_count_ (sweep k w)) in *.
    erewrite bind_Done by (apply head_slot_eq; exact Hs). cbv beta. mrun.
    exists true, (at_head h (sweep k w)). split; [done|]. apply evict_found; try done. by exists d.
  - apply all_occupied_from_head in Hfull; [|done].
    assert (k = O) as -> by eauto using sweep_no_slot.
    exists false, w. split; [done|]. apply evict_no_slot; [|done]. by rewrite <- ring_room.
Qed.

(** What survives a search for room, whichever way it ends. *)
Lemma evict_result_frame need w b w' :
  evict_result need w b w' ->
  slot_count_ w' = slot_count_ w /\ capacity_ w' = capacity_ w /\
  inflight_map_ w' = inflight_map_ w /\ next_entry w' = next_entry w /\
  waiter_heap w' = waiter_heap w /\ next_waiter w' = next_waiter w /\
  queues w' = queues w /\ entries w' ⊆ entries w /\ cache_map_ w' ⊆ cache_map_ w.
Proof.
  intros Hres. destruct Hres as [| | |k h ? ? ? ?]; [done|..].
  2: done.
  - destruct (sweep_const (Z.to_nat (slot_count_ w)) w) as (? & ? & ? & ? & ? & ? & ?).
    by destruct (sweep_submap (Z.to_nat (slot_count_ w)) w).
  - destruct (sweep_const k w) as (? & ? & ? & ? & ? & ? & ?). by destruct (sweep_submap k w).
Qed.

Lemma evict_result_ok need w b w' :
  ring_ok w -> evict_result need w b w' -> ring_ok w'.
Proof.
  intros Hw Hres. destruct Hres as [| | |k h ? ? ? (d & Hd & -> & _)]; [done| |done|].
  - by apply sweep_ok.
  - pose proof (sweep_ok k w Hw) as Hk. pose proof (ro_count _ Hk).
    apply at_head_ok; [done|]. apply Z.mod_pos_bound. lia.
Qed.

(** A pinned entry survives, and stays where it is. *)
Lemma evict_result_pinned need w b w' i p e :
  ring_ok w -> evict_result need w b w' ->
  slots_ w !! i = Some (Some p) -> entries w !! p = Some e -> pins_ e <> 0 ->
  slots_ w' !! i = Some (Some p) /\ entries w' !! p = Some e /\ cache_map_ w' !! key_ e = Some p.
Proof.
  intros Hw Hres Hi He Hp. pose proof (evict_result_ok _ _ _ _ Hw Hres) as Hw'.
  assert (Hsw : forall k, Z.of_nat k <= slot_count_ w -> slots_ (sweep k w) !! i = Some (Some p)).
  { intros k Hk. rewrite (sweep_slot k w i _ Hw Hi Hk). simpl. rewrite He.
    destruct (Z.eqb_spec (pins_ e) 0); [done|]. by rewrite andb_false_r. }
  pose proof (ro_count _ Hw).
  assert (Hs : slots_ w' !! i = Some (Some p)).
  { destruct Hres; simpl; try done; apply Hsw; lia. }
  destruct (evict_result_frame _ _ _ _ Hres) as (_ & _ & _ & _ & _ & _ & _ & Hsub & _).
  destruct (ro_slot _ Hw' _ _ Hs) as (e' & z & He' & _ & Hk).
  pose proof (lookup_weaken _ _ _ _ He' Hsub). by simplify_eq.
Qed.

(** *** [insertEntryLocked] *)

Definition insert_entry (e : Entry H) (z : Z) (w : world H) : world H :=
  set_used_size (fun u => u + z)
    (set_head (fun h => (h + 1) mod slot_count_ w)
      (set_cache_map (fun m => <[key_ e := next_entry w]> m)
        (set_slots (fun s => <[Z.to_nat (head_ w) := Some (next_entry w)]> s)
          (set_next_entry S (set_entries (fun m => <[next_entry w := e]> m) w))))).

Definition fresh_entry (key : string) (h : H) (body : string) : Entry H :=
  {| key_ := key; headers_ := Some h; body_ := body; pins_ := 0 |}.

Lemma insertEntryLocked_eq w key h body z :
  ring_ok w -> slots_ w !! Z.to_nat (head_ w) = Some None ->
  Entry_size (fresh_entry key h body) = Some z -> z <= room w ->
  insertEntryLocked key (Some h) body w
  = Done (tt, insert_entry (fresh_entry key h body) z w).
Proof.
  intros Hw Hs Hz Hr. rewrite ring_room in Hr by done.
  pose proof (ring_used_range _ Hw). pose proof (Entry_size_range _ _ Hz).
  pose proof (ro_count _ Hw). pose proof (ro_head _ Hw).
  unfold insertEntryLocked. mrun. unfold new_entry. mrun.
  unfold advance_head. erewrite bind_Done.
  2: { cbv beta. simpl. destruct (Z.eqb_spec (slot_count_ w) 0); [lia|]. reflexivity. }
  mrun. unfold modify, insert_entry, set_used_size, set_head. simpl.
  rewrite (u64_small (used_size_ w + z)), (u64_small (head_ w + 1)) by lia. done.
Qed.

Lemma ring_next_fresh w : ring_ok w -> entries w !! next_entry w = None.
Proof.
  intros Hw. destruct (entries w !! next_entry w) as [e|] eqn:He; [|done].
  destruct (ro_heap _ Hw _ _ He). lia.
Qed.

Lemma insert_entry_ok w e z :
  ring_ok w -> slots_ w !! Z.to_nat (head_ w) = Some None -> cache_map_ w !! key_ e = None ->
  Entry_size e = Some z -> z <= room w -> ring_ok (insert_entry e z w).
Proof.
  intros Hw Hs Hkey Hz Hr. rewrite ring_room in Hr by done.
  pose proof (ring_used_range _ Hw). pose proof (Entry_size_range _ _ Hz).
  pose proof (ring_next_fresh _ Hw) as Hfresh.
  assert (Hlen : ((Z.to_nat (head_ w)) < length (slots_ w))%nat) by (by apply lookup_lt_Some in Hs).
  assert (Hold : forall i p, slots_ w !! i = Some (Some p) -> i <> (Z.to_nat (head_ w)) /\ p <> (next_entry w)).
  { intros i p Hi. split; [congruence|]. intros ->.
    destruct (ro_slot _ Hw _ _ Hi) as (? & ? & ? & _). congruence. }
  assert (Hslot : forall i p, <[(Z.to_nat (head_ w)) := Some (next_entry w)]> (slots_ w) !! i = Some (Some p) ->
    (i = (Z.to_nat (head_ w)) /\ p = (next_entry w)) \/ (i <> (Z.to_nat (head_ w)) /\ p <> (next_entry w) /\ slots_ w !! i = Some (Some p))).
  { intros i p [(? & ? & ?)|[? Hi]]%list_lookup_insert_Some; [left|right]; simplify_eq; [done|].
    by destruct (Hold _ _ Hi). }
  split; simpl.
  - apply Hw.
  - rewrite length_insert. apply Hw.
  - apply Z.mod_pos_bound. apply Hw.
  - intros i p [[-> ->]|(? & ? & Hi)]%Hslot.
    + exists e, z. by rewrite !lookup_insert_eq.
    + destruct (ro_slot _ Hw _ _ Hi) as (e' & z' & ? & ? & ?). exists e', z'.
      rewrite !lookup_insert_ne by congruence. done.
  - intros k p [[<- <-]|[Hk Hp]]%lookup_insert_Some.
    + exists (Z.to_nat (head_ w)), e. by rewrite list_lookup_insert_eq, lookup_insert_eq.
    + destruct (ro_map _ Hw _ _ Hp) as (i & e' & Hi & ? & ?). destruct (Hold _ _ Hi).
      exists i, e'. by rewrite list_lookup_insert_ne, lookup_insert_ne by congruence.
  - intros i j p [[-> ->]|(? & ? & Hi)]%Hslot [[-> ?]|(? & ? & Hj)]%Hslot; try done.
    eauto using ro_inj.
  - intros p e' [[<- <-]|[? He']]%lookup_insert_Some.
    + split; [lia|]. exists (Z.to_nat (head_ w)). by apply list_lookup_insert_eq.
    + destruct (ro_heap _ Hw _ _ He') as (? & i & Hi). destruct (Hold _ _ Hi).
      split; [lia|]. exists i. by rewrite list_lookup_insert_ne.
  - unfold slots_size. simpl. rewrite (sumZ_insert _ _ _ _ _ Hs). simpl.
    rewrite lookup_insert_eq. simpl. rewrite Hz, (ro_used _ Hw). unfold slots_size.
    rewrite (sumZ_ext (slot_size (<[(next_entry w):=e]> (entries w))) (slot_size (entries w))); [lia|].
    intros s [i Hi]%list_elem_of_lookup. apply slot_size_insert. intros ->. by destruct (Hold _ _ Hi).
  - lia.
Qed.

(** The constructor establishes the invariant, for the configurations the
    validation rules of cache.proto let through. *)
Lemma RingBufferCache_ring_ok capacity slot_count :
  0 < capacity < 2 ^ 64 -> 0 < slot_count < 2 ^ 64 ->
  ring_ok (RingBufferCache (H := H) capacity slot_count).
Proof.
  intros Hc Hn. split; simpl; rewrite ?length_replicate; try lia.
  - by intros i p [? ?]%lookup_replicate.
  - intros; simplify_map_eq.
  - by intros i j p [? ?]%lookup_replicate.
  - intros; simplify_map_eq.
  - unfold slots_size. simpl. rewrite sumZ_replicate. simpl. lia.
Qed.
End Ring.

#[export] Hint Resolve try_evict_head_eq advance_head_eq evict_head_ok sweep_ok : cpp.
