(* ===== verification/Cache.v ===== *)
(** The methods of [RingBufferCache] (src/ring-cache/cache.cc): lookup,
    publishing by a leader, removal of waiters, and the closures they post to
    the dispatchers.  A method that takes the mutex and goes on after releasing
    it is the composition of its locked part and its unlocked part, so that
    CacheSystem.v can interleave other threads between them. *)
From S2P Require Import Prelude CacheTypes Ring.

Local Open Scope Z_scope.
Local Open Scope cpp_scope.

Definition RingCacheDetailsMessageHit : string := "ring_cache.hit".
Definition RingCacheDetailsMessageCoalesced : string := "ring_cache.coalesced".
Definition RingCacheDetailsMessageCoalescedBackfill : string := "ring_cache.coalesced_backfill".

(** What the code tells a stream through its callbacks. *)
Inductive Encode (H : Type) :=
| EncodeHeaders (h : H) (end_stream : bool) (details : string)
| EncodeData (data : string) (end_stream : bool).
Arguments EncodeHeaders {H} h end_stream details.
Arguments EncodeData {H} data end_stream.

(** A [BufferFragmentImpl] over the body of an entry: the bytes stay in the
    entry, and the release callback takes the pin back. *)
Record BufferFragment := {
  fragment_entry : eptr;
  fragment_length : Z
}.

(** The struct [Hit]: a copy of the headers, and a buffer of at most one
    fragment. *)
Record HitData (H : Type) := {
  hit_headers_ : H;
  hit_body_ : option BufferFragment
}.
Arguments hit_headers_ {H} _.
Arguments hit_body_ {H} _.

Record LookupResult (H : Type) := {
  type_ : ResultType;
  hit_ : option (HitData H);
  waiter_ : option wptr
}.
Arguments type_ {H} _.
Arguments hit_ {H} _.
Arguments waiter_ {H} _.

(** What the locked part of [lookup] hands to the unlocked part: pointers into
    the entry and the length of its body, or the result. *)
Inductive LockedLookup :=
| LockedHit (p : eptr) (body_length : Z)
| LockedLeader
| LockedFollower (w : wptr).

Fixpoint for_each {S A} (f : A -> M S unit) (l : list A) : M S unit :=
  match l with
  | [] => ret tt
  | x :: l => f x;;; for_each f l
  end.

Section Cache.
Context {H : Type} `{HeaderMapApi H}.
Implicit Types w : world H.

Definition deref_waiter (wp : wptr) : M (world H) Waiter :=
  fun w => or_fault DanglingPointer (waiter_heap w !! wp) w.

(** A reference to the inflight response of [key]. *)
Definition deref_inflight (key : string) : M (world H) (Inflight H) :=
  fun w => or_fault DanglingPointer (inflight_map_ w !! key) w.

Definition update_inflight (key : string) (f : Inflight H -> Inflight H) : M (world H) unit :=
  modify (set_inflight_map (alter f key)).

(** [pins_.fetch_add(n)], on a [std::atomic<uint32_t>] *)
Definition fetch_add_pins (p : eptr) (n : Z) : M (world H) unit :=
  let* e := deref_entry p in
  modify (set_entries (fun m => <[p := set_pins (fun z => u32 (z + n)) e]> m)).

(** ** Followers *)

(** [std::make_shared<Waiter>(&callbacks->dispatcher(), callbacks)] *)
Definition new_waiter (cb : StreamDecoderFilterCallbacks) : M (world H) wptr :=
  let* p := gets next_waiter in
  modify (set_waiter_heap (fun m =>
    <[p := {| dispatcher_ := cb_dispatcher cb; callbacks_ := cb; cancelled := false |}]> m));;;
  modify (set_next_waiter S);;;
  ret p.

Definition push_waiter (wp : wptr) (i : Inflight H) : Inflight H :=
  {| inflight_headers_ := inflight_headers_ i; inflight_body_ := inflight_body_ i;
     waiters_ := waiters_ i ++ [wp] |}.

Definition attachBackfillWaiterLocked (key : string) (waiter : wptr) : M (world H) unit :=
  update_inflight key (push_waiter waiter);;;
  let* inflight := deref_inflight key in
  assert_ (bool_decide (is_Some (inflight_headers_ inflight))
           || bool_decide (inflight_body_ inflight = ""));;;
  match inflight_headers_ inflight with
  | Some h =>
      let* target := deref_waiter waiter in
      post (dispatcher_ target) (PostBackfill waiter (createHeaderMap h) (inflight_body_ inflight))
  | None => assert_ (bool_decide (inflight_body_ inflight = ""))
  end.

(** ** [lookup] *)

Definition lookup_locked (key : string) (callbacks : option StreamDecoderFilterCallbacks)
    : M (world H) LockedLookup :=
  let* cache_map := gets cache_map_ in
  match cache_map !! key with
  | Some p =>
      fetch_add_pins p 1;;;
      let* entry := deref_entry p in
      ret (LockedHit p (str_size (body_ entry)))
  | None =>
      let* inflight_map := gets inflight_map_ in
      match inflight_map !! key with
      | None =>
          modify (set_inflight_map (fun m => <[key := empty_inflight]> m));;;
          ret LockedLeader
      | Some _ =>
          assert_ (bool_decide (is_Some callbacks));;;
          let* cb := or_fault NullDereference callbacks in
          let* waiter := new_waiter cb in
          attachBackfillWaiterLocked key waiter;;;
          ret (LockedFollower waiter)
      end
  end.

(** The part after the mutex is released, for a hit. *)
Definition serve_hit (p : eptr) (body_length : Z) : M (world H) (HitData H) :=
  let* entry := deref_entry p in
  let* header := or_fault NullDereference (headers_ entry) in
  if body_length =? 0 then
    fetch_add_pins p (-1);;;
    ret {| hit_headers_ := createHeaderMap header; hit_body_ := None |}
  else
    ret {| hit_headers_ := createHeaderMap header;
           hit_body_ := Some {| fragment_entry := p; fragment_length := body_length |} |}.

Definition lookup (key : string) (callbacks : option StreamDecoderFilterCallbacks)
    : M (world H) (LookupResult H) :=
  let* r := lookup_locked key callbacks in
  match r with
  | LockedLeader => ret {| type_ := Leader; hit_ := None; waiter_ := None |}
  | LockedFollower wp => ret {| type_ := Follower; hit_ := None; waiter_ := Some wp |}
  | LockedHit p n =>
      let* hit := serve_hit p n in
      ret {| type_ := Hit; hit_ := Some hit; waiter_ := None |}
  end.

(** Reading the bytes of a fragment, and its release callback. *)
Definition read_fragment (f : BufferFragment) : M (world H) string :=
  let* e := deref_entry (fragment_entry f) in
  ret (String.substring 0 (Z.to_nat (fragment_length f)) (body_ e)).

Definition release_fragment (f : BufferFragment) : M (world H) unit :=
  fetch_add_pins (fragment_entry f) (-1).

(** ** Publishing by the leader *)

Definition finalizeLocked (key : string) : M (world H) unit :=
  let* inflight_map := gets inflight_map_ in
  assert_ (bool_decide (is_Some (inflight_map !! key)));;;
  let* inflight := deref_inflight key in
  let* inflight_size := or_fault NullDereference (Inflight_size inflight) in
  let size := u64 (inflight_size + str_size key) in
  let* has_room := evictTillCapacityLocked size in
  when has_room (insertEntryLocked key (inflight_headers_ inflight) (inflight_body_ inflight));;;
  modify (set_inflight_map (delete key)).

Definition set_headers_if_empty (h : H) (i : Inflight H) : Inflight H :=
  {| inflight_headers_ := match inflight_headers_ i with
                          | Some h' => Some h'
                          | None => Some (createHeaderMap h)
                          end;
     inflight_body_ := inflight_body_ i; waiters_ := waiters_ i |}.

Definition append_body (data : string) (i : Inflight H) : Inflight H :=
  {| inflight_headers_ := inflight_headers_ i;
     inflight_body_ := inflight_body_ i +:+ data; waiters_ := waiters_ i |}.

(** The locked parts return the snapshots the unlocked parts work on, or
    nothing when the key is not inflight. *)
Definition publishHeaders_locked (key : string) (response_headers : H) (end_stream : bool)
    : M (world H) (option (list wptr * H)) :=
  let* inflight_map := gets inflight_map_ in
  match inflight_map !! key with
  | None => ret None
  | Some _ =>
      update_inflight key (set_headers_if_empty response_headers);;;
      let* inflight := deref_inflight key in
      let* h := or_fault NullDereference (inflight_headers_ inflight) in
      when end_stream (finalizeLocked key);;;
      ret (Some (waiters_ inflight, createHeaderMap h))
  end.

Definition publishData_locked (key : string) (data : string) (end_stream : bool)
    : M (world H) (option (list wptr)) :=
  let* inflight_map := gets inflight_map_ in
  match inflight_map !! key with
  | None => ret None
  | Some _ =>
      update_inflight key (append_body data);;;
      let* inflight := deref_inflight key in
      when end_stream (finalizeLocked key);;;
      ret (Some (waiters_ inflight))
  end.

(** [waiter->dispatcher_->post(...)] *)
Definition post_to (wp : wptr) (t : Task H) : M (world H) unit :=
  let* waiter := deref_waiter wp in
  post (dispatcher_ waiter) t.

Definition publishHeaders (key : string) (response_headers : H) (end_stream : bool)
    : M (world H) unit :=
  let* r := publishHeaders_locked key response_headers end_stream in
  match r with
  | None => ret tt
  | Some r =>
      for_each (fun wp => post_to wp (PostHeaders wp (createHeaderMap (snd r)) end_stream)) (fst r)
  end.

Definition publishData (key : string) (data : string) (end_stream : bool) : M (world H) unit :=
  let* r := publishData_locked key data end_stream in
  match r with
  | None => ret tt
  | Some waiters_copy =>
      for_each (fun wp => post_to wp (PostData wp data end_stream)) waiters_copy
  end.

(** ** [removeWaiter] *)

(** The loop over [waiters], from index [i] on: the first index that holds
    [wp]. *)
Fixpoint find_waiter (wp : wptr) (l : list wptr) (i : nat) : option nat :=
  match l with
  | [] => None
  | x :: l => if decide (x = wp) then Some i else find_waiter wp l (S i)
  end.

(** [std::swap(waiters[i], waiters[waiters.size() - 1]); waiters.pop_back()] *)
Definition swap_pop (i : nat) (l : list wptr) : list wptr :=
  match l !! i, l !! (length l - 1)%nat with
  | Some x, Some y => take (length l - 1) (<[(length l - 1)%nat := x]> (<[i := y]> l))
  | _, _ => l
  end.

Definition remove_waiter (wp : wptr) (i : Inflight H) : Inflight H :=
  {| inflight_headers_ := inflight_headers_ i; inflight_body_ := inflight_body_ i;
     waiters_ := match find_waiter wp (waiters_ i) O with
                 | Some n => swap_pop n (waiters_ i)
                 | None => waiters_ i
                 end |}.

Definition removeWaiter (key : string) (waiter : wptr) : M (world H) unit :=
  let* inflight_map := gets inflight_map_ in
  match inflight_map !! key with
  | None => ret tt
  | Some _ => update_inflight key (remove_waiter waiter)
  end.

(** ** The posted closures *)

Definition task_waiter (t : Task H) : wptr :=
  match t with
  | PostHeaders wp _ _ | PostData wp _ _ | PostBackfill wp _ _ => wp
  end.

(** The calls a closure makes on the callbacks of a waiter that has not been
    cancelled. *)
Definition task_calls (t : Task H) : list (Encode H) :=
  match t with
  | PostHeaders _ h end_stream =>
      [EncodeHeaders h end_stream RingCacheDetailsMessageCoalesced]
  | PostData _ c end_stream => [EncodeData c end_stream]
  | PostBackfill _ h b =>
      EncodeHeaders h false RingCacheDetailsMessageCoalescedBackfill ::
      (if bool_decide (str_size b > 0) then [EncodeData b false] else [])
  end.

Definition run_task (t : Task H)
    : M (world H) (option (StreamDecoderFilterCallbacks * list (Encode H))) :=
  let* waiter := deref_waiter (task_waiter t) in
  if cancelled waiter then ret None
  else ret (Some (callbacks_ waiter, task_calls t)).

(** One turn of the event loop of dispatcher [d]. *)
Definition run_dispatcher (d : dispatcher)
    : M (world H) (option (StreamDecoderFilterCallbacks * list (Encode H))) :=
  let* q := gets queues in
  match q !! d with
  | Some (t :: ts) => modify (set_queues (fun q => <[d := ts]> q));;; run_task t
  | _ => ret None
  end.

(** [waiter->cancelled.store(true)] *)
Definition cancel_waiter (wp : wptr) : M (world H) unit :=
  let* waiter := deref_waiter wp in
  modify (set_waiter_heap (fun m =>
    <[wp := {| dispatcher_ := dispatcher_ waiter; callbacks_ := callbacks_ waiter;
               cancelled := true |}]> m)).
End Cache.
