(* ===== verification/CacheProps.v ===== *)
(** The invariant of the whole cache, and what each locked operation of
    Cache.v does to it. *)
From S2P Require Import Prelude CacheTypes Ring Cache.

Local Open Scope Z_scope.
Local Open Scope cpp_scope.

Section CacheProps.
Context {H : Type} `{HeaderMapApi H}.
Implicit Types w : world H.

(** The two invariants stated at the top of the class, and what they need:
    a key is cached, or inflight, or neither; body bytes are only there once
    the headers are; the waiters of inflight keys are distinct live objects. *)
Record cache_ok (w : world H) : Prop := {
  co_ring : ring_ok w;
  co_excl k p : cache_map_ w !! k = Some p -> inflight_map_ w !! k = None;
  co_body k i : inflight_map_ w !! k = Some i ->
    inflight_headers_ i = None -> inflight_body_ i = "";
  co_waiter k i wp : inflight_map_ w !! k = Some i -> wp ∈ waiters_ i ->
    is_Some (waiter_heap w !! wp);
  co_nodup k i : inflight_map_ w !! k = Some i -> NoDup (waiters_ i);
  co_disjoint k1 k2 i1 i2 wp :
    inflight_map_ w !! k1 = Some i1 -> inflight_map_ w !! k2 = Some i2 ->
    wp ∈ waiters_ i1 -> wp ∈ waiters_ i2 -> k1 = k2;
  co_fresh wp x : waiter_heap w !! wp = Some x -> (wp < next_waiter w)%nat;
  co_pins p e : entries w !! p = Some e -> 0 <= pins_ e < 2 ^ 32
}.

Lemma RingBufferCache_ok capacity slot_count :
  0 < capacity < 2 ^ 64 -> 0 < slot_count < 2 ^ 64 ->
  cache_ok (RingBufferCache (H := H) capacity slot_count).
Proof.
  intros Hc Hn. split; simpl; try (intros; simplify_map_eq; done).
  by apply RingBufferCache_ring_ok.
Qed.

(** ** Pinning *)

(** [e->pins_] changed by [n]. *)
Definition add_pins (p : eptr) (n : Z) (e : Entry H) (w : world H) : world H :=
  set_entries (fun m => <[p := set_pins (fun z => u32 (z + n)) e]> m) w.

Lemma fetch_add_pins_eq p n e w :
  entries w !! p = Some e -> fetch_add_pins p n w = Done (tt, add_pins p n e w).
Proof. intros He. unfold fetch_add_pins. by mrun. Qed.

Lemma slot_size_pins es p f e s :
  es !! p = Some e -> slot_size (<[p := set_pins f e]> es) s = slot_size (H := H) es s.
Proof.
  intros He. destruct s as [q|]; simpl; [|done]. destruct (decide (p = q)) as [->|].
  - by rewrite lookup_insert_eq, He.
  - by rewrite lookup_insert_ne.
Qed.

Lemma add_pins_ring w p n e :
  ring_ok w -> entries w !! p = Some e -> ring_ok (add_pins p n e w).
Proof.
  intros Hw He. split; simpl; try apply Hw.
  - intros i q Hi. destruct (ro_slot _ Hw _ _ Hi) as (e' & z & He' & Hz & Hk).
    destruct (decide (p = q)) as [->|].
    + simplify_eq. eexists _, z. by rewrite lookup_insert_eq.
    + exists e', z. by rewrite lookup_insert_ne.
  - intros k q Hk. destruct (ro_map _ Hw _ _ Hk) as (i & e' & Hi & He' & <-).
    destruct (decide (p = q)) as [->|].
    + simplify_eq. eexists i, _. by rewrite lookup_insert_eq.
    + exists i, e'. by rewrite lookup_insert_ne.
  - intros q e' [[<- <-]|[_ He']]%lookup_insert_Some; eauto using ro_heap.
  - rewrite (ro_used _ Hw). apply sumZ_ext. intros s _. simpl. by rewrite slot_size_pins.
Qed.

Lemma add_pins_ok w p n e :
  cache_ok w -> entries w !! p = Some e -> cache_ok (add_pins p n e w).
Proof.
  intros Hw He. split; simpl; try apply Hw.
  - apply add_pins_ring; [apply Hw|done].
  - intros q e' [[<- <-]|[_ He']]%lookup_insert_Some; [|eauto using co_pins].
    simpl. apply u32_range.
Qed.

(** ** Changing the inflight map *)

Lemma set_inflight_ring f w : ring_ok w -> ring_ok (set_inflight_map f w).
Proof. intros []. by split. Qed.

(** Replacing one inflight response keeps the invariant when the new one has
    body bytes only after headers, and no waiters but old ones of its own. *)
Lemma replace_inflight_ok w k i i' :
  cache_ok w -> inflight_map_ w !! k = Some i ->
  (inflight_headers_ i' = None -> inflight_body_ i' = "") ->
  NoDup (waiters_ i') -> (forall wp, wp ∈ waiters_ i' -> wp ∈ waiters_ i) ->
  cache_ok (set_inflight_map (fun m => <[k := i']> m) w).
Proof.
  intros Hw Hi Hbody Hnd Hsub. split; simpl.
  - apply set_inflight_ring, Hw.
  - intros k' p Hp. pose proof (co_excl _ Hw _ _ Hp). by rewrite lookup_insert_ne by congruence.
  - intros k' j [[<- <-]|[_ Hj]]%lookup_insert_Some; [done|]. eauto using co_body.
  - intros k' j wp [[<- <-]|[_ Hj]]%lookup_insert_Some Hwp; eauto using co_waiter.
  - intros k' j [[<- <-]|[_ Hj]]%lookup_insert_Some; [done|]. eauto using co_nodup.
  - intros k1 k2 i1 i2 wp [[<- <-]|[_ Hk1]]%lookup_insert_Some
      [[<- <-]|[_ Hk2]]%lookup_insert_Some Hw1 Hw2; eauto using co_disjoint.
  - apply Hw.
  - apply Hw.
Qed.

Lemma delete_inflight_ok w k :
  cache_ok w -> cache_ok (set_inflight_map (delete k) w).
Proof.
  intros Hw. split; simpl; try apply Hw.
  - apply set_inflight_ring, Hw.
  - intros k' p Hp. rewrite lookup_delete_None. right. eauto using co_excl.
  - intros k' j [_ Hj]%lookup_delete_Some. eauto using co_body.
  - intros k' j wp [_ Hj]%lookup_delete_Some. eauto using co_waiter.
  - intros k' j [_ Hj]%lookup_delete_Some. eauto using co_nodup.
  - intros k1 k2 i1 i2 wp [_ Hk1]%lookup_delete_Some [_ Hk2]%lookup_delete_Some.
    eauto using co_disjoint.
Qed.

(** ** [lookup] *)

Lemma cached_entry w key p :
  ring_ok w -> cache_map_ w !! key = Some p ->
  exists e h z, entries w !! p = Some e /\ key_ e = key /\ headers_ e = Some h /\
                Entry_size e = Some z.
Proof.
  intros Hw Hp. destruct (ro_map _ Hw _ _ Hp) as (i & e & Hi & He & Hk).
  destruct (ro_slot _ Hw _ _ Hi) as (e' & z & He' & Hz & _). simplify_eq.
  destruct (headers_ e) as [h|] eqn:Hh; [by exists e, h, z|].
  unfold Entry_size in Hz. by rewrite Hh in Hz.
Qed.

Lemma lookup_locked_hit w key callbacks p e :
  cache_map_ w !! key = Some p -> entries w !! p = Some e ->
  lookup_locked key callbacks w = Done (LockedHit p (str_size (body_ e)), add_pins p 1 e w).
Proof.
  intros Hp He. unfold lookup_locked. mrun. rewrite Hp.
  erewrite bind_Done by (by apply fetch_add_pins_eq).
  erewrite bind_Done by (apply deref_entry_eq; simpl; apply lookup_insert_eq). done.
Qed.

Definition become_leader (key : string) (w : world H) : world H :=
  set_inflight_map (fun m => <[key := empty_inflight]> m) w.

Lemma lookup_locked_leader w key callbacks :
  cache_map_ w !! key = None -> inflight_map_ w !! key = None ->
  lookup_locked key callbacks w = Done (LockedLeader, become_leader key w).
Proof. intros Hp Hi. unfold lookup_locked. mrun. rewrite Hp. mrun. rewrite Hi. by mrun. Qed.

Lemma become_leader_ok w key :
  cache_ok w -> cache_map_ w !! key = None -> inflight_map_ w !! key = None ->
  cache_ok (become_leader key w).
Proof.
  intros Hw Hp Hi. split; simpl; try apply Hw.
  - apply set_inflight_ring, Hw.
  - intros k p Hk. rewrite lookup_insert_ne by congruence. eauto using co_excl.
  - intros k i [[<- <-]|[_ Hk]]%lookup_insert_Some; [done|]. eauto using co_body.
  - intros k i wp [[<- <-]|[_ Hk]]%lookup_insert_Some Hwp; [|eauto using co_waiter].
    by apply not_elem_of_nil in Hwp.
  - intros k i [[<- <-]|[_ Hk]]%lookup_insert_Some; [|eauto using co_nodup]. apply NoDup_nil_2.
  - intros k1 k2 i1 i2 wp [[<- <-]|[_ Hk1]]%lookup_insert_Some
      [[<- <-]|[_ Hk2]]%lookup_insert_Some Hw1 Hw2; eauto using co_disjoint;
      by apply not_elem_of_nil in Hw1 || apply not_elem_of_nil in Hw2.
Qed.

Lemma set_queues_ok f w : cache_ok w -> cache_ok (set_queues f w).
Proof. intros [[]]. split; [split|..]; done. Qed.

Definition enqueue (d : dispatcher) (t : Task H) (w : world H) : world H :=
  set_queues (fun q => <[d := default [] (q !! d) ++ [t]]> q) w.

Lemma enqueue_ok d t w : cache_ok w -> cache_ok (enqueue d t w).
Proof. apply set_queues_ok. Qed.

Definition add_waiter (key : string) (cb : StreamDecoderFilterCallbacks) (i : Inflight H)
    (w : world H) : world H :=
  set_inflight_map (fun m => <[key := push_waiter (next_waiter w) i]> m)
    (set_next_waiter S (set_waiter_heap (fun m =>
      <[next_waiter w :=
          {| dispatcher_ := cb_dispatcher cb; callbacks_ := cb; cancelled := false |}]> m) w)).

Definition become_follower (key : string) (cb : StreamDecoderFilterCallbacks) (i : Inflight H)
    (w : world H) : world H :=
  match inflight_headers_ i with
  | None => add_waiter key cb i w
  | Some h =>
      enqueue (cb_dispatcher cb)
        (PostBackfill (next_waiter w) (createHeaderMap h) (inflight_body_ i))
        (add_waiter key cb i w)
  end.

Lemma lookup_locked_follower w key cb i :
  cache_ok w -> cache_map_ w !! key = None -> inflight_map_ w !! key = Some i ->
  lookup_locked key (Some cb) w
  = Done (LockedFollower (next_waiter w), become_follower key cb i w).
Proof.
  intros Hw Hp Hi. unfold lookup_locked. mrun. rewrite Hp. mrun. rewrite Hi. mrun.
  unfold new_waiter. mrun. unfold attachBackfillWaiterLocked, update_inflight. mrun.
  unfold deref_inflight. erewrite bind_Done.
  2: { cbv beta. simpl. rewrite lookup_alter_eq, Hi. reflexivity. }
  simpl. unfold set_inflight_map at 1. simpl. rewrite (alter_as_insert _ _ _ _ Hi).
  unfold become_follower. destruct (inflight_headers_ i) as [h|] eqn:Hh.
  - rewrite bind_assoc, bind_assert by done. cbv beta. rewrite bind_assoc.
    unfold deref_waiter. erewrite bind_Done by (simpl; by rewrite lookup_insert_eq).
    done.
  - rewrite (co_body _ Hw _ _ Hi Hh). done.
Qed.

Lemma add_waiter_ok w key cb i :
  cache_ok w -> inflight_map_ w !! key = Some i -> cache_ok (add_waiter key cb i w).
Proof.
  intros Hw Hi.
  assert (Hnew : forall k j, inflight_map_ w !! k = Some j -> next_waiter w ∉ waiters_ j).
  { intros k j Hj Hin. destruct (co_waiter _ Hw _ _ _ Hj Hin) as [x Hx].
    apply (co_fresh _ Hw) in Hx. lia. }
  split; simpl.
  - destruct (co_ring _ Hw). by split.
  - intros k p Hk. pose proof (co_excl _ Hw _ _ Hk). by rewrite lookup_insert_ne by congruence.
  - intros k j [[<- <-]|[_ Hk]]%lookup_insert_Some; [|eauto using co_body].
    simpl. eauto using co_body.
  - intros k j wp [[<- <-]|[_ Hk]]%lookup_insert_Some Hwp.
    + simpl in Hwp. apply elem_of_app in Hwp as [Hwp| ->%list_elem_of_singleton].
      * apply lookup_insert_is_Some'. eauto using co_waiter.
      * rewrite lookup_insert_eq. eauto.
    + apply lookup_insert_is_Some'. eauto using co_waiter.
  - intros k j [[<- <-]|[_ Hk]]%lookup_insert_Some; [|eauto using co_nodup].
    simpl. apply NoDup_app. split_and!; [eauto using co_nodup| |apply NoDup_singleton].
    intros x Hx ->%list_elem_of_singleton. by eapply Hnew.
  - intros k1 k2 i1 i2 wp [[<- <-]|[? Hk1]]%lookup_insert_Some
      [[<- <-]|[? Hk2]]%lookup_insert_Some Hw1 Hw2; try done; simpl in *.
    + apply elem_of_app in Hw1 as [Hw1| ->%list_elem_of_singleton];
        [eauto using co_disjoint|]. by destruct (Hnew _ _ Hk2).
    + apply elem_of_app in Hw2 as [Hw2| ->%list_elem_of_singleton];
        [eauto using co_disjoint|]. by destruct (Hnew _ _ Hk1).
    + eauto using co_disjoint.
  - intros wp x [[<- <-]|[_ Hx]]%lookup_insert_Some; [lia|]. apply (co_fresh _ Hw) in Hx. lia.
  - apply Hw.
Qed.

Lemma become_follower_ok w key cb i :
  cache_ok w -> inflight_map_ w !! key = Some i -> cache_ok (become_follower key cb i w).
Proof.
  intros Hw Hi. unfold become_follower.
  case_match; [apply enqueue_ok|]; by apply add_waiter_ok.
Qed.

(** ** [finalizeLocked] *)

(** What a response takes in the cache: [key + headers + body]. *)
Definition response_size (key : string) (h : H) (body : string) : Z :=
  u64 (str_size key + headers_size h + str_size body).

Lemma fresh_entry_size key h body :
  Entry_size (fresh_entry key h body) = Some (response_size key h body).
Proof. unfold Entry_size, response_size. simpl. by rewrite u64_add_l. Qed.

Lemma finalize_size i key h :
  inflight_headers_ i = Some h ->
  exists s, Inflight_size i = Some s /\ u64 (s + str_size key) = response_size key h (inflight_body_ i).
Proof.
  intros Hh. unfold Inflight_size, response_size. rewrite Hh. eexists. split; [done|].
  rewrite u64_add_l. f_equal. lia.
Qed.

(** The two ways a response can leave the inflight map. *)
Inductive finalized (key : string) (h : H) (body : string) (w : world H) : world H -> Prop :=
| finalized_stored w1 :
    evict_result (response_size key h body) w true w1 ->
    finalized key h body w
      (insert_entry (fresh_entry key h body) (response_size key h body)
         (set_inflight_map (delete key) w1))
| finalized_dropped w1 :
    evict_result (response_size key h body) w false w1 ->
    finalized key h body w (set_inflight_map (delete key) w1).

Lemma evict_result_found need w w' :
  ring_ok w -> evict_result need w true w' ->
  slots_ w' !! Z.to_nat (head_ w') = Some None /\ need <= room w'.
Proof.
  intros Hw Hres. inversion Hres as [| | |k h Hk Hj Hr (d & Hd & -> & Hs & _)]; subst. done.
Qed.

Lemma inflight_not_cached w key i :
  cache_ok w -> inflight_map_ w !! key = Some i -> cache_map_ w !! key = None.
Proof.
  intros Hw Hi. destruct (cache_map_ w !! key) as [p|] eqn:Hp; [|done].
  apply (co_excl _ Hw) in Hp. congruence.
Qed.

Lemma finalizeLocked_result w key i h :
  cache_ok w -> inflight_map_ w !! key = Some i -> inflight_headers_ i = Some h ->
  exists w', finalizeLocked key w = Done (tt, w') /\ finalized key h (inflight_body_ i) w w'.
Proof.
  intros Hw Hi Hh. pose proof (co_ring _ Hw) as Hring.
  destruct (finalize_size i key h Hh) as (s & Hs & Hsize).
  unfold finalizeLocked. mrun. unfold deref_inflight. erewrite bind_Done by (cbv beta; by rewrite Hi). mrun.
  rewrite Hsize.
  destruct (evictTillCapacityLocked_result w (response_size key h (inflight_body_ i)) Hring)
    as (b & w1 & Hrun & Hres). mrun. destruct b; unfold when.
  - destruct (evict_result_found _ _ _ Hring Hres) as [Hslot Hroom].
    rewrite Hh. erewrite bind_Done.
    2: { apply insertEntryLocked_eq; [by eapply evict_result_ok|done|apply fresh_entry_size|done]. }
    eexists. split; [reflexivity|]. by apply (finalized_stored key h (inflight_body_ i) w w1).
  - mrun. eexists. split; [reflexivity|]. by apply (finalized_dropped key h (inflight_body_ i) w w1).
Qed.

Lemma evict_result_cache_ok need w b w' :
  cache_ok w -> evict_result need w b w' -> cache_ok w'.
Proof.
  intros Hw Hres.
  pose proof (evict_result_ok _ _ _ _ (co_ring _ Hw) Hres) as Hring.
  destruct (evict_result_frame _ _ _ _ Hres) as (_ & _ & Hin & _ & Hwt & Hnw & _ & Hes & Hcm).
  split; rewrite ?Hin, ?Hwt, ?Hnw; try apply Hw; [done|..].
  - intros k p Hp. eapply co_excl; [done|]. by eapply lookup_weaken.
  - intros p e He. eapply co_pins; [done|]. by eapply lookup_weaken.
Qed.

(** What a completion leaves alone. *)
Lemma finalized_frame key h body w w' :
  finalized key h body w w' ->
  slot_count_ w' = slot_count_ w /\ capacity_ w' = capacity_ w /\
  inflight_map_ w' = delete key (inflight_map_ w) /\
  waiter_heap w' = waiter_heap w /\ next_waiter w' = next_waiter w /\ queues w' = queues w.
Proof.
  intros [w1 Hres|w1 Hres];
    destruct (evict_result_frame _ _ _ _ Hres) as (? & ? & Hi & ? & ? & ? & ? & _ & _);
    simpl; by rewrite Hi.
Qed.

(** What a completion does to the entries: pinned ones stay, and at most the
    completed response is new. *)
Lemma finalized_entries key h body w w' :
  ring_ok w -> finalized key h body w w' ->
  (forall q e, entries w' !! q = Some e ->
     entries w !! q = Some e \/ e = fresh_entry key h body /\ entries w !! q = None) /\
  (forall q e, entries w !! q = Some e -> pins_ e <> 0 -> entries w' !! q = Some e).
Proof.
  intros Hw Hfin.
  assert (Hpin : forall b w1 q e, evict_result (response_size key h body) w b w1 ->
    entries w !! q = Some e -> pins_ e <> 0 -> entries w1 !! q = Some e).
  { intros b w1 q e Hres He Hp. destruct (ro_heap _ Hw _ _ He) as (_ & i & Hi).
    eapply evict_result_pinned; eauto. }
  destruct Hfin as [w1 Hres|w1 Hres];
    destruct (evict_result_frame _ _ _ _ Hres) as (_ & _ & _ & Hnext & _ & _ & _ & Hsub & _); simpl.
  - split.
    + intros q e [[<- <-]|[_ He]]%lookup_insert_Some; [right|left; eauto using lookup_weaken].
      split; [done|]. rewrite Hnext. by apply ring_next_fresh.
    + intros q e He Hp. rewrite lookup_insert_ne; [eauto|]. rewrite Hnext. intros <-.
      by rewrite ring_next_fresh in He.
  - split; [eauto using lookup_weaken|eauto].
Qed.

Lemma insert_entry_cache_ok w e z :
  cache_ok w -> slots_ w !! Z.to_nat (head_ w) = Some None -> cache_map_ w !! key_ e = None ->
  inflight_map_ w !! key_ e = None -> Entry_size e = Some z -> z <= room w -> pins_ e = 0 ->
  cache_ok (insert_entry e z w).
Proof.
  intros Hw Hs Hc Hi Hz Hr Hp. split; simpl; try apply Hw.
  - by apply insert_entry_ok; [apply Hw|..].
  - intros k p [[<- <-]|[_ Hk]]%lookup_insert_Some; [done|]. eauto using co_excl.
  - intros p e' [[<- <-]|[_ He]]%lookup_insert_Some; [lia|]. eauto using co_pins.
Qed.

Lemma finalized_ok w key i h w' :
  cache_ok w -> inflight_map_ w !! key = Some i ->
  finalized key h (inflight_body_ i) w w' -> cache_ok w'.
Proof.
  intros Hw Hi Hfin. destruct Hfin as [w1 Hres|w1 Hres];
    pose proof (delete_inflight_ok _ key (evict_result_cache_ok _ _ _ _ Hw Hres)) as Hw1; [|done].
  destruct (evict_result_found _ _ _ (co_ring _ Hw) Hres) as [Hslot Hroom].
  destruct (evict_result_frame _ _ _ _ Hres) as (_ & _ & _ & _ & _ & _ & _ & _ & Hcm).
  apply insert_entry_cache_ok; [done|done| | |apply fresh_entry_size|done|done]; simpl.
  - exact (lookup_weaken_None _ _ _ (inflight_not_cached _ _ _ Hw Hi) Hcm).
  - apply lookup_delete_eq.
Qed.

(** ** The locked parts of publishing *)

Definition with_inflight (key : string) (i : Inflight H) (w : world H) : world H :=
  set_inflight_map (fun m => <[key := i]> m) w.

(** The world after a publication: the response has left the inflight map
    when the stream has ended. *)
Definition settled (end_stream : bool) (key : string) (h : H) (body : string)
    (w w' : world H) : Prop :=
  if end_stream then finalized key h body w w' else w' = w.

Lemma update_inflight_eq key f i w :
  inflight_map_ w !! key = Some i ->
  update_inflight key f w = Done (tt, with_inflight key (f i) w).
Proof.
  intros Hi. unfold update_inflight, modify, with_inflight, set_inflight_map.
  by rewrite (alter_as_insert _ _ _ _ Hi).
Qed.

Lemma deref_inflight_with key i w :
  deref_inflight key (with_inflight key i w) = Done (i, with_inflight key i w).
Proof. unfold deref_inflight. simpl. by rewrite lookup_insert_eq. Qed.

Lemma settle_eq {A} (end_stream : bool) key h i (w : world H) (k : unit -> M (world H) A) a :
  cache_ok w -> inflight_map_ w !! key = Some i -> inflight_headers_ i = Some h ->
  (forall w', k tt w' = Done (a, w')) ->
  exists w', bind (when end_stream (finalizeLocked key)) k w = Done (a, w') /\
             settled end_stream key h (inflight_body_ i) w w'.
Proof.
  intros Hw Hi Hh Hk. destruct end_stream; simpl.
  - destruct (finalizeLocked_result _ _ _ _ Hw Hi Hh) as (w' & Hrun & Hfin).
    exists w'. split; [|done]. by erewrite bind_Done.
  - exists w. by split; [apply Hk|].
Qed.

Lemma settled_frame end_stream key h body w w' :
  settled end_stream key h body w w' ->
  waiter_heap w' = waiter_heap w /\ next_waiter w' = next_waiter w /\ queues w' = queues w.
Proof. destruct end_stream; simpl; [intros Hf%finalized_frame; tauto|by intros ->]. Qed.

Lemma settled_ok end_stream key i h w w' :
  cache_ok w -> inflight_map_ w !! key = Some i ->
  settled end_stream key h (inflight_body_ i) w w' -> cache_ok w'.
Proof. intros Hw Hi. destruct end_stream; simpl; [by eapply finalized_ok|by intros ->]. Qed.

Lemma publishHeaders_locked_absent w key h end_stream :
  inflight_map_ w !! key = None ->
  publishHeaders_locked key h end_stream w = Done (None, w).
Proof. intros Hi. unfold publishHeaders_locked. mrun. by rewrite Hi. Qed.

Lemma publishData_locked_absent w key data end_stream :
  inflight_map_ w !! key = None -> publishData_locked key data end_stream w = Done (None, w).
Proof. intros Hi. unfold publishData_locked. mrun. by rewrite Hi. Qed.

(** The headers an inflight response has once [h] is published for it: the
    first ones count. *)
Definition headers_after (h : H) (i : Inflight H) : H :=
  match inflight_headers_ i with Some h' => h' | None => createHeaderMap h end.

Lemma set_headers_after h i :
  inflight_headers_ (set_headers_if_empty h i) = Some (headers_after h i).
Proof. unfold headers_after. simpl. by case_match. Qed.

Lemma with_headers_ok w key i h :
  cache_ok w -> inflight_map_ w !! key = Some i ->
  cache_ok (with_inflight key (set_headers_if_empty h i) w).
Proof.
  intros Hw Hi. eapply replace_inflight_ok; [done|done| | |done].
  - rewrite set_headers_after. done.
  - simpl. eauto using co_nodup.
Qed.

Lemma with_body_ok w key i data :
  cache_ok w -> inflight_map_ w !! key = Some i -> is_Some (inflight_headers_ i) ->
  cache_ok (with_inflight key (append_body data i) w).
Proof.
  intros Hw Hi [h Hh]. eapply replace_inflight_ok; [done|done| | |done].
  - simpl. congruence.
  - simpl. eauto using co_nodup.
Qed.

Lemma publishHeaders_locked_result w key i h end_stream :
  cache_ok w -> inflight_map_ w !! key = Some i ->
  exists w',
    publishHeaders_locked key h end_stream w
    = Done (Some (waiters_ i, createHeaderMap (headers_after h i)), w') /\
    settled end_stream key (headers_after h i) (inflight_body_ i)
      (with_inflight key (set_headers_if_empty h i) w) w'.
Proof.
  intros Hw Hi. unfold publishHeaders_locked. mrun. rewrite Hi.
  erewrite bind_Done by (by apply update_inflight_eq). cbv beta.
  erewrite bind_Done by (apply deref_inflight_with). cbv beta.
  rewrite set_headers_after. mrun.
  apply (settle_eq end_stream key _ (set_headers_if_empty h i)).
  - by apply with_headers_ok.
  - simpl. apply lookup_insert_eq.
  - apply set_headers_after.
  - done.
Qed.

Lemma publishData_locked_result w key i h data end_stream :
  cache_ok w -> inflight_map_ w !! key = Some i -> inflight_headers_ i = Some h ->
  exists w',
    publishData_locked key data end_stream w = Done (Some (waiters_ i), w') /\
    settled end_stream key h (inflight_body_ i +:+ data)
      (with_inflight key (append_body data i) w) w'.
Proof.
  intros Hw Hi Hh. unfold publishData_locked. mrun. rewrite Hi.
  erewrite bind_Done by (by apply update_inflight_eq). cbv beta.
  erewrite bind_Done by (apply deref_inflight_with). cbv beta.
  apply (settle_eq end_stream key h (append_body data i)); [|simpl; apply lookup_insert_eq|done|done].
  apply with_body_ok; eauto.
Qed.

(** ** [removeWaiter] *)

Lemma find_waiter_spec wp l n :
  match find_waiter wp l n with
  | Some j => exists l1 l2, l = l1 ++ wp :: l2 /\ (wp ∉ l1) /\ j = (n + length l1)%nat
  | None => wp ∉ l
  end.
Proof.
  revert n. induction l as [|x l IH]; intros n; simpl; [apply not_elem_of_nil|].
  destruct (decide (x = wp)) as [->|Hne].
  - exists [], l. split_and!; [done|apply not_elem_of_nil|simpl; lia].
  - specialize (IH (S n)). destruct (find_waiter wp l (S n)) as [j|].
    + destruct IH as (l1 & l2 & -> & Hl1 & ->). exists (x :: l1), l2.
      split_and!; [done|set_solver|simpl; lia].
    + set_solver.
Qed.

Lemma swap_pop_perm l1 x l2 : Permutation (swap_pop (length l1) (l1 ++ x :: l2)) (l1 ++ l2).
Proof.
  unfold swap_pop. rewrite length_app. simpl.
  replace (length l1 + S (length l2) - 1)%nat with (length l1 + length l2)%nat by lia.
  rewrite list_lookup_middle by done.
  destruct l2 as [|y l2 _] using rev_ind.
  - simpl. rewrite Nat.add_0_r, list_lookup_middle by done.
    rewrite take_insert_ge by lia. rewrite take_insert_ge by lia.
    by rewrite take_app_length, app_nil_r.
  - rewrite length_app. simpl. rewrite lookup_app_r by lia.
    replace (length l1 + (length l2 + 1) - length l1)%nat with (S (length l2)) by lia.
    simpl. rewrite lookup_app_r by lia. replace (length l2 - length l2)%nat with O by lia. simpl.
    rewrite take_insert_ge by lia.
    rewrite insert_app_r_alt by lia. rewrite Nat.sub_diag. simpl.
    rewrite take_app_ge by lia.
    replace (length l1 + (length l2 + 1) - length l1)%nat with (S (length l2)) by lia. simpl.
    rewrite take_app_length. f_equiv. by rewrite Permutation_app_comm.
Qed.

Lemma remove_waiter_in wp (i : Inflight H) :
  wp ∈ waiters_ i -> Permutation (wp :: waiters_ (remove_waiter wp i)) (waiters_ i).
Proof.
  intros Hin. simpl. pose proof (find_waiter_spec wp (waiters_ i) 0) as Hf.
  destruct (find_waiter wp (waiters_ i) 0) as [j|]; [|done].
  destruct Hf as (l1 & l2 & -> & _ & ->). simpl. rewrite swap_pop_perm. apply Permutation_middle.
Qed.

Lemma remove_waiter_absent wp (i : Inflight H) : wp ∉ waiters_ i -> remove_waiter wp i = i.
Proof.
  intros Hin. pose proof (find_waiter_spec wp (waiters_ i) 0) as Hf.
  unfold remove_waiter. destruct (find_waiter wp (waiters_ i) 0) as [j|]; [|by destruct i].
  destruct Hf as (l1 & l2 & Heq & _). rewrite Heq in Hin. set_solver.
Qed.

(** The waiters of an inflight response lose exactly the removed one. *)
Lemma remove_waiter_elem wp (i : Inflight H) x :
  NoDup (waiters_ i) -> x ∈ waiters_ (remove_waiter wp i) <-> x ∈ waiters_ i /\ x <> wp.
Proof.
  intros Hnd. destruct (decide (wp ∈ waiters_ i)) as [Hin|Hin].
  - pose proof (remove_waiter_in _ _ Hin) as Hp. rewrite <- Hp in Hnd |- *.
    apply NoDup_cons in Hnd as [? _]. set_solver.
  - rewrite remove_waiter_absent by done. split; [|tauto]. intros Hx. split; [done|]. by intros ->.
Qed.

Lemma remove_waiter_nodup wp (i : Inflight H) : NoDup (waiters_ i) -> NoDup (waiters_ (remove_waiter wp i)).
Proof.
  intros Hnd. destruct (decide (wp ∈ waiters_ i)) as [Hin|Hin].
  - rewrite <- (remove_waiter_in _ _ Hin) in Hnd. by apply NoDup_cons in Hnd as [_ ?].
  - by rewrite remove_waiter_absent.
Qed.

Lemma removeWaiter_eq w key wp i :
  inflight_map_ w !! key = Some i ->
  removeWaiter key wp w = Done (tt, with_inflight key (remove_waiter wp i) w).
Proof. intros Hi. unfold removeWaiter. mrun. rewrite Hi. by apply update_inflight_eq. Qed.

Lemma removeWaiter_absent w key wp :
  inflight_map_ w !! key = None -> removeWaiter key wp w = Done (tt, w).
Proof. intros Hi. unfold removeWaiter. mrun. by rewrite Hi. Qed.

Lemma with_removed_ok w key i wp :
  cache_ok w -> inflight_map_ w !! key = Some i ->
  cache_ok (with_inflight key (remove_waiter wp i) w).
Proof.
  intros Hw Hi. pose proof (co_nodup _ Hw _ _ Hi).
  eapply replace_inflight_ok; [done|done| | |].
  - simpl. eauto using co_body.
  - by apply remove_waiter_nodup.
  - intros x Hx. by apply remove_waiter_elem in Hx as [? _].
Qed.

(** ** Serving a hit *)

Lemma serve_hit_eq w p e h :
  entries w !! p = Some e -> headers_ e = Some h ->
  serve_hit p (str_size (body_ e)) w
  = if decide (body_ e = "")
    then Done ({| hit_headers_ := createHeaderMap h; hit_body_ := None |}, add_pins p (-1) e w)
    else Done ({| hit_headers_ := createHeaderMap h;
                  hit_body_ := Some {| fragment_entry := p;
                                       fragment_length := str_size (body_ e) |} |}, w).
Proof.
  intros He Hh. unfold serve_hit. mrun. destruct (decide (body_ e = "")) as [Hb|Hb].
  - rewrite Hb. simpl. by erewrite bind_Done by (by apply fetch_add_pins_eq).
  - destruct (Z.eqb_spec (str_size (body_ e)) 0) as [Hz|]; [|done].
    unfold str_size in Hz. destruct (body_ e); [done|simpl in Hz; lia].
Qed.

Lemma substring_all s : String.substring 0 (String.length s) s = s.
Proof. induction s as [|c s IH]; simpl; [done|]. by rewrite IH. Qed.

Lemma read_fragment_eq w p e :
  entries w !! p = Some e ->
  read_fragment {| fragment_entry := p; fragment_length := str_size (body_ e) |} w
  = Done (body_ e, w).
Proof.
  intros He. unfold read_fragment. simpl. mrun. unfold str_size.
  by rewrite Nat2Z.id, substring_all.
Qed.
End CacheProps.
