(* ===== verification/CacheSpec.v ===== *)
(** What the cache promises its clients, as a map from keys to statuses, and
    the refinement theorem: every public method of [RingBufferCache], run to
    its end, is a step of that specification. *)
From S2P Require Import Prelude CacheTypes Ring Cache CacheProps.

Local Open Scope Z_scope.
Local Open Scope cpp_scope.

Section Spec.
Context {H : Type} `{HeaderMapApi H}.
Implicit Types w : world H.

(** ** The specification *)

Inductive status :=
| Absent
| Pending (headers : option H) (body : string) (waiters : list wptr)
| Stored (headers : H) (body : string).

Definition model := string -> status.

Inductive operation :=
| OpLookup (key : string) (callbacks : option StreamDecoderFilterCallbacks)
| OpPublishHeaders (key : string) (h : H) (end_stream : bool)
| OpPublishData (key : string) (data : string) (end_stream : bool)
| OpRemoveWaiter (key : string) (waiter : wptr).

Inductive reply :=
| ReplyHit (h : H) (body : string)
| ReplyLeader
| ReplyFollower (waiter : wptr)
| ReplyUnit.

(** Only stored responses may disappear on their own. *)
Definition evicts (m m' : model) : Prop :=
  forall k, m' k = m k \/ (exists h b, m k = Stored h b) /\ m' k = Absent.

(** [m'] is [m] with [k] set to [s]. *)
Definition updates (k : string) (s : status) (m m' : model) : Prop :=
  m' k = s /\ forall k', k' <> k -> m' k' = m k'.

(** The end of a stream: the response is stored, or dropped, and the others
    may be evicted for it. *)
Definition completes (k : string) (h : H) (b : string) (m m' : model) : Prop :=
  exists m1, evicts m m1 /\ (updates k (Stored h b) m1 m' \/ updates k Absent m1 m').

Definition publishes (end_stream : bool) (k : string) (h : H) (b : string) (ws : list wptr)
    (m m' : model) : Prop :=
  if end_stream then completes k h b m m' else updates k (Pending (Some h) b ws) m m'.

Inductive spec_step (m : model) : operation -> reply -> model -> Prop :=
| spec_hit k cb h b m' :
    m k = Stored h b -> (forall k', m' k' = m k') ->
    spec_step m (OpLookup k cb) (ReplyHit h b) m'
| spec_leader k cb m' :
    m k = Absent -> updates k (Pending None "" []) m m' ->
    spec_step m (OpLookup k cb) ReplyLeader m'
| spec_follower k cb h b ws wp m' :
    m k = Pending h b ws -> (forall k' h' b' ws', m k' = Pending h' b' ws' -> wp ∉ ws') ->
    updates k (Pending h b (ws ++ [wp])) m m' ->
    spec_step m (OpLookup k (Some cb)) (ReplyFollower wp) m'
| spec_headers k h end_stream b ws m' :
    m k = Pending None b ws -> publishes end_stream k h b ws m m' ->
    spec_step m (OpPublishHeaders k h end_stream) ReplyUnit m'
| spec_headers_again k h h' end_stream b ws m' :
    m k = Pending (Some h') b ws -> publishes end_stream k h' b ws m m' ->
    spec_step m (OpPublishHeaders k h end_stream) ReplyUnit m'
| spec_headers_ignored k h end_stream :
    (forall h' b ws, m k <> Pending h' b ws) ->
    spec_step m (OpPublishHeaders k h end_stream) ReplyUnit m
| spec_data k h b ws data end_stream m' :
    m k = Pending (Some h) b ws -> publishes end_stream k h (b +:+ data) ws m m' ->
    spec_step m (OpPublishData k data end_stream) ReplyUnit m'
| spec_data_ignored k data end_stream :
    (forall h' b ws, m k <> Pending h' b ws) ->
    spec_step m (OpPublishData k data end_stream) ReplyUnit m
| spec_remove k h b ws ws' wp m' :
    m k = Pending h b ws -> (forall x, x ∈ ws' <-> x ∈ ws /\ x <> wp) -> NoDup ws' ->
    updates k (Pending h b ws') m m' ->
    spec_step m (OpRemoveWaiter k wp) ReplyUnit m'
| spec_remove_ignored k wp :
    (forall h' b ws, m k <> Pending h' b ws) ->
    spec_step m (OpRemoveWaiter k wp) ReplyUnit m.

(** The calling contract: a follower has callbacks, a leader publishes the
    headers before the data. *)
Definition allowed (m : model) (op : operation) : Prop :=
  match op with
  | OpLookup k cb => (exists h b ws, m k = Pending h b ws) -> is_Some cb
  | OpPublishData k _ _ => forall b ws, m k <> Pending None b ws
  | _ => True
  end.

(** ** The implementation *)

Definition exec (op : operation) : M (world H) (option (LookupResult H)) :=
  match op with
  | OpLookup k cb => let* r := lookup k cb in ret (Some r)
  | OpPublishHeaders k h end_stream => publishHeaders k h end_stream;;; ret None
  | OpPublishData k data end_stream => publishData k data end_stream;;; ret None
  | OpRemoveWaiter k wp => removeWaiter k wp;;; ret None
  end.

(** The bytes in the buffer of a hit. *)
Definition hit_bytes (w : world H) (d : HitData H) : option string :=
  match hit_body_ d with
  | None => Some ""
  | Some f => match read_fragment f w with Done (s, _) => Some s | Faulted _ => None end
  end.

(** What a caller sees of a result. *)
Definition observe (w : world H) (r : option (LookupResult H)) : option reply :=
  match r with
  | None => Some ReplyUnit
  | Some r =>
      match type_ r with
      | Hit => match hit_ r with
               | Some d => (ReplyHit (hit_headers_ d)) <$> hit_bytes w d
               | None => None
               end
      | Leader => Some ReplyLeader
      | Follower => ReplyFollower <$> waiter_ r
      end
  end.

(** The status of a key in the data structures of the cache. *)
Definition status_of (w : world H) : model := fun k =>
  match cache_map_ w !! k with
  | Some p =>
      match entries w !! p with
      | Some e => match headers_ e with Some h => Stored h (body_ e) | None => Absent end
      | None => Absent
      end
  | None =>
      match inflight_map_ w !! k with
      | Some i => Pending (inflight_headers_ i) (inflight_body_ i) (waiters_ i)
      | None => Absent
      end
  end.

(** ** The refinement *)

Context `{!HeaderMapLaws H}.

Lemma status_stored w k p e h :
  cache_map_ w !! k = Some p -> entries w !! p = Some e -> headers_ e = Some h ->
  status_of w k = Stored h (body_ e).
Proof. unfold status_of. by intros -> -> ->. Qed.

Lemma status_pending w k i :
  cache_ok w -> inflight_map_ w !! k = Some i ->
  status_of w k = Pending (inflight_headers_ i) (inflight_body_ i) (waiters_ i).
Proof.
  intros Hw Hi. unfold status_of. by rewrite (inflight_not_cached _ _ _ Hw Hi), Hi.
Qed.

Lemma status_not_pending w k :
  cache_ok w -> inflight_map_ w !! k = None ->
  forall h b ws, status_of w k <> Pending h b ws.
Proof. intros Hw Hi h b ws. unfold status_of. rewrite Hi. by repeat case_match. Qed.

Lemma status_cases w k :
  cache_ok w ->
  (exists p e h, cache_map_ w !! k = Some p /\ entries w !! p = Some e /\ headers_ e = Some h) \/
  (cache_map_ w !! k = None /\ exists i, inflight_map_ w !! k = Some i) \/
  (cache_map_ w !! k = None /\ inflight_map_ w !! k = None /\ status_of w k = Absent).
Proof.
  intros Hw. destruct (cache_map_ w !! k) as [p|] eqn:Hp.
  - left. destruct (cached_entry _ _ _ (co_ring _ Hw) Hp) as (e & h & z & He & _ & Hh & _).
    by exists p, e, h.
  - right. destruct (inflight_map_ w !! k) as [i|] eqn:Hi; [left; eauto|right].
    split_and!; [done..|]. unfold status_of. by rewrite Hp, Hi.
Qed.

Lemma status_add_pins w p n e k :
  entries w !! p = Some e -> status_of (add_pins p n e w) k = status_of w k.
Proof.
  intros He. unfold status_of. simpl. destruct (cache_map_ w !! k) as [q|]; [|done].
  destruct (decide (p = q)) as [->|]; [|by rewrite lookup_insert_ne].
  by rewrite lookup_insert_eq, He.
Qed.

Lemma status_with_inflight w k i :
  cache_map_ w !! k = None ->
  updates k (Pending (inflight_headers_ i) (inflight_body_ i) (waiters_ i))
    (status_of w) (status_of (with_inflight k i w)).
Proof.
  intros Hp. unfold status_of. split; simpl.
  - by rewrite Hp, lookup_insert_eq.
  - intros k' Hne. by rewrite lookup_insert_ne by congruence.
Qed.

Lemma status_evict need w b w' :
  cache_ok w -> evict_result need w b w' -> evicts (status_of w) (status_of w').
Proof.
  intros Hw Hres k. pose proof (evict_result_cache_ok _ _ _ _ Hw Hres) as Hw'.
  destruct (evict_result_frame _ _ _ _ Hres) as (_ & _ & Hin & _ & _ & _ & _ & Hes & Hcm).
  destruct (status_cases w' k Hw') as [(p & e & h & Hp & He & Hh)|[[Hp [i Hi]]|(Hp & Hi & Hst)]].
  - left. rewrite (status_stored w' k p e h), (status_stored w k p e h);
      eauto using lookup_weaken.
  - left. rewrite (status_pending w' k i), (status_pending w k i); congruence.
  - rewrite Hst. destruct (status_cases w k Hw) as [(p & e & h & Hp0 & He & Hh)|[[_ [i Hi0]]|(_ & _ & ->)]].
    + right. split; [|done]. exists h, (body_ e). by eapply status_stored.
    + congruence.
    + by left.
Qed.

Lemma status_delete_inflight w k :
  cache_map_ w !! k = None ->
  updates k Absent (status_of w) (status_of (set_inflight_map (delete k) w)).
Proof.
  intros Hp. unfold status_of. split; simpl.
  - by rewrite Hp, lookup_delete_eq.
  - intros k' Hne. by rewrite lookup_delete_ne by congruence.
Qed.

Lemma status_insert_entry w e h z :
  ring_ok w -> headers_ e = Some h ->
  updates (key_ e) (Stored h (body_ e)) (status_of w) (status_of (insert_entry e z w)).
Proof.
  intros Hw Hh. unfold status_of. split; simpl.
  - by rewrite !lookup_insert_eq, Hh.
  - intros k' Hne. rewrite lookup_insert_ne by congruence.
    destruct (cache_map_ w !! k') as [p|] eqn:Hp; [|done].
    destruct (ro_map _ Hw _ _ Hp) as (i & e' & _ & He' & _).
    rewrite lookup_insert_ne; [done|]. intros <-. by rewrite ring_next_fresh in He'.
Qed.

Lemma updates_trans k s1 s2 (m m1 m2 : model) :
  updates k s1 m m1 -> updates k s2 m1 m2 -> updates k s2 m m2.
Proof. intros [_ Hm] [Hs Hm']. split; [done|]. intros k' Hne. by rewrite Hm', Hm. Qed.

Lemma completes_weaken k h b (m m0 m' : model) :
  (forall k', k' <> k -> m0 k' = m k') -> completes k h b m m' -> completes k h b m0 m'.
Proof.
  intros Hm (m1 & Hev & Hup).
  exists (fun k' => if decide (k' = k) then m0 k else m1 k'). split.
  - intros k'. case_decide as Hk; [subst; by left|]. rewrite (Hm k') by done. apply Hev.
  - destruct Hup as [[Hk Hup]|[Hk Hup]]; [left|right]; (split; [done|]);
      intros k' Hne; case_decide; [done|by apply Hup|done|by apply Hup].
Qed.

Lemma finalized_completes w k i h w' :
  cache_ok w -> inflight_map_ w !! k = Some i -> finalized k h (inflight_body_ i) w w' ->
  completes k h (inflight_body_ i) (status_of w) (status_of w').
Proof.
  intros Hw Hi Hfin. destruct Hfin as [w1 Hres|w1 Hres]; exists (status_of w1);
    (split; [by eapply status_evict|]);
    pose proof (evict_result_ok _ _ _ _ (co_ring _ Hw) Hres) as Hring;
    destruct (evict_result_frame _ _ _ _ Hres) as (_ & _ & _ & _ & _ & _ & _ & _ & Hcm);
    pose proof (lookup_weaken_None _ _ _ (inflight_not_cached _ _ _ Hw Hi) Hcm) as Hnone.
  - left. eapply updates_trans; [by apply status_delete_inflight|].
    apply (status_insert_entry _ (fresh_entry k h (inflight_body_ i))); [|done].
    by apply set_inflight_ring.
  - right. by apply status_delete_inflight.
Qed.

Lemma settled_publishes end_stream w k i i' h w' :
  cache_ok w -> inflight_map_ w !! k = Some i -> inflight_headers_ i' = Some h ->
  waiters_ i' = waiters_ i -> cache_ok (with_inflight k i' w) ->
  settled end_stream k h (inflight_body_ i') (with_inflight k i' w) w' ->
  publishes end_stream k h (inflight_body_ i') (waiters_ i) (status_of w) (status_of w').
Proof.
  intros Hw Hi Hh Hws Hw1 Hset.
  pose proof (status_with_inflight w k i' (inflight_not_cached _ _ _ Hw Hi)) as Hup.
  destruct end_stream; simpl in *.
  - eapply completes_weaken; [|eapply finalized_completes; [exact Hw1|apply lookup_insert_eq|done]].
    intros k' Hne. symmetry. by apply Hup.
  - subst w'. by rewrite Hh, Hws in Hup.
Qed.

(** Posting touches the queues only. *)
Definition requeued (w w' : world H) : Prop := exists q, w' = set_queues (fun _ => q) w.

Lemma requeued_refl w : requeued w w.
Proof. exists (queues w). by destruct w. Qed.

Lemma requeued_trans w1 w2 w3 : requeued w1 w2 -> requeued w2 w3 -> requeued w1 w3.
Proof. intros [q1 ->] [q2 ->]. by exists q2. Qed.

Lemma requeued_ok w w' : cache_ok w -> requeued w w' -> cache_ok w'.
Proof. intros Hw [q ->]. destruct Hw as [[]]. split; [split|..]; done. Qed.

Lemma post_all_eq (task : wptr -> Task H) ws w :
  (forall wp, wp ∈ ws -> is_Some (waiter_heap w !! wp)) ->
  exists w', for_each (fun wp => post_to wp (task wp)) ws w = Done (tt, w') /\ requeued w w'.
Proof.
  revert w. induction ws as [|wp ws IH]; intros w Hws; simpl.
  { exists w. split; [done|apply requeued_refl]. }
  destruct (Hws wp ltac:(set_solver)) as [x Hx].
  assert (Hpost : post_to wp (task wp) w = Done (tt, enqueue (dispatcher_ x) (task wp) w)).
  { unfold post_to, deref_waiter. erewrite bind_Done by (cbv beta; by rewrite Hx). done. }
  erewrite bind_Done by exact Hpost.
  destruct (IH (enqueue (dispatcher_ x) (task wp) w)) as (w' & Hrun & Hq).
  { intros wp' Hwp'. simpl. apply Hws. set_solver. }
  exists w'. split; [done|]. eapply requeued_trans; [|done]. by eexists.
Qed.

Definition refines_step (op : operation) (w : world H) : Prop :=
  exists r w' rep,
    exec op w = Done (r, w') /\ cache_ok w' /\ observe w' r = Some rep /\
    spec_step (status_of w) op rep (status_of w').

Lemma lookup_hit_refines w k cb p e h :
  cache_ok w -> cache_map_ w !! k = Some p -> entries w !! p = Some e -> headers_ e = Some h ->
  refines_step (OpLookup k cb) w.
Proof.
  intros Hw Hp He Hh. unfold refines_step, exec, lookup.
  erewrite !bind_assoc, bind_Done by (by apply lookup_locked_hit). cbv beta iota.
  set (e1 := set_pins (fun z => u32 (z + 1)) e).
  assert (He1 : entries (add_pins p 1 e w) !! p = Some e1) by apply lookup_insert_eq.
  pose proof (add_pins_ok w p 1 e Hw He) as Hw1.
  pose proof (serve_hit_eq (add_pins p 1 e w) p e1 h He1 Hh) as Hserve. simpl in Hserve.
  destruct (decide (body_ e = "")) as [Hb|Hb]; rewrite bind_assoc; erewrite bind_Done by exact Hserve;
    rewrite bind_ret; (do 3 eexists; split; [reflexivity|]; split; [|split]).
  - by apply add_pins_ok.
  - reflexivity.
  - simpl. rewrite createHeaderMap_copy, <- Hb. apply spec_hit; [by eapply status_stored|].
    intros k'. by rewrite (status_add_pins _ _ _ e1), (status_add_pins _ _ _ e).
  - done.
  - unfold observe, hit_bytes. simpl.
    change (body_ e) with (body_ e1). erewrite read_fragment_eq by exact He1. reflexivity.
  - simpl. rewrite createHeaderMap_copy. apply spec_hit; [by eapply status_stored|].
    intros k'. by rewrite (status_add_pins _ _ _ e).
Qed.

Lemma lookup_refines w k cb :
  cache_ok w -> allowed (status_of w) (OpLookup k cb) -> refines_step (OpLookup k cb) w.
Proof.
  intros Hw Hal.
  destruct (status_cases w k Hw) as [(p & e & h & Hp & He & Hh)|[[Hp [i Hi]]|(Hp & Hi & Hst)]].
  - by eapply lookup_hit_refines.
  - pose proof (status_pending _ _ _ Hw Hi) as Hst.
    destruct Hal as [cb' ->]; [by eauto|].
    unfold refines_step, exec, lookup.
    erewrite !bind_assoc, bind_Done by (by apply lookup_locked_follower). cbv beta iota.
    rewrite !bind_ret. do 3 eexists. split; [reflexivity|]. split; [|split; [reflexivity|]].
    + by apply become_follower_ok.
    + eapply spec_follower; [exact Hst| |].
      * intros k' h' b' ws' Hk' Hin.
        destruct (status_cases w k' Hw) as [(p & e & h & Hp' & He' & Hh')|[[_ [j Hj]]|(_ & _ & Hab)]].
        -- by rewrite (status_stored _ _ _ _ _ Hp' He' Hh') in Hk'.
        -- rewrite (status_pending _ _ _ Hw Hj) in Hk'. simplify_eq.
           destruct (co_waiter _ Hw _ _ _ Hj Hin) as [x Hx]. apply (co_fresh _ Hw) in Hx. lia.
        -- congruence.
      * pose proof (status_with_inflight w k (push_waiter (next_waiter w) i) Hp) as Hup.
        simpl in Hup. unfold become_follower. destruct (inflight_headers_ i); exact Hup.
  - unfold refines_step, exec, lookup.
    erewrite !bind_assoc, bind_Done by (by apply lookup_locked_leader). cbv beta iota.
    rewrite !bind_ret. do 3 eexists. split; [reflexivity|]. split; [|split; [reflexivity|]].
    + by apply become_leader_ok.
    + apply spec_leader; [done|]. by apply (status_with_inflight w k empty_inflight).
Qed.

Lemma post_refines op (task : wptr -> Task H) ws w w' :
  cache_ok w' -> (forall wp, wp ∈ ws -> is_Some (waiter_heap w' !! wp)) ->
  exec op w = (for_each (fun wp => post_to wp (task wp)) ws;;; ret None) w' ->
  spec_step (status_of w) op ReplyUnit (status_of w') -> refines_step op w.
Proof.
  intros Hw' Hws Hrun Hspec. destruct (post_all_eq task ws w' Hws) as (w2 & Hpost & [q ->]).
  exists None, (set_queues (fun _ => q) w'), ReplyUnit. split_and!; [|by eapply requeued_ok; [|eexists]|done|done].
  rewrite Hrun. by erewrite bind_Done.
Qed.

Lemma publishHeaders_refines w k h end_stream :
  cache_ok w -> refines_step (OpPublishHeaders k h end_stream) w.
Proof.
  intros Hw. destruct (inflight_map_ w !! k) as [i|] eqn:Hi.
  - destruct (publishHeaders_locked_result w k i h end_stream Hw Hi) as (w' & Hrun & Hset).
    pose proof (with_headers_ok w k i h Hw Hi) as Hw1.
    destruct (settled_frame _ _ _ _ _ _ Hset) as (Hwt & _ & _). simpl in Hwt.
    eapply (post_refines _ (fun wp =>
      PostHeaders wp (createHeaderMap (createHeaderMap (headers_after h i))) end_stream) (waiters_ i) w w').
    + eapply (settled_ok end_stream k (set_headers_if_empty h i)); [exact Hw1|apply lookup_insert_eq|done].
    + intros wp Hwp. rewrite Hwt. by eapply co_waiter.
    + unfold exec, publishHeaders. rewrite bind_assoc. by erewrite bind_Done by exact Hrun.
    + pose proof (settled_publishes end_stream w k i (set_headers_if_empty h i) (headers_after h i) w'
        Hw Hi (set_headers_after h i) eq_refl Hw1 Hset) as Hpub.
      pose proof (status_pending _ _ _ Hw Hi) as Hst. unfold headers_after in *.
      destruct (inflight_headers_ i) as [h'|].
      * by eapply spec_headers_again.
      * rewrite createHeaderMap_copy in Hpub. by eapply spec_headers.
  - unfold refines_step, exec, publishHeaders.
    rewrite bind_assoc. erewrite bind_Done by (by apply publishHeaders_locked_absent).
    exists None, w, ReplyUnit. split_and!; [done..|].
    apply spec_headers_ignored. by apply status_not_pending.
Qed.

Lemma publishData_refines w k data end_stream :
  cache_ok w -> allowed (status_of w) (OpPublishData k data end_stream) ->
  refines_step (OpPublishData k data end_stream) w.
Proof.
  intros Hw Hal. destruct (inflight_map_ w !! k) as [i|] eqn:Hi.
  - pose proof (status_pending _ _ _ Hw Hi) as Hst.
    destruct (inflight_headers_ i) as [h|] eqn:Hh; [|by edestruct Hal].
    destruct (publishData_locked_result w k i h data end_stream Hw Hi Hh) as (w' & Hrun & Hset).
    assert (Hw1 : cache_ok (with_inflight k (append_body data i) w)) by (apply with_body_ok; eauto).
    destruct (settled_frame _ _ _ _ _ _ Hset) as (Hwt & _ & _). simpl in Hwt.
    eapply (post_refines _ (fun wp => PostData wp data end_stream) (waiters_ i) w w').
    + eapply (settled_ok end_stream k (append_body data i)); [exact Hw1|apply lookup_insert_eq|done].
    + intros wp Hwp. rewrite Hwt. by eapply co_waiter.
    + unfold exec, publishData. rewrite bind_assoc. by erewrite bind_Done by exact Hrun.
    + eapply spec_data; [exact Hst|].
      by apply (settled_publishes end_stream w k i (append_body data i) h w' Hw Hi Hh eq_refl Hw1).
  - unfold refines_step, exec, publishData.
    rewrite bind_assoc. erewrite bind_Done by (by apply publishData_locked_absent).
    exists None, w, ReplyUnit. split_and!; [done..|].
    apply spec_data_ignored. by apply status_not_pending.
Qed.

Lemma removeWaiter_refines w k wp :
  cache_ok w -> refines_step (OpRemoveWaiter k wp) w.
Proof.
  intros Hw. unfold refines_step, exec. destruct (inflight_map_ w !! k) as [i|] eqn:Hi.
  - erewrite bind_Done by (by apply removeWaiter_eq).
    do 3 eexists. split; [reflexivity|]. split; [by apply with_removed_ok|]. split; [reflexivity|].
    eapply spec_remove; [by apply status_pending| | |].
    + intros x. apply remove_waiter_elem. by eapply co_nodup.
    + apply remove_waiter_nodup. by eapply co_nodup.
    + apply (status_with_inflight w k (remove_waiter wp i)). by eapply inflight_not_cached.
  - erewrite bind_Done by (by apply removeWaiter_absent).
    exists None, w, ReplyUnit. split_and!; [done..|].
    apply spec_remove_ignored. by apply status_not_pending.
Qed.

(** Every method refines its specification. *)
Lemma exec_refines op w :
  cache_ok w -> allowed (status_of w) op -> refines_step op w.
Proof.
  intros Hw Hal. destruct op; [by apply lookup_refines|by apply publishHeaders_refines| |].
  - by apply publishData_refines.
  - by apply removeWaiter_refines.
Qed.
End Spec.
