(* ===== verification/CacheSystem.v ===== *)
(** The cache under concurrency: request streams on several threads, the
    dispatchers of those threads, and every interleaving of their steps at the
    granularity of the mutex.  A locked part of Cache.v is one step; what runs
    after the mutex is released (serving a hit, each post to a dispatcher,
    each turn of an event loop, the release of a buffer) is a step of its own. *)
From S2P Require Import Prelude CacheTypes Ring Cache CacheProps CacheSpec.

Local Open Scope Z_scope.
Local Open Scope cpp_scope.

Section System.
Context {H : Type} `{HeaderMapApi H}.

(** ** Streams *)

(** What a leader has published so far, and the posts its last publication
    still has to make. *)
Record publication := Publication {
  pub_key : string;
  pub_headers : option H;
  pub_body : string;
  pub_ended : bool;
  pub_todo : list (Task H)
}.

(** Where a stream is, by its role. *)
Inductive actor :=
| Serving (key : string) (p : eptr) (body_length : Z)
| Served (key : string) (hit : HitData H)
| Leading (l : publication)
| Following (key : string) (wp : wptr)
| Cancelled (key : string) (wp : wptr)
| Gone.

(** [leaders] and [source] are ghost state: the leader of an inflight key,
    and the leader a waiter was attached to.  [calls] records the calls made
    on the callbacks of a waiter. *)
Record system := System {
  shared : world H;
  actors : list actor;
  leaders : gmap string nat;
  source : gmap wptr nat;
  calls : gmap wptr (list (Encode H))
}.

Inductive label :=
| DoLookup (key : string) (cb : StreamDecoderFilterCallbacks)
| DoServe (s : nat)
| DoRelease (s : nat)
| DoHeaders (s : nat) (h : H) (end_stream : bool)
| DoData (s : nat) (data : string) (end_stream : bool)
| DoPost (s : nat)
| DoDispatch (d : dispatcher)
| DoCancel (s : nat)
| DoRemove (s : nat).

Definition calls_of (sys : system) (wp : wptr) : list (Encode H) := default [] (calls sys !! wp).

Definition set_actor (s : nat) (a : actor) (sys : system) (w : world H) : system :=
  System w (<[s := a]> (actors sys)) (leaders sys) (source sys) (calls sys).

(** Runs [m] on the shared world; the step is enabled. *)
Definition run {A} (m : M (world H) A) (sys : system) (k : A -> world H -> system)
    : option (outcome system) :=
  Some (match m (shared sys) with
        | Done (a, w) => Done (k a w)
        | Faulted f => Faulted f
        end).

(** A new stream looks its key up.  There are fewer streams than a pin
    counter can count. *)
Definition step_lookup (key : string) (cb : StreamDecoderFilterCallbacks) (sys : system)
    : option (outcome system) :=
  if Z.of_nat (length (actors sys)) <? 2 ^ 32 - 1 then
    let s := length (actors sys) in
    run (lookup_locked key (Some cb)) sys (fun r w =>
      match r with
      | LockedHit p n =>
          System w (actors sys ++ [Serving key p n]) (leaders sys) (source sys) (calls sys)
      | LockedLeader =>
          System w (actors sys ++ [Leading (Publication key None "" false [])])
            (<[key := s]> (leaders sys))
            (source sys) (calls sys)
      | LockedFollower wp =>
          System w (actors sys ++ [Following key wp]) (leaders sys)
            (<[wp := default s (leaders sys !! key)]> (source sys)) (calls sys)
      end)
  else None.

Definition sys_exec (l : label) (sys : system) : option (outcome system) :=
  match l with
  | DoLookup key cb => step_lookup key cb sys
  | DoServe s =>
      match actors sys !! s with
      | Some (Serving key p n) => run (serve_hit p n) sys (fun d => set_actor s (Served key d) sys)
      | _ => None
      end
  | DoRelease s =>
      match actors sys !! s with
      | Some (Served key d) =>
          match hit_body_ d with
          | Some f => run (release_fragment f) sys (fun _ =>
              set_actor s (Served key {| hit_headers_ := hit_headers_ d; hit_body_ := None |}) sys)
          | None => None
          end
      | _ => None
      end
  | DoHeaders s h end_stream =>
      match actors sys !! s with
      | Some (Leading (Publication key None _ false [])) =>
          run (publishHeaders_locked key h end_stream) sys (fun r =>
            set_actor s (Leading (Publication key (Some h) "" end_stream
              match r with
              | Some (ws, hc) =>
                  map (fun wp => PostHeaders wp (createHeaderMap hc) end_stream) ws
              | None => []
              end)) sys)
      | _ => None
      end
  | DoData s data end_stream =>
      match actors sys !! s with
      | Some (Leading (Publication key (Some h) body false [])) =>
          run (publishData_locked key data end_stream) sys (fun r =>
            set_actor s (Leading (Publication key (Some h) (body +:+ data) end_stream
              match r with
              | Some ws => map (fun wp => PostData wp data end_stream) ws
              | None => []
              end)) sys)
      | _ => None
      end
  | DoPost s =>
      match actors sys !! s with
      | Some (Leading (Publication key h body ended (t :: todo))) =>
          run (post_to (task_waiter t) t) sys (fun _ =>
            set_actor s (Leading (Publication key h body ended todo)) sys)
      | _ => None
      end
  | DoDispatch d =>
      match queues (shared sys) !! d with
      | Some (t :: _) =>
          run (run_dispatcher d) sys (fun r w =>
            System w (actors sys) (leaders sys) (source sys)
              match r with
              | Some (_, cs) => <[task_waiter t := calls_of sys (task_waiter t) ++ cs]> (calls sys)
              | None => calls sys
              end)
      | _ => None
      end
  | DoCancel s =>
      match actors sys !! s with
      | Some (Following key wp) =>
          run (cancel_waiter wp) sys (fun _ => set_actor s (Cancelled key wp) sys)
      | _ => None
      end
  | DoRemove s =>
      match actors sys !! s with
      | Some (Cancelled key wp) =>
          run (removeWaiter key wp) sys (fun _ => set_actor s Gone sys)
      | _ => None
      end
  end.

Definition sys_step (sys : system) (l : label) (sys' : system) : Prop :=
  sys_exec l sys = Some (Done sys').

Definition initial (capacity slot_count : Z) : system :=
  System (RingBufferCache capacity slot_count) [] ∅ ∅ ∅.

Inductive reachable (capacity slot_count : Z) : system -> Prop :=
| reach_init : reachable capacity slot_count (initial capacity slot_count)
| reach_step sys l sys' :
    reachable capacity slot_count sys -> sys_step sys l sys' ->
    reachable capacity slot_count sys'.

(** ** Views of a response *)

(** What a sequence of calls amounts to for the client behind the callbacks. *)
Inductive view :=
| NoHeaders
| Streaming (h : H) (body : string) (ended : bool)
| Malformed.

Definition view_call (v : view) (c : Encode H) : view :=
  match v, c with
  | NoHeaders, EncodeHeaders h e _ => Streaming h "" e
  | Streaming h b false, EncodeData d e => Streaming h (b +:+ d) e
  | _, _ => Malformed
  end.

Definition view_calls (v : view) (cs : list (Encode H)) : view := fold_left view_call cs v.

(** The response a leader has published so far. *)
Definition published (l : publication) : view :=
  match pub_headers l with
  | None => NoHeaders
  | Some h => Streaming h (pub_body l) (pub_ended l)
  end.

(** The calls the tasks of a list will make for waiter [wp]. *)
Definition calls_for (wp : wptr) (ts : list (Task H)) : list (Encode H) :=
  ts ≫= (fun t => if decide (task_waiter t = wp) then task_calls t else []).

Lemma view_calls_app v cs1 cs2 :
  view_calls v (cs1 ++ cs2) = view_calls (view_calls v cs1) cs2.
Proof. apply fold_left_app. Qed.

Lemma calls_for_app wp ts1 ts2 : calls_for wp (ts1 ++ ts2) = calls_for wp ts1 ++ calls_for wp ts2.
Proof. apply bind_app. Qed.

Lemma calls_for_cons wp t ts :
  calls_for wp (t :: ts)
  = (if decide (task_waiter t = wp) then task_calls t else []) ++ calls_for wp ts.
Proof. done. Qed.

Lemma calls_for_nil wp ts :
  (forall t, t ∈ ts -> task_waiter t <> wp) -> calls_for wp ts = [].
Proof.
  induction ts as [|t ts IH]; intros Hts; [done|]. rewrite calls_for_cons.
  rewrite decide_False by (apply Hts; set_solver). apply IH. set_solver.
Qed.

(** One publication reaches each waiter of a list without duplicates once. *)
Lemma calls_for_map wp ws (task : wptr -> Task H) :
  (forall x, task_waiter (task x) = x) -> NoDup ws ->
  calls_for wp (map task ws) = if decide (wp ∈ ws) then task_calls (task wp) else [].
Proof.
  intros Htask. induction ws as [|x ws IH]; intros Hnd.
  { rewrite decide_False; [done|]. apply not_elem_of_nil. }
  apply NoDup_cons in Hnd as [Hx Hnd]. cbn [map]. rewrite calls_for_cons, Htask, (IH Hnd).
  destruct (decide (x = wp)) as [->|Hne].
  - rewrite (decide_True (P := wp ∈ wp :: ws)) by set_solver.
    rewrite decide_False by done. apply app_nil_r.
  - destruct (decide (wp ∈ ws)).
    + rewrite decide_True; [done|set_solver].
    + rewrite decide_False; [done|set_solver].
Qed.

(** ** The invariant *)

Definition leading (acts : list actor) (s : nat) : option publication :=
  match acts !! s with Some (Leading l) => Some l | _ => None end.

(** Whether a stream holds a pin on entry [p]. *)
Definition pins_on (p : eptr) (a : actor) : bool :=
  match a with
  | Serving _ q _ => bool_decide (q = p)
  | Served _ d => match hit_body_ d with
                  | Some f => bool_decide (fragment_entry f = p)
                  | None => false
                  end
  | _ => false
  end.

Definition pin_count (p : eptr) (acts : list actor) : Z :=
  sumZ (fun a => if pins_on p a then 1 else 0) acts.

(** Entries and the streams that read them. *)
Record refs_ok (es : gmap eptr (Entry H)) (acts : list actor) : Prop := {
  rf_pins p e : es !! p = Some e -> pins_ e = pin_count p acts;
  rf_serving s key p n : acts !! s = Some (Serving key p n) ->
    exists e h, es !! p = Some e /\ key_ e = key /\ n = str_size (body_ e) /\ headers_ e = Some h;
  rf_served s key d f : acts !! s = Some (Served key d) -> hit_body_ d = Some f ->
    exists e, es !! fragment_entry f = Some e /\ key_ e = key /\
              fragment_length f = str_size (body_ e) /\ headers_ e = Some (hit_headers_ d);
  rf_count : Z.of_nat (length acts) < 2 ^ 32;
  rf_origin p e : es !! p = Some e ->
    exists s l, leading acts s = Some l /\ pub_key l = key_ e /\ pub_headers l = headers_ e /\
                pub_body l = body_ e /\ pub_ended l = true
}.

(** Inflight responses and their leaders. *)
Record leaders_ok (infl : gmap string (Inflight H)) (acts : list actor)
    (lds : gmap string nat) : Prop := {
  ld_inflight k i : infl !! k = Some i ->
    exists s l, lds !! k = Some s /\ leading acts s = Some l /\ pub_key l = k /\
                pub_headers l = inflight_headers_ i /\ pub_body l = inflight_body_ i /\
                pub_ended l = false;
  ld_leader s l : leading acts s = Some l -> pub_ended l = false ->
    lds !! pub_key l = Some s /\ is_Some (infl !! pub_key l);
  ld_start s l : leading acts s = Some l -> pub_headers l = None -> pub_body l = "";
  ld_ended s l : leading acts s = Some l -> pub_ended l = true -> is_Some (pub_headers l)
}.

Definition received (cls : gmap wptr (list (Encode H))) (wp : wptr) : list (Encode H) :=
  default [] (cls !! wp).

(** Everything waiter [wp] has been told, is queued, or is about to be posted. *)
Definition stream_of (wp : wptr) (x : Waiter) (l : publication)
    (qs : gmap dispatcher (list (Task H))) (cls : gmap wptr (list (Encode H))) : list (Encode H) :=
  received cls wp ++ calls_for wp (default [] (qs !! dispatcher_ x)) ++ calls_for wp (pub_todo l).

(** Waiters, and the responses they are told. *)
Record waiters_ok (infl : gmap string (Inflight H)) (heap : gmap wptr Waiter)
    (qs : gmap dispatcher (list (Task H))) (acts : list actor) (lds : gmap string nat)
    (src : gmap wptr nat) (cls : gmap wptr (list (Encode H))) : Prop := {
  wt_waiter wp x : heap !! wp = Some x ->
    exists s l, src !! wp = Some s /\ leading acts s = Some l /\
      (cancelled x = false ->
        view_calls NoHeaders (stream_of wp x l qs cls) = published l /\
        (pub_ended l = false -> exists i, infl !! pub_key l = Some i /\ wp ∈ waiters_ i));
  wt_attached k i wp : infl !! k = Some i -> wp ∈ waiters_ i ->
    exists s, lds !! k = Some s /\ src !! wp = Some s;
  wt_todo s l t : leading acts s = Some l -> t ∈ pub_todo l ->
    src !! task_waiter t = Some s /\ is_Some (heap !! task_waiter t);
  wt_queue d q t : qs !! d = Some q -> t ∈ q ->
    exists x, heap !! task_waiter t = Some x /\ dispatcher_ x = d;
  wt_calls wp cs : cls !! wp = Some cs -> is_Some (heap !! wp);
  wt_following s key wp : acts !! s = Some (Following key wp) ->
    exists x s' l, heap !! wp = Some x /\ cancelled x = false /\
      src !! wp = Some s' /\ leading acts s' = Some l /\ pub_key l = key;
  wt_cancelled s key wp : acts !! s = Some (Cancelled key wp) ->
    exists x, heap !! wp = Some x /\ cancelled x = true;
  wt_unique s s' key key' wp : acts !! s = Some (Following key wp) ->
    acts !! s' = Some (Following key' wp) \/ acts !! s' = Some (Cancelled key' wp) -> s = s'
}.

Record sys_ok (sys : system) : Prop := {
  so_cache : cache_ok (shared sys);
  so_refs : refs_ok (entries (shared sys)) (actors sys);
  so_leaders : leaders_ok (inflight_map_ (shared sys)) (actors sys) (leaders sys);
  so_waiters : waiters_ok (inflight_map_ (shared sys)) (waiter_heap (shared sys))
    (queues (shared sys)) (actors sys) (leaders sys) (source sys) (calls sys)
}.
End System.
