(* ===== verification/CacheSystemRefs.v ===== *)
(** Entries and the streams that read them, through the steps of
    CacheSystem.v: a pin counts the streams that still need the entry. *)
From S2P Require Import Prelude CacheTypes Ring Cache CacheProps CacheSpec CacheSystem.

Local Open Scope Z_scope.

Section Refs.
Context {H : Type} `{HeaderMapApi H}.
Implicit Types (es : gmap eptr (Entry H)) (acts : list (actor (H := H))).

(** ** Counting pins *)

Definition holds (p : eptr) (a : actor (H := H)) : Z := if pins_on p a then 1 else 0.

Lemma holds_range p a : 0 <= holds p a <= 1.
Proof. unfold holds. destruct (pins_on p a); lia. Qed.

Lemma pin_count_insert p acts s a a' :
  acts !! s = Some a -> pin_count p (<[s := a']> acts) = pin_count p acts - holds p a + holds p a'.
Proof. apply sumZ_insert. Qed.

Lemma pin_count_app p acts a : pin_count p (acts ++ [a]) = pin_count p acts + holds p a.
Proof.
  unfold pin_count, holds. induction acts as [|b acts IH]; simpl; [lia|]. rewrite IH. lia.
Qed.

Lemma pin_count_range p acts : 0 <= pin_count p acts <= Z.of_nat (length acts).
Proof.
  unfold pin_count. split.
  - apply sumZ_nonneg. intros a. apply (holds_range p a).
  - induction acts as [|a acts IH]; simpl; [lia|]. pose proof (holds_range p a) as Ha.
    unfold holds in Ha. lia.
Qed.

Lemma pin_count_pos p acts s a :
  acts !! s = Some a -> pins_on p a = true -> 0 < pin_count p acts.
Proof.
  intros Hs Ha. enough (holds p a <= pin_count p acts) by (unfold holds in *; rewrite Ha in *; lia).
  apply (sumZ_elem (holds p) acts s a); [|done]. intros b. apply holds_range.
Qed.

Lemma pin_count_zero p acts :
  (forall s a, acts !! s = Some a -> pins_on p a = false) -> pin_count p acts = 0.
Proof.
  intros Ha. unfold pin_count. rewrite (sumZ_ext _ (fun _ => 0)).
  - induction acts; simpl; [done|]. rewrite IHacts; [done|]. intros s. apply (Ha (S s)).
  - intros a [s Hs]%list_elem_of_lookup. by rewrite (Ha s a Hs).
Qed.

(** Streams that hold no pin. *)
Definition neutral (a : actor (H := H)) : Prop :=
  match a with Serving _ _ _ | Served _ _ => False | _ => True end.

Lemma neutral_holds p a : neutral a -> holds p a = 0.
Proof. by destruct a. Qed.

(** The response a leader published, but for its pending posts. *)
Definition same_response (l l' : publication (H := H)) : Prop :=
  pub_key l' = pub_key l /\ pub_headers l' = pub_headers l /\ pub_body l' = pub_body l /\
  pub_ended l' = pub_ended l.

(** Completed responses stay. *)
Definition keeps_responses acts acts' : Prop :=
  forall s l, leading acts s = Some l -> pub_ended l = true ->
    exists l', leading acts' s = Some l' /\ same_response l l'.

Lemma leading_insert acts s a s' :
  leading (<[s := a]> acts) s'
  = if decide (s = s' /\ (s < length acts)%nat)
    then match a with Leading l => Some l | _ => None end else leading acts s'.
Proof.
  unfold leading. rewrite list_lookup_insert. repeat case_decide; try done; naive_solver.
Qed.

Lemma leading_app acts a s :
  leading (acts ++ [a]) s
  = if decide (s = length acts) then match a with Leading l => Some l | _ => None end
    else leading acts s.
Proof.
  unfold leading. case_decide as Hs.
  - subst. by rewrite lookup_app_r, Nat.sub_diag by lia.
  - destruct (decide (s < length acts)%nat).
    + by rewrite lookup_app_l.
    + rewrite lookup_ge_None_2 by (rewrite length_app; simpl; lia).
      by rewrite lookup_ge_None_2 by lia.
Qed.

Lemma keeps_refl acts : keeps_responses acts acts.
Proof. intros s l Hl _. by exists l. Qed.

Lemma keeps_app acts a : keeps_responses acts (acts ++ [a]).
Proof.
  intros s l Hl _. exists l. split; [|done]. rewrite leading_app, decide_False; [done|].
  intros ->. unfold leading in Hl. by rewrite lookup_ge_None_2 in Hl.
Qed.

Lemma keeps_insert acts s a :
  (forall l, leading acts s = Some l -> pub_ended l = true ->
     exists l', a = Leading l' /\ same_response l l') ->
  keeps_responses acts (<[s := a]> acts).
Proof.
  intros Ha s' l Hl He. rewrite leading_insert. case_decide as Hs; [|by exists l].
  destruct Hs as [-> _]. destruct (Ha l Hl He) as (l' & -> & Hsame). by exists l'.
Qed.

(** ** Preservation *)

Lemma origin_keeps es acts acts' p e :
  refs_ok es acts -> keeps_responses acts acts' -> es !! p = Some e ->
  exists s l, leading acts' s = Some l /\ pub_key l = key_ e /\ pub_headers l = headers_ e /\
              pub_body l = body_ e /\ pub_ended l = true.
Proof.
  intros Hr Hk He. destruct (rf_origin _ _ Hr _ _ He) as (s & l & Hl & ? & ? & ? & ?).
  destruct (Hk _ _ Hl) as (l' & Hl' & ? & ? & ? & ?); [done|]. exists s, l'.
  split_and!; congruence.
Qed.

Lemma refs_neutral es acts s a a' :
  refs_ok es acts -> acts !! s = Some a -> neutral a -> neutral a' ->
  keeps_responses acts (<[s := a']> acts) -> refs_ok es (<[s := a']> acts).
Proof.
  intros Hr Ha Hn Hn' Hk. split.
  - intros p e He. rewrite (pin_count_insert _ _ _ _ _ Ha), !neutral_holds by done.
    rewrite (rf_pins _ _ Hr _ _ He). lia.
  - intros s' key p n [(? & -> & _)|[_ Hs']]%list_lookup_insert_Some; [done|].
    eapply (rf_serving _ _ Hr); eauto.
  - intros s' key d f [(? & -> & _)|[_ Hs']]%list_lookup_insert_Some Hf; [done|].
    eapply (rf_served _ _ Hr); eauto.
  - rewrite length_insert. apply Hr.
  - intros p e He. by eapply origin_keeps.
Qed.

Lemma lookup_snoc {A} (l : list A) (x y : A) i :
  (l ++ [x]) !! i = Some y -> l !! i = Some y \/ i = length l /\ x = y.
Proof.
  intros [Hl|[Hi Hx]]%lookup_app_Some; [by left|right].
  apply list_lookup_singleton_Some in Hx as [? ->]. split; [lia|done].
Qed.

Lemma refs_app es acts a :
  refs_ok es acts -> neutral a -> Z.of_nat (length acts) < 2 ^ 32 - 1 -> refs_ok es (acts ++ [a]).
Proof.
  intros Hr Hn Hlen. split.
  - intros p e He. rewrite pin_count_app, neutral_holds by done.
    rewrite (rf_pins _ _ Hr _ _ He). lia.
  - intros s' key p n [Hs'|[_ ->]]%lookup_snoc; [|done]. eapply (rf_serving _ _ Hr); eauto.
  - intros s' key d f [Hs'|[_ ->]]%lookup_snoc Hf; [|done]. eapply (rf_served _ _ Hr); eauto.
  - rewrite length_app. simpl. lia.
  - intros p e He. eapply origin_keeps; eauto using keeps_app.
Qed.

(** Changing pins leaves the contents of the entries. *)
Definition same_entry (e e' : Entry H) : Prop :=
  key_ e' = key_ e /\ headers_ e' = headers_ e /\ body_ e' = body_ e.

Lemma set_pins_to es p f e q e0 :
  es !! p = Some e -> es !! q = Some e0 ->
  exists e', <[p := set_pins f e]> es !! q = Some e' /\ same_entry e0 e'.
Proof.
  intros He Hq. destruct (decide (p = q)) as [->|].
  - simplify_eq. eexists. by rewrite lookup_insert_eq.
  - exists e0. by rewrite lookup_insert_ne.
Qed.

Lemma set_pins_from es p f e q e' :
  es !! p = Some e -> <[p := set_pins f e]> es !! q = Some e' ->
  exists e0, es !! q = Some e0 /\ same_entry e0 e' /\
             pins_ e' = if decide (p = q) then f (pins_ e) else pins_ e0.
Proof.
  intros He [[-> <-]|[Hne Hq]]%lookup_insert_Some.
  - exists e. split_and!; [done|done|]. by rewrite decide_True.
  - exists e'. by rewrite decide_False.
Qed.

(** The readers of entries keep reading what they read when the entries keep
    their contents. *)
Lemma refs_change es es' acts acts' :
  refs_ok es acts -> keeps_responses acts acts' -> Z.of_nat (length acts') < 2 ^ 32 ->
  (forall p e', es' !! p = Some e' -> exists e, es !! p = Some e /\ same_entry e e') ->
  (forall p e, es !! p = Some e -> exists e', es' !! p = Some e' /\ same_entry e e') ->
  (forall p e', es' !! p = Some e' -> pins_ e' = pin_count p acts') ->
  (forall s key p n, acts' !! s = Some (Serving key p n) ->
     acts !! s = Some (Serving key p n) \/
     exists e h, es !! p = Some e /\ key_ e = key /\ n = str_size (body_ e) /\ headers_ e = Some h) ->
  (forall s key d f, acts' !! s = Some (Served key d) -> hit_body_ d = Some f ->
     acts !! s = Some (Served key d) \/
     exists e, es !! fragment_entry f = Some e /\ key_ e = key /\
               fragment_length f = str_size (body_ e) /\ headers_ e = Some (hit_headers_ d)) ->
  refs_ok es' acts'.
Proof.
  intros Hr Hk Hlen Hfrom Hto Hpins Hserving Hserved. split.
  - done.
  - intros s key p n Hs.
    assert (exists e h, es !! p = Some e /\ key_ e = key /\ n = str_size (body_ e) /\ headers_ e = Some h)
      as (e & h & He & <- & -> & Hh).
    { destruct (Hserving _ _ _ _ Hs); [eapply (rf_serving _ _ Hr); eauto|done]. }
    destruct (Hto _ _ He) as (e' & He' & ? & ? & Hb). exists e', h. rewrite Hb. split_and!; congruence.
  - intros s key d f Hs Hf.
    assert (exists e, es !! fragment_entry f = Some e /\ key_ e = key /\
               fragment_length f = str_size (body_ e) /\ headers_ e = Some (hit_headers_ d))
      as (e & He & <- & Hn & Hh).
    { destruct (Hserved _ _ _ _ Hs Hf); [eapply (rf_served _ _ Hr); eauto|done]. }
    destruct (Hto _ _ He) as (e' & He' & ? & ? & Hb). exists e'. rewrite Hb. split_and!; congruence.
  - done.
  - intros p e' He'. destruct (Hfrom _ _ He') as (e & He & Hkey & Hh & Hb).
    destruct (origin_keeps _ _ _ _ _ Hr Hk He) as (s & l & ? & ? & ? & ? & ?).
    exists s, l. split_and!; congruence.
Qed.

Lemma refs_pin es acts p e h :
  refs_ok es acts -> es !! p = Some e -> headers_ e = Some h ->
  Z.of_nat (length acts) < 2 ^ 32 - 1 ->
  refs_ok (<[p := set_pins (fun z => u32 (z + 1)) e]> es)
    (acts ++ [Serving (key_ e) p (str_size (body_ e))]).
Proof.
  intros Hr He Hh Hlen. pose proof (pin_count_range p acts) as Hc.
  apply (refs_change es _ acts); [done|apply keeps_app| | | | | |].
  - rewrite length_app. simpl. lia.
  - intros q e' Hq. destruct (set_pins_from _ _ _ _ _ _ He Hq) as (e0 & ? & ? & _). eauto.
  - intros q e0 Hq. by eapply set_pins_to.
  - intros q e' Hq. rewrite pin_count_app. unfold holds. simpl.
    destruct (set_pins_from _ _ _ _ _ _ He Hq) as (e0 & Hq0 & _ & ->).
    rewrite (rf_pins _ _ Hr _ _ Hq0). destruct (decide (p = q)) as [->|].
    + rewrite bool_decide_true, (rf_pins _ _ Hr _ _ He) by done. apply u32_small. lia.
    + rewrite bool_decide_false by done. lia.
  - intros s key q n [Hs|[_ ?]]%lookup_snoc; [by left|right]. simplify_eq. by exists e, h.
  - intros s key d f [Hs|[_ ?]]%lookup_snoc Hf; [by left|done].
Qed.

(** A stream gives its pin back: the counter goes down by one, without
    wrapping. *)
Lemma refs_unpin es acts s a a' p e :
  refs_ok es acts -> acts !! s = Some a -> pins_on p a = true ->
  (forall q, pins_on q a = bool_decide (p = q)) -> es !! p = Some e ->
  (exists key d, a' = Served key d /\ hit_body_ d = None) ->
  (forall l, a <> Leading l) ->
  refs_ok (<[p := set_pins (fun z => u32 (z + -1)) e]> es) (<[s := a']> acts).
Proof.
  intros Hr Ha Hp Hq He (key & d & -> & Hd) Hnl. pose proof (pin_count_range p acts) as Hc.
  pose proof (rf_count _ _ Hr) as Hlen.
  pose proof (pin_count_pos p acts s a Ha Hp) as Hpos.
  apply (refs_change es _ acts); [done| | | | | | |].
  - apply keeps_insert. intros l Hl. unfold leading in Hl. rewrite Ha in Hl. by destruct a.
  - by rewrite length_insert.
  - intros q e' Hq'. destruct (set_pins_from _ _ _ _ _ _ He Hq') as (e0 & ? & ? & _). eauto.
  - intros q e0 Hq0. by eapply set_pins_to.
  - intros q e' Hq'. rewrite (pin_count_insert _ _ _ _ _ Ha). unfold holds at 1 2.
    rewrite Hq. simpl. rewrite Hd.
    destruct (set_pins_from _ _ _ _ _ _ He Hq') as (e0 & Hq0 & _ & ->).
    rewrite (rf_pins _ _ Hr _ _ Hq0). destruct (decide (p = q)) as [->|].
    + rewrite bool_decide_true, (rf_pins _ _ Hr _ _ He) by done. rewrite u32_small by lia. lia.
    + rewrite bool_decide_false by done. lia.
  - intros s' key' q n [(? & ? & _)|[_ Hs']]%list_lookup_insert_Some; [done|by left].
  - intros s' key' d' f [(_ & ? & _)|[_ Hs']]%list_lookup_insert_Some Hf; [simplify_eq; congruence|by left].
Qed.

(** A hit with a body keeps its pin, in the fragment. *)
Lemma refs_serve es acts s key p n e h :
  refs_ok es acts -> acts !! s = Some (Serving key p n) -> es !! p = Some e -> headers_ e = Some h ->
  refs_ok es (<[s := Served key {| hit_headers_ := h; hit_body_ :=
    Some {| fragment_entry := p; fragment_length := n |} |}]> acts).
Proof.
  intros Hr Ha He Hh.
  destruct (rf_serving _ _ Hr _ _ _ _ Ha) as (e' & h' & ? & Hkey & Hn & _). simplify_eq.
  apply (refs_change es _ acts); [done| | | | | | |].
  - apply keeps_insert. intros l Hl. unfold leading in Hl. by rewrite Ha in Hl.
  - rewrite length_insert. apply Hr.
  - intros q e0 Hq. by exists e0.
  - intros q e0 Hq. by exists e0.
  - intros q e0 Hq. rewrite (pin_count_insert _ _ _ _ _ Ha). unfold holds. simpl.
    rewrite (rf_pins _ _ Hr _ _ Hq). lia.
  - intros s' key' q n [(? & ? & _)|[_ Hs']]%list_lookup_insert_Some; [done|by left].
  - intros s' key' d f [(_ & ? & _)|[_ Hs']]%list_lookup_insert_Some Hf; [right|by left].
    simplify_eq/=. by exists e.
Qed.

(** No stream reads an address that holds no entry. *)
Lemma refs_absent es acts p :
  refs_ok es acts -> es !! p = None -> pin_count p acts = 0.
Proof.
  intros Hr Hp. apply pin_count_zero. intros s a Hs. destruct a as [key q n|key d| | | |]; try done.
  - simpl. apply bool_decide_false. intros ->.
    destruct (rf_serving _ _ Hr _ _ _ _ Hs) as (e & h & He & _). congruence.
  - simpl. destruct (hit_body_ d) as [f|] eqn:Hf; [|done]. apply bool_decide_false. intros <-.
    destruct (rf_served _ _ Hr _ _ _ _ Hs Hf) as (e & He & _). congruence.
Qed.

(** The end of a stream: entries nobody has pinned may go, and the response
    of the leader may be stored. *)
Lemma refs_finalized es es' acts s l l' key h body :
  refs_ok es acts -> leading acts s = Some l -> pub_ended l = false ->
  pub_key l' = key -> pub_headers l' = Some h -> pub_body l' = body -> pub_ended l' = true ->
  (forall q e, es' !! q = Some e ->
     es !! q = Some e \/ e = fresh_entry key h body /\ es !! q = None) ->
  (forall q e, es !! q = Some e -> pins_ e <> 0 -> es' !! q = Some e) ->
  refs_ok es' (<[s := Leading l']> acts).
Proof.
  intros Hr Hl He Hkey Hh Hb He' Hfrom Hkeep.
  assert (Ha : acts !! s = Some (Leading l)).
  { unfold leading in Hl. repeat case_match; simplify_eq. done. }
  assert (Hk : keeps_responses acts (<[s := Leading l']> acts)).
  { apply keeps_insert. intros l0 Hl0 Hend. simplify_eq. congruence. }
  assert (Hcount : forall q, pin_count q (<[s := Leading l']> acts) = pin_count q acts).
  { intros q. rewrite (pin_count_insert _ _ _ _ _ Ha). unfold holds. simpl. lia. }
  assert (Hpinned : forall s' a q e, acts !! s' = Some a -> pins_on q a = true ->
    es !! q = Some e -> es' !! q = Some e).
  { intros s' a q e Hs' Hq Hqe. apply Hkeep; [done|]. rewrite (rf_pins _ _ Hr _ _ Hqe).
    pose proof (pin_count_pos _ _ _ _ Hs' Hq). lia. }
  split.
  - intros q e Hq. rewrite Hcount. destruct (Hfrom _ _ Hq) as [Hq0|[-> Hq0]].
    + by apply (rf_pins _ _ Hr).
    + symmetry. by eapply refs_absent.
  - intros s' key' q n [(_ & ? & _)|[_ Hs']]%list_lookup_insert_Some; [done|].
    destruct (rf_serving _ _ Hr _ _ _ _ Hs') as (e & h' & Hq & ?).
    exists e, h'. split; [|done]. eapply Hpinned; [done| |done]. simpl. by apply bool_decide_true.
  - intros s' key' d f [(_ & ? & _)|[_ Hs']]%list_lookup_insert_Some Hf; [done|].
    destruct (rf_served _ _ Hr _ _ _ _ Hs' Hf) as (e & Hq & ?).
    exists e. split; [|done]. eapply Hpinned; [done| |done]. simpl. rewrite Hf.
    by apply bool_decide_true.
  - rewrite length_insert. apply Hr.
  - intros q e Hq. destruct (Hfrom _ _ Hq) as [Hq0|[-> _]]; [by eapply origin_keeps|].
    exists s, l'. rewrite leading_insert, decide_True; [done|]. split; [done|].
    by apply lookup_lt_Some in Ha.
Qed.
End Refs.
