(* ===== verification/CacheSystemWaiters.v ===== *)
(** Leaders, their inflight responses and the waiters that follow them,
    through the steps of CacheSystem.v. *)
From S2P Require Import Prelude CacheTypes Ring Cache CacheProps CacheSpec CacheSystem CacheSystemRefs.

Local Open Scope Z_scope.

Section Leaders.
Context {H : Type} `{HeaderMapApi H}.
Implicit Types (infl : gmap string (Inflight H)) (acts : list (actor (H := H)))
  (l : publication (H := H)) (lds : gmap string nat).

(** Leaders keep what they published, but for pending posts. *)
Definition same_leaders acts acts' : Prop :=
  forall s, match leading acts s, leading acts' s with
            | Some l, Some l' => same_response l l'
            | None, None => True
            | _, _ => False
            end.

(** Stream [s] now has published [l']; the other leaders stand. *)
Definition leader_becomes (s : nat) l' acts acts' : Prop :=
  leading acts' s = Some l' /\ forall s', s' <> s -> leading acts' s' = leading acts s'.

Lemma same_leaders_to acts acts' s l :
  same_leaders acts acts' -> leading acts s = Some l ->
  exists l', leading acts' s = Some l' /\ same_response l l'.
Proof. intros Hs Hl. specialize (Hs s). rewrite Hl in Hs. case_match; [eauto|done]. Qed.

Lemma same_leaders_from acts acts' s l' :
  same_leaders acts acts' -> leading acts' s = Some l' ->
  exists l, leading acts s = Some l /\ same_response l l'.
Proof. intros Hs Hl. specialize (Hs s). rewrite Hl in Hs. case_match; [eauto|done]. Qed.

Lemma leaders_same infl acts acts' lds :
  leaders_ok infl acts lds -> same_leaders acts acts' -> leaders_ok infl acts' lds.
Proof.
  intros Hl Hs. split.
  - intros k i Hi. destruct (ld_inflight _ _ _ Hl _ _ Hi) as (s & l & ? & Hs' & ? & ? & ? & ?).
    destruct (same_leaders_to _ _ _ _ Hs Hs') as (l' & ? & ? & ? & ? & ?).
    exists s, l'. split_and!; congruence.
  - intros s l' Hl' He. destruct (same_leaders_from _ _ _ _ Hs Hl') as (l & Hs' & Hk & _ & _ & Hen).
    rewrite Hk. apply (ld_leader _ _ _ Hl); congruence.
  - intros s l' Hl' Hh. destruct (same_leaders_from _ _ _ _ Hs Hl') as (l & Hs' & _ & Hh' & -> & _).
    eapply (ld_start _ _ _ Hl); [done|congruence].
  - intros s l' Hl' He. destruct (same_leaders_from _ _ _ _ Hs Hl') as (l & Hs' & _ & -> & _ & He').
    eapply (ld_ended _ _ _ Hl); [done|congruence].
Qed.

Lemma leaders_new infl acts lds k :
  leaders_ok infl acts lds -> infl !! k = None ->
  leaders_ok (<[k := empty_inflight]> infl)
    (acts ++ [Leading (Publication k None "" false [])]) (<[k := length acts]> lds).
Proof.
  intros Hl Hk. split.
  - intros k' i [[<- <-]|[Hne Hi]]%lookup_insert_Some.
    + exists (length acts), (Publication k None "" false []).
      rewrite lookup_insert_eq, leading_app, decide_True by done. done.
    + destruct (ld_inflight _ _ _ Hl _ _ Hi) as (s & l & ? & Hs & ?).
      exists s, l. rewrite lookup_insert_ne by done. split; [done|]. split; [|done].
      rewrite leading_app. rewrite decide_False; [done|]. intros ->.
      unfold leading in Hs. by rewrite lookup_ge_None_2 in Hs.
  - intros s l. rewrite leading_app. case_decide as Hs; intros Hl' He.
    + simplify_eq/=. rewrite !lookup_insert_eq. eauto.
    + destruct (ld_leader _ _ _ Hl _ _ Hl' He) as [Hlds Hin].
      assert (pub_key l <> k) by (intros Heq; rewrite Heq, Hk in Hin; by destruct Hin).
      by rewrite !lookup_insert_ne by done.
  - intros s l. rewrite leading_app. case_decide; intros Hl' Hh; [by simplify_eq|].
    by eapply (ld_start _ _ _ Hl).
  - intros s l. rewrite leading_app. case_decide; intros Hl' He; [by simplify_eq|].
    by eapply (ld_ended _ _ _ Hl).
Qed.

(** The inflight response of [k] and its leader change together. *)
Lemma leaders_update infl acts acts' lds k s l' i' :
  leaders_ok infl acts lds -> is_Some (infl !! k) -> lds !! k = Some s ->
  leader_becomes s l' acts acts' -> pub_key l' = k ->
  pub_headers l' = inflight_headers_ i' -> pub_body l' = inflight_body_ i' ->
  pub_ended l' = false -> (pub_headers l' = None -> pub_body l' = "") ->
  leaders_ok (<[k := i']> infl) acts' lds.
Proof.
  intros Hl Hk Hs [Hl' Hother] Hkey Hh Hb He Hstart. split.
  - intros k' j [[<- <-]|[Hne Hj]]%lookup_insert_Some; [by exists s, l'|].
    destruct (ld_inflight _ _ _ Hl _ _ Hj) as (s' & l0 & Hs' & Hl0 & Hk0 & ?).
    exists s', l0. rewrite Hother; [done|]. intros ->.
    destruct (ld_leader _ _ _ Hl s l0) as [Hs2 _]; [done|naive_solver|].
    destruct Hk as [i0 Hi0].
    destruct (ld_inflight _ _ _ Hl _ _ Hi0) as (s3 & l3 & Hs3 & Hl3 & Hk3 & _). congruence.
  - intros s' l0 Hl0 He0. destruct (decide (s' = s)) as [->|Hne].
    + simplify_eq. rewrite lookup_insert_eq. eauto.
    + rewrite Hother in Hl0 by done. destruct (ld_leader _ _ _ Hl _ _ Hl0 He0) as [Hs' Hin].
      split; [done|]. by apply lookup_insert_is_Some'; right.
  - intros s' l0 Hl0 Hn. destruct (decide (s' = s)) as [->|Hne]; [naive_solver|].
    rewrite Hother in Hl0 by done. by eapply (ld_start _ _ _ Hl).
  - intros s' l0 Hl0 He0. destruct (decide (s' = s)) as [->|Hne]; [congruence|].
    rewrite Hother in Hl0 by done. by eapply (ld_ended _ _ _ Hl).
Qed.

(** The stream of the leader of [k] ends. *)
Lemma leaders_end infl acts acts' lds k s l' :
  leaders_ok infl acts lds -> is_Some (infl !! k) -> lds !! k = Some s ->
  leader_becomes s l' acts acts' -> pub_ended l' = true -> is_Some (pub_headers l') ->
  leaders_ok (delete k infl) acts' lds.
Proof.
  intros Hl [i Hi] Hs [Hl' Hother] He Hh.
  assert (Hsk : forall l0, leading acts s = Some l0 -> pub_ended l0 = false -> pub_key l0 = k).
  { intros l0 Hl0 He0. destruct (ld_inflight _ _ _ Hl _ _ Hi) as (s3 & l3 & Hs3 & Hl3 & Hk3 & _).
    congruence. }
  split.
  - intros k' j [Hne Hj]%lookup_delete_Some.
    destruct (ld_inflight _ _ _ Hl _ _ Hj) as (s' & l0 & Hs' & Hl0 & Hk0 & ? & ? & He0).
    exists s', l0. rewrite Hother; [done|]. intros ->. rewrite (Hsk _ Hl0 He0) in Hk0. congruence.
  - intros s' l0 Hl0 He0. destruct (decide (s' = s)) as [->|Hne]; [congruence|].
    rewrite Hother in Hl0 by done. destruct (ld_leader _ _ _ Hl _ _ Hl0 He0) as [Hs' Hin].
    split; [done|]. rewrite lookup_delete_ne; [done|]. congruence.
  - intros s' l0 Hl0 Hn. destruct (decide (s' = s)) as [->|Hne].
    + simplify_eq. rewrite Hn in Hh. by destruct Hh.
    + rewrite Hother in Hl0 by done. by eapply (ld_start _ _ _ Hl).
  - intros s' l0 Hl0 He0. destruct (decide (s' = s)) as [->|Hne]; [by simplify_eq|].
    rewrite Hother in Hl0 by done. by eapply (ld_ended _ _ _ Hl).
Qed.

Lemma leader_becomes_insert acts s l l' :
  leading acts s = Some l -> leader_becomes s l' acts (<[s := Leading l']> acts).
Proof.
  intros Hl. split.
  - rewrite leading_insert, decide_True; [done|]. split; [done|].
    unfold leading in Hl. destruct (acts !! s) eqn:Hs; [by eapply lookup_lt_Some|done].
  - intros s' Hne. rewrite leading_insert, decide_False; [done|]. naive_solver.
Qed.
End Leaders.

Section Waiters.
Context {H : Type} `{HeaderMapApi H}.
Implicit Types (infl : gmap string (Inflight H)) (acts : list (actor (H := H)))
  (l : publication (H := H)) (lds : gmap string nat) (heap : gmap wptr Waiter)
  (qs : gmap dispatcher (list (Task H))) (src : gmap wptr nat)
  (cls : gmap wptr (list (Encode H))).

(** No stream becomes a follower, or starts to leave. *)
Definition no_new_followers acts acts' : Prop :=
  forall s key wp,
    (acts' !! s = Some (Following key wp) -> acts !! s = Some (Following key wp)) /\
    (acts' !! s = Some (Cancelled key wp) -> acts !! s = Some (Cancelled key wp)).

Lemma no_new_followers_insert acts s a :
  (forall key wp, a <> Following key wp /\ a <> Cancelled key wp) ->
  no_new_followers acts (<[s := a]> acts).
Proof.
  intros Ha s' key wp.
  split; intros [(_ & ? & _)|[_ Hs]]%list_lookup_insert_Some; try done; by destruct (Ha key wp).
Qed.

Lemma no_new_followers_app acts a :
  (forall key wp, a <> Following key wp /\ a <> Cancelled key wp) ->
  no_new_followers acts (acts ++ [a]).
Proof.
  intros Ha s' key wp. split; intros [Hs|[_ ?]]%lookup_snoc; try done; by destruct (Ha key wp).
Qed.

(** Streams that are not leaders, followers or leaving may do what they like. *)
Lemma waiters_frame infl heap qs acts acts' lds src cls :
  waiters_ok infl heap qs acts lds src cls ->
  (forall s, leading acts' s = leading acts s) -> no_new_followers acts acts' ->
  waiters_ok infl heap qs acts' lds src cls.
Proof.
  intros Hw Hl Hn. split; try apply Hw.
  - intros wp x Hx. destruct (wt_waiter _ _ _ _ _ _ _ Hw _ _ Hx) as (s & l & ?). exists s, l. by rewrite Hl.
  - intros s l t. rewrite Hl. apply Hw.
  - intros s key wp Hs%Hn. destruct (wt_following _ _ _ _ _ _ _ Hw _ _ _ Hs) as (x & s' & l & ?).
    exists x, s', l. by rewrite Hl.
  - intros s key wp Hs%Hn. by eapply (wt_cancelled _ _ _ _ _ _ _ Hw).
  - intros s s' key key' wp Hs%Hn [Hs'%Hn|Hs'%Hn]; eapply (wt_unique _ _ _ _ _ _ _ Hw); eauto.
Qed.

Lemma leading_length acts l : leading acts (length acts) <> Some l.
Proof. unfold leading. by rewrite lookup_ge_None_2. Qed.

Lemma leading_app_old acts a s l :
  leading acts s = Some l -> leading (acts ++ [a]) s = Some l.
Proof.
  intros Hl. rewrite leading_app, decide_False; [done|]. intros ->. by apply leading_length in Hl.
Qed.

Lemma waiters_new_leader infl heap qs acts lds src cls k :
  waiters_ok infl heap qs acts lds src cls -> infl !! k = None ->
  waiters_ok (<[k := empty_inflight]> infl) heap qs
    (acts ++ [Leading (Publication k None "" false [])]) (<[k := length acts]> lds) src cls.
Proof.
  intros Hw Hk. split; try apply Hw.
  - intros wp x Hx. destruct (wt_waiter _ _ _ _ _ _ _ Hw _ _ Hx) as (s & l & Hs & Hl & Hv).
    exists s, l. split_and!; [done|by apply leading_app_old|].
    intros Hc. destruct (Hv Hc) as [Hview Hin]. split; [done|]. intros He.
    destruct (Hin He) as (i & Hi & Hwp). exists i. rewrite lookup_insert_ne by congruence. done.
  - intros k' i wp [[<- <-]|[Hne Hi]]%lookup_insert_Some Hwp; [by apply not_elem_of_nil in Hwp|].
    rewrite lookup_insert_ne by done. by eapply (wt_attached _ _ _ _ _ _ _ Hw).
  - intros s l t. rewrite leading_app. case_decide; intros Hl Ht; [|by eapply (wt_todo _ _ _ _ _ _ _ Hw)].
    simplify_eq/=. by apply not_elem_of_nil in Ht.
  - intros s key wp [Hs|[_ ?]]%lookup_snoc; [|done].
    destruct (wt_following _ _ _ _ _ _ _ Hw _ _ _ Hs) as (x & s' & l & ? & ? & ? & Hl & ?).
    exists x, s', l. split_and!; [done..|by apply leading_app_old|done].
  - intros s key wp [Hs|[_ ?]]%lookup_snoc; [|done]. by eapply (wt_cancelled _ _ _ _ _ _ _ Hw).
  - intros s s' key key' wp [Hs|[_ ?]]%lookup_snoc; [|done].
    intros [[Hs'|[_ ?]]%lookup_snoc|[Hs'|[_ ?]]%lookup_snoc]; try done;
      eapply (wt_unique _ _ _ _ _ _ _ Hw); eauto.
Qed.

(** *** A new follower *)

(** What attaching posts at once. *)
Definition backfill (wp : wptr) (i : Inflight H) : list (Task H) :=
  match inflight_headers_ i with
  | Some h => [PostBackfill wp (createHeaderMap h) (inflight_body_ i)]
  | None => []
  end.

(** The backfill brings a follower to where the leader is. *)
Lemma backfill_view `{!HeaderMapLaws H} wp i l :
  pub_headers l = inflight_headers_ i -> pub_body l = inflight_body_ i -> pub_ended l = false ->
  view_calls NoHeaders (calls_for wp (backfill wp i)) = published l.
Proof.
  intros Hh Hb He. unfold backfill, published. rewrite Hh, Hb, He.
  destruct (inflight_headers_ i) as [h|]; [|done].
  rewrite calls_for_cons, decide_True by done. simpl. rewrite createHeaderMap_copy.
  destruct (decide (inflight_body_ i = "")) as [->|Hne]; [done|].
  rewrite bool_decide_true by (by apply Z.lt_gt, str_size_pos). done.
Qed.

Lemma leading_app_neutral acts a s :
  (forall l, a <> Leading l) -> leading (acts ++ [a]) s = leading acts s.
Proof.
  intros Ha. rewrite leading_app. case_decide as Hs; [|done]. subst.
  unfold leading at 1. rewrite lookup_ge_None_2 by lia.
  destruct a as [| |l| | |]; [done..| |done|done|done]. by destruct (Ha l).
Qed.

Definition enqueue_all (d : dispatcher) (ts : list (Task H)) (qs : gmap dispatcher (list (Task H))) :=
  match ts with
  | [] => qs
  | _ => <[d := default [] (qs !! d) ++ ts]> qs
  end.

Lemma enqueue_all_lookup d ts qs d' :
  default [] (enqueue_all d ts qs !! d') = default [] (qs !! d') ++ (if decide (d = d') then ts else []).
Proof.
  destruct ts as [|t ts]; simpl; [case_decide; by rewrite app_nil_r|].
  case_decide as Hd; [subst|].
  - by rewrite lookup_insert_eq.
  - rewrite lookup_insert_ne by done. by rewrite app_nil_r.
Qed.

Section NewFollower.
Context `{!HeaderMapLaws H}.
Variables (infl : gmap string (Inflight H)) (heap : gmap wptr Waiter) (qs : gmap dispatcher (list (Task H))).
Variables (acts : list (actor (H := H))) (lds : gmap string nat) (src : gmap wptr nat) (cls : gmap wptr (list (Encode H))).
Variables (k : string) (i : Inflight H) (cb : StreamDecoderFilterCallbacks) (wp : wptr) (s : nat) (l : publication (H := H)).
Hypothesis Hw : waiters_ok infl heap qs acts lds src cls.
Hypothesis Hi : infl !! k = Some i.
Hypothesis Hfresh : heap !! wp = None.
Hypothesis Hwi : forall k j, infl !! k = Some j -> wp ∉ waiters_ j.

(** Nothing is queued or to be posted for the new waiter. *)
Lemma fresh_todo s' l' t : leading acts s' = Some l' -> t ∈ pub_todo l' -> task_waiter t <> wp.
Proof.
  intros Hl' Ht Heq. destruct (wt_todo _ _ _ _ _ _ _ Hw _ _ _ Hl' Ht) as [_ [? ?]]. congruence.
Qed.

Lemma fresh_queue d t : t ∈ default [] (qs !! d) -> task_waiter t <> wp.
Proof.
  intros Ht Heq. destruct (qs !! d) as [q|] eqn:Hq; [|by apply not_elem_of_nil in Ht].
  destruct (wt_queue _ _ _ _ _ _ _ Hw _ _ _ Hq Ht) as (? & ? & _). congruence.
Qed.

Lemma fresh_actor s' key wp' :
  acts !! s' = Some (Following key wp') \/ acts !! s' = Some (Cancelled key wp') -> wp' <> wp.
Proof.
  intros [Hs'|Hs'] ->.
  - destruct (wt_following _ _ _ _ _ _ _ Hw _ _ _ Hs') as (? & ? & ? & ? & _). congruence.
  - destruct (wt_cancelled _ _ _ _ _ _ _ Hw _ _ _ Hs') as (? & ? & _). congruence.
Qed.

#[local] Abbreviation queues' := (enqueue_all (cb_dispatcher cb) (backfill wp i) qs).

(** What the new follower is told is what has been published. *)
Lemma new_stream :
  leading acts s = Some l -> pub_headers l = inflight_headers_ i -> pub_body l = inflight_body_ i -> pub_ended l = false ->
  view_calls NoHeaders
    (stream_of wp {| dispatcher_ := cb_dispatcher cb; callbacks_ := cb; cancelled := false |} l queues' cls) = published l.
Proof.
  intros Hl Hh Hb He. unfold stream_of. rewrite enqueue_all_lookup. simpl. rewrite decide_True by done.
  unfold received. destruct (cls !! wp) as [cs|] eqn:Hcs.
  { by destruct (wt_calls _ _ _ _ _ _ _ Hw _ _ Hcs) as [? ?]; simplify_eq. }
  rewrite calls_for_app, (calls_for_nil wp (default [] _)) by eauto using fresh_queue. simpl.
  rewrite (calls_for_nil wp (pub_todo l)) by eauto using fresh_todo. rewrite app_nil_r. by apply backfill_view.
Qed.

(** Others are told what they were. *)
Lemma old_stream wp' x l' : wp <> wp' -> stream_of wp' x l' queues' cls = stream_of wp' x l' qs cls.
Proof.
  intros Hne. unfold stream_of in *. rewrite enqueue_all_lookup, calls_for_app.
  case_decide; [|by rewrite app_nil_r].
  rewrite (calls_for_nil wp' (backfill wp i)); [by rewrite app_nil_r|].
  unfold backfill. intros t Ht. case_match; set_solver.
Qed.

Lemma new_queue d q t :
  queues' !! d = Some q -> t ∈ q ->
  exists x, <[wp := {| dispatcher_ := cb_dispatcher cb; callbacks_ := cb; cancelled := false |}]> heap !! task_waiter t = Some x /\
    dispatcher_ x = d.
Proof.
  intros Hq Ht. assert (Ht' : t ∈ default [] (queues' !! d)) by (by rewrite Hq).
  rewrite enqueue_all_lookup in Ht'. apply elem_of_app in Ht' as [Ht'|Ht'].
  - pose proof (fresh_queue _ _ Ht'). rewrite lookup_insert_ne by done.
    destruct (qs !! d) as [q'|] eqn:Hq'; [|by apply not_elem_of_nil in Ht'].
    by eapply (wt_queue _ _ _ _ _ _ _ Hw).
  - case_decide; [|by apply not_elem_of_nil in Ht']. subst d. unfold backfill in Ht'.
    case_match; [|by apply not_elem_of_nil in Ht'].
    apply list_elem_of_singleton in Ht' as ->. simpl. rewrite lookup_insert_eq. eauto.
Qed.

Lemma new_attached k' j wp' :
  lds !! k = Some s -> <[k := push_waiter wp i]> infl !! k' = Some j -> wp' ∈ waiters_ j ->
  exists s', lds !! k' = Some s' /\ <[wp := s]> src !! wp' = Some s'.
Proof.
  intros Hs [[<- <-]|[Hne Hj]]%lookup_insert_Some Hwp'.
  - simpl in Hwp'. apply elem_of_app in Hwp' as [Hwp'| ->%list_elem_of_singleton].
    + destruct (wt_attached _ _ _ _ _ _ _ Hw _ _ _ Hi Hwp') as (s' & ? & ?).
      exists s'. split; [done|]. rewrite lookup_insert_ne; [done|]. intros ->. by eapply Hwi.
    + exists s. by rewrite lookup_insert_eq.
  - destruct (wt_attached _ _ _ _ _ _ _ Hw _ _ _ Hj Hwp') as (s' & ? & ?).
    exists s'. split; [done|]. rewrite lookup_insert_ne; [done|]. intros ->. by eapply Hwi.
Qed.

Lemma new_unique s1 s2 key key' wp' :
  (acts ++ [Following k wp]) !! s1 = Some (Following key wp') ->
  (acts ++ [Following k wp]) !! s2 = Some (Following key' wp') \/
  (acts ++ [Following k wp]) !! s2 = Some (Cancelled key' wp') -> s1 = s2.
Proof.
  pose proof fresh_actor as Hold. intros [Hs1|[-> ?]]%lookup_snoc [[Hs2|[-> ?]]%lookup_snoc|[Hs2|[_ ?]]%lookup_snoc]; simplify_eq; try done.
  - eapply (wt_unique _ _ _ _ _ _ _ Hw); eauto.
  - exfalso. eapply Hold; [left; eassumption|reflexivity].
  - eapply (wt_unique _ _ _ _ _ _ _ Hw); eauto.
  - exfalso. eapply Hold; [left; eassumption|reflexivity].
  - exfalso. eapply Hold; [right; eassumption|reflexivity].
Qed.

Lemma waiters_new_follower :
  lds !! k = Some s -> leading acts s = Some l -> pub_key l = k ->
  pub_headers l = inflight_headers_ i -> pub_body l = inflight_body_ i -> pub_ended l = false ->
  waiters_ok (<[k := push_waiter wp i]> infl)
    (<[wp := {| dispatcher_ := cb_dispatcher cb; callbacks_ := cb; cancelled := false |}]> heap)
    queues' (acts ++ [Following k wp]) lds (<[wp := s]> src) cls.
Proof.
  intros Hs Hl Hk Hh Hb He.
  assert (Hneutral : forall s', leading (acts ++ [Following k wp]) s' = leading acts s').
  { intros s'. by apply leading_app_neutral. }
  split.
  - intros wp' x [[<- <-]|[Hne Hx]]%lookup_insert_Some.
    + exists s, l. rewrite lookup_insert_eq, Hneutral. split_and!; [done|done|]. intros _. split; [by apply new_stream|].
      intros _. exists (push_waiter wp i). rewrite Hk, lookup_insert_eq. split; [done|]. set_solver.
    + destruct (wt_waiter _ _ _ _ _ _ _ Hw _ _ Hx) as (s' & l' & Hs' & Hl' & Hv).
      exists s', l'. rewrite lookup_insert_ne, Hneutral by done. split_and!; [done|done|].
      intros Hc. destruct (Hv Hc) as [Hview Hin]. split; [by rewrite old_stream|].
      intros He'. destruct (Hin He') as (j & Hj & Hwp'). destruct (decide (pub_key l' = k)) as [Hkk|Hkk].
      * exists (push_waiter wp i). rewrite Hkk, lookup_insert_eq. split; [done|].
        rewrite Hkk in Hj. simplify_eq. set_solver.
      * exists j. by rewrite lookup_insert_ne by done.
  - intros k' j wp' Hj Hwp'. by eapply new_attached.
  - intros s' l' t Hl' Ht. rewrite Hneutral in Hl'.
    destruct (wt_todo _ _ _ _ _ _ _ Hw _ _ _ Hl' Ht). pose proof (fresh_todo _ _ _ Hl' Ht).
    by rewrite !lookup_insert_ne by done.
  - apply new_queue.
  - intros wp' cs Hcs. apply lookup_insert_is_Some'. right. by eapply (wt_calls _ _ _ _ _ _ _ Hw).
  - intros s' key wp' [Hs'|[_ ?]]%lookup_snoc.
    + destruct (wt_following _ _ _ _ _ _ _ Hw _ _ _ Hs') as (x & s2 & l2 & Hx & ? & ? & Hl2 & ?).
      exists x, s2, l2. rewrite !lookup_insert_ne, Hneutral by congruence. done.
    + simplify_eq. eexists _, s, l. rewrite !lookup_insert_eq, Hneutral. done.
  - intros s' key wp' [Hs'|[_ ?]]%lookup_snoc; [|done].
    destruct (wt_cancelled _ _ _ _ _ _ _ Hw _ _ _ Hs') as (x & Hx & ?).
    exists x. by rewrite lookup_insert_ne by congruence.
  - apply new_unique.
Qed.
End NewFollower.

(** *** A publication *)

Lemma leading_Leading acts s l : acts !! s = Some (Leading l) -> leading acts s = Some l.
Proof. unfold leading. by intros ->. Qed.

Lemma Leading_lookup acts s l : leading acts s = Some l -> acts !! s = Some (Leading l).
Proof. unfold leading. by repeat case_match; intros; simplify_eq. Qed.

(** What a publication adds reaches every waiter that has not left. *)
Lemma waiters_publish infl infl' heap qs acts lds src cls k i s l l' task cs :
  waiters_ok infl heap qs acts lds src cls -> leaders_ok infl acts lds ->
  infl !! k = Some i -> NoDup (waiters_ i) -> (forall wp, wp ∈ waiters_ i -> is_Some (heap !! wp)) ->
  leading acts s = Some l -> pub_key l = k -> pub_ended l = false -> pub_todo l = [] ->
  pub_key l' = k -> pub_todo l' = map task (waiters_ i) ->
  (forall x, task_waiter (task x) = x /\ task_calls (task x) = cs) ->
  view_calls (published l) cs = published l' ->
  (forall k', k' <> k -> infl' !! k' = infl !! k') ->
  (forall i', infl' !! k = Some i' -> waiters_ i' = waiters_ i) ->
  (pub_ended l' = false -> is_Some (infl' !! k)) ->
  waiters_ok infl' heap qs (<[s := Leading l']> acts) lds src cls.
Proof.
  intros Hw Hld Hi Hnd Hheap Hl Hk He Htodo Hk' Htodo' Htask Hview Hother Hsame Hstay.
  destruct (leader_becomes_insert acts s l l' Hl) as [Hl' Hne].
  destruct (ld_leader _ _ _ Hld _ _ Hl He) as [Hlds _]. rewrite Hk in Hlds.
  assert (Hkeys : forall s0 l0, s0 <> s -> leading acts s0 = Some l0 -> pub_ended l0 = false ->
    pub_key l0 <> k).
  { intros s0 l0 Hs0 Hl0 He0. destruct (ld_leader _ _ _ Hld _ _ Hl0 He0). congruence. }
  split; try apply Hw.
  - intros wp x Hx. destruct (wt_waiter _ _ _ _ _ _ _ Hw _ _ Hx) as (s0 & l0 & Hs0 & Hl0 & Hv).
    destruct (decide (s0 = s)) as [->|Hs].
    + exists s, l'. split_and!; [done|done|]. intros Hc. simplify_eq. destruct (Hv Hc) as [Hvw Hin].
      destruct (Hin He) as (j & Hj & Hwp). simplify_eq. split.
      * rewrite <- Hview, <- Hvw, <- view_calls_app. f_equal. unfold stream_of.
        rewrite Htodo, Htodo', calls_for_map by (done || apply Htask).
        rewrite decide_True by done. destruct (Htask wp) as [_ ->]. cbn. rewrite app_nil_r.
        by rewrite app_assoc.
      * intros [i' Hi']%Hstay. exists i'. by rewrite Hk', (Hsame _ Hi').
    + exists s0, l0. rewrite Hne by done. split_and!; [done|done|]. intros Hc.
      destruct (Hv Hc) as [Hvw Hin]. split; [done|]. intros He0. rewrite Hother by eauto. by apply Hin.
  - intros k' j wp Hj Hwp. destruct (decide (k' = k)) as [->|Hkk].
    + rewrite (Hsame _ Hj) in Hwp. by eapply (wt_attached _ _ _ _ _ _ _ Hw).
    + rewrite Hother in Hj by done. by eapply (wt_attached _ _ _ _ _ _ _ Hw).
  - intros s0 l0 t Hl0 Ht. destruct (decide (s0 = s)) as [->|Hs].
    + simplify_eq. rewrite Htodo' in Ht. apply list_elem_of_In, in_map_iff in Ht as (x & <- & Hx).
      apply list_elem_of_In in Hx. destruct (Htask x) as [-> _].
      destruct (wt_attached _ _ _ _ _ _ _ Hw _ _ _ Hi Hx) as (s1 & ? & ?). simplify_eq. eauto.
    + rewrite Hne in Hl0 by done. by eapply (wt_todo _ _ _ _ _ _ _ Hw).
  - intros s0 key wp [(_ & ? & _)|[_ Hs0]]%list_lookup_insert_Some; [done|].
    destruct (wt_following _ _ _ _ _ _ _ Hw _ _ _ Hs0) as (x & s1 & l1 & ? & ? & ? & Hl1 & ?).
    destruct (decide (s1 = s)) as [->|Hs1].
    + exists x, s, l'. simplify_eq. done.
    + exists x, s1, l1. by rewrite Hne.
  - intros s0 key wp [(_ & ? & _)|[_ Hs0]]%list_lookup_insert_Some; [done|].
    by eapply (wt_cancelled _ _ _ _ _ _ _ Hw).
  - intros s1 s2 key key' wp [(_ & ? & _)|[_ Hs1]]%list_lookup_insert_Some; [done|].
    intros [[(_ & ? & _)|[_ Hs2]]%list_lookup_insert_Some|[(_ & ? & _)|[_ Hs2]]%list_lookup_insert_Some];
      try done; eapply (wt_unique _ _ _ _ _ _ _ Hw); eauto.
Qed.

(** *** Posting, and running what was posted *)

Lemma calls_for_other wp t : task_waiter t <> wp -> calls_for (H := H) wp [t] = [].
Proof. intros Ht. by rewrite calls_for_cons, decide_False. Qed.

(** A leader posts the next closure of its last publication. *)
Lemma waiters_post infl heap qs acts lds src cls s l l' t x :
  waiters_ok infl heap qs acts lds src cls ->
  leading acts s = Some l -> same_response l l' -> pub_todo l = t :: pub_todo l' ->
  heap !! task_waiter t = Some x ->
  waiters_ok infl heap (enqueue_all (dispatcher_ x) [t] qs) (<[s := Leading l']> acts) lds src cls.
Proof.
  intros Hw Hl Hsame Htodo Hx. pose proof Hsame as (Hk & _ & _ & He).
  destruct (leader_becomes_insert acts s l l' Hl) as [Hl' Hne].
  assert (Hpub : published l' = published l) by (unfold published; destruct Hsame as (_ & -> & -> & ->); done).
  destruct (wt_todo _ _ _ _ _ _ _ Hw s l t Hl) as [Hsrc _]; [rewrite Htodo; set_solver|].
  split; try apply Hw.
  - intros wp y Hy. destruct (wt_waiter _ _ _ _ _ _ _ Hw _ _ Hy) as (s0 & l0 & Hs0 & Hl0 & Hv).
    destruct (decide (s0 = s)) as [->|Hs].
    + exists s, l'. simplify_eq. rewrite Hpub, Hk, He. split_and!; [done|done|]. intros Hc.
      destruct (Hv Hc) as [<- Hin]. split; [|done]. f_equal. unfold stream_of. f_equal.
      rewrite Htodo, enqueue_all_lookup, calls_for_app, <- app_assoc, (calls_for_cons wp t). f_equal.
      destruct (decide (task_waiter t = wp)) as [<-|Hwp].
      * simplify_eq. rewrite decide_True by done. by rewrite calls_for_cons, decide_True, app_nil_r.
      * case_decide; [by rewrite calls_for_other|done].
    + exists s0, l0. rewrite Hne by done. split_and!; [done|done|]. intros Hc.
      destruct (Hv Hc) as [<- Hin]. split; [|done]. f_equal. unfold stream_of.
      rewrite enqueue_all_lookup, calls_for_app. case_decide; [|by rewrite app_nil_r].
      rewrite calls_for_other by congruence. by rewrite app_nil_r.
  - intros s0 l0 t0 Hl0 Ht0. destruct (decide (s0 = s)) as [->|Hs].
    + simplify_eq. eapply (wt_todo _ _ _ _ _ _ _ Hw); [done|]. rewrite Htodo. set_solver.
    + rewrite Hne in Hl0 by done. by eapply (wt_todo _ _ _ _ _ _ _ Hw).
  - cbn [enqueue_all].
    intros d q t0 [[<- <-]|[Hd Hq]]%lookup_insert_Some Ht0; [|by eapply (wt_queue _ _ _ _ _ _ _ Hw)].
    apply elem_of_app in Ht0 as [Ht0| ->%list_elem_of_singleton]; [|eauto].
    destruct (qs !! dispatcher_ x) as [q|] eqn:Hq; [|by apply not_elem_of_nil in Ht0].
    by eapply (wt_queue _ _ _ _ _ _ _ Hw).
  - intros s0 key wp [(_ & ? & _)|[_ Hs0]]%list_lookup_insert_Some; [done|].
    destruct (wt_following _ _ _ _ _ _ _ Hw _ _ _ Hs0) as (y & s1 & l1 & ? & ? & ? & Hl1 & ?).
    destruct (decide (s1 = s)) as [->|Hs1].
    + exists y, s, l'. simplify_eq. done.
    + exists y, s1, l1. by rewrite Hne.
  - intros s0 key wp [(_ & ? & _)|[_ Hs0]]%list_lookup_insert_Some; [done|].
    by eapply (wt_cancelled _ _ _ _ _ _ _ Hw).
  - intros s1 s2 key key' wp [(_ & ? & _)|[_ Hs1]]%list_lookup_insert_Some; [done|].
    intros [[(_ & ? & _)|[_ Hs2]]%list_lookup_insert_Some|[(_ & ? & _)|[_ Hs2]]%list_lookup_insert_Some];
      try done; eapply (wt_unique _ _ _ _ _ _ _ Hw); eauto.
Qed.

(** The event loop runs the next closure; a cancelled waiter is not told. *)
Lemma waiters_dispatch infl heap qs acts lds src cls d t ts x :
  waiters_ok infl heap qs acts lds src cls -> qs !! d = Some (t :: ts) ->
  heap !! task_waiter t = Some x ->
  waiters_ok infl heap (<[d := ts]> qs) acts lds src
    (if cancelled x then cls
     else <[task_waiter t := received cls (task_waiter t) ++ task_calls t]> cls).
Proof.
  intros Hw Hq Hx.
  destruct (wt_queue _ _ _ _ _ _ _ Hw d _ t Hq) as (x' & Hx' & Hd); [set_solver|]. simplify_eq.
  split; try apply Hw.
  - intros wp y Hy. destruct (wt_waiter _ _ _ _ _ _ _ Hw _ _ Hy) as (s0 & l0 & Hs0 & Hl0 & Hv).
    exists s0, l0. split_and!; [done|done|]. intros Hc. destruct (Hv Hc) as [<- Hin]. split; [|done].
    f_equal. unfold stream_of. rewrite !app_assoc. f_equal.
    destruct (decide (task_waiter t = wp)) as [<-|Hwp].
    + simplify_eq. rewrite Hc, Hq, lookup_insert_eq. unfold received at 1. rewrite lookup_insert_eq.
      change (default [] (Some ?x)) with x.
      by rewrite (calls_for_cons _ t), decide_True, app_assoc by done.
    + f_equal.
      * unfold received. destruct (cancelled x); [done|]. by rewrite lookup_insert_ne.
      * destruct (decide (dispatcher_ x = dispatcher_ y)) as [<-|].
        -- rewrite Hq, lookup_insert_eq.
           change (default [] (Some ?x)) with x. by rewrite (calls_for_cons _ t), decide_False.
        -- by rewrite lookup_insert_ne.
  - intros d' q t0 [[<- <-]|[? Hq']]%lookup_insert_Some Ht0; [|by eapply (wt_queue _ _ _ _ _ _ _ Hw)].
    eapply (wt_queue _ _ _ _ _ _ _ Hw); [done|]. set_solver.
  - intros wp cs. destruct (cancelled x); [apply Hw|].
    intros [[<- _]|[_ Hcs]]%lookup_insert_Some; [done|]. by eapply (wt_calls _ _ _ _ _ _ _ Hw).
Qed.

(** *** A follower leaves *)

Lemma leading_insert_neutral acts s a a' s' :
  acts !! s = Some a -> (forall l, a <> Leading l) -> (forall l, a' <> Leading l) ->
  leading (<[s := a']> acts) s' = leading acts s'.
Proof.
  intros Ha Hn Hn'. rewrite leading_insert. case_decide as Hs; [|done]. destruct Hs as [<- _].
  unfold leading. rewrite Ha. destruct a as [| |l| | |]; try by destruct a' as [| |l'| | |]; try by destruct (Hn' l').
  by destruct (Hn l).
Qed.

Lemma waiters_cancel infl heap qs acts lds src cls s key wp x x' :
  waiters_ok infl heap qs acts lds src cls -> acts !! s = Some (Following key wp) ->
  heap !! wp = Some x -> dispatcher_ x' = dispatcher_ x -> cancelled x' = true ->
  waiters_ok infl (<[wp := x']> heap) qs (<[s := Cancelled key wp]> acts) lds src cls.
Proof.
  intros Hw Hs Hx Hd Hc.
  assert (Hl : forall s', leading (<[s := Cancelled key wp]> acts) s' = leading acts s').
  { intros s'. by eapply leading_insert_neutral. }
  assert (Hheap : forall wp', is_Some (heap !! wp') -> is_Some (<[wp := x']> heap !! wp')).
  { intros wp' ?. by apply lookup_insert_is_Some'; right. }
  split; try apply Hw.
  - intros wp' y Hy. assert (Hy' : exists y', heap !! wp' = Some y' /\ (cancelled y = false -> y = y')).
    { apply lookup_insert_Some in Hy as [[<- <-]|[_ Hy]]; [|eauto]. exists x. split; [done|]. congruence. }
    destruct Hy' as (y' & Hy' & Heq).
    destruct (wt_waiter _ _ _ _ _ _ _ Hw _ _ Hy') as (s0 & l0 & Hs0 & Hl0 & Hv).
    exists s0, l0. rewrite Hl. split_and!; [done|done|]. intros Hcy. pose proof (Heq Hcy). subst y'.
    by apply Hv.
  - intros s0 l0 t. rewrite Hl. intros Hl0 Ht. destruct (wt_todo _ _ _ _ _ _ _ Hw _ _ _ Hl0 Ht). eauto.
  - intros d q t Hq Ht. destruct (wt_queue _ _ _ _ _ _ _ Hw _ _ _ Hq Ht) as (y & Hy & <-).
    destruct (decide (task_waiter t = wp)) as [Heq|].
    + rewrite Heq in *. simplify_eq. exists x'. by rewrite lookup_insert_eq.
    + exists y. by rewrite lookup_insert_ne.
  - intros wp' cs Hcs. apply Hheap. by eapply (wt_calls _ _ _ _ _ _ _ Hw).
  - intros s0 key0 wp0 [(_ & ? & _)|[Hs0 Hf]]%list_lookup_insert_Some; [done|].
    destruct (wt_following _ _ _ _ _ _ _ Hw _ _ _ Hf) as (y & s1 & l1 & Hy & ? & ? & Hl1 & ?).
    exists y, s1, l1. rewrite Hl, lookup_insert_ne; [done|]. intros <-.
    apply Hs0. eapply (wt_unique _ _ _ _ _ _ _ Hw); eauto.
  - intros s0 key0 wp0 [(_ & ? & _)|[Hs0 Hf]]%list_lookup_insert_Some; [simplify_eq|].
    + exists x'. by rewrite lookup_insert_eq.
    + destruct (wt_cancelled _ _ _ _ _ _ _ Hw _ _ _ Hf) as (y & Hy & ?).
      destruct (decide (wp0 = wp)) as [->|]; [exists x'; by rewrite lookup_insert_eq|].
      exists y. by rewrite lookup_insert_ne.
  - intros s1 s2 key1 key2 wp0 [(_ & ? & _)|[_ Hs1]]%list_lookup_insert_Some; [done|].
    intros [[(_ & ? & _)|[_ Hs2]]%list_lookup_insert_Some|[(<- & ? & _)|[_ Hs2]]%list_lookup_insert_Some];
      simplify_eq; eapply (wt_unique _ _ _ _ _ _ _ Hw); eauto.
Qed.

Lemma waiters_remove infl infl' heap qs acts lds src cls s key wp :
  waiters_ok infl heap qs acts lds src cls -> acts !! s = Some (Cancelled key wp) ->
  (forall k i, infl !! k = Some i -> NoDup (waiters_ i)) ->
  (forall k, infl' !! k = infl !! k \/
     exists i, infl !! k = Some i /\ infl' !! k = Some (remove_waiter wp i)) ->
  waiters_ok infl' heap qs (<[s := Gone]> acts) lds src cls.
Proof.
  intros Hw Hs Hnd Hinfl.
  apply (waiters_frame _ _ _ acts).
  2: { intros s'. by eapply leading_insert_neutral. }
  2: { by apply no_new_followers_insert. }
  destruct (wt_cancelled _ _ _ _ _ _ _ Hw _ _ _ Hs) as (x & Hx & Hc).
  split; try apply Hw.
  - intros wp' y Hy. destruct (wt_waiter _ _ _ _ _ _ _ Hw _ _ Hy) as (s0 & l0 & Hs0 & Hl0 & Hv).
    exists s0, l0. split_and!; [done|done|]. intros Hcy. destruct (Hv Hcy) as [Hview Hin].
    split; [done|]. intros He. destruct (Hin He) as (i & Hi & Hwp).
    destruct (Hinfl (pub_key l0)) as [->|(j & Hj & ->)]; [eauto|]. simplify_eq.
    eexists. split; [done|]. apply remove_waiter_elem; [by eapply Hnd|]. split; [done|]. congruence.
  - intros k i wp' Hi Hwp. destruct (Hinfl k) as [Hk|(j & Hj & Hk)].
    + rewrite Hk in Hi. by eapply (wt_attached _ _ _ _ _ _ _ Hw).
    + rewrite Hk in Hi. simplify_eq. apply remove_waiter_elem in Hwp as [Hwp _]; [|by eapply Hnd].
      by eapply (wt_attached _ _ _ _ _ _ _ Hw).
Qed.
End Waiters.
