(* ===== verification/CacheSystemSteps.v ===== *)
(** Every step of CacheSystem.v that is enabled in a state that satisfies the
    invariant runs without a fault and keeps the invariant. *)
From S2P Require Import Prelude CacheTypes Ring Cache CacheProps CacheSpec CacheSystem CacheSystemRefs CacheSystemWaiters.

Local Open Scope Z_scope.

Section Steps.
Context {H : Type} `{HeaderMapLaws H}.
Implicit Types (sys : system (H := H)) (w : world H).

Definition step_ok (l : label) sys : Prop :=
  forall r, sys_exec l sys = Some r -> exists sys', r = Done sys' /\ sys_ok sys'.

Lemma run_eq {A} (m : M (world H) A) sys (k : A -> world H -> system) a w' :
  m (shared sys) = Done (a, w') -> run m sys k = Some (Done (k a w')).
Proof. unfold run. by intros ->. Qed.

(** Runs a step whose effect on the world is known. *)
Lemma step_run {A} (m : M (world H) A) sys (k : A -> world H -> system) a w' r :
  m (shared sys) = Done (a, w') -> run m sys k = Some r -> sys_ok (k a w') ->
  exists sys', r = Done sys' /\ sys_ok sys'.
Proof. intros Hm Hr Hok. rewrite (run_eq _ _ _ _ _ Hm) in Hr. simplify_eq. eauto. Qed.

Lemma leading_eq_same acts acts' :
  (forall s, leading acts' s = leading (H := H) acts s) -> same_leaders acts acts'.
Proof. intros Hl s. rewrite Hl. by case_match. Qed.

Lemma leading_insert_other (acts : list actor) s a a' s' :
  acts !! s = Some a -> (forall l, a <> Leading l) -> (forall l, a' <> Leading l) ->
  leading (<[s := a']> acts) s' = leading (H := H) acts s'.
Proof. apply leading_insert_neutral. Qed.

(** A stream that is no leader moves on, and touches no inflight response
    and no waiter. *)
Lemma quiet_step sys s a a' w' :
  sys_ok sys -> actors sys !! s = Some a ->
  (forall l, a <> Leading l) -> (forall l, a' <> Leading l) ->
  (forall key wp, a' <> Following key wp /\ a' <> Cancelled key wp) ->
  cache_ok w' -> refs_ok (entries w') (<[s := a']> (actors sys)) ->
  inflight_map_ w' = inflight_map_ (shared sys) -> waiter_heap w' = waiter_heap (shared sys) ->
  queues w' = queues (shared sys) -> sys_ok (set_actor s a' sys w').
Proof.
  intros Hok Ha Hn Hn' Hf Hw Hr Hi Hh Hq.
  assert (Hl : forall s', leading (<[s := a']> (actors sys)) s' = leading (actors sys) s')
    by (intros s'; by eapply leading_insert_neutral).
  split; simpl; rewrite ?Hi, ?Hh, ?Hq; [done|done| |].
  - eapply leaders_same; [apply Hok|]. by apply leading_eq_same.
  - eapply waiters_frame; [apply Hok|done|]. by apply no_new_followers_insert.
Qed.

(** ** Lookups *)

Lemma lookup_hit_step sys key cb p :
  sys_ok sys -> cache_map_ (shared sys) !! key = Some p -> step_ok (DoLookup key cb) sys.
Proof.
  intros Hok Hp r. simpl. unfold step_lookup. destruct (Z.ltb_spec (Z.of_nat (length (actors sys))) (2 ^ 32 - 1)); [|done].
  pose proof (so_cache _ Hok) as Hw.
  destruct (cached_entry _ _ _ (co_ring _ Hw) Hp) as (e & h & z & He & Hk & Hh & _).
  intros Hrun. eapply step_run; [by apply lookup_locked_hit|exact Hrun|]. simpl.
  split; simpl.
  - by apply add_pins_ok.
  - rewrite <- Hk. eapply refs_pin; eauto. apply Hok.
  - eapply leaders_same; [apply Hok|]. apply leading_eq_same. intros s. by apply leading_app_neutral.
  - eapply waiters_frame; [apply Hok| |].
    + intros s. by apply leading_app_neutral.
    + by apply no_new_followers_app.
Qed.

Lemma lookup_leader_step sys key cb :
  sys_ok sys -> cache_map_ (shared sys) !! key = None -> inflight_map_ (shared sys) !! key = None ->
  step_ok (DoLookup key cb) sys.
Proof.
  intros Hok Hp Hi r. simpl. unfold step_lookup. destruct (Z.ltb_spec (Z.of_nat (length (actors sys))) (2 ^ 32 - 1)); [|done].
  intros Hrun. eapply step_run; [by apply lookup_locked_leader|exact Hrun|]. simpl.
  split; simpl.
  - apply become_leader_ok; [apply Hok|done|done].
  - apply refs_app; [apply Hok|done|done].
  - apply leaders_new; [apply Hok|done].
  - apply waiters_new_leader; [apply Hok|done].
Qed.

Lemma lookup_follower_step sys key cb i :
  sys_ok sys -> inflight_map_ (shared sys) !! key = Some i -> step_ok (DoLookup key cb) sys.
Proof.
  intros Hok Hi r. simpl. unfold step_lookup. destruct (Z.ltb_spec (Z.of_nat (length (actors sys))) (2 ^ 32 - 1)); [|done].
  pose proof (so_cache _ Hok) as Hw. pose proof (inflight_not_cached _ _ _ Hw Hi) as Hp.
  destruct (ld_inflight _ _ _ (so_leaders _ Hok) _ _ Hi) as (s & l & Hs & Hl & Hk & Hh & Hb & He).
  intros Hrun. eapply step_run; [by eapply lookup_locked_follower|exact Hrun|]. simpl.
  assert (Hfresh : waiter_heap (shared sys) !! next_waiter (shared sys) = None).
  { destruct (waiter_heap (shared sys) !! _) eqn:Hx; [|done].
    apply (co_fresh _ Hw) in Hx. lia. }
  assert (Hnew : forall k j, inflight_map_ (shared sys) !! k = Some j ->
    next_waiter (shared sys) ∉ waiters_ j).
  { intros k j Hj Hin. destruct (co_waiter _ Hw _ _ _ Hj Hin). congruence. }
  pose proof (waiters_new_follower _ _ _ _ _ _ _ key i cb _ s l (so_waiters _ Hok)
    Hi Hfresh Hnew Hs Hl Hk Hh Hb He) as Hwt.
  rewrite Hs. simpl. split; simpl.
  - by apply become_follower_ok.
  - unfold become_follower. case_match; apply refs_app; (apply Hok || done).
  - replace (inflight_map_ (become_follower key cb i (shared sys)))
      with (<[key := push_waiter (next_waiter (shared sys)) i]> (inflight_map_ (shared sys)))
      by (unfold become_follower; by case_match).
    eapply (leaders_update _ (actors sys) _ _ key s l); eauto; try apply Hok.
    + split; [rewrite leading_app_neutral by done; done|]. intros. by apply leading_app_neutral.
    + intros. by eapply (ld_start _ _ _ (so_leaders _ Hok)).
  - unfold become_follower, backfill, enqueue_all in *. by destruct (inflight_headers_ i).
Qed.

(** ** Reading a hit *)

Lemma serve_step sys s : sys_ok sys -> step_ok (DoServe s) sys.
Proof.
  intros Hok r. simpl. destruct (actors sys !! s) as [a|] eqn:Ha; [|done].
  destruct a as [key p n| | | | |]; try done. intros Hrun.
  destruct (rf_serving _ _ (so_refs _ Hok) _ _ _ _ Ha) as (e & h & He & Hk & -> & Hh).
  pose proof (serve_hit_eq (shared sys) p e h He Hh) as Hserve.
  rewrite createHeaderMap_copy in Hserve. destruct (decide (body_ e = "")) as [Hb|Hb].
  - eapply step_run; [exact Hserve|exact Hrun|]. eapply quiet_step; eauto.
    + apply add_pins_ok; [apply Hok|done].
    + eapply (refs_unpin _ _ s (Serving key p (str_size (body_ e)))); eauto; [apply Hok|].
      by apply bool_decide_true.
  - eapply step_run; [exact Hserve|exact Hrun|]. eapply quiet_step; eauto; [apply Hok|].
    eapply refs_serve; eauto. apply Hok.
Qed.

Lemma release_step sys s : sys_ok sys -> step_ok (DoRelease s) sys.
Proof.
  intros Hok r. simpl. destruct (actors sys !! s) as [a|] eqn:Ha; [|done].
  destruct a as [|key d| | | |]; try done. destruct (hit_body_ d) as [f|] eqn:Hf; [|done].
  intros Hrun. destruct (rf_served _ _ (so_refs _ Hok) _ _ _ _ Ha Hf) as (e & He & _).
  eapply step_run; [by apply fetch_add_pins_eq|exact Hrun|]. eapply quiet_step; eauto.
  - apply add_pins_ok; [apply Hok|done].
  - eapply refs_unpin; eauto; simpl; rewrite ?Hf; [apply Hok|by apply bool_decide_true|done].
Qed.

(** ** Publishing *)

(** The inflight response a leader that has not ended publishes to. *)
Lemma leader_inflight sys s l :
  sys_ok sys -> actors sys !! s = Some (Leading l) -> pub_ended l = false ->
  leading (actors sys) s = Some l /\ leaders sys !! pub_key l = Some s /\
  exists i, inflight_map_ (shared sys) !! pub_key l = Some i /\
            inflight_headers_ i = pub_headers l /\ inflight_body_ i = pub_body l.
Proof.
  intros Hok Ha He. assert (Hl : leading (actors sys) s = Some l) by (by apply leading_Leading).
  destruct (ld_leader _ _ _ (so_leaders _ Hok) _ _ Hl He) as [Hlds [i Hi]].
  split_and!; [done|done|]. exists i.
  destruct (ld_inflight _ _ _ (so_leaders _ Hok) _ _ Hi) as (s' & l' & ? & ? & _ & ? & ? & _).
  simplify_eq. done.
Qed.

(** What the end of a publication leaves of the inflight responses *)
Lemma settled_inflight end_stream key i' h body w w' :
  settled end_stream key h body (with_inflight key i' w) w' ->
  (forall k', k' <> key -> inflight_map_ w' !! k' = inflight_map_ w !! k') /\
  (forall j, inflight_map_ w' !! key = Some j -> waiters_ j = waiters_ i') /\
  (end_stream = false -> is_Some (inflight_map_ w' !! key)).
Proof.
  unfold settled. destruct end_stream; intros Hset.
  - destruct (finalized_frame _ _ _ _ _ Hset) as (_ & _ & -> & _). simpl. split_and!; [| |done].
    + intros k' Hk'. by rewrite lookup_delete_ne, lookup_insert_ne.
    + intros j. by rewrite lookup_delete_eq.
  - subst w'. simpl. split_and!.
    + intros k' Hk'. by rewrite lookup_insert_ne.
    + intros j. rewrite lookup_insert_eq. by intros [= <-].
    + intros _. rewrite lookup_insert_eq. eauto.
Qed.

Lemma publish_step_ok sys s l i i' h body end_stream task cs w' :
  sys_ok sys -> actors sys !! s = Some (Leading l) -> pub_ended l = false -> pub_todo l = [] ->
  inflight_map_ (shared sys) !! pub_key l = Some i ->
  inflight_headers_ i' = Some h -> inflight_body_ i' = body -> waiters_ i' = waiters_ i ->
  (forall x, task_waiter (task x) = x /\ task_calls (task x) = cs) ->
  view_calls (published l) cs = Streaming h body end_stream ->
  settled end_stream (pub_key l) h body (with_inflight (pub_key l) i' (shared sys)) w' ->
  sys_ok (set_actor s
    (Leading (Publication (pub_key l) (Some h) body end_stream (map task (waiters_ i)))) sys w').
Proof.
  intros Hok Ha He Htodo Hi Hh Hb Hws Htask Hview Hset.
  destruct (leader_inflight _ _ _ Hok Ha He) as (Hl & Hlds & _).
  pose proof (so_cache _ Hok) as Hw.
  assert (Hw1 : cache_ok (with_inflight (pub_key l) i' (shared sys))).
  { eapply replace_inflight_ok; [done|exact Hi| | |].
    - congruence.
    - rewrite Hws. by eapply co_nodup.
    - by rewrite Hws. }
  assert (Hw' : cache_ok w').
  { eapply (settled_ok end_stream (pub_key l) i'); [exact Hw1|apply lookup_insert_eq|]. by rewrite Hb. }
  destruct (settled_frame _ _ _ _ _ _ Hset) as (Hwt & _ & Hq). simpl in Hwt, Hq.
  set (l' := Publication (pub_key l) (Some h) body end_stream (map task (waiters_ i))).
  pose proof (leader_becomes_insert (actors sys) s l l' Hl) as Hbec.
  pose proof (settled_inflight _ _ _ _ _ _ _ Hset) as Hinfl. rewrite Hws in Hinfl.
  destruct Hinfl as (Hother & Hsame & Hstay).
  split; simpl; rewrite ?Hwt, ?Hq.
  - done.
  - unfold settled in Hset. destruct end_stream.
    + destruct (finalized_entries _ _ _ _ _ (co_ring _ Hw1) Hset).
      eapply (refs_finalized _ _ _ s l l'); eauto. apply Hok.
    + subst w'. eapply refs_neutral; [apply Hok|exact Ha|done|done|]. apply keeps_insert.
      intros l0 Hl0 He0. congruence.
  - unfold settled in Hset. destruct end_stream.
    + destruct (finalized_frame _ _ _ _ _ Hset) as (_ & _ & -> & _). simpl.
      rewrite delete_insert_eq. eapply leaders_end; eauto. apply Hok.
    + subst w'. simpl. eapply (leaders_update _ (actors sys) _ _ (pub_key l) s l'); eauto;
        first [apply Hok|simpl; congruence].
  - eapply (waiters_publish _ _ _ _ _ _ _ _ (pub_key l) i s l l' task cs); eauto; try apply Hok.
    + apply (co_nodup _ Hw _ _ Hi).
    + intros wp. apply (co_waiter _ Hw _ _ _ Hi).
Qed.

Lemma headers_step sys s h end_stream : sys_ok sys -> step_ok (DoHeaders s h end_stream) sys.
Proof.
  intros Hok r. simpl. destruct (actors sys !! s) as [a|] eqn:Ha; [|done].
  destruct a as [| |[key [h0|] body [] [|t todo]]| | |]; try done. intros Hrun.
  destruct (leader_inflight _ _ _ Hok Ha eq_refl) as (Hl & _ & i & Hi & Hh & Hb). simpl in *.
  destruct (publishHeaders_locked_result (shared sys) key i h end_stream (so_cache _ Hok) Hi)
    as (w' & Heq & Hset).
  unfold headers_after in Heq, Hset. rewrite Hh, createHeaderMap_copy in *.
  eapply step_run; [exact Heq|exact Hrun|].
  rewrite (ld_start _ _ _ (so_leaders _ Hok) _ _ Hl eq_refl : body = "") in *.
  cbn beta iota. eapply (publish_step_ok sys s (Publication key None "" false []) i (set_headers_if_empty h i) h "" end_stream
    (fun wp => PostHeaders wp (createHeaderMap (createHeaderMap h)) end_stream)
    [EncodeHeaders h end_stream RingCacheDetailsMessageCoalesced]); eauto.
  - simpl. by rewrite Hh, createHeaderMap_copy.
  - intros x. simpl. by rewrite !createHeaderMap_copy.
  - by rewrite Hb in Hset.
Qed.

Lemma data_step sys s data end_stream : sys_ok sys -> step_ok (DoData s data end_stream) sys.
Proof.
  intros Hok r. simpl. destruct (actors sys !! s) as [a|] eqn:Ha; [|done].
  destruct a as [| |[key [h|] body [] [|t todo]]| | |]; try done. intros Hrun.
  destruct (leader_inflight _ _ _ Hok Ha eq_refl) as (Hl & _ & i & Hi & Hh & Hb). simpl in *.
  destruct (publishData_locked_result (shared sys) key i h data end_stream (so_cache _ Hok) Hi Hh)
    as (w' & Heq & Hset).
  eapply step_run; [exact Heq|exact Hrun|]. rewrite Hb in Hset.
  cbn beta iota. eapply (publish_step_ok sys s (Publication key (Some h) body false []) i (append_body data i) h (body +:+ data) end_stream
    (fun wp => PostData wp data end_stream) [EncodeData data end_stream]); eauto.
  simpl. by rewrite Hb.
Qed.

(** ** Posting and event loops *)

Lemma post_step sys s : sys_ok sys -> step_ok (DoPost s) sys.
Proof.
  intros Hok r. simpl. destruct (actors sys !! s) as [a|] eqn:Ha; [|done].
  destruct a as [| |[key h body ended [|t todo]]| | |]; try done. intros Hrun.
  pose proof (leading_Leading _ _ _ Ha) as Hl.
  destruct (wt_todo _ _ _ _ _ _ _ (so_waiters _ Hok) _ _ t Hl) as [_ [x Hx]]; [simpl; set_solver|].
  set (l' := Publication key h body ended todo).
  eapply (step_run _ _ _ tt (enqueue (dispatcher_ x) t (shared sys))); [|exact Hrun|].
  { unfold post_to, deref_waiter. erewrite bind_Done by (cbv beta; by rewrite Hx). done. }
  split; simpl.
  - apply enqueue_ok, Hok.
  - eapply refs_neutral; [apply Hok|exact Ha|done|done|]. apply keeps_insert.
    intros l0 Hl0 _. simplify_eq. by exists l'.
  - eapply leaders_same; [apply Hok|]. intros s'. rewrite leading_insert. case_decide as Hs.
    + destruct Hs as [<- _]. by rewrite Hl.
    + by case_match.
  - eapply (waiters_post _ _ _ _ _ _ _ s (Publication key h body ended (t :: todo)) l'); eauto.
    + apply Hok.
    + done.
Qed.

Lemma dispatch_step sys d : sys_ok sys -> step_ok (DoDispatch d) sys.
Proof.
  intros Hok r. simpl. destruct (queues (shared sys) !! d) as [[|t ts]|] eqn:Hq; try done. intros Hrun.
  destruct (wt_queue _ _ _ _ _ _ _ (so_waiters _ Hok) d _ t Hq) as (x & Hx & Hd); [set_solver|].
  pose proof (waiters_dispatch _ _ _ _ _ _ _ d t ts x (so_waiters _ Hok) Hq Hx) as Hwt.
  eapply (step_run _ _ _ (if cancelled x then None else Some (callbacks_ x, task_calls t))
    (set_queues (fun q => <[d := ts]> q) (shared sys))); [|exact Hrun|].
  { unfold run_dispatcher. rewrite bind_gets, Hq, bind_modify. unfold run_task, deref_waiter.
    erewrite bind_Done by (simpl; by rewrite Hx). by destruct (cancelled x). }
  split; simpl; [apply set_queues_ok, Hok|apply Hok|apply Hok|].
  by destruct (cancelled x).
Qed.

(** ** Leaving *)

Lemma cancel_step sys s : sys_ok sys -> step_ok (DoCancel s) sys.
Proof.
  intros Hok r. simpl. destruct (actors sys !! s) as [a|] eqn:Ha; [|done].
  destruct a as [| | |key wp| |]; try done. intros Hrun.
  destruct (wt_following _ _ _ _ _ _ _ (so_waiters _ Hok) _ _ _ Ha) as (x & s' & l & Hx & _).
  set (x' := {| dispatcher_ := dispatcher_ x; callbacks_ := callbacks_ x; cancelled := true |}).
  eapply (step_run _ _ _ tt (set_waiter_heap (fun m => <[wp := x']> m) (shared sys))); [|exact Hrun|].
  { unfold cancel_waiter, deref_waiter. by erewrite bind_Done by (cbv beta; by rewrite Hx). }
  assert (Hl : forall s', leading (<[s := Cancelled key wp]> (actors sys)) s' = leading (actors sys) s')
    by (intros; by eapply leading_insert_neutral).
  split; simpl.
  - destruct (so_cache _ Hok) as [[] ? ? ? ? ? Hfresh ?]. split; simpl; try done.
    + intros k i wp' Hi Hwp. apply lookup_insert_is_Some'. eauto.
    + intros wp' y [[<- _]|[_ Hy]]%lookup_insert_Some; eauto.
  - eapply refs_neutral; [apply Hok|exact Ha|done|done|]. apply keeps_insert.
    intros l0 Hl0. unfold leading in Hl0. by rewrite Ha in Hl0.
  - eapply leaders_same; [apply Hok|]. by apply leading_eq_same.
  - eapply waiters_cancel; eauto. apply Hok.
Qed.

Lemma remove_step sys s : sys_ok sys -> step_ok (DoRemove s) sys.
Proof.
  intros Hok r. simpl. destruct (actors sys !! s) as [a|] eqn:Ha; [|done].
  destruct a as [| | | |key wp|]; try done. intros Hrun.
  pose proof (so_cache _ Hok) as Hw.
  assert (Hnd : forall k i, inflight_map_ (shared sys) !! k = Some i -> NoDup (waiters_ i))
    by (intros k i; apply (co_nodup _ Hw)).
  assert (Hl : forall s', leading (<[s := Gone]> (actors sys)) s' = leading (actors sys) s')
    by (intros; by eapply leading_insert_neutral).
  assert (Hrefs : refs_ok (entries (shared sys)) (<[s := Gone]> (actors sys))).
  { eapply refs_neutral; [apply Hok|exact Ha|done|done|]. apply keeps_insert.
    intros l0 Hl0. unfold leading in Hl0. by rewrite Ha in Hl0. }
  destruct (inflight_map_ (shared sys) !! key) as [i|] eqn:Hi.
  - eapply step_run; [by apply removeWaiter_eq|exact Hrun|]. split; simpl.
    + by apply with_removed_ok.
    + done.
    + destruct (ld_inflight _ _ _ (so_leaders _ Hok) _ _ Hi) as (s' & l & ? & ? & ? & ? & ? & ?).
      eapply (leaders_update _ (actors sys) _ _ key s' l); eauto; [apply Hok|split; [by rewrite Hl|]|].
      * intros; apply Hl.
      * by eapply (ld_start _ _ _ (so_leaders _ Hok)).
    + eapply waiters_remove; eauto; [apply Hok|]. intros k.
      destruct (decide (k = key)) as [->|]; [right|left; by rewrite lookup_insert_ne].
      exists i. by rewrite lookup_insert_eq.
  - eapply step_run; [by apply removeWaiter_absent|exact Hrun|]. split; simpl; [apply Hok|done| |].
    + eapply leaders_same; [apply Hok|]. by apply leading_eq_same.
    + eapply waiters_remove; eauto; apply Hok.
Qed.

(** ** All steps *)

Lemma exec_ok sys l : sys_ok sys -> step_ok l sys.
Proof.
  intros Hok. destruct l.
  - destruct (cache_map_ (shared sys) !! key) as [p|] eqn:Hp; [by eapply lookup_hit_step|].
    destruct (inflight_map_ (shared sys) !! key) as [i|] eqn:Hi.
    + by eapply lookup_follower_step.
    + by apply lookup_leader_step.
  - by apply serve_step.
  - by apply release_step.
  - by apply headers_step.
  - by apply data_step.
  - by apply post_step.
  - by apply dispatch_step.
  - by apply cancel_step.
  - by apply remove_step.
Qed.

Lemma initial_ok capacity slot_count :
  0 < capacity < 2 ^ 64 -> 0 < slot_count < 2 ^ 64 -> sys_ok (initial capacity slot_count).
Proof.
  intros Hc Hs. split; simpl; [by apply RingBufferCache_ok| | |].
  - split; simpl; intros; by rewrite ?lookup_empty, ?lookup_nil in *.
  - split; simpl; intros; unfold leading in *; by rewrite ?lookup_empty, ?lookup_nil in *.
  - split; simpl; intros; unfold leading in *; by rewrite ?lookup_empty, ?lookup_nil in *.
Qed.

(** The invariant holds in every reachable state. *)
Lemma reachable_ok capacity slot_count sys :
  0 < capacity < 2 ^ 64 -> 0 < slot_count < 2 ^ 64 ->
  reachable capacity slot_count sys -> sys_ok sys.
Proof.
  intros Hc Hs. induction 1 as [|sys l sys' _ IH Hstep]; [by apply initial_ok|].
  destruct (exec_ok _ _ IH _ Hstep) as (sys2 & ? & ?). by simplify_eq.
Qed.
End Steps.
