(* ===== verification/CacheSystemLive.v ===== *)
(** Running the system of CacheSystem.v: executions, and the schedule that
    delivers a completed response to a follower. *)
From S2P Require Import Prelude CacheTypes Ring Cache CacheProps CacheSpec CacheSystem CacheSystemRefs CacheSystemWaiters CacheSystemSteps.

Local Open Scope Z_scope.

Section Live.
Context {H : Type} `{HeaderMapApi H}.
Implicit Types (sys : system (H := H)).

(** Executions, by the labels of their steps. *)
Inductive steps : system (H := H) -> list (label (H := H)) -> system (H := H) -> Prop :=
| steps_nil sys : steps sys [] sys
| steps_cons sys l sys1 ls sys2 :
    sys_step sys l sys1 -> steps sys1 ls sys2 -> steps sys (l :: ls) sys2.

(** The execution of a list of labels, where each is enabled. *)
Fixpoint play (ls : list (label (H := H))) sys : option (system (H := H)) :=
  match ls with
  | [] => Some sys
  | l :: ls => match sys_exec l sys with
               | Some (Done sys') => play ls sys'
               | _ => None
               end
  end.

Lemma play_steps ls sys sys' : play ls sys = Some sys' <-> steps sys ls sys'.
Proof.
  revert sys. induction ls as [|l ls IH]; intros sys; simpl.
  - split; [intros [= ->]; constructor|]. by inversion 1.
  - split.
    + intros Hp. repeat case_match; simplify_eq. econstructor; [done|]. by apply IH.
    + inversion 1 as [|? ? sys1 ? ? Hstep Hrest]; subst. rewrite Hstep. by apply IH.
Qed.

Lemma steps_app sys ls1 sys1 ls2 sys2 :
  steps sys ls1 sys1 -> steps sys1 ls2 sys2 -> steps sys (ls1 ++ ls2) sys2.
Proof. induction 1; [done|]. intros. econstructor; eauto. Qed.

Lemma steps_reachable capacity slot_count sys ls sys' :
  steps sys ls sys' -> reachable capacity slot_count sys -> reachable capacity slot_count sys'.
Proof. induction 1; eauto using reach_step. Qed.

Lemma play_reachable capacity slot_count ls sys' :
  play ls (initial capacity slot_count) = Some sys' -> reachable capacity slot_count sys'.
Proof. intros Hp%play_steps. eapply steps_reachable; [done|constructor]. Qed.

Context `{!HeaderMapLaws H}.

(** What a step of the delivery of a response leaves alone. *)
Definition delivering s wp sys sys' : Prop :=
  (forall s', s' <> s -> actors sys' !! s' = actors sys !! s') /\
  waiter_heap (shared sys') = waiter_heap (shared sys) /\
  source sys' = source sys /\
  exists l l', leading (actors sys) s = Some l /\ leading (actors sys') s = Some l' /\
    same_response l l' /\ (pub_todo l = [] -> pub_todo l' = []) /\
    received (calls sys) wp `prefix_of` received (calls sys') wp.

Lemma post_one s wp sys l t ts :
  sys_ok sys -> leading (actors sys) s = Some l -> pub_todo l = t :: ts ->
  exists sys', sys_step sys (DoPost s) sys' /\ sys_ok sys' /\ delivering s wp sys sys' /\
    exists l', leading (actors sys') s = Some l' /\ pub_todo l' = ts.
Proof.
  intros Hok Hl Ht. pose proof (Leading_lookup _ _ _ Hl) as Ha.
  destruct l as [key h body ended todo]. simpl in Ht. subst todo.
  destruct (wt_todo _ _ _ _ _ _ _ (so_waiters _ Hok) _ _ t Hl) as [_ [x Hx]]; [simpl; set_solver|].
  set (l' := Publication key h body ended ts).
  set (sys' := set_actor s (Leading l') sys (enqueue (dispatcher_ x) t (shared sys))).
  assert (Hstep : sys_step sys (DoPost s) sys').
  { unfold sys_step. simpl. rewrite Ha. erewrite run_eq; [reflexivity|].
    unfold post_to, deref_waiter. by erewrite bind_Done by (cbv beta; by rewrite Hx). }
  exists sys'. destruct (exec_ok _ _ Hok _ Hstep) as (sys2 & ? & ?). simplify_eq.
  destruct (leader_becomes_insert _ _ _ l' Hl) as [Hl' _]. split_and!; [done|done| |by exists l'].
  split_and!; [|done|done|].
  - intros s' Hs'. simpl. by rewrite list_lookup_insert_ne.
  - exists (Publication key h body ended (t :: ts)), l'. split_and!; [done|done|done|done|done].
Qed.

Lemma dispatch_one s wp sys d l t ts :
  sys_ok sys -> leading (actors sys) s = Some l -> queues (shared sys) !! d = Some (t :: ts) ->
  exists sys', sys_step sys (DoDispatch d) sys' /\ sys_ok sys' /\ delivering s wp sys sys' /\
    queues (shared sys') !! d = Some ts.
Proof.
  intros Hok Hl Hq.
  destruct (wt_queue _ _ _ _ _ _ _ (so_waiters _ Hok) d _ t Hq) as (x & Hx & Hd); [set_solver|].
  set (w' := set_queues (fun q => <[d := ts]> q) (shared sys)).
  set (r := if cancelled x then None else Some (callbacks_ x, task_calls t)).
  assert (Hrun : run_dispatcher d (shared sys) = Done (r, w')).
  { unfold run_dispatcher. rewrite bind_gets, Hq, bind_modify. unfold run_task, deref_waiter.
    erewrite bind_Done by (simpl; by rewrite Hx). unfold r. by destruct (cancelled x). }
  eassert (Hstep : sys_step sys (DoDispatch d) _).
  { unfold sys_step. simpl. rewrite Hq. by erewrite run_eq. }
  eexists. split; [exact Hstep|]. destruct (exec_ok _ _ Hok _ Hstep) as (sys2 & ? & ?). simplify_eq.
  split; [done|]. split; [|apply lookup_insert_eq].
  split_and!; [done|done|done|]. exists l, l. split_and!; [done..|]. simpl. unfold r.
  destruct (cancelled x); simpl; [done|]. unfold received, calls_of.
  destruct (decide (task_waiter t = wp)) as [<-|].
  - rewrite lookup_insert_eq. simpl. by eexists.
  - by rewrite lookup_insert_ne.
Qed.

Lemma delivering_trans s wp sys1 sys2 sys3 :
  delivering s wp sys1 sys2 -> delivering s wp sys2 sys3 -> delivering s wp sys1 sys3.
Proof.
  intros (Ha & Hh & Hs & l1 & l2 & Hl1 & Hl2 & Hsame & Ht & Hp)
         (Ha' & Hh' & Hs' & l2' & l3 & Hl2' & Hl3 & Hsame' & Ht' & Hp').
  simplify_eq. split_and!; [|congruence|congruence|].
  - intros s' Hne. by rewrite Ha', Ha.
  - exists l1, l3. split_and!; [done|done| |tauto|by etrans].
    unfold same_response in *. naive_solver congruence.
Qed.

Lemma delivering_refl s wp sys l : leading (actors sys) s = Some l -> delivering s wp sys sys.
Proof. intros Hl. split_and!; [done|done|done|]. by exists l, l. Qed.

(** The leader makes all its posts. *)
Lemma post_all s wp ts sys l :
  sys_ok sys -> leading (actors sys) s = Some l -> pub_todo l = ts ->
  exists sys' l', steps sys (replicate (length ts) (DoPost s)) sys' /\ sys_ok sys' /\
    delivering s wp sys sys' /\ leading (actors sys') s = Some l' /\ pub_todo l' = [].
Proof.
  revert sys l. induction ts as [|t ts IH]; intros sys l Hok Hl Ht.
  - exists sys, l. split_and!; [constructor|done|by eapply delivering_refl|done|done].
  - destruct (post_one s wp sys l t ts Hok Hl Ht) as (sys1 & Hstep & Hok1 & Hd & l1 & Hl1 & Ht1).
    destruct (IH _ _ Hok1 Hl1 Ht1) as (sys2 & l2 & Hsteps & Hok2 & Hd2 & Hl2 & Ht2).
    exists sys2, l2. split_and!; [by econstructor|done|by eapply delivering_trans|done|done].
Qed.

(** The event loop empties its queue. *)
Lemma dispatch_all s wp d q sys l :
  sys_ok sys -> leading (actors sys) s = Some l -> default [] (queues (shared sys) !! d) = q ->
  exists sys', steps sys (replicate (length q) (DoDispatch d)) sys' /\ sys_ok sys' /\
    delivering s wp sys sys' /\ default [] (queues (shared sys') !! d) = [].
Proof.
  revert sys l. induction q as [|t q IH]; intros sys l Hok Hl Hq.
  - exists sys. split_and!; [constructor|done|by eapply delivering_refl|done].
  - destruct (queues (shared sys) !! d) as [q'|] eqn:Hq'; [|done]. simpl in Hq. subst q'.
    destruct (dispatch_one s wp sys d l t q Hok Hl Hq') as (sys1 & Hstep & Hok1 & Hd & Hq1).
    pose proof Hd as (_ & _ & _ & _ & l1 & _ & Hl1 & _).
    destruct (IH sys1 l1 Hok1 Hl1) as (sys2 & Hsteps & Hok2 & Hd2 & Hq2); [by rewrite Hq1|].
    exists sys2. split_and!; [by econstructor|done|by eapply delivering_trans|done].
Qed.

(** ** What a client has seen of a response *)

(** [v] is a beginning of [v']. *)
Definition view_le (v v' : view (H := H)) : Prop :=
  match v, v' with
  | NoHeaders, NoHeaders | NoHeaders, Streaming _ _ _ => True
  | Streaming h b e, Streaming h' b' e' =>
      h = h' /\ (exists rest, b' = b +:+ rest) /\ (e = true -> e' = true /\ b = b')
  | _, _ => False
  end.

Lemma string_app_nil_r (s : string) : s +:+ "" = s.
Proof.
  induction s as [|a s IH]; [done|].
  change (String a (s +:+ "") = String a s). by rewrite IH.
Qed.

Lemma string_app_assoc (a b c : string) : (a +:+ b) +:+ c = a +:+ (b +:+ c).
Proof.
  induction a as [|x a IH]; [done|].
  change (String x ((a +:+ b) +:+ c) = String x (a +:+ (b +:+ c))). by rewrite IH.
Qed.

Lemma view_calls_malformed cs : view_calls (H := H) Malformed cs = Malformed.
Proof. by induction cs as [|[] cs IH]. Qed.

Lemma view_calls_le cs v v' : view_calls v cs = v' -> v' <> Malformed -> view_le v v'.
Proof.
  revert v. induction cs as [|c cs IH]; intros v Hv Hn.
  { simpl in Hv. subst v'. destruct v as [|h b e|]; simpl; [done| |done].
    split_and!; [done|exists ""; by rewrite string_app_nil_r|done]. }
  specialize (IH _ Hv Hn). destruct v as [|h b e|], c as [h2 e2 d2|d2 e2]; simpl in IH.
  - by destruct v'.
  - by destruct v'.
  - by destruct e; destruct v'.
  - destruct e; [by destruct v'|]. destruct v' as [|h' b' e'|]; simpl in *; try done.
    destruct IH as (-> & [rest ->] & _). split_and!; [done| |done].
    exists (d2 +:+ rest). by rewrite string_app_assoc.
  - by destruct v'.
  - by destruct v'.
Qed.

Lemma published_ok (l : publication (H := H)) : published l <> Malformed.
Proof. unfold published. by destruct (pub_headers l). Qed.

(** The leader a follower follows, and what the follower is still to be told. *)
Lemma following_leader sys s key wp :
  sys_ok sys -> actors sys !! s = Some (Following key wp) ->
  exists x s' l, waiter_heap (shared sys) !! wp = Some x /\ source sys !! wp = Some s' /\
    leading (actors sys) s' = Some l /\ pub_key l = key /\
    view_calls NoHeaders (stream_of wp x l (queues (shared sys)) (calls sys)) = published l.
Proof.
  intros Hok Ha.
  destruct (wt_following _ _ _ _ _ _ _ (so_waiters _ Hok) _ _ _ Ha) as (x & s' & l & Hx & Hc & Hs & Hl & Hk).
  exists x, s', l. split_and!; [done..|].
  destruct (wt_waiter _ _ _ _ _ _ _ (so_waiters _ Hok) _ _ Hx) as (s2 & l2 & Hs2 & Hl2 & Hv).
  simplify_eq. by destruct (Hv Hc).
Qed.
End Live.
