(* ===== verification/CacheLasting.v ===== *)
(** What lasts while streams go on, whatever their order: the contents of a
    pinned entry, so the bytes a hit points at, and the flag of a waiter that
    has left, so the silence of its callbacks. *)
From S2P Require Import Prelude CacheTypes Ring Cache CacheProps CacheSpec CacheSystem CacheSystemRefs CacheSystemWaiters CacheSystemSteps CacheSystemLive.

Local Open Scope Z_scope.

Section Lasting.
Context {H : Type} `{HeaderMapLaws H}.
Implicit Types (sys : system (H := H)) (w : world H).

(** ** The shared world *)

(** What no step takes away *)
Record lasting w w' : Prop := {
  la_pinned q e : entries w !! q = Some e -> pins_ e <> 0 ->
    exists e', entries w' !! q = Some e' /\ same_entry e e';
  la_cancelled wp x : waiter_heap w !! wp = Some x -> cancelled x = true ->
    exists x', waiter_heap w' !! wp = Some x' /\ cancelled x' = true
}.

Lemma lasting_same w w' : entries w' = entries w -> waiter_heap w' = waiter_heap w -> lasting w w'.
Proof. intros He Hh. split; [rewrite He; intros q e Hq _; by exists e|rewrite Hh; eauto]. Qed.

Lemma lasting_pins w p n e : entries w !! p = Some e -> lasting w (add_pins p n e w).
Proof. intros He. split; [|by eauto]. intros q e0 Hq _. by eapply set_pins_to. Qed.

Lemma lasting_settled end_stream key i h body w w' :
  ring_ok w -> settled end_stream key h body (with_inflight key i w) w' -> lasting w w'.
Proof.
  intros Hw Hset. destruct (settled_frame _ _ _ _ _ _ Hset) as (Hh & _).
  unfold settled in Hset. destruct end_stream; [|subst w'; by apply lasting_same].
  assert (Hw1 : ring_ok (with_inflight key i w)) by (destruct Hw; by split).
  destruct (finalized_entries _ _ _ _ _ Hw1 Hset) as [_ Hkeep].
  split; [|rewrite Hh; eauto]. intros q e Hq Hp. exists e. split; [by apply Hkeep|done].
Qed.

Lemma lasting_follower w key cb i : cache_ok w -> lasting w (become_follower key cb i w).
Proof.
  intros Hw. unfold become_follower.
  assert (Hadd : lasting w (add_waiter key cb i w)).
  { split; [intros ? e ? _; by exists e|]. intros wp x Hx Hc. exists x. split; [|done]. simpl. rewrite lookup_insert_ne; [done|].
    intros <-. apply (co_fresh _ Hw) in Hx. lia. }
  destruct (inflight_headers_ i); [|done]. destruct Hadd as [Hp Hc]. by split.
Qed.

(** ** Steps *)

Lemma run_step {A} (m : M (world H) A) sys k a w' sys' :
  m (shared sys) = Done (a, w') -> run m sys k = Some (Done sys') -> sys' = k a w'.
Proof. intros Hm. rewrite (run_eq _ _ _ _ _ Hm). by intros [= <-]. Qed.

Lemma lookup_lasting sys key cb sys' :
  sys_ok sys -> sys_step sys (DoLookup key cb) sys' -> lasting (shared sys) (shared sys').
Proof.
  intros Hok Hstep. unfold sys_step in Hstep. simpl in Hstep. unfold step_lookup in Hstep. case_match; [|done].
  pose proof (so_cache _ Hok) as Hw. destruct (cache_map_ (shared sys) !! key) as [p|] eqn:Hp.
  - destruct (cached_entry _ _ _ (co_ring _ Hw) Hp) as (e & h & z & He & _).
    rewrite (run_step _ _ _ _ _ _ (lookup_locked_hit _ _ (Some cb) _ _ Hp He) Hstep). by apply lasting_pins.
  - destruct (inflight_map_ (shared sys) !! key) as [i|] eqn:Hi.
    + rewrite (run_step _ _ _ _ _ _ (lookup_locked_follower _ _ cb _ Hw Hp Hi) Hstep). by apply lasting_follower.
    + rewrite (run_step _ _ _ _ _ _ (lookup_locked_leader _ _ (Some cb) Hp Hi) Hstep). by apply lasting_same.
Qed.

Lemma hit_lasting sys l s sys' :
  sys_ok sys -> sys_step sys l sys' -> l = DoServe s \/ l = DoRelease s -> lasting (shared sys) (shared sys').
Proof.
  intros Hok Hstep [-> | ->]; unfold sys_step in Hstep; simpl in Hstep; destruct (actors sys !! s) as [a|] eqn:Ha; try done;
    destruct a as [key p n|key d| | | |]; try done.
  - destruct (rf_serving _ _ (so_refs _ Hok) _ _ _ _ Ha) as (e & h & He & _ & -> & Hh).
    pose proof (serve_hit_eq (shared sys) p e h He Hh) as Hserve.
    destruct (decide (body_ e = "")); rewrite (run_step _ _ _ _ _ _ Hserve Hstep);
      [by apply lasting_pins|by apply lasting_same].
  - destruct (hit_body_ d) as [f|] eqn:Hf; [|done].
    destruct (rf_served _ _ (so_refs _ Hok) _ _ _ _ Ha Hf) as (e & He & _).
    rewrite (run_step (release_fragment f) _ _ _ _ _ (fetch_add_pins_eq _ _ _ _ He) Hstep). by apply lasting_pins.
Qed.

Lemma publish_lasting sys l s sys' :
  sys_ok sys -> sys_step sys l sys' -> (exists h e, l = DoHeaders s h e) \/ (exists d e, l = DoData s d e) ->
  lasting (shared sys) (shared sys').
Proof.
  intros Hok Hstep Hl. pose proof (so_cache _ Hok) as Hw.
  destruct Hl as [(h & e & ->)|(d & e & ->)]; unfold sys_step in Hstep; simpl in Hstep;
    destruct (actors sys !! s) as [a|] eqn:Ha; try done.
  - destruct a as [| |[key [h0|] body [] [|t todo]]| | |]; try done.
    destruct (leader_inflight _ _ _ Hok Ha eq_refl) as (_ & _ & i & Hi & _). simpl in Hi.
    destruct (publishHeaders_locked_result _ key i h e Hw Hi) as (w' & Heq & Hset).
    rewrite (run_step _ _ _ _ _ _ Heq Hstep). eapply lasting_settled; [apply Hw|exact Hset].
  - destruct a as [| |[key [h0|] body [] [|t todo]]| | |]; try done.
    destruct (leader_inflight _ _ _ Hok Ha eq_refl) as (_ & _ & i & Hi & Hh & _). simpl in Hi, Hh.
    destruct (publishData_locked_result _ key i h0 d e Hw Hi Hh) as (w' & Heq & Hset).
    rewrite (run_step _ _ _ _ _ _ Heq Hstep). eapply lasting_settled; [apply Hw|exact Hset].
Qed.

(** A turn of an event loop: the first closure runs. *)
Lemma dispatch_result sys d t ts :
  sys_ok sys -> queues (shared sys) !! d = Some (t :: ts) ->
  exists y, waiter_heap (shared sys) !! task_waiter t = Some y /\
    run_dispatcher d (shared sys)
    = Done (if cancelled y then None else Some (callbacks_ y, task_calls t),
            set_queues (fun q => <[d := ts]> q) (shared sys)).
Proof.
  intros Hok Hq. destruct (wt_queue _ _ _ _ _ _ _ (so_waiters _ Hok) d _ t Hq) as (y & Hy & _); [set_solver|].
  exists y. split; [done|]. unfold run_dispatcher. rewrite bind_gets, Hq, bind_modify. unfold run_task, deref_waiter.
  erewrite bind_Done by (simpl; by rewrite Hy). by destruct (cancelled y).
Qed.

Lemma waiter_lasting sys l sys' :
  sys_ok sys -> sys_step sys l sys' ->
  match l with DoPost _ | DoDispatch _ | DoCancel _ | DoRemove _ => True | _ => False end ->
  lasting (shared sys) (shared sys').
Proof.
  intros Hok Hstep Hl. unfold sys_step in Hstep. destruct l as [| | | | |s|d|s|s]; try done; simpl in Hstep.
  - destruct (actors sys !! s) as [a|] eqn:Ha; [|done]. destruct a as [| |[key h body ended [|t todo]]| | |]; try done.
    pose proof (leading_Leading _ _ _ Ha) as Hl'.
    destruct (wt_todo _ _ _ _ _ _ _ (so_waiters _ Hok) _ _ t Hl') as [_ [x Hx]]; [simpl; set_solver|].
    erewrite (run_step _ _ _ tt (enqueue (dispatcher_ x) t (shared sys)) sys'); [| |exact Hstep]; [by apply lasting_same|].
    unfold post_to, deref_waiter. by erewrite bind_Done by (cbv beta; by rewrite Hx).
  - destruct (queues (shared sys) !! d) as [[|t ts]|] eqn:Hq; try done.
    destruct (dispatch_result _ _ _ _ Hok Hq) as (y & _ & Hrun). rewrite (run_step _ _ _ _ _ _ Hrun Hstep).
    by apply lasting_same.
  - destruct (actors sys !! s) as [a|] eqn:Ha; [|done]. destruct a as [| | |key wp| |]; try done.
    destruct (wt_following _ _ _ _ _ _ _ (so_waiters _ Hok) _ _ _ Ha) as (x & s' & l & Hx & _).
    set (x' := {| dispatcher_ := dispatcher_ x; callbacks_ := callbacks_ x; cancelled := true |}).
    erewrite (run_step _ _ _ tt (set_waiter_heap (fun m => <[wp := x']> m) (shared sys)) sys'); [| |exact Hstep].
    + split; [intros ? e ? _; by exists e|]. intros q z Hz Hc. simpl. destruct (decide (wp = q)) as [<-|].
      * exists x'. by rewrite lookup_insert_eq.
      * exists z. by rewrite lookup_insert_ne.
    + unfold cancel_waiter, deref_waiter. by erewrite bind_Done by (cbv beta; by rewrite Hx).
  - destruct (actors sys !! s) as [a|] eqn:Ha; [|done]. destruct a as [| | | |key wp|]; try done.
    destruct (inflight_map_ (shared sys) !! key) as [i|] eqn:Hi.
    + rewrite (run_step _ _ _ _ _ _ (removeWaiter_eq _ _ _ _ Hi) Hstep). by apply lasting_same.
    + rewrite (run_step _ _ _ _ _ _ (removeWaiter_absent _ _ _ Hi) Hstep). by apply lasting_same.
Qed.

Lemma step_lasting sys l sys' : sys_ok sys -> sys_step sys l sys' -> lasting (shared sys) (shared sys').
Proof.
  intros Hok Hstep. destruct l.
  - by eapply lookup_lasting.
  - eapply hit_lasting; eauto.
  - eapply hit_lasting; eauto.
  - eapply publish_lasting; eauto.
  - eapply publish_lasting; eauto.
  - by eapply waiter_lasting.
  - by eapply waiter_lasting.
  - by eapply waiter_lasting.
  - by eapply waiter_lasting.
Qed.

(** ** A hit in use *)

(** Only its own release changes a served stream. *)
Lemma served_step sys l sys' s key d :
  sys_step sys l sys' -> l <> DoRelease s -> actors sys !! s = Some (Served key d) ->
  actors sys' !! s = Some (Served key d).
Proof.
  intros Hstep Hl Ha. unfold sys_step in Hstep. destruct l as [k cb|s0|s0|s0 h e|s0 dt e|s0|q|s0|s0]; simpl in Hstep;
    unfold step_lookup, run in Hstep; repeat (case_match; simplify_eq); simpl;
    first [by apply lookup_app_l_Some | done | rewrite list_lookup_insert_ne; [done|congruence]].
Qed.

(** The bytes a served stream has not released stay in the cache. *)
Lemma served_steps sys ls sys' s key d f e :
  sys_ok sys -> steps sys ls sys' -> DoRelease s ∉ ls ->
  actors sys !! s = Some (Served key d) -> hit_body_ d = Some f -> entries (shared sys) !! fragment_entry f = Some e ->
  sys_ok sys' /\ actors sys' !! s = Some (Served key d) /\
  exists e', entries (shared sys') !! fragment_entry f = Some e' /\ same_entry e e'.
Proof.
  intros Hok Hsteps. revert e Hok. induction Hsteps as [sys|sys l sys1 ls sys2 Hstep _ IH]; intros e Hok Hl Ha Hf He.
  { split_and!; [done|done|]. by exists e. }
  apply not_elem_of_cons in Hl as [Hl Hls]. destruct (exec_ok _ _ Hok _ Hstep) as (sys3 & ? & Hok1). simplify_eq.
  assert (Hpin : pins_ e <> 0).
  { rewrite (rf_pins _ _ (so_refs _ Hok) _ _ He).
    enough (0 < pin_count (fragment_entry f) (actors sys)) by lia. eapply (pin_count_pos _ _ s); [exact Ha|].
    simpl. rewrite Hf. by apply bool_decide_true. }
  destruct (la_pinned _ _ (step_lasting _ _ _ Hok Hstep) _ _ He Hpin) as (e1 & He1 & Hk1 & Hh1 & Hb1).
  destruct (IH e1 Hok1 Hls (served_step _ _ _ _ _ _ Hstep (fun E => Hl (eq_sym E)) Ha) Hf He1)
    as (Hok2 & Ha2 & e2 & He2 & Hk2 & Hh2 & Hb2).
  split_and!; [done|done|]. exists e2. split; [done|]. split_and!; congruence.
Qed.

(** ** A waiter that has left *)

(** No step calls the callbacks of a cancelled waiter. *)
Lemma cancelled_step sys l sys' wp x :
  sys_ok sys -> sys_step sys l sys' -> waiter_heap (shared sys) !! wp = Some x -> cancelled x = true ->
  calls sys' !! wp = calls sys !! wp /\
  exists x', waiter_heap (shared sys') !! wp = Some x' /\ cancelled x' = true.
Proof.
  intros Hok Hstep Hx Hcx. split; [|by apply (la_cancelled _ _ (step_lasting _ _ _ Hok Hstep) _ _ Hx)].
  unfold sys_step in Hstep. destruct l; simpl in Hstep; try (unfold step_lookup, run in Hstep; by repeat case_match; simplify_eq).
  destruct (queues (shared sys) !! d) as [[|t ts]|] eqn:Hq; try done.
  destruct (dispatch_result _ _ _ _ Hok Hq) as (y & Hy & Hrun). rewrite (run_step _ _ _ _ _ _ Hrun Hstep). simpl.
  destruct (cancelled y) eqn:Hcy; [done|]. rewrite lookup_insert_ne; [done|]. congruence.
Qed.
End Lasting.
