(* ===== verification/CacheTests.v ===== *)
(** A concrete header map, the unit tests of src/ring-cache/test that exercise
    the cache, replayed on the model, and runs that later files use. *)
From S2P Require Import Prelude CacheTypes Ring Cache CacheProps CacheSpec CacheSystem CacheSystemLive.

Local Open Scope Z_scope.

(** Headers as a list of names and values. *)
Definition HeaderList : Type := list (string * string).

#[export] Instance header_list_api : HeaderMapApi HeaderList := {
  headers_size h := u64 (Z.of_nat (length h));
  createHeaderMap h := h
}.

#[export] Instance header_list_laws : HeaderMapLaws HeaderList.
Proof. split; [intros; apply u64_range|done]. Qed.

Definition status_headers (code : string) : HeaderList := [(":status", code)].

Definition ok200 : HeaderList := status_headers "200".

Definition callbacks_on (d : dispatcher) : StreamDecoderFilterCallbacks := Callbacks 0 d.

(** A stream led to its end, with a body in two parts. *)
Definition lead (s : nat) (key : string) (h : HeaderList) (b1 b2 : string) : list (label (H := HeaderList)) :=
  [DoLookup key (callbacks_on s); DoHeaders s h false; DoData s b1 false; DoData s b2 true].

(** ** The tests of CacheLogicTest *)

Section Tests.
Local Open Scope cpp_scope.
Local Abbreviation M := (M (world HeaderList)).

Definition result_of {A} (m : M A) (capacity slot_count : Z) : option A :=
  match m (RingBufferCache capacity slot_count) with
  | Done (a, _) => Some a
  | Faulted _ => None
  end.

Definition publish_all (key body : string) : M ResultType :=
  let* r := lookup key None in
  publishHeaders key ok200 false;;;
  publishData key body true;;;
  ret (type_ r).

(** Looks [key] up, reads the hit, and drops it unless [keep]. *)
Definition probe (keep : bool) (key : string) : M (ResultType * option (HeaderList * string)) :=
  let* r := lookup key None in
  match hit_ r with
  | None => ret (type_ r, None)
  | Some d =>
      match hit_body_ d with
      | None => ret (type_ r, Some (hit_headers_ d, ""))
      | Some f =>
          let* body := read_fragment f in
          when (negb keep) (release_fragment f);;;
          ret (type_ r, Some (hit_headers_ d, body))
      end
  end.

Fixpoint probe_each (body : string) (keys : list string)
    : M (list (ResultType * option (HeaderList * string))) :=
  match keys with
  | [] => ret []
  | key :: keys =>
      publish_all key body;;;
      let* r := probe false key in
      let* rs := probe_each body keys in
      ret (r :: rs)
  end.

Example BecomeLeader : result_of (probe false "k") 1024 64 = Some (Leader, None).
Proof. vm_compute. reflexivity. Qed.

Example HitAfterFinalize :
  result_of (publish_all "k" "test";;; probe false "k") 1024 64 = Some (Hit, Some (ok200, "test")).
Proof. vm_compute. reflexivity. Qed.

Example NoHitNewKey :
  result_of (probe false "k";;; probe false "k2") 1024 64 = Some (Leader, None).
Proof. vm_compute. reflexivity. Qed.

(** What the mocked callbacks record: two turns of the dispatcher, the end
    of the stream, one more turn, and a lookup. *)
Definition backfill_live_and_end :=
  lookup "k" None;;;
  publishHeaders "k" ok200 false;;;
  let* r := lookup "k" (Some (callbacks_on 0)) in
  publishData "k" "chunk-1" false;;;
  let* t1 := run_dispatcher 0 in
  let* t2 := run_dispatcher 0 in
  publishData "k" "" true;;;
  let* t3 := run_dispatcher 0 in
  let* t4 := run_dispatcher 0 in
  let* hit := probe false "k" in
  ret (type_ r, map (fmap snd) [t1; t2; t3; t4], hit).

Example FollowerBackfillLiveAndEnd :
  result_of backfill_live_and_end 1024 64 = Some (Follower,
    [Some [EncodeHeaders ok200 false RingCacheDetailsMessageCoalescedBackfill];
     Some [EncodeData "chunk-1" false]; Some [EncodeData "" true]; None],
    (Hit, Some (ok200, "chunk-1"))).
Proof. vm_compute. reflexivity. Qed.

Definition big : string := "xxxxxxxxxxxxxxxxxxxxxxxxxxxxxxxxxxxxxxxxxxxxxxxxxx".

Example NoCacheOversizedResponse :
  result_of (publish_all "k" big;;; probe false "k") 32 64 = Some (Leader, None).
Proof. vm_compute. reflexivity. Qed.

Example UncachedDoesntEvictOthers :
  result_of (publish_all "k" "test";;; probe false "k";;; publish_all "k2" big;;; probe false "k") 32 64
  = Some (Hit, Some (ok200, "test")).
Proof. vm_compute. reflexivity. Qed.

Definition other_keys : list string :=
  ["k0"; "k1"; "k2"; "k3"; "k4"; "k5"; "k6"; "k7"; "k8"; "k9"].

Example EvictionWhenCapacityFull :
  result_of (publish_all "k" "test";;; probe false "k";;;
             let* others := probe_each "xxxxxxxxxx" (take 5 other_keys) in
             let* r := probe false "k" in
             ret (others, r)) 32 32
  = Some (replicate 5 (Hit, Some (ok200, "xxxxxxxxxx")), (Leader, None)).
Proof. vm_compute. reflexivity. Qed.

Example LiveReferenceBlocksEviction :
  result_of (publish_all "k" "test";;; probe true "k";;;
             let* others := probe_each "data" other_keys in
             let* r := probe false "k" in
             ret (others, r)) 16 32
  = Some (replicate 10 (Hit, Some (ok200, "data")), (Hit, Some (ok200, "test"))).
Proof. vm_compute. reflexivity. Qed.
End Tests.
