(* ===== verification/CacheTheorems.v ===== *)
(** What the ring cache guarantees: the properties of reachable states, of the
    search for room, and of the methods. *)
From S2P Require Import Prelude CacheTypes Ring Cache CacheProps CacheSpec CacheSystem CacheSystemRefs CacheSystemWaiters CacheSystemSteps CacheSystemLive CacheLasting CacheTests.

Local Open Scope Z_scope.

(** ** Runs for the witnesses *)

(** The state after an execution from the start. *)
Definition after (capacity slot_count : Z) (ls : list (label (H := HeaderList))) : system (H := HeaderList) :=
  default (initial capacity slot_count) (play ls (initial capacity slot_count)).

Lemma after_reachable capacity slot_count ls :
  reachable capacity slot_count (after capacity slot_count ls).
Proof.
  unfold after. destruct (play ls _) as [sys|] eqn:Hp; [by eapply play_reachable|constructor].
Qed.

(** Stream 0 leads "k", stream 1 joins after the headers, the leader ends; one
    closure has run on the dispatcher of the follower. *)
Definition coalesced : list (label (H := HeaderList)) :=
  [DoLookup "k" (callbacks_on 0); DoHeaders 0 ok200 false; DoLookup "k" (callbacks_on 1);
   DoData 0 "ab" false; DoPost 0; DoData 0 "cd" true; DoDispatch 1].

(** Then stream 2 hits. *)
Definition coalesced_hit : list (label (H := HeaderList)) :=
  coalesced ++ [DoLookup "k" (callbacks_on 2); DoServe 2].

Section Theorems.
Context {H : Type} `{HeaderMapLaws H}.
Implicit Types (sys : system (H := H)) (w : world H).

(** ** Concurrent streams *)

(** C1. No interleaving of streams, posts, event loops and releases runs into
    a failed ASSERT, a null or dangling pointer, a vector index out of range,
    or a loop of the eviction that does not end: every enabled step of a
    reachable state completes. *)
Theorem enabled_steps_complete capacity slot_count sys l r :
  0 < capacity < 2 ^ 64 -> 0 < slot_count < 2 ^ 64 ->
  reachable capacity slot_count sys -> sys_exec l sys = Some r ->
  exists sys', r = Done sys' /\ reachable capacity slot_count sys'.
Proof.
  intros Hc Hs Hr Hl. pose proof (reachable_ok _ _ _ Hc Hs Hr) as Hok.
  destruct (exec_ok _ _ Hok _ Hl) as (sys' & -> & _). exists sys'. split; [done|].
  by eapply reach_step.
Qed.

(** C13. A follower and its leader agree: the calls its callbacks have received,
    then those queued on its dispatcher, then those its leader is still to
    post, make up exactly the response the leader has published so far. *)
Theorem follower_coherent capacity slot_count sys s key wp :
  0 < capacity < 2 ^ 64 -> 0 < slot_count < 2 ^ 64 ->
  reachable capacity slot_count sys -> actors sys !! s = Some (Following key wp) ->
  exists x s' l, waiter_heap (shared sys) !! wp = Some x /\
    leading (actors sys) s' = Some l /\ pub_key l = key /\
    view_calls NoHeaders (stream_of wp x l (queues (shared sys)) (calls sys)) = published l.
Proof.
  intros Hc Hs Hr Ha.
  destruct (following_leader _ _ _ _ (reachable_ok _ _ _ Hc Hs Hr) Ha) as (x & s' & l & ? & _ & ?).
  by exists x, s', l.
Qed.

(** What a follower's client has received is at any time a well-formed
    beginning of its leader's response: the same headers, once and first, a
    prefix of the body, and the end only when the leader has ended and all of
    the body has been delivered. *)
Theorem follower_receives_prefix capacity slot_count sys s key wp :
  0 < capacity < 2 ^ 64 -> 0 < slot_count < 2 ^ 64 ->
  reachable capacity slot_count sys -> actors sys !! s = Some (Following key wp) ->
  exists s' l, leading (actors sys) s' = Some l /\ pub_key l = key /\
    view_le (view_calls NoHeaders (calls_of sys wp)) (published l).
Proof.
  intros Hc Hs Hr Ha.
  destruct (following_leader _ _ _ _ (reachable_ok _ _ _ Hc Hs Hr) Ha) as (x & s' & l & _ & _ & ? & ? & Hv).
  exists s', l. split_and!; [done|done|]. unfold stream_of in Hv. rewrite view_calls_app in Hv.
  eapply view_calls_le; [exact Hv|apply published_ok].
Qed.

(** C11. A follower whose leader has ended gets the whole response: the posts
    that the leader has left, and then the turns of the follower's dispatcher,
    are enabled one after the other and leave its client with the headers, the
    complete body and the end of the stream. *)
Theorem follower_completes capacity slot_count sys s key wp :
  0 < capacity < 2 ^ 64 -> 0 < slot_count < 2 ^ 64 ->
  reachable capacity slot_count sys -> actors sys !! s = Some (Following key wp) ->
  (forall s' l, source sys !! wp = Some s' -> leading (actors sys) s' = Some l -> pub_ended l = true) ->
  exists s' d n m sys' l h,
    source sys !! wp = Some s' /\ leading (actors sys) s' = Some l /\ pub_headers l = Some h /\
    steps sys (replicate n (DoPost s') ++ replicate m (DoDispatch d)) sys' /\
    view_calls NoHeaders (calls_of sys' wp) = Streaming h (pub_body l) true.
Proof.
  intros Hc Hs Hr Ha Hend. pose proof (reachable_ok _ _ _ Hc Hs Hr) as Hok.
  destruct (following_leader _ _ _ _ Hok Ha) as (x & s' & l & Hx & Hsrc & Hl & _).
  assert (Hss : s <> s') by (intros ->; unfold leading in Hl; by rewrite Ha in Hl).
  destruct (post_all s' wp _ _ _ Hok Hl eq_refl) as (sys1 & l1 & Hst1 & Hok1 & Hd1 & Hl1 & Ht1).
  destruct (dispatch_all s' wp (dispatcher_ x) _ sys1 l1 Hok1 Hl1 eq_refl)
    as (sys2 & Hst2 & Hok2 & Hd2 & Hq2).
  pose proof (delivering_trans _ _ _ _ _ Hd1 Hd2) as (Hact & Hheap & Hsrc2 & l0 & l2 & Hl0 & Hl2 & Hsame & _).
  destruct Hd2 as (_ & _ & _ & l1' & l2' & Hl1' & Hl2' & _ & Ht2 & _). simplify_eq.
  rewrite <- (Hact s Hss) in Ha.
  destruct (following_leader _ _ _ _ Hok2 Ha) as (x2 & s2 & l3 & Hx2 & Hs2 & Hl3 & _ & Hview).
  rewrite Hheap, Hx in Hx2. rewrite Hsrc2, Hsrc in Hs2. simplify_eq.
  unfold stream_of in Hview. rewrite Hq2, (Ht2 Ht1) in Hview. simpl in Hview.
  rewrite app_nil_r in Hview. destruct Hsame as (_ & Hh & Hb & He).
  destruct (ld_ended _ _ _ (so_leaders _ Hok) _ _ Hl (Hend _ _ Hsrc Hl)) as [h Hh0].
  do 5 eexists. exists l, h. split_and!; [done|done|done| |].
  - by eapply steps_app.
  - unfold calls_of. fold (received (calls sys2) wp). rewrite Hview. unfold published.
    by rewrite Hh, Hb, He, Hh0, (Hend _ _ Hsrc Hl).
Qed.

(** C14. A hit serves what was published for its key: when a hit is served, its
    headers and the bytes of its body are those of a response that the leader
    of that key completed. *)
Theorem hit_serves_published capacity slot_count sys s sys' :
  0 < capacity < 2 ^ 64 -> 0 < slot_count < 2 ^ 64 ->
  reachable capacity slot_count sys -> sys_step sys (DoServe s) sys' ->
  exists key d s' l,
    actors sys' !! s = Some (Served key d) /\ leading (actors sys') s' = Some l /\
    pub_key l = key /\ pub_ended l = true /\ pub_headers l = Some (hit_headers_ d) /\
    hit_bytes (shared sys') d = Some (pub_body l).
Proof.
  intros Hc Hs Hr Hstep. pose proof (reachable_ok _ _ _ Hc Hs Hr) as Hok.
  unfold sys_step in Hstep. simpl in Hstep. destruct (actors sys !! s) as [a|] eqn:Ha; [|done].
  destruct a as [key p n| | | | |]; try done.
  destruct (rf_serving _ _ (so_refs _ Hok) _ _ _ _ Ha) as (e & h & He & Hk & -> & Hh).
  destruct (rf_origin _ _ (so_refs _ Hok) _ _ He) as (s' & l & Hl & Hlk & Hlh & Hlb & Hle).
  pose proof (serve_hit_eq (shared sys) p e h He Hh) as Hserve. rewrite createHeaderMap_copy in Hserve.
  assert (Hlead : forall d, leading (<[s := Served key d]> (actors sys)) s' = Some l).
  { intros d. erewrite leading_insert_neutral; [exact Hl|exact Ha|done|done]. }
  assert (Hin : forall d, <[s := Served key d]> (actors sys) !! s = Some (Served key d)).
  { intros d. apply list_lookup_insert_eq. by apply lookup_lt_Some in Ha. }
  destruct (decide (body_ e = "")) as [Hb|Hb]; rewrite (run_eq _ _ _ _ _ Hserve) in Hstep; simplify_eq;
    (do 2 eexists); exists s', l; simpl; rewrite Hlead, Hin; split_and!; try done;
    cbn [hit_headers_]; try congruence.
  - unfold hit_bytes. simpl. congruence.
  - unfold hit_bytes. cbn [hit_body_]. rewrite (read_fragment_eq _ _ _ He). congruence.
Qed.

(** C22. The bytes of a hit stay what they were until the buffer is released,
    whatever other streams look up, publish and evict meanwhile: from a state
    in which a served stream holds a fragment, any steps but its own release
    leave it served, and the fragment reads the same bytes at the end as at
    the start, the body of the response completed for its key. *)
Theorem unreleased_fragment_stable capacity slot_count sys s key d f ls sys' :
  0 < capacity < 2 ^ 64 -> 0 < slot_count < 2 ^ 64 ->
  reachable capacity slot_count sys ->
  actors sys !! s = Some (Served key d) -> hit_body_ d = Some f ->
  steps sys ls sys' -> DoRelease s ∉ ls ->
  actors sys' !! s = Some (Served key d) /\
  exists s' l, leading (actors sys) s' = Some l /\ pub_key l = key /\ pub_ended l = true /\
    pub_headers l = Some (hit_headers_ d) /\
    read_fragment f (shared sys) = Done (pub_body l, shared sys) /\
    read_fragment f (shared sys') = Done (pub_body l, shared sys').
Proof.
  intros Hc Hs Hr Ha Hf Hsteps Hls. pose proof (reachable_ok _ _ _ Hc Hs Hr) as Hok.
  destruct (rf_served _ _ (so_refs _ Hok) _ _ _ _ Ha Hf) as (e & He & Hk & Hn & Hh).
  destruct (rf_origin _ _ (so_refs _ Hok) _ _ He) as (s' & l & Hl & Hlk & Hlh & Hlb & Hle).
  destruct (served_steps _ _ _ _ _ _ _ _ Hok Hsteps Hls Ha Hf He) as (_ & Ha' & e' & He' & _ & _ & Hb).
  split; [done|]. exists s', l. destruct f as [q n]. simpl in *. subst n. rewrite Hlb.
  split_and!; [done|congruence|done|congruence|by apply read_fragment_eq|].
  rewrite <- Hb. by apply read_fragment_eq.
Qed.

(** C20. The pin counter of an entry counts its readers: the streams between
    the locked part of a hit and its serving, and the served streams that have
    not released their buffer; it never wraps. *)
Theorem pins_count_readers capacity slot_count sys p e :
  0 < capacity < 2 ^ 64 -> 0 < slot_count < 2 ^ 64 ->
  reachable capacity slot_count sys -> entries (shared sys) !! p = Some e ->
  pins_ e = pin_count p (actors sys) /\ 0 <= pins_ e < 2 ^ 32.
Proof.
  intros Hc Hs Hr He. pose proof (reachable_ok _ _ _ Hc Hs Hr) as Hok.
  split; [by apply (rf_pins _ _ (so_refs _ Hok))|by apply (co_pins _ (so_cache _ Hok) p)].
Qed.

(** C21. At any time a key has at most one leader that has not ended, and it is
    the one whose response is inflight. *)
Theorem one_leader_per_key capacity slot_count sys s1 s2 l1 l2 :
  0 < capacity < 2 ^ 64 -> 0 < slot_count < 2 ^ 64 ->
  reachable capacity slot_count sys ->
  leading (actors sys) s1 = Some l1 -> leading (actors sys) s2 = Some l2 ->
  pub_ended l1 = false -> pub_ended l2 = false -> pub_key l1 = pub_key l2 ->
  s1 = s2 /\ exists i, inflight_map_ (shared sys) !! pub_key l1 = Some i /\
    inflight_headers_ i = pub_headers l1 /\ inflight_body_ i = pub_body l1 /\
    cache_map_ (shared sys) !! pub_key l1 = None.
Proof.
  intros Hc Hs Hr Hl1 Hl2 He1 He2 Hk. pose proof (reachable_ok _ _ _ Hc Hs Hr) as Hok.
  destruct (leader_inflight _ _ _ Hok (Leading_lookup _ _ _ Hl1) He1) as (_ & Hs1 & i & Hi & ? & ?).
  destruct (leader_inflight _ _ _ Hok (Leading_lookup _ _ _ Hl2) He2) as (_ & Hs2 & _).
  split; [congruence|]. exists i. split_and!; [done..|]. by eapply inflight_not_cached; [apply Hok|].
Qed.

(** C19. The cache stays within its capacity and its books balance: in every
    reachable state [used_size_] is the sum of the sizes of the entries in the
    slots and at most [capacity_]; a key maps to a pointer exactly when one
    slot holds the entry with that key. *)
Theorem books_balance capacity slot_count sys :
  0 < capacity < 2 ^ 64 -> 0 < slot_count < 2 ^ 64 -> reachable capacity slot_count sys ->
  used_size_ (shared sys) = slots_size (shared sys) /\
  0 <= used_size_ (shared sys) <= capacity_ (shared sys) /\
  (forall key p, cache_map_ (shared sys) !! key = Some p <->
     exists e, entries (shared sys) !! p = Some e /\ key_ e = key) /\
  (forall p, is_Some (entries (shared sys) !! p) <->
     exists i, slots_ (shared sys) !! i = Some (Some p) /\
               forall j, slots_ (shared sys) !! j = Some (Some p) -> j = i).
Proof.
  intros Hc Hs Hr. pose proof (co_ring _ (so_cache _ (reachable_ok _ _ _ Hc Hs Hr))) as Hw.
  split_and!; [apply Hw|apply ring_used_range, Hw|apply ring_used_range, Hw| |].
  - intros key p. split.
    + intros Hp. destruct (ro_map _ Hw _ _ Hp) as (i & e & _ & ? & ?). eauto.
    + intros (e & He & <-). destruct (ro_heap _ Hw _ _ He) as (_ & i & Hi).
      destruct (ro_slot _ Hw _ _ Hi) as (e' & z & ? & _ & ?). by simplify_eq.
  - intros p. split.
    + intros [e He]. destruct (ro_heap _ Hw _ _ He) as (_ & i & Hi). exists i. split; [done|].
      intros j Hj. by eapply ro_inj.
    + intros (i & Hi & _). destruct (ro_slot _ Hw _ _ Hi) as (e & z & ? & _). eauto.
Qed.

(** ** The methods *)

(** C12. Every public method implements its specification, in every state of
    the cache that satisfies the invariant, for callers that keep the contract
    [allowed]: a lookup that may become a follower passes its callbacks, and
    the headers of an inflight response are published before its data
    ([end_without_headers_faults] is what happens to a caller that breaks the
    second half).  Run to its end, the
    method does not fault, keeps the invariant, and its reply and its effect on
    the abstract map from keys to statuses (absent, pending, stored) are a step
    of the specification. *)
Theorem methods_refine_spec op w :
  cache_ok w -> allowed (status_of w) op ->
  exists r w' reply, exec op w = Done (r, w') /\ cache_ok w' /\ observe w' r = Some reply /\
    spec_step (status_of w) op reply (status_of w').
Proof. apply exec_refines. Qed.

(** C18. The search for room always ends, and it succeeds exactly when the bytes
    that pinned entries leave are enough, unless there was enough room to
    begin with and all slots are taken. *)
Theorem evict_succeeds_iff w need :
  ring_ok w ->
  exists b w', evictTillCapacityLocked need w = Done (b, w') /\ ring_ok w' /\
    (b = true <-> need <= capacity_ w - pinned_size w /\
                  ~ (need <= capacity_ w - used_size_ w /\ all_occupied w)).
Proof.
  intros Hw. destruct (evictTillCapacityLocked_result w need Hw) as (b & w' & Hrun & Hres).
  exists b, w'. split_and!; [done|by eapply evict_result_ok|by eapply evict_result_iff].
Qed.

(** C25. Eviction is in ring order and no longer than needed: when the search
    succeeds, there is a least number [k] of slots from the head on whose
    unpinned entries are evicted, and exactly these; after any fewer the room
    was too little; the head is left on a free slot, with room enough. *)
Theorem evict_in_ring_order w need w' :
  ring_ok w -> evictTillCapacityLocked need w = Done (true, w') ->
  exists k, Z.of_nat k <= slot_count_ w /\
    (forall j, (j < k)%nat -> room (sweep j w) < need) /\
    (forall i s, slots_ w !! i = Some s ->
       slots_ w' !! i =
         Some (if (ring_dist w i <? Z.of_nat k) && negb (pinned (entries w) s) then None else s)) /\
    slots_ w' !! Z.to_nat (head_ w') = Some None /\ need <= room w'.
Proof.
  intros Hw Hrun. destruct (evictTillCapacityLocked_result w need Hw) as (b & w2 & Hrun' & Hres).
  rewrite Hrun in Hrun'. simplify_eq. inversion Hres as [| | |k h Hk Hj Hr (d & Hd & -> & Hs & _)]; subst.
  exists k. split_and!; [done|done| |exact Hs|exact Hr].
  intros i s Hi. by apply sweep_slot.
Qed.

(** Eviction spares what is being read: a pinned entry survives the search
    for room, in its slot, with its contents and its key. *)
Theorem evict_spares_pinned w need b w' i p e :
  ring_ok w -> evictTillCapacityLocked need w = Done (b, w') ->
  slots_ w !! i = Some (Some p) -> entries w !! p = Some e -> pins_ e <> 0 ->
  slots_ w' !! i = Some (Some p) /\ entries w' !! p = Some e /\ cache_map_ w' !! key_ e = Some p.
Proof.
  intros Hw Hrun Hi He Hp. destruct (evictTillCapacityLocked_result w need Hw) as (b2 & w2 & Hrun' & Hres).
  rewrite Hrun in Hrun'. simplify_eq. by eapply evict_result_pinned.
Qed.

(** C24. The end of a leader's stream settles its key: the response leaves the
    inflight map, and it is in the cache afterwards exactly when the search
    for room succeeds, as an unpinned entry with the key, the headers and the
    body published; no other key becomes cached. *)
Theorem finalize_settles_key w key i h :
  cache_ok w -> inflight_map_ w !! key = Some i -> inflight_headers_ i = Some h ->
  exists w', finalizeLocked key w = Done (tt, w') /\ cache_ok w' /\
    inflight_map_ w' = delete key (inflight_map_ w) /\
    (is_Some (cache_map_ w' !! key) <->
       response_size key h (inflight_body_ i) <= capacity_ w - pinned_size w /\
       ~ (response_size key h (inflight_body_ i) <= capacity_ w - used_size_ w /\ all_occupied w)) /\
    (forall p, cache_map_ w' !! key = Some p ->
       entries w' !! p = Some (fresh_entry key h (inflight_body_ i))) /\
    (forall k p, k <> key -> cache_map_ w' !! k = Some p -> cache_map_ w !! k = Some p).
Proof.
  intros Hw Hi Hh. pose proof (co_ring _ Hw) as Hring.
  destruct (finalizeLocked_result _ _ _ _ Hw Hi Hh) as (w' & Hrun & Hfin).
  exists w'. split; [done|]. split; [by eapply finalized_ok|].
  split; [by destruct (finalized_frame _ _ _ _ _ Hfin) as (_ & _ & ? & _)|].
  pose proof (inflight_not_cached _ _ _ Hw Hi) as Hnone.
  destruct Hfin as [w1 Hres|w1 Hres]; rewrite <- (evict_result_iff _ _ _ _ Hring Hres);
    destruct (evict_result_frame _ _ _ _ Hres) as (_ & _ & _ & _ & _ & _ & _ & _ & Hcm).
  - split_and!; simpl.
    + rewrite lookup_insert_eq. by split; eauto.
    + intros p. rewrite lookup_insert_eq. intros [= <-]. apply lookup_insert_eq.
    + intros k p Hk. rewrite lookup_insert_ne by done. intros. by eapply lookup_weaken.
  - simpl. rewrite (lookup_weaken_None _ _ _ Hnone Hcm). split_and!; [|done|].
    + split; [by intros [? ?]|done].
    + intros k p _ Hk. by eapply lookup_weaken.
Qed.

(** C36. When every slot is taken and the response would fit in the bytes that
    are left, nothing is evicted for it: the response is dropped and the
    entries, the slots and the books stay as they are. *)
Theorem full_slots_drop_response w key i h :
  cache_ok w -> inflight_map_ w !! key = Some i -> inflight_headers_ i = Some h ->
  all_occupied w -> response_size key h (inflight_body_ i) <= capacity_ w - used_size_ w ->
  finalizeLocked key w = Done (tt, set_inflight_map (delete key) w).
Proof.
  intros Hw Hi Hh Hocc Hfit. pose proof (co_ring _ Hw) as Hring.
  destruct (finalizeLocked_result _ _ _ _ Hw Hi Hh) as (w' & -> & Hfin).
  destruct Hfin as [w1 Hres|w1 Hres].
  - apply (evict_result_iff _ _ _ _ Hring) in Hres. naive_solver.
  - pose proof (pinned_size_nonneg w). pose proof (sweep_room_max 0 w Hring ltac:(pose proof (ro_count _ Hring); lia)) as Hm.
    cbn [sweep] in Hm. rewrite ring_room in Hm by done.
    inversion Hres; subst; [|lia|done]. pose proof (ring_used_range _ Hring). lia.
Qed.

(** C37. A leader that publishes the end of the body before any headers
    dereferences a null pointer: the headers of the inflight response are
    read to compute its size. *)
Theorem end_without_headers_faults w key i data :
  inflight_map_ w !! key = Some i -> inflight_headers_ i = None ->
  publishData_locked key data true w = Faulted NullDereference.
Proof.
  intros Hi Hh. unfold publishData_locked. rewrite bind_gets, Hi.
  erewrite bind_Done by (by apply update_inflight_eq). cbv beta.
  erewrite bind_Done by (apply deref_inflight_with). cbv beta. unfold when, finalizeLocked.
  rewrite bind_assoc, bind_gets. cbv beta. rewrite bind_assoc, bind_assert.
  2: { apply bool_decide_eq_true. simpl. rewrite lookup_insert_eq. eauto. }
  cbv beta. rewrite bind_assoc. erewrite bind_Done by (apply deref_inflight_with). cbv beta.
  unfold Inflight_size, append_body. simpl. rewrite Hh. done.
Qed.

(** Removing a waiter from an inflight response takes out that waiter and
    keeps all others, each once; for other keys, and for a key that is not
    inflight, nothing happens. *)
Theorem removeWaiter_exact w key wp :
  cache_ok w ->
  exists w', removeWaiter key wp w = Done (tt, w') /\ cache_ok w' /\
    (forall k, k <> key -> inflight_map_ w' !! k = inflight_map_ w !! k) /\
    match inflight_map_ w !! key with
    | None => w' = w
    | Some i => exists i', inflight_map_ w' !! key = Some i' /\
        inflight_headers_ i' = inflight_headers_ i /\ inflight_body_ i' = inflight_body_ i /\
        NoDup (waiters_ i') /\ forall x, x ∈ waiters_ i' <-> x ∈ waiters_ i /\ x <> wp
    end.
Proof.
  intros Hw. destruct (inflight_map_ w !! key) as [i|] eqn:Hi.
  - exists (with_inflight key (remove_waiter wp i) w). pose proof (co_nodup _ Hw _ _ Hi) as Hnd.
    split_and!; [by apply removeWaiter_eq|by apply with_removed_ok| |].
    + intros k Hk. simpl. by rewrite lookup_insert_ne.
    + exists (remove_waiter wp i). simpl. rewrite lookup_insert_eq. split_and!; [done..| |].
      * by apply remove_waiter_nodup.
      * intros x. by apply remove_waiter_elem.
  - exists w. split_and!; [by apply removeWaiter_absent|done|done|done].
Qed.
End Theorems.

(** ** Witnesses *)

Definition demo : system (H := HeaderList) := after 1024 64 coalesced.
Definition demo_hit : system (H := HeaderList) := after 1024 64 coalesced_hit.

Lemma range_1024 : 0 < 1024 < 2 ^ 64.
Proof. lia. Qed.

Lemma range_64 : 0 < 64 < 2 ^ 64.
Proof. lia. Qed.

Lemma after_ok ls : sys_ok (after 1024 64 ls).
Proof. exact (reachable_ok 1024 64 _ range_1024 range_64 (after_reachable 1024 64 ls)). Qed.

Ltac at_demo := first [exact range_1024 | exact range_64 | apply after_reachable | vm_compute; reflexivity].

Lemma enabled_steps_complete_witness :
  exists r, sys_exec (DoPost 0) demo = Some r /\ exists sys', r = Done sys' /\ reachable 1024 64 sys'.
Proof.
  eexists. split; [vm_compute; reflexivity|].
  eapply (enabled_steps_complete 1024 64 demo (DoPost 0)); at_demo.
Defined.

Lemma follower_coherent_witness :
  exists x s' l, waiter_heap (shared demo) !! 0%nat = Some x /\
    leading (actors demo) s' = Some l /\ pub_key l = "k" /\
    view_calls NoHeaders (stream_of 0%nat x l (queues (shared demo)) (calls demo)) = published l.
Proof. apply (follower_coherent 1024 64 demo 1 "k" 0); at_demo. Defined.

Lemma follower_receives_prefix_witness :
  view_calls NoHeaders (calls_of demo 0%nat) = Streaming ok200 "" false /\
  exists s' l, leading (actors demo) s' = Some l /\ pub_key l = "k" /\
    view_le (view_calls NoHeaders (calls_of demo 0%nat)) (published l).
Proof.
  split; [vm_compute; reflexivity|]. apply (follower_receives_prefix 1024 64 demo 1 "k" 0); at_demo.
Defined.

Lemma follower_completes_witness :
  exists s' d n m sys' l h,
    source demo !! 0%nat = Some s' /\ leading (actors demo) s' = Some l /\ pub_headers l = Some h /\
    steps demo (replicate n (DoPost s') ++ replicate m (DoDispatch d)) sys' /\
    view_calls NoHeaders (calls_of sys' 0%nat) = Streaming h (pub_body l) true.
Proof.
  apply (follower_completes 1024 64 demo 1 "k" 0); try at_demo.
  intros s' l Hs Hl. vm_compute in Hs. injection Hs as <-. vm_compute in Hl. by injection Hl as <-.
Defined.

Lemma hit_serves_published_witness :
  exists key d s' l, actors demo_hit !! 2%nat = Some (Served key d) /\
    leading (actors demo_hit) s' = Some l /\ pub_key l = key /\ pub_ended l = true /\
    pub_headers l = Some (hit_headers_ d) /\ hit_bytes (shared demo_hit) d = Some (pub_body l).
Proof.
  apply (hit_serves_published 1024 64 (after 1024 64 (coalesced ++ [DoLookup "k" (callbacks_on 2)])) 2);
    at_demo.
Defined.

Definition demo_fragment : BufferFragment := {| fragment_entry := O; fragment_length := 4 |}.

(** Meanwhile stream 3 leads another response to its end. *)
Definition meanwhile : list (label (H := HeaderList)) := lead 3 "other" ok200 "xx" "yyy".

Definition demo_hit_data : HitData HeaderList := {| hit_headers_ := ok200; hit_body_ := Some demo_fragment |}.

Definition demo_meanwhile : system (H := HeaderList) := after 1024 64 (coalesced_hit ++ meanwhile).

Lemma unreleased_fragment_stable_witness :
  is_Some (cache_map_ (shared demo_meanwhile) !! "other") /\
  actors demo_meanwhile !! 2%nat = Some (Served "k" demo_hit_data) /\
  exists s' l, leading (actors demo_hit) s' = Some l /\ pub_key l = "k" /\ pub_ended l = true /\
    pub_headers l = Some ok200 /\
    read_fragment demo_fragment (shared demo_hit) = Done (pub_body l, shared demo_hit) /\
    read_fragment demo_fragment (shared demo_meanwhile) = Done (pub_body l, shared demo_meanwhile).
Proof.
  assert (Hsteps : steps demo_hit meanwhile demo_meanwhile) by (apply play_steps; vm_compute; reflexivity).
  assert (Hkept : DoRelease 2 ∉ meanwhile).
  { intros Hno. unfold meanwhile, lead in Hno. repeat (apply elem_of_cons in Hno as [Hno|Hno]; [discriminate|]).
    by apply elem_of_nil in Hno. }
  assert (Hserved : actors demo_hit !! 2%nat = Some (Served "k" demo_hit_data)) by (vm_compute; reflexivity).
  split; [vm_compute; by eexists|].
  exact (unreleased_fragment_stable 1024 64 demo_hit 2 "k" demo_hit_data demo_fragment meanwhile demo_meanwhile
    range_1024 range_64 (after_reachable 1024 64 coalesced_hit) Hserved eq_refl Hsteps Hkept).
Defined.

Lemma pins_count_readers_witness :
  exists e, entries (shared demo_hit) !! O = Some e /\ pins_ e = 1 /\
    pins_ e = pin_count O (actors demo_hit) /\ 0 <= pins_ e < 2 ^ 32.
Proof.
  eexists. split; [vm_compute; reflexivity|]. split; [reflexivity|].
  apply (pins_count_readers 1024 64 demo_hit O); at_demo.
Defined.

Definition demo_lead_prefix : system (H := HeaderList) := after 1024 64 (take 3 (lead 0 "k" ok200 "a" "b")).

Lemma one_leader_per_key_witness :
  O = O /\ exists i, inflight_map_ (shared demo_lead_prefix) !! "k" = Some i /\
    inflight_headers_ i = Some ok200 /\ inflight_body_ i = "a" /\
    cache_map_ (shared demo_lead_prefix) !! "k" = None.
Proof.
  apply (one_leader_per_key 1024 64 demo_lead_prefix O O
    (Publication "k" (Some ok200) "a" false []) (Publication "k" (Some ok200) "a" false [])); at_demo.
Defined.

Lemma books_balance_witness :
  used_size_ (shared demo_hit) = 6 /\ used_size_ (shared demo_hit) = slots_size (shared demo_hit).
Proof.
  split; [vm_compute; reflexivity|].
  apply (books_balance 1024 64 demo_hit); at_demo.
Defined.

(** The follower has left with the end of the stream still to come. *)
Definition demo_left : system (H := HeaderList) :=
  after 1024 64 (take 6 coalesced ++ [DoCancel 1]).

Lemma methods_refine_spec_witness :
  exists r w' reply,
    exec (OpPublishData "k" "b" true) (shared demo_lead_prefix) = Done (r, w') /\ cache_ok w' /\
    observe w' r = Some reply /\
    spec_step (status_of (shared demo_lead_prefix)) (OpPublishData "k" "b" true) reply (status_of w').
Proof.
  apply (methods_refine_spec (OpPublishData "k" "b" true) (shared demo_lead_prefix)).
  - apply so_cache, after_ok.
  - intros b ws. vm_compute. discriminate.
Defined.

(** Two entries fill 14 of 16 bytes; the second one is pinned. *)
Definition two_entries : list (label (H := HeaderList)) :=
  lead 0 "a" ok200 "xx" "yyy" ++ lead 1 "b" ok200 "xx" "yyy" ++ [DoLookup "b" (callbacks_on 2); DoServe 2].

Definition small_ring : system (H := HeaderList) := after 16 4 two_entries.

Lemma small_ring_ok : sys_ok small_ring.
Proof. apply (reachable_ok 16 4); [lia|lia|apply after_reachable]. Qed.

Lemma evict_succeeds_iff_witness :
  exists b w', evictTillCapacityLocked 5 (shared small_ring) = Done (b, w') /\ ring_ok w' /\
    (b = true <-> 5 <= capacity_ (shared small_ring) - pinned_size (shared small_ring) /\
       ~ (5 <= capacity_ (shared small_ring) - used_size_ (shared small_ring) /\
          all_occupied (shared small_ring))).
Proof. apply (evict_succeeds_iff (shared small_ring) 5), (so_cache _ small_ring_ok). Defined.

Lemma evict_in_ring_order_witness :
  exists w', evictTillCapacityLocked 5 (shared small_ring) = Done (true, w') /\
  exists k, Z.of_nat k <= 4 /\
    (forall j, (j < k)%nat -> room (sweep j (shared small_ring)) < 5) /\
    (forall i s, slots_ (shared small_ring) !! i = Some s ->
       slots_ w' !! i = Some (if (ring_dist (shared small_ring) i <? Z.of_nat k)
                                 && negb (pinned (entries (shared small_ring)) s) then None else s)) /\
    slots_ w' !! Z.to_nat (head_ w') = Some None /\ 5 <= room w'.
Proof.
  eexists. split; [vm_compute; reflexivity|].
  apply (evict_in_ring_order (shared small_ring) 5); [apply (so_cache _ small_ring_ok)|].
  vm_compute. reflexivity.
Defined.

Lemma evict_spares_pinned_witness :
  exists b w' e, evictTillCapacityLocked 5 (shared small_ring) = Done (b, w') /\
    entries (shared small_ring) !! 1%nat = Some e /\ key_ e = "b" /\
    slots_ w' !! 1%nat = Some (Some 1%nat) /\ entries w' !! 1%nat = Some e /\
    cache_map_ w' !! key_ e = Some 1%nat.
Proof.
  do 3 eexists. split; [vm_compute; reflexivity|]. split; [vm_compute; reflexivity|]. split; [reflexivity|].
  eapply (evict_spares_pinned (shared small_ring) 5); [apply (so_cache _ small_ring_ok)|..];
    try (vm_compute; reflexivity). vm_compute. discriminate.
Defined.

(** The inflight response of stream 0 in [demo_lead_prefix]. *)
Definition demo_inflight : Inflight HeaderList :=
  {| inflight_headers_ := Some ok200; inflight_body_ := "a"; waiters_ := [] |}.

Lemma finalize_settles_key_witness :
  exists w', finalizeLocked "k" (shared demo_lead_prefix) = Done (tt, w') /\ cache_ok w' /\
    inflight_map_ w' = delete "k" (inflight_map_ (shared demo_lead_prefix)) /\
    is_Some (cache_map_ w' !! "k").
Proof.
  destruct (finalize_settles_key (shared demo_lead_prefix) "k" demo_inflight ok200)
    as (w' & Hrun & Hok & Hi & Hiff & _).
  - apply so_cache, after_ok.
  - vm_compute. reflexivity.
  - reflexivity.
  - exists w'. split_and!; [exact Hrun|exact Hok|exact Hi|]. apply Hiff. split; [vm_compute; discriminate|].
    intros [_ Hocc]. destruct (Hocc 1%nat) as [p Hp]; [vm_compute; lia|]. vm_compute in Hp. discriminate.
Defined.

(** Both slots of a large cache are taken; stream 2 leads. *)
Definition full_slots : system (H := HeaderList) :=
  after 1024 2 (lead 0 "a" ok200 "xx" "yyy" ++ lead 1 "b" ok200 "xx" "yyy" ++
                take 3 (lead 2 "k" ok200 "a" "b")).

Lemma full_slots_drop_response_witness :
  finalizeLocked "k" (shared full_slots)
  = Done (tt, set_inflight_map (delete "k") (shared full_slots)).
Proof.
  apply (full_slots_drop_response (shared full_slots) "k" demo_inflight ok200).
  - apply so_cache. apply (reachable_ok 1024 2); [lia|lia|apply after_reachable].
  - vm_compute. reflexivity.
  - reflexivity.
  - intros [|[|i]] Hi; [eexists; vm_compute; reflexivity|eexists; vm_compute; reflexivity|].
    vm_compute in Hi. lia.
  - vm_compute. discriminate.
Defined.

Definition demo_no_headers : system (H := HeaderList) := after 1024 64 [DoLookup "k" (callbacks_on 0)].

Lemma end_without_headers_faults_witness :
  publishData_locked "k" "x" true (shared demo_no_headers) = Faulted NullDereference.
Proof.
  eapply (end_without_headers_faults (shared demo_no_headers) "k" empty_inflight); vm_compute; reflexivity.
Defined.

Lemma removeWaiter_exact_witness :
  exists w', removeWaiter "k" 0 (shared demo_left) = Done (tt, w') /\ cache_ok w'.
Proof.
  destruct (removeWaiter_exact (shared demo_left) "k" 0) as (w' & Hrun & Hok & _).
  - apply so_cache, after_ok.
  - by exists w'.
Defined.
