(* ===== verification/Filter.v ===== *)
(** The HTTP filter of a stream (src/ring-cache/filter.h, filter.cc): its
    members, and its handlers over its own state and the shared cache. *)
From S2P Require Import Prelude CacheTypes Ring Cache CacheProps CacheSpec CacheTests.

Local Open Scope Z_scope.
Local Open Scope cpp_scope.

(** ** Envoy's return codes *)

Inductive FilterHeadersStatus := HeadersContinue | HeadersStopIteration.
Inductive FilterDataStatus := DataContinue.
Inductive FilterTrailersStatus := TrailersContinue.
Inductive Filter1xxHeadersStatus := Headers1xxContinue.
Inductive FilterMetadataStatus := MetadataContinue.

Inductive Role := RoleUnset | RoleCached | RoleLeader | RoleFollower.

#[export] Instance role_eq_dec : EqDecision Role.
Proof. solve_decision. Defined.

Definition Separator : string := "///".

Section Filter.
Context {H : Type} `{HeaderMapApi H}.

(** The members of [RingCacheFilter] that change; the configuration only
    hands out the cache. *)
Record RingCacheFilter := Filter {
  decoder_callbacks_ : option StreamDecoderFilterCallbacks;
  encoder_callbacks_ : option nat;
  filter_key_ : string;
  done_ : bool;
  role_ : Role;
  filter_waiter_ : option wptr
}.

(** What the filter itself sends through [decoder_callbacks_]; a buffer is
    handed over with its fragment. *)
Inductive Sent :=
| SentHeaders (h : H) (end_stream : bool) (details : string)
| SentBuffer (f : BufferFragment) (end_stream : bool).

(** A stream: its filter, the world of the cache it shares, and what the
    filter has sent. *)
Record stream := Stream {
  filter : RingCacheFilter;
  cache_world : world H;
  sent : list Sent
}.

(** The constructor *)
Definition new_filter : RingCacheFilter :=
  Filter None None "" false RoleUnset None.

Definition set_key (f : string -> string) (x : RingCacheFilter) : RingCacheFilter :=
  Filter (decoder_callbacks_ x) (encoder_callbacks_ x) (f (filter_key_ x)) (done_ x) (role_ x) (filter_waiter_ x).
Definition set_done (b : bool) (x : RingCacheFilter) : RingCacheFilter :=
  Filter (decoder_callbacks_ x) (encoder_callbacks_ x) (filter_key_ x) b (role_ x) (filter_waiter_ x).
Definition set_role (r : Role) (x : RingCacheFilter) : RingCacheFilter :=
  Filter (decoder_callbacks_ x) (encoder_callbacks_ x) (filter_key_ x) (done_ x) r (filter_waiter_ x).
Definition set_waiter (o : option wptr) (x : RingCacheFilter) : RingCacheFilter :=
  Filter (decoder_callbacks_ x) (encoder_callbacks_ x) (filter_key_ x) (done_ x) (role_ x) o.

Definition change_filter (f : RingCacheFilter -> RingCacheFilter) : M stream unit :=
  modify (fun s => Stream (f (filter s)) (cache_world s) (sent s)).

(** A call on [cache_]. *)
Definition call_cache {A} (m : M (world H) A) : M stream A :=
  fun s => match m (cache_world s) with
           | Done (a, w) => Done (a, Stream (filter s) w (sent s))
           | Faulted f => Faulted f
           end.

(** A call on [decoder_callbacks_]. *)
Definition send (x : Sent) : M stream unit :=
  let* f := gets filter in
  let* _ := or_fault NullDereference (decoder_callbacks_ f) in
  modify (fun s => Stream (filter s) (cache_world s) (sent s ++ [x])).

(** ** Handlers *)

Definition setDecoderFilterCallbacks (callbacks : StreamDecoderFilterCallbacks) : M stream unit :=
  change_filter (fun x => Filter (Some callbacks) (encoder_callbacks_ x) (filter_key_ x) (done_ x) (role_ x) (filter_waiter_ x)).

Definition setEncoderFilterCallbacks (callbacks : nat) : M stream unit :=
  change_filter (fun x => Filter (decoder_callbacks_ x) (Some callbacks) (filter_key_ x) (done_ x) (role_ x) (filter_waiter_ x)).

Definition is_empty (s : string) : bool := str_size s =? 0.

Definition buildKey (host path : string) : M stream bool :=
  if is_empty host || is_empty path then ret false
  else
    change_filter (set_key (fun k => k +:+ host));;;
    change_filter (set_key (fun k => k +:+ Separator));;;
    change_filter (set_key (fun k => k +:+ path));;;
    ret true.

(** [resp_body.length()] *)
Definition buffer_length (o : option BufferFragment) : Z :=
  match o with Some f => fragment_length f | None => 0 end.

(** [decodeHeaders], of a request with the given [getHostValue()] and
    [getPathValue()] *)
Definition decodeHeaders (host path : string) : M stream FilterHeadersStatus :=
  let* keyed := buildKey host path in
  if negb keyed then ret HeadersContinue
  else
    let* f := gets filter in
    let* r := call_cache (lookup (filter_key_ f) (decoder_callbacks_ f)) in
    match type_ r with
    | Hit =>
        change_filter (set_role RoleCached);;;
        let* hit := or_fault NullDereference (hit_ r) in
        let has_body := 0 <? buffer_length (hit_body_ hit) in
        send (SentHeaders (hit_headers_ hit) (negb has_body) RingCacheDetailsMessageHit);;;
        when has_body
          (let* b := or_fault NullDereference (hit_body_ hit) in send (SentBuffer b true));;;
        change_filter (set_done true);;;
        ret HeadersStopIteration
    | Leader => change_filter (set_role RoleLeader);;; ret HeadersContinue
    | Follower =>
        change_filter (set_role RoleFollower);;;
        change_filter (set_waiter (waiter_ r));;;
        ret HeadersStopIteration
    end.

Definition decodeData : M stream FilterDataStatus := ret DataContinue.
Definition decodeTrailers : M stream FilterTrailersStatus := ret TrailersContinue.
Definition encode1xxHeaders : M stream Filter1xxHeadersStatus := ret Headers1xxContinue.
Definition encodeTrailers : M stream FilterTrailersStatus := ret TrailersContinue.
Definition encodeMetadata : M stream FilterMetadataStatus := ret MetadataContinue.

Definition encodeHeaders (headers : H) (end_stream : bool) : M stream FilterHeadersStatus :=
  when end_stream (change_filter (set_done true));;;
  let* f := gets filter in
  if decide (role_ f <> RoleLeader) then ret HeadersContinue
  else call_cache (publishHeaders (filter_key_ f) headers end_stream);;; ret HeadersContinue.

Definition encodeData (data : string) (end_stream : bool) : M stream FilterDataStatus :=
  when end_stream (change_filter (set_done true));;;
  let* f := gets filter in
  if decide (role_ f <> RoleLeader) then ret DataContinue
  else call_cache (publishData (filter_key_ f) data end_stream);;; ret DataContinue.

Definition onDestroy : M stream unit :=
  let* f := gets filter in
  if bool_decide (role_ f = RoleFollower) && negb (done_ f) then
    let* wp := or_fault NullDereference (filter_waiter_ f) in
    call_cache (cancel_waiter wp);;;
    call_cache (removeWaiter (filter_key_ f) wp)
  else ret tt.
End Filter.
Arguments Sent H : clear implicits.
Arguments stream H : clear implicits.
