(* ===== verification/FilterProps.v ===== *)
(** What the filter guarantees: keys, roles, the answer of a hit, the life of
    a leader, and leaving. *)
From S2P Require Import Prelude CacheTypes Ring Cache CacheProps CacheSpec CacheSystem CacheSystemLive CacheTests Filter.

Local Open Scope Z_scope.
Local Open Scope cpp_scope.

(** ** Keys *)

Definition cache_key (host path : string) : string := host +:+ Separator +:+ path.

Fixpoint has_slash (s : string) : bool :=
  match s with
  | EmptyString => false
  | String a s => Ascii.eqb a (Ascii.ascii_of_nat 47) || has_slash s
  end.

Lemma cache_key_slash h1 p1 h2 p2 :
  has_slash h1 = false -> has_slash h2 = false -> cache_key h1 p1 = cache_key h2 p2 -> h1 = h2 /\ p1 = p2.
Proof.
  unfold cache_key. revert h2. induction h1 as [|a h1 IH]; intros [|b h2] Hs1 Hs2 Heq;
    cbn in Hs1, Hs2; cbv [Separator String.append] in Heq.
  - by injection Heq as ->.
  - injection Heq as <- _. done.
  - injection Heq as -> _. done.
  - injection Heq as -> Heq. apply orb_false_iff in Hs1 as [_ Hs1]. apply orb_false_iff in Hs2 as [_ Hs2].
    destruct (IH h2 Hs1 Hs2 Heq) as [-> ->]. done.
Qed.

Section FilterProps.
Context {H : Type} `{HeaderMapLaws H}.
Implicit Types (w : world H) (x : RingCacheFilter) (s : stream H).

Lemma change_filter_eq f s :
  change_filter f s = Done (tt, Stream (f (filter s)) (cache_world s) (sent s)).
Proof. done. Qed.

Lemma call_cache_eq {A} (m : M (world H) A) s a w' :
  m (cache_world s) = Done (a, w') -> call_cache m s = Done (a, Stream (filter s) w' (sent s)).
Proof. unfold call_cache. by intros ->. Qed.

Lemma buildKey_eq host path s :
  is_empty host = false -> is_empty path = false -> filter_key_ (filter s) = "" ->
  buildKey host path s
  = Done (true, Stream (set_key (fun _ => cache_key host path) (filter s)) (cache_world s) (sent s)).
Proof.
  intros Hh Hp Hk. unfold buildKey. rewrite Hh, Hp. simpl. unfold change_filter. mrun.
  destruct s as [[d e k b r o] w l]. simpl in *. subst k. unfold cache_key.
  unfold ret, set_key. simpl. by rewrite string_app_assoc.
Qed.

(** The first request of a stream *)
Definition fresh (cb : StreamDecoderFilterCallbacks) (e : option nat) w : stream H :=
  Stream (Filter (Some cb) e "" false RoleUnset None) w [].

(** A response as the filter sends it. *)
Definition sends (w : world H) (h : H) (b : string) (l : list (Sent H)) : Prop :=
  if decide (b = "") then l = [SentHeaders h true RingCacheDetailsMessageHit]
  else exists f, l = [SentHeaders h false RingCacheDetailsMessageHit; SentBuffer f true] /\
                 read_fragment f w = Done (b, w).

Lemma lookup_hit_eq w k cb p e h :
  cache_ok w -> cache_map_ w !! k = Some p -> entries w !! p = Some e -> headers_ e = Some h ->
  exists w', cache_ok w' /\ (forall k', status_of w' k' = status_of w k') /\
    lookup k cb w = Done ({| type_ := Hit; waiter_ := None; hit_ := Some
      {| hit_headers_ := h;
         hit_body_ := if decide (body_ e = "") then None
                      else Some {| fragment_entry := p; fragment_length := str_size (body_ e) |} |} |}, w') /\
    (body_ e <> "" -> read_fragment {| fragment_entry := p; fragment_length := str_size (body_ e) |} w'
                      = Done (body_ e, w')).
Proof.
  intros Hw Hp He Hh. unfold lookup. erewrite bind_Done by (by apply lookup_locked_hit). cbv beta iota.
  set (e1 := set_pins (fun z => u32 (z + 1)) e).
  assert (He1 : entries (add_pins p 1 e w) !! p = Some e1) by apply lookup_insert_eq.
  pose proof (add_pins_ok w p 1 e Hw He) as Hw1.
  pose proof (serve_hit_eq (add_pins p 1 e w) p e1 h He1 Hh) as Hserve.
  change (body_ e1) with (body_ e) in Hserve. rewrite createHeaderMap_copy in Hserve.
  destruct (decide (body_ e = "")) as [Hb|Hb]; rewrite (bind_Done _ _ _ _ _ Hserve); eexists;
    (split; [|split; [|split; [reflexivity|]]]).
  - by apply add_pins_ok.
  - intros k'. by rewrite (status_add_pins _ _ _ e1), (status_add_pins _ _ _ e).
  - done.
  - done.
  - intros k'. by rewrite (status_add_pins _ _ _ e).
  - intros _. exact (read_fragment_eq _ _ _ He1).
Qed.

(** ** The answer to a request *)

Lemma decodeHeaders_keyed host path cb e w :
  is_empty host = false -> is_empty path = false ->
  decodeHeaders host path (fresh cb e w)
  = bind (call_cache (lookup (cache_key host path) (Some cb)))
      (fun r => match type_ r with
       | Hit =>
           change_filter (set_role RoleCached);;;
           let* hit := or_fault NullDereference (hit_ r) in
           let has_body := 0 <? buffer_length (hit_body_ hit) in
           send (SentHeaders (hit_headers_ hit) (negb has_body) RingCacheDetailsMessageHit);;;
           when has_body
             (let* b := or_fault NullDereference (hit_body_ hit) in send (SentBuffer b true));;;
           change_filter (set_done true);;;
           ret HeadersStopIteration
       | Leader => change_filter (set_role RoleLeader);;; ret HeadersContinue
       | Follower =>
           change_filter (set_role RoleFollower);;;
           change_filter (set_waiter (waiter_ r));;;
           ret HeadersStopIteration
       end)
      (Stream (Filter (Some cb) e (cache_key host path) false RoleUnset None) w []).
Proof.
  intros Hh Hp. unfold decodeHeaders. erewrite bind_Done by (by apply buildKey_eq). done.
Qed.

Lemma decodeHeaders_hit host path cb e w h b :
  cache_ok w -> is_empty host = false -> is_empty path = false ->
  status_of w (cache_key host path) = Stored h b ->
  exists w' l, decodeHeaders host path (fresh cb e w) = Done (HeadersStopIteration,
      Stream (Filter (Some cb) e (cache_key host path) true RoleCached None) w' l) /\
    cache_ok w' /\ (forall k, status_of w' k = status_of w k) /\ sends w' h b l.
Proof.
  intros Hw Hh Hp Hst. rewrite decodeHeaders_keyed by done. set (k := cache_key host path) in *.
  destruct (status_cases w k Hw) as [(p & e' & h' & Hp' & He & Hh')|[[Hp' [i Hi]]|(_ & _ & Hab)]].
  2: { by rewrite (status_pending _ _ _ Hw Hi) in Hst. }
  2: congruence.
  rewrite (status_stored _ _ _ _ _ Hp' He Hh') in Hst. simplify_eq.
  destruct (lookup_hit_eq w k (Some cb) p e' h Hw Hp' He Hh') as (w' & Hw' & Hsame & Hrun & Hread).
  erewrite bind_Done by (by apply call_cache_eq). cbn [type_ hit_ filter sent cache_world].
  exists w'. unfold sends. destruct (decide (body_ e' = "")) as [Hb|Hb]; eexists; cycle 1.
  - pose proof (proj2 (Z.ltb_lt _ _) (str_size_pos _ Hb)) as Hpos.
    unfold change_filter. mrun. cbn [buffer_length fragment_length hit_body_]. rewrite Hpos.
    split; [reflexivity|]. split_and!; [done|done|]. eexists. split; [reflexivity|]. by apply Hread.
  - split; [reflexivity|]. done.
Qed.

Lemma absent_nowhere w k :
  cache_ok w -> status_of w k = Absent -> cache_map_ w !! k = None /\ inflight_map_ w !! k = None.
Proof.
  intros Hw Hst. destruct (status_cases w k Hw) as [(p & e & h & Hp & He & Hh)|[[Hp [i Hi]]|(Hp & Hi & _)]]; [| |done].
  - by rewrite (status_stored _ _ _ _ _ Hp He Hh) in Hst.
  - by rewrite (status_pending _ _ _ Hw Hi) in Hst.
Qed.

Lemma lookup_absent w k cb :
  cache_map_ w !! k = None -> inflight_map_ w !! k = None ->
  lookup k (Some cb) w = Done ({| type_ := Leader; hit_ := None; waiter_ := None |}, become_leader k w).
Proof. intros Hp Hi. unfold lookup. by erewrite bind_Done by (by apply lookup_locked_leader). Qed.

Lemma lookup_leader_eq w k cb :
  cache_ok w -> status_of w k = Absent ->
  exists w', lookup k (Some cb) w = Done ({| type_ := Leader; hit_ := None; waiter_ := None |}, w') /\
    cache_ok w' /\ updates k (Pending None "" []) (status_of w) (status_of w').
Proof.
  intros Hw Hst. destruct (absent_nowhere w k Hw Hst) as [Hp Hi]. exists (become_leader k w).
  split_and!; [by apply lookup_absent|by apply become_leader_ok|exact (status_with_inflight w k empty_inflight Hp)].
Qed.

Lemma lookup_follower_eq w k cb h b ws :
  cache_ok w -> status_of w k = Pending h b ws ->
  exists w' wp, lookup k (Some cb) w = Done ({| type_ := Follower; hit_ := None; waiter_ := Some wp |}, w') /\
    cache_ok w' /\ updates k (Pending h b (ws ++ [wp])) (status_of w) (status_of w') /\
    waiter_heap w' !! wp = Some {| dispatcher_ := cb_dispatcher cb; callbacks_ := cb; cancelled := false |}.
Proof.
  intros Hw Hst.
  destruct (status_cases w k Hw) as [(p & e & h' & Hp & He & Hh)|[[Hp [i Hi]]|(_ & _ & Hab)]].
  - by rewrite (status_stored _ _ _ _ _ Hp He Hh) in Hst.
  - assert (Hrun : lookup k (Some cb) w
      = Done ({| type_ := Follower; hit_ := None; waiter_ := Some (next_waiter w) |}, become_follower k cb i w))
      by (unfold lookup; by erewrite bind_Done by (by apply lookup_locked_follower)).
    exists (become_follower k cb i w), (next_waiter w). split_and!; [done|by apply become_follower_ok| |].
    + destruct (exec_refines (OpLookup k (Some cb)) w Hw) as (r & w' & rep & Hex & _ & Hobs & Hspec).
      { intros _. eauto. }
      unfold exec in Hex. rewrite (bind_Done _ _ _ _ _ Hrun) in Hex. unfold ret in Hex. simplify_eq/=.
      inversion Hspec; simplify_eq; congruence.
    + unfold become_follower. case_match; simpl; by rewrite lookup_insert_eq.
  - congruence.
Qed.

Lemma decodeHeaders_leads host path cb e w :
  is_empty host = false -> is_empty path = false ->
  cache_map_ w !! cache_key host path = None -> inflight_map_ w !! cache_key host path = None ->
  decodeHeaders host path (fresh cb e w) = Done (HeadersContinue,
    Stream (Filter (Some cb) e (cache_key host path) false RoleLeader None) (become_leader (cache_key host path) w) []).
Proof.
  intros Hh Hp Hc Hi. rewrite decodeHeaders_keyed by done.
  by erewrite bind_Done by (by apply call_cache_eq, lookup_absent).
Qed.

Lemma decodeHeaders_leader host path cb e w :
  cache_ok w -> is_empty host = false -> is_empty path = false ->
  status_of w (cache_key host path) = Absent ->
  exists w', decodeHeaders host path (fresh cb e w) = Done (HeadersContinue,
      Stream (Filter (Some cb) e (cache_key host path) false RoleLeader None) w' []) /\
    cache_ok w' /\ updates (cache_key host path) (Pending None "" []) (status_of w) (status_of w').
Proof.
  intros Hw Hh Hp Hst. rewrite decodeHeaders_keyed by done.
  destruct (lookup_leader_eq w (cache_key host path) cb Hw Hst) as (w' & Hrun & Hw' & Hup).
  exists w'. split; [|done]. by erewrite bind_Done by (by apply call_cache_eq).
Qed.

Lemma decodeHeaders_follower host path cb e w h b ws :
  cache_ok w -> is_empty host = false -> is_empty path = false ->
  status_of w (cache_key host path) = Pending h b ws ->
  exists w' wp, decodeHeaders host path (fresh cb e w) = Done (HeadersStopIteration,
      Stream (Filter (Some cb) e (cache_key host path) false RoleFollower (Some wp)) w' []) /\
    cache_ok w' /\
    updates (cache_key host path) (Pending h b (ws ++ [wp])) (status_of w) (status_of w') /\
    waiter_heap w' !! wp = Some {| dispatcher_ := cb_dispatcher cb; callbacks_ := cb; cancelled := false |}.
Proof.
  intros Hw Hh Hp Hst. rewrite decodeHeaders_keyed by done.
  destruct (lookup_follower_eq w (cache_key host path) cb h b ws Hw Hst) as (w' & wp & Hrun & Hw' & Hup & Hx).
  exists w', wp. split; [|done]. by erewrite bind_Done by (by apply call_cache_eq).
Qed.

(** ** Encoding *)

Definition leader_filter (cb : StreamDecoderFilterCallbacks) (e : option nat) (k : string) : RingCacheFilter :=
  Filter (Some cb) e k false RoleLeader None.

(** What a leader whose key has no waiters publishes *)
Lemma publishHeaders_alone w k i h (end_stream : bool) :
  cache_ok w -> inflight_map_ w !! k = Some i -> waiters_ i = [] ->
  exists w', publishHeaders k h end_stream w = Done (tt, w') /\
    settled end_stream k (headers_after h i) (inflight_body_ i) (with_inflight k (set_headers_if_empty h i) w) w'.
Proof.
  intros Hw Hi Hws. destruct (publishHeaders_locked_result w k i h end_stream Hw Hi) as (w' & Hrun & Hset).
  exists w'. split; [|done]. unfold publishHeaders. erewrite bind_Done by exact Hrun. by rewrite Hws.
Qed.

Lemma publishData_alone w k i h data (end_stream : bool) :
  cache_ok w -> inflight_map_ w !! k = Some i -> inflight_headers_ i = Some h -> waiters_ i = [] ->
  exists w', publishData k data end_stream w = Done (tt, w') /\
    settled end_stream k h (inflight_body_ i +:+ data) (with_inflight k (append_body data i) w) w'.
Proof.
  intros Hw Hi Hh Hws. destruct (publishData_locked_result w k i h data end_stream Hw Hi Hh) as (w' & Hrun & Hset).
  exists w'. split; [|done]. unfold publishData. erewrite bind_Done by exact Hrun. by rewrite Hws.
Qed.

(** The cache has room for [need] more bytes: what is not pinned leaves
    enough, and it is not the case that the bytes would do at once while every
    slot is taken. *)
Definition has_room (need : Z) w : Prop :=
  need <= capacity_ w - pinned_size w /\ ~ (need <= capacity_ w - used_size_ w /\ all_occupied w).

(** The end of a stream stores the response when there is room, and drops it
    when there is none. *)
Lemma finalized_status w k h body w' :
  cache_ok w -> is_Some (inflight_map_ w !! k) -> finalized k h body w w' ->
  (has_room (response_size k h body) w -> status_of w' k = Stored h body) /\
  (~ has_room (response_size k h body) w -> status_of w' k = Absent).
Proof.
  intros Hw [i Hi] Hfin. pose proof (inflight_not_cached _ _ _ Hw Hi) as Hnone.
  destruct Hfin as [w1 Hres|w1 Hres]; pose proof (evict_result_iff _ _ _ _ (co_ring _ Hw) Hres) as Hiff;
    destruct (evict_result_frame _ _ _ _ Hres) as (_ & _ & _ & _ & _ & _ & _ & _ & Hcm); split; intros Hroom.
  - unfold status_of. simpl. by rewrite !lookup_insert_eq.
  - by destruct Hroom; apply Hiff.
  - by apply Hiff in Hroom.
  - unfold status_of. simpl. by rewrite (lookup_weaken_None _ _ _ Hnone Hcm), lookup_delete_eq.
Qed.

Lemma encodeHeaders_leader cb e k h w w' l :
  publishHeaders k h false w = Done (tt, w') ->
  encodeHeaders h false (Stream (leader_filter cb e k) w l)
  = Done (HeadersContinue, Stream (leader_filter cb e k) w' l).
Proof.
  intros Hrun. unfold encodeHeaders, when. mrun. simpl.
  by erewrite bind_Done by (by apply call_cache_eq).
Qed.

Lemma encodeData_leader cb e k data (end_stream : bool) w w' l :
  publishData k data end_stream w = Done (tt, w') ->
  encodeData data end_stream (Stream (leader_filter cb e k) w l)
  = Done (DataContinue, Stream (set_done end_stream (leader_filter cb e k)) w' l).
Proof.
  intros Hrun. unfold encodeData, when. destruct end_stream.
  - unfold change_filter. mrun. simpl. by erewrite bind_Done by (by apply call_cache_eq).
  - mrun. simpl. by erewrite bind_Done by (by apply call_cache_eq).
Qed.

(** The handlers a leading stream goes through: the headers, the chunks of
    the body, the last of which ends the stream. *)
Fixpoint encode_body (chunks : list string) (last : string) : M (stream H) FilterDataStatus :=
  match chunks with
  | [] => encodeData last true
  | c :: chunks => encodeData c false;;; encode_body chunks last
  end.

Definition body_of (chunks : list string) (last : string) : string :=
  foldr (fun c b => c +:+ b) last chunks.

(** The inflight response of a leader that has published headers and part of
    the body, with nobody waiting *)
Definition alone (h : H) (b : string) : Inflight H :=
  {| inflight_headers_ := Some h; inflight_body_ := b; waiters_ := [] |}.

Lemma encode_body_completes cb e k chunks last h b w l :
  cache_ok w -> inflight_map_ w !! k = Some (alone h b) ->
  let body := b +:+ body_of chunks last in
  exists w', encode_body chunks last (Stream (leader_filter cb e k) w l)
      = Done (DataContinue, Stream (set_done true (leader_filter cb e k)) w' l) /\
    cache_ok w' /\
    (has_room (response_size k h body) w -> status_of w' k = Stored h body) /\
    (~ has_room (response_size k h body) w -> status_of w' k = Absent).
Proof.
  revert b w. induction chunks as [|c chunks IH]; intros b w Hw Hi.
  - destruct (publishData_alone w k _ h last true Hw Hi eq_refl eq_refl) as (w' & Hrun & Hset).
    assert (Hw1 : cache_ok (with_inflight k (append_body last (alone h b)) w)) by (apply with_body_ok; [done..|by eexists]).
    assert (Hi1 : inflight_map_ (with_inflight k (append_body last (alone h b)) w) !! k = Some (append_body last (alone h b)))
      by apply lookup_insert_eq.
    exists w'. split; [by apply encodeData_leader|]. split; [exact (settled_ok true k _ h _ w' Hw1 Hi1 Hset)|].
    exact (finalized_status _ k h (b +:+ last) w' Hw1 (ex_intro _ _ Hi1) Hset).
  - destruct (publishData_alone w k _ h c false Hw Hi eq_refl eq_refl) as (w1 & Hrun & Hset). simpl in Hset.
    destruct (IH (b +:+ c) w1) as (w' & Hrun' & Hw' & Hres).
    + subst w1. apply with_body_ok; [done..|by eexists].
    + subst w1. apply lookup_insert_eq.
    + exists w'. split; [|split; [done|]].
      * simpl. by erewrite bind_Done by (by apply (encodeData_leader cb e k c false)).
      * rewrite string_app_assoc in Hres. subst w1. exact Hres.
Qed.

(** ** Leaving *)

Lemma onDestroy_waiting cb e k wp (x : Waiter) w l :
  waiter_heap w !! wp = Some x ->
  exists w1, cancel_waiter wp w = Done (tt, w1) /\
    onDestroy (Stream (Filter cb e k false RoleFollower (Some wp)) w l)
    = match removeWaiter k wp w1 with
      | Done (_, w') => Done (tt, Stream (Filter cb e k false RoleFollower (Some wp)) w' l)
      | Faulted f => Faulted f
      end /\
    waiter_heap w1 !! wp
    = Some {| dispatcher_ := dispatcher_ x; callbacks_ := callbacks_ x; cancelled := true |} /\
    inflight_map_ w1 = inflight_map_ w /\ (cache_ok w -> cache_ok w1).
Proof.
  intros Hx. eexists. split.
  { unfold cancel_waiter, deref_waiter. by erewrite bind_Done by (cbv beta; by rewrite Hx). }
  split_and!.
  - unfold onDestroy. mrun. simpl. mrun.
    erewrite bind_Done by (apply call_cache_eq; unfold cancel_waiter, deref_waiter;
      by erewrite bind_Done by (cbv beta; simpl; by rewrite Hx)).
    unfold call_cache. simpl. by destruct (removeWaiter k wp _) as [[[] ?]|?].
  - apply lookup_insert_eq.
  - done.
  - intros [[] ? ? ? ? ? Hfresh ?]. split; simpl; try done.
    + intros k' i wp' Hi Hwp. apply lookup_insert_is_Some'. eauto.
    + intros wp' y [[<- _]|[_ Hy]]%lookup_insert_Some; eauto.
Qed.

(** ** Properties *)

(** C34. Requests share a cache entry exactly when host and path agree, for
    hosts without a slash: [buildKey] then gives two streams the same key only
    for the same host and the same path. *)
Theorem buildKey_separates h1 p1 h2 p2 s1 s2 :
  has_slash h1 = false -> has_slash h2 = false ->
  is_empty h1 = false -> is_empty p1 = false -> is_empty h2 = false -> is_empty p2 = false ->
  filter_key_ (filter s1) = "" -> filter_key_ (filter s2) = "" ->
  exists s1' s2', buildKey h1 p1 s1 = Done (true, s1') /\ buildKey h2 p2 s2 = Done (true, s2') /\
    (filter_key_ (filter s1') = filter_key_ (filter s2') <-> h1 = h2 /\ p1 = p2).
Proof.
  intros Hs1 Hs2 Hh1 Hp1 Hh2 Hp2 Hk1 Hk2.
  do 2 eexists. split; [by apply buildKey_eq|]. split; [by apply buildKey_eq|]. simpl. split.
  - by apply cache_key_slash.
  - by intros [-> ->].
Qed.

(** C26. A request is answered by the status of its key: a stored response is
    sent as it was published, with the end of the stream on its last part, and
    the request goes no further; an inflight one makes the stream a follower
    with a waiter of its own; otherwise the stream leads and the request goes
    on.  A request without host or path passes, and nothing changes. *)
Theorem decodeHeaders_answers host path cb e w :
  cache_ok w ->
  if is_empty host || is_empty path
  then decodeHeaders host path (fresh cb e w) = Done (HeadersContinue, fresh cb e w)
  else exists st f w' l,
    decodeHeaders host path (fresh cb e w) = Done (st, Stream f w' l) /\ cache_ok w' /\
    filter_key_ f = cache_key host path /\
    match status_of w (cache_key host path) with
    | Stored h b => st = HeadersStopIteration /\ role_ f = RoleCached /\ done_ f = true /\
        (forall k, status_of w' k = status_of w k) /\ sends w' h b l
    | Pending h b ws => st = HeadersStopIteration /\ role_ f = RoleFollower /\ l = [] /\
        exists wp, filter_waiter_ f = Some wp /\
          updates (cache_key host path) (Pending h b (ws ++ [wp])) (status_of w) (status_of w')
    | Absent => st = HeadersContinue /\ role_ f = RoleLeader /\ l = [] /\
        updates (cache_key host path) (Pending None "" []) (status_of w) (status_of w')
    end.
Proof.
  intros Hw. destruct (is_empty host) eqn:Hh.
  { simpl. unfold decodeHeaders, buildKey. by rewrite Hh. }
  destruct (is_empty path) eqn:Hp; simpl.
  { unfold decodeHeaders, buildKey. by rewrite Hh, Hp. }
  destruct (status_of w (cache_key host path)) as [|h b ws|h b] eqn:Hst.
  - destruct (decodeHeaders_leader host path cb e w) as (w' & -> & ? & ?); [done..|].
    do 4 eexists. split; [reflexivity|]. done.
  - destruct (decodeHeaders_follower host path cb e w h b ws) as (w' & wp & -> & ? & ? & _); [done..|].
    do 4 eexists. split; [reflexivity|]. split_and!; [done..|]. by exists wp.
  - destruct (decodeHeaders_hit host path cb e w h b) as (w' & l & -> & ? & ? & ?); [done..|].
    do 4 eexists. split; [reflexivity|]. done.
Qed.

(** C15. What one stream fetched, the next one is served: after a leading
    stream has passed on its headers and all parts of its body, and provided
    the cache had room for them (the unpinned bytes are enough, and it is not
    the case that they would do at once while every slot is taken), a request
    for the same host and path is answered from the cache with those headers
    and the concatenation of the parts; without room it leads in its turn. *)
Theorem leader_then_hit host path cb e w h chunks last :
  cache_ok w -> is_empty host = false -> is_empty path = false ->
  status_of w (cache_key host path) = Absent ->
  let need := response_size (cache_key host path) h (body_of chunks last) in
  exists w',
    (decodeHeaders host path;;; encodeHeaders h false;;; encode_body chunks last) (fresh cb e w)
    = Done (DataContinue, Stream (set_done true (leader_filter cb e (cache_key host path))) w' []) /\
    cache_ok w' /\
    forall cb2 e2,
      (has_room need w ->
       exists w2 l, decodeHeaders host path (fresh cb2 e2 w')
         = Done (HeadersStopIteration,
                 Stream (Filter (Some cb2) e2 (cache_key host path) true RoleCached None) w2 l) /\
         sends w2 h (body_of chunks last) l) /\
      (~ has_room need w ->
       exists w2, decodeHeaders host path (fresh cb2 e2 w')
         = Done (HeadersContinue, Stream (leader_filter cb2 e2 (cache_key host path)) w2 [])).
Proof.
  intros Hw Hh Hp Hst need. set (k := cache_key host path) in *.
  destruct (absent_nowhere w k Hw Hst) as [Hc Hi]. pose proof (become_leader_ok w k Hw Hc Hi) as Hw1.
  assert (Hi1 : inflight_map_ (become_leader k w) !! k = Some empty_inflight) by apply lookup_insert_eq.
  destruct (publishHeaders_alone _ k _ h false Hw1 Hi1 eq_refl) as (w2 & Hrun2 & Hset). simpl in Hset.
  destruct (encode_body_completes cb e k chunks last h "" w2 []) as (w' & Hrun' & Hw' & Hkept & Hdropped).
  { subst w2. by apply with_headers_ok. }
  { subst w2. simpl. rewrite lookup_insert_eq. unfold set_headers_if_empty, alone. simpl. by rewrite createHeaderMap_copy. }
  exists w'. split; [|split; [done|]].
  { erewrite bind_Done by (by apply decodeHeaders_leads). by erewrite bind_Done by (by apply encodeHeaders_leader). }
  assert (Hroom : has_room need w2 <-> has_room need w) by (by subst w2).
  intros cb2 e2. split; intros Hr; rewrite <- Hroom in Hr.
  - destruct (decodeHeaders_hit host path cb2 e2 w' h (body_of chunks last)) as (w3 & l & ? & _ & _ & ?);
      [done..|by apply Hkept|]. by exists w3, l.
  - destruct (decodeHeaders_leader host path cb2 e2 w') as (w3 & ? & _); [done..|by apply Hdropped|]. by exists w3.
Qed.

(** Only leaders publish: on any other stream the encoding handlers pass
    the response on and leave the cache alone; they only note its end. *)
Theorem others_do_not_publish s h data end_stream :
  role_ (filter s) <> RoleLeader ->
  encodeHeaders h end_stream s
  = Done (HeadersContinue, Stream (set_done (end_stream || done_ (filter s)) (filter s)) (cache_world s) (sent s)) /\
  encodeData data end_stream s
  = Done (DataContinue, Stream (set_done (end_stream || done_ (filter s)) (filter s)) (cache_world s) (sent s)).
Proof.
  intros Hr. destruct s as [[d e k b r o] w l]. simpl in Hr. unfold encodeHeaders, encodeData, when.
  destruct end_stream; unfold change_filter; mrun; simpl; by rewrite !decide_True.
Qed.

(** A follower that is destroyed before its response has ended leaves: its
    waiter is cancelled, and taken off the inflight response, which keeps its
    other waiters. *)
Theorem onDestroy_detaches s wp (x : Waiter) :
  cache_ok (cache_world s) ->
  role_ (filter s) = RoleFollower -> done_ (filter s) = false -> filter_waiter_ (filter s) = Some wp ->
  waiter_heap (cache_world s) !! wp = Some x ->
  exists w', onDestroy s = Done (tt, Stream (filter s) w' (sent s)) /\ cache_ok w' /\
    waiter_heap w' !! wp
    = Some {| dispatcher_ := dispatcher_ x; callbacks_ := callbacks_ x; cancelled := true |} /\
    forall i, inflight_map_ (cache_world s) !! filter_key_ (filter s) = Some i ->
      exists i', inflight_map_ w' !! filter_key_ (filter s) = Some i' /\
        forall q, q ∈ waiters_ i' <-> q ∈ waiters_ i /\ q <> wp.
Proof.
  destruct s as [[d e k b r o] w l]. simpl. intros Hw -> -> -> Hx.
  destruct (onDestroy_waiting d e k wp x w l Hx) as (w1 & _ & -> & Hx1 & Hi1 & Hok1).
  specialize (Hok1 Hw). destruct (inflight_map_ w !! k) as [i|] eqn:Hi.
  - assert (Hi' : inflight_map_ w1 !! k = Some i) by (by rewrite Hi1).
    rewrite (removeWaiter_eq w1 k wp i Hi').
    eexists. split; [reflexivity|]. split; [by apply with_removed_ok|]. split; [done|].
    intros j [= <-]. exists (remove_waiter wp i). split; [apply lookup_insert_eq|].
    intros q. apply remove_waiter_elem, (co_nodup _ Hw _ _ Hi).
  - rewrite removeWaiter_absent by (by rewrite Hi1). eexists. split; [reflexivity|]. done.
Qed.

(** C38. A follower that has seen the end of a response that did not come from
    its leader stays attached: once [encodeHeaders] has passed it an ended
    response, [onDestroy] neither cancels its waiter nor removes it, so the
    leader's later publications still reach the callbacks of the destroyed
    stream. *)
Theorem ended_follower_stays_attached s h :
  role_ (filter s) = RoleFollower ->
  exists s', (encodeHeaders h true;;; onDestroy) s = Done (tt, s') /\ cache_world s' = cache_world s.
Proof.
  destruct s as [[d e k b r o] w l]. simpl. intros ->. by eexists.
Qed.
End FilterProps.

(** ** Witnesses *)

Definition demo_stream (key : string) (r : Role) (o : option wptr) (w : world HeaderList) : stream HeaderList :=
  Stream (Filter (Some (callbacks_on 1)) None key false r o) w [].

Definition empty_cache : world HeaderList := RingBufferCache 1024 64.

Lemma empty_cache_ok : cache_ok empty_cache.
Proof. apply RingBufferCache_ok; lia. Qed.

Lemma buildKey_separates_witness :
  exists s1' s2',
    buildKey "a.test" "/x" (demo_stream "" RoleUnset None empty_cache) = Done (true, s1') /\
    buildKey "b.test" "/x" (demo_stream "" RoleUnset None empty_cache) = Done (true, s2') /\
    (filter_key_ (filter s1') = filter_key_ (filter s2') <-> "a.test" = "b.test" /\ "/x" = "/x").
Proof. apply buildKey_separates; reflexivity. Defined.

Lemma decodeHeaders_answers_witness :
  exists st f w' l,
    decodeHeaders "a.test" "/x" (fresh (callbacks_on 1) None empty_cache) = Done (st, Stream f w' l) /\
    st = HeadersContinue /\ role_ f = RoleLeader.
Proof.
  pose proof (decodeHeaders_answers "a.test" "/x" (callbacks_on 1) None empty_cache empty_cache_ok) as Ha.
  simpl in Ha. destruct Ha as (st & f & w' & l & Hrun & _ & _ & Hst & Hr & _).
  exists st, f, w', l. auto.
Defined.

Lemma empty_cache_room need : need <= 1024 -> has_room need empty_cache.
Proof.
  intros Hneed. split.
  - assert (Hsize : capacity_ empty_cache - pinned_size empty_cache = 1024) by (vm_compute; reflexivity). by rewrite Hsize.
  - intros [_ Hocc]. destruct (Hocc 0%nat) as [p Hp]; [vm_compute; lia|]. vm_compute in Hp. discriminate.
Qed.

(** A cache of 4 bytes *)
Definition tiny_cache : world HeaderList := RingBufferCache 4 1.

Lemma tiny_cache_ok : cache_ok tiny_cache.
Proof. apply RingBufferCache_ok; lia. Qed.

Lemma leader_then_hit_witness :
  (exists w' w2 l,
    (decodeHeaders "a.test" "/x";;; encodeHeaders ok200 false;;; encode_body ["ab"; "cd"] "ef")
      (fresh (callbacks_on 1) None empty_cache)
    = Done (DataContinue, Stream (set_done true (leader_filter (callbacks_on 1) None "a.test////x")) w' []) /\
    decodeHeaders "a.test" "/x" (fresh (callbacks_on 2) None w')
    = Done (HeadersStopIteration, Stream (Filter (Some (callbacks_on 2)) None "a.test////x" true RoleCached None) w2 l) /\
    sends w2 ok200 "abcdef" l) /\
  (exists w' w2,
    (decodeHeaders "a.test" "/x";;; encodeHeaders ok200 false;;; encode_body ["ab"; "cd"] "ef")
      (fresh (callbacks_on 1) None tiny_cache)
    = Done (DataContinue, Stream (set_done true (leader_filter (callbacks_on 1) None "a.test////x")) w' []) /\
    decodeHeaders "a.test" "/x" (fresh (callbacks_on 2) None w')
    = Done (HeadersContinue, Stream (leader_filter (callbacks_on 2) None "a.test////x") w2 [])).
Proof.
  split.
  - destruct (leader_then_hit "a.test" "/x" (callbacks_on 1) None empty_cache ok200 ["ab"; "cd"] "ef")
      as (w' & Hrun & _ & Hnext); [exact empty_cache_ok|reflexivity|reflexivity|reflexivity|].
    destruct (Hnext (callbacks_on 2) None) as [Hhit _].
    destruct Hhit as (w2 & l & Hrun2 & Hsends); [apply empty_cache_room; vm_compute; discriminate|].
    exists w', w2, l. exact (conj Hrun (conj Hrun2 Hsends)).
  - destruct (leader_then_hit "a.test" "/x" (callbacks_on 1) None tiny_cache ok200 ["ab"; "cd"] "ef")
      as (w' & Hrun & _ & Hnext); [exact tiny_cache_ok|reflexivity|reflexivity|reflexivity|].
    destruct (Hnext (callbacks_on 2) None) as [_ Hlead].
    destruct Hlead as (w2 & Hrun2); [intros [Hneed _]; vm_compute in Hneed; by apply Hneed|].
    exists w', w2. exact (conj Hrun Hrun2).
Defined.

Lemma others_do_not_publish_witness :
  encodeHeaders ok200 true (demo_stream "k" RoleCached None empty_cache)
  = Done (HeadersContinue, Stream (Filter (Some (callbacks_on 1)) None "k" true RoleCached None) empty_cache []).
Proof.
  apply (others_do_not_publish (demo_stream "k" RoleCached None empty_cache) ok200 "" true).
  discriminate.
Defined.

(** The world of a follower: a leader for "k", then a lookup with callbacks. *)
Definition followed : world HeaderList :=
  match (lookup "k" None;;; lookup "k" (Some (callbacks_on 1))) empty_cache with
  | Done (_, w) => w
  | Faulted _ => empty_cache
  end.

Lemma followed_ok : cache_ok followed.
Proof.
  destruct (lookup_leader_eq empty_cache "k" (callbacks_on 0) empty_cache_ok) as (w1 & Hrun1 & Hw1 & [Hst1 _]);
    [reflexivity|].
  destruct (lookup_follower_eq w1 "k" (callbacks_on 1) None "" [] Hw1 Hst1) as (w2 & wp & Hrun2 & Hw2 & _).
  unfold followed. assert (Hrun1' : lookup "k" None empty_cache = lookup "k" (Some (callbacks_on 0)) empty_cache)
    by reflexivity.
  unfold bind at 1. rewrite Hrun1', Hrun1, Hrun2. exact Hw2.
Qed.

Lemma onDestroy_detaches_witness :
  exists w', onDestroy (demo_stream "k" RoleFollower (Some O) followed)
    = Done (tt, Stream (Filter (Some (callbacks_on 1)) None "k" false RoleFollower (Some O)) w' []) /\ cache_ok w'.
Proof.
  destruct (onDestroy_detaches (demo_stream "k" RoleFollower (Some O) followed) O
    {| dispatcher_ := 1; callbacks_ := callbacks_on 1; cancelled := false |})
    as (w' & Hrun & Hok & _); [exact followed_ok|reflexivity..|vm_compute; reflexivity|].
  exists w'. split; [exact Hrun|exact Hok].
Defined.

Lemma ended_follower_stays_attached_witness :
  exists s', (encodeHeaders ok200 true;;; onDestroy) (demo_stream "k" RoleFollower (Some O) followed)
    = Done (tt, s') /\ cache_world s' = followed.
Proof. apply (ended_follower_stays_attached (demo_stream "k" RoleFollower (Some O) followed)). reflexivity. Defined.
