(* ===== verification/Proxy.v ===== *)
(** Filters at work: streams with a filter each, whose handlers Envoy calls on
    many threads, over one shared cache.  A handler gives up the mutex in the
    middle, so it is cut into pieces there ([handler_pieces]: its pieces in a
    row are the handler of Filter.v), and an event is one piece, a turn of an
    event loop, or the release of a buffer. *)
From S2P Require Import Prelude CacheTypes Ring Cache CacheProps CacheSpec CacheSystem Filter FilterProps.

Local Open Scope Z_scope.
Local Open Scope cpp_scope.

Section Proxy.
Context {H : Type} `{HeaderMapApi H}.

(** ** Handlers in pieces *)

(** What a handler still has to do. *)
Inductive rest :=
| Idle
| ToServe (p : eptr) (body_length : Z)
| ToPost (ts : list (Task H))
| ToRemove (key : string) (wp : wptr).

Definition post_rest (ts : list (Task H)) : rest := match ts with [] => Idle | _ => ToPost ts end.

(** The calls on a filter that reach its cache, with what Envoy passes *)
Inductive handler :=
| OnRequest (host path : string)
| OnHeaders (h : H) (end_stream : bool)
| OnData (data : string) (end_stream : bool)
| OnDestroy.

Definition whole (c : handler) : M (stream H) unit :=
  match c with
  | OnRequest host path => decodeHeaders host path;;; ret tt
  | OnHeaders h e => encodeHeaders h e;;; ret tt
  | OnData d e => encodeData d e;;; ret tt
  | OnDestroy => onDestroy
  end.

(** A handler up to the release of the mutex *)
Definition start (c : handler) : M (stream H) rest :=
  match c with
  | OnRequest host path =>
      let* keyed := buildKey host path in
      if negb keyed then ret Idle
      else
        let* f := gets filter in
        let* r := call_cache (lookup_locked (filter_key_ f) (decoder_callbacks_ f)) in
        match r with
        | LockedHit p n => ret (ToServe p n)
        | LockedLeader => change_filter (set_role RoleLeader);;; ret Idle
        | LockedFollower wp =>
            change_filter (set_role RoleFollower);;;
            change_filter (set_waiter (Some wp));;;
            ret Idle
        end
  | OnHeaders h e =>
      when e (change_filter (set_done true));;;
      let* f := gets filter in
      if decide (role_ f <> RoleLeader) then ret Idle
      else
        let* r := call_cache (publishHeaders_locked (filter_key_ f) h e) in
        ret match r with
            | Some (ws, hc) => post_rest (map (fun wp => PostHeaders wp (createHeaderMap hc) e) ws)
            | None => Idle
            end
  | OnData d e =>
      when e (change_filter (set_done true));;;
      let* f := gets filter in
      if decide (role_ f <> RoleLeader) then ret Idle
      else
        let* r := call_cache (publishData_locked (filter_key_ f) d e) in
        ret match r with
            | Some ws => post_rest (map (fun wp => PostData wp d e) ws)
            | None => Idle
            end
  | OnDestroy =>
      let* f := gets filter in
      if bool_decide (role_ f = RoleFollower) && negb (done_ f) then
        let* wp := or_fault NullDereference (filter_waiter_ f) in
        call_cache (cancel_waiter wp);;;
        ret (ToRemove (filter_key_ f) wp)
      else ret Idle
  end.

(** Its next piece *)
Definition resume (r : rest) : M (stream H) rest :=
  match r with
  | Idle => ret Idle
  | ToServe p n =>
      let* hit := call_cache (serve_hit p n) in
      change_filter (set_role RoleCached);;;
      let has_body := 0 <? buffer_length (hit_body_ hit) in
      send (SentHeaders (hit_headers_ hit) (negb has_body) RingCacheDetailsMessageHit);;;
      when has_body (let* b := or_fault NullDereference (hit_body_ hit) in send (SentBuffer b true));;;
      change_filter (set_done true);;;
      ret Idle
  | ToPost [] => ret Idle
  | ToPost (t :: ts) => call_cache (post_to (task_waiter t) t);;; ret (post_rest ts)
  | ToRemove key wp => call_cache (removeWaiter key wp);;; ret Idle
  end.

(** All its pieces *)
Definition finish (r : rest) : M (stream H) unit :=
  match r with
  | ToPost ts => for_each (fun t => call_cache (post_to (task_waiter t) t)) ts
  | _ => resume r;;; ret tt
  end.

Lemma call_cache_bind {A B} (m : M (world H) A) (k : A -> M (world H) B) s :
  call_cache (bind m k) s = bind (call_cache m) (fun a => call_cache (k a)) s.
Proof. unfold call_cache, bind. by destruct (m (cache_world s)) as [[a w]|]. Qed.

Lemma call_cache_for_each {A} (f : A -> M (world H) unit) l s :
  call_cache (for_each f l) s = for_each (fun a => call_cache (f a)) l s.
Proof.
  revert s. induction l as [|a l IH]; intros s; cbn [for_each]; [by destruct s|].
  rewrite call_cache_bind. unfold bind. by destruct (call_cache (f a) s) as [[u s']|].
Qed.

Lemma for_each_map {S A B} (g : A -> B) (f : B -> M S unit) l s :
  for_each f (map g l) s = for_each (fun a => f (g a)) l s.
Proof.
  revert s. induction l as [|a l IH]; intros s; cbn [for_each map]; [done|]. unfold bind.
  by destruct (f (g a) s) as [[u s']|].
Qed.

Lemma finish_post_rest ts s :
  finish (post_rest ts) s = for_each (fun t => call_cache (post_to (task_waiter t) t)) ts s.
Proof. by destruct ts. Qed.

Lemma bind_same {S A B} (m : M S A) (k1 k2 : A -> M S B) s :
  (forall a s', k1 a s' = k2 a s') -> bind m k1 s = bind m k2 s.
Proof. intros Hk. unfold bind. by destruct (m s) as [[a s']|]. Qed.

Lemma call_cache_posts {A} (f : A -> wptr) (task : A -> Task H) l s :
  (forall a, task_waiter (task a) = f a) ->
  call_cache (for_each (fun a => post_to (f a) (task a)) l) s = finish (post_rest (map task l)) s.
Proof.
  intros Hf. rewrite finish_post_rest, for_each_map, call_cache_for_each. revert s.
  induction l as [|a l IH]; intros s; cbn [for_each]; [done|]. rewrite Hf. by apply bind_same.
Qed.

(** A handler is its pieces, one after the other. *)
Lemma handler_pieces c s : whole c s = bind (start c) finish s.
Proof.
  destruct c as [host path|h e|d e|]; unfold whole, start.
  - unfold decodeHeaders. rewrite !bind_assoc. apply bind_same. intros keyed s1. destruct keyed; [|done]. cbn [negb].
    unfold lookup, bind, gets, call_cache, finish, resume.
    destruct (lookup_locked _ _ (cache_world s1)) as [[[p n| |wp] w]|]; [|reflexivity|reflexivity|reflexivity].
    cbv beta iota delta [ret bind call_cache cache_world filter sent].
    destruct (serve_hit p n w) as [[hit w2]|]; [|reflexivity]. cbn [type_ hit_ or_fault].
    unfold ret. cbv beta iota. by repeat (case_match; simplify_eq).
  - unfold encodeHeaders. rewrite !bind_assoc. apply bind_same. intros [] s1. rewrite !bind_assoc. apply bind_same.
    intros f s2. case_decide; [done|]. rewrite !bind_assoc. unfold publishHeaders. unfold bind at 1. rewrite call_cache_bind.
    unfold bind. destruct (call_cache (publishHeaders_locked _ _ _) s2) as [[[[ws hc]|] s3]|]; [|by destruct s3|done].
    cbn [fst snd]. rewrite (call_cache_posts (fun wp => wp)) by done. unfold ret. by destruct (finish _ s3) as [[[] s4]|].
  - unfold encodeData. rewrite !bind_assoc. apply bind_same. intros [] s1. rewrite !bind_assoc. apply bind_same.
    intros f s2. case_decide; [done|]. rewrite !bind_assoc. unfold publishData. unfold bind at 1. rewrite call_cache_bind.
    unfold bind. destruct (call_cache (publishData_locked _ _ _) s2) as [[[ws|] s3]|]; [|by destruct s3|done].
    rewrite (call_cache_posts (fun wp => wp)) by done. unfold ret. by destruct (finish _ s3) as [[[] s4]|].
  - unfold onDestroy. rewrite bind_assoc. apply bind_same. intros f s1. destruct (_ && _); [|done].
    rewrite bind_assoc. apply bind_same. intros wp s2. rewrite bind_assoc. apply bind_same. intros [] s3.
    unfold ret, bind. cbn [finish resume]. unfold bind. by destruct (call_cache _ s3) as [[[] s4]|].
Qed.
(** ** The proxy *)

Inductive stage := Fresh | Running | Destroyed.

(** A stream: its filter and what that has sent, the rest of the handler that
    is running, how far Envoy has come with the stream, the response that has
    passed through its encoding handlers, and whether the buffer of its hit
    has been released. *)
Record session := Session {
  se_filter : RingCacheFilter;
  se_sent : list (Sent H);
  se_rest : rest;
  se_stage : stage;
  se_from : view (H := H);
  se_released : bool
}.

(** [heard] records the calls on the callbacks of a waiter. *)
Record proxy := Proxy {
  cache_of : world H;
  sessions : list session;
  heard : gmap wptr (list (Encode H))
}.

Inductive event :=
| Open (cb : StreamDecoderFilterCallbacks)
| Call (n : nat) (c : handler)
| Resume (n : nat)
| Turn (d : dispatcher)
| Release (n : nat).

Definition heard_by (p : proxy) (wp : wptr) : list (Encode H) := default [] (heard p !! wp).

(** A filter whose decoder callbacks are set *)
Definition opened (cb : StreamDecoderFilterCallbacks) : RingCacheFilter :=
  Filter (Some cb) None "" false RoleUnset None.

Definition stream_of_session (p : proxy) (x : session) : stream H := Stream (se_filter x) (cache_of p) (se_sent x).

Definition buffer_of (l : list (Sent H)) : option BufferFragment :=
  match l with [_; SentBuffer f _] => Some f | _ => None end.

(** The buffer of a hit that is still in use *)
Definition held (x : session) : option BufferFragment :=
  if se_released x then None else buffer_of (se_sent x).

Definition idle (x : session) : bool := match se_rest x with Idle => true | _ => false end.

(** How Envoy calls a filter: one handler at a time, the request first, of a
    response first the headers and then data up to its end, and nothing after
    [onDestroy] *)
Definition may_call (c : handler) (x : session) : bool :=
  idle x &&
  match se_stage x, c with
  | Destroyed, _ => false
  | Fresh, OnRequest _ _ => true
  | Running, OnRequest _ _ => false
  | _, OnHeaders _ _ => match se_from x with NoHeaders => true | _ => false end
  | _, OnData _ _ => match se_from x with Streaming _ _ false => true | _ => false end
  | _, OnDestroy => true
  end.

Definition next_stage (c : handler) : stage := match c with OnDestroy => Destroyed | _ => Running end.

Definition next_from (c : handler) (v : view (H := H)) : view :=
  match c with
  | OnHeaders h e => view_call v (EncodeHeaders h e "")
  | OnData d e => view_call v (EncodeData d e)
  | _ => v
  end.

(** Runs a piece [m] of a handler of stream [n]. *)
Definition run_piece (n : nat) (x : session) (m : M (stream H) rest) (st : stage) (v : view) (p : proxy) : outcome proxy :=
  match m (stream_of_session p x) with
  | Done (r, s) =>
      Done (Proxy (cache_world s) (<[n := Session (filter s) (sent s) r st v (se_released x)]> (sessions p)) (heard p))
  | Faulted f => Faulted f
  end.

Definition happen (e : event) (p : proxy) : option (outcome proxy) :=
  match e with
  | Open cb =>
      if Z.of_nat (length (sessions p)) <? 2 ^ 32 - 1 then
        Some (Done (Proxy (cache_of p)
          (sessions p ++ [Session (opened cb) [] Idle Fresh NoHeaders false]) (heard p)))
      else None
  | Call n c =>
      match sessions p !! n with
      | Some x =>
          if may_call c x then Some (run_piece n x (start c) (next_stage c) (next_from c (se_from x)) p) else None
      | None => None
      end
  | Resume n =>
      match sessions p !! n with
      | Some x => if idle x then None else Some (run_piece n x (resume (se_rest x)) (se_stage x) (se_from x) p)
      | None => None
      end
  | Turn d =>
      match queues (cache_of p) !! d with
      | Some (t :: _) =>
          Some match run_dispatcher d (cache_of p) with
               | Done (r, w) =>
                   Done (Proxy w (sessions p)
                     match r with
                     | Some (_, cs) => <[task_waiter t := heard_by p (task_waiter t) ++ cs]> (heard p)
                     | None => heard p
                     end)
               | Faulted f => Faulted f
               end
      | _ => None
      end
  | Release n =>
      match sessions p !! n with
      | Some x =>
          match held x with
          | Some f =>
              Some match release_fragment f (cache_of p) with
                   | Done (_, w) =>
                       Done (Proxy w (<[n := Session (se_filter x) (se_sent x) (se_rest x) (se_stage x) (se_from x) true]>
                         (sessions p)) (heard p))
                   | Faulted f => Faulted f
                   end
          | None => None
          end
      | None => None
      end
  end.

Definition launched (capacity slot_count : Z) : proxy := Proxy (RingBufferCache capacity slot_count) [] ∅.

(** States that events lead to, in any order *)
Inductive happens : proxy -> proxy -> Prop :=
| happens_none p : happens p p
| happens_then p e p' p'' : happens p p' -> happen e p' = Some (Done p'') -> happens p p''.

Definition arises (capacity slot_count : Z) (p : proxy) : Prop := happens (launched capacity slot_count) p.
End Proxy.
