(* ===== verification/ProxyMirror.v ===== *)
(** The proxy of Proxy.v is an instance of the system of CacheSystem.v: every
    event is a step of that system or none, so what is proved of systems holds
    for the filters. *)
From S2P Require Import Prelude CacheTypes Ring Cache CacheProps CacheSpec CacheSystem CacheSystemRefs CacheSystemWaiters CacheSystemSteps CacheSystemLive Filter FilterProps Proxy.

Local Open Scope Z_scope.
Local Open Scope cpp_scope.

Section Mirror.
Context {H : Type} `{HeaderMapLaws H}.
Implicit Types (p : proxy (H := H)) (x : session (H := H)) (sys : system (H := H)) (n i : nat).

(** What a hit sends *)
Definition hit_sent (h : H) (o : option BufferFragment) : list (Sent H) :=
  match o with
  | Some f => [SentHeaders h false RingCacheDetailsMessageHit; SentBuffer f true]
  | None => [SentHeaders h true RingCacheDetailsMessageHit]
  end.

(** The session [x] is played by the actor. *)
Inductive agrees x : actor (H := H) -> Prop :=
| agrees_serving key q m :
    role_ (se_filter x) = RoleUnset -> filter_key_ (se_filter x) = key -> se_rest x = ToServe q m ->
    se_sent x = [] -> se_released x = false -> agrees x (Serving key q m)
| agrees_served key d :
    role_ (se_filter x) = RoleCached -> filter_key_ (se_filter x) = key -> se_rest x = Idle ->
    se_sent x = hit_sent (hit_headers_ d) (buffer_of (se_sent x)) -> hit_body_ d = held x -> agrees x (Served key d)
| agrees_leading l :
    role_ (se_filter x) = RoleLeader -> filter_key_ (se_filter x) = pub_key l -> se_rest x = post_rest (pub_todo l) ->
    se_sent x = [] -> published l = se_from x -> agrees x (Leading l)
| agrees_following key wp :
    role_ (se_filter x) = RoleFollower -> filter_key_ (se_filter x) = key -> se_rest x = Idle ->
    se_sent x = [] -> filter_waiter_ (se_filter x) = Some wp -> agrees x (Following key wp)
| agrees_cancelled key wp :
    role_ (se_filter x) = RoleFollower -> filter_key_ (se_filter x) = key -> se_rest x = ToRemove key wp ->
    se_sent x = [] -> se_stage x = Destroyed -> agrees x (Cancelled key wp)
| agrees_gone :
    role_ (se_filter x) = RoleFollower -> se_rest x = Idle -> se_sent x = [] -> se_stage x = Destroyed -> agrees x Gone.

(** The session [x] has not used the cache. *)
Record outside x : Prop := {
  ou_role : role_ (se_filter x) = RoleUnset;
  ou_rest : se_rest x = Idle;
  ou_sent : se_sent x = [];
  ou_released : se_released x = false;
  ou_fresh : se_stage x = Fresh -> se_from x = NoHeaders /\ exists cb, se_filter x = opened cb
}.

(** Actor [i] plays session [order !! i]. *)
Record mirrors (order : list nat) p sys : Prop := {
  mi_world : shared sys = cache_of p;
  mi_heard : calls sys = heard p;
  mi_nodup : NoDup order;
  mi_length : length order = length (actors sys);
  mi_few : Z.of_nat (length (sessions p)) < 2 ^ 32;
  mi_actor i n : order !! i = Some n ->
    exists x a, sessions p !! n = Some x /\ actors sys !! i = Some a /\ agrees x a /\ se_stage x <> Fresh;
  mi_outside n x : sessions p !! n = Some x -> n ∉ order -> outside x;
  mi_callbacks n x : sessions p !! n = Some x -> is_Some (decoder_callbacks_ (se_filter x))
}.

(** At most one step *)
Definition follows sys sys' : Prop := sys' = sys \/ exists l, sys_step sys l sys'.

(** ** Running a step *)

Lemma enabled_runs {A} l sys (m : M (world H) A) k :
  sys_ok sys -> sys_exec l sys = run m sys k ->
  exists a w, m (shared sys) = Done (a, w) /\ sys_step sys l (k a w).
Proof.
  intros Hok Hex. unfold run in Hex.
  destruct (exec_ok sys l Hok _ Hex) as (sys' & Heq & _). unfold sys_step. rewrite Hex.
  destruct (m (shared sys)) as [[a w]|]; [|done]. by exists a, w.
Qed.

(** ** Changing one session *)

Lemma mirrors_room order p sys n x :
  mirrors order p sys -> sessions p !! n = Some x -> n ∉ order -> (length order < length (sessions p))%nat.
Proof.
  intros Hm Hn Hout. assert (Hsub : n :: order ⊆+ seq 0 (length (sessions p))).
  { apply NoDup_submseteq; [constructor; [done|apply Hm]|]. intros m Hin. apply elem_of_seq.
    apply elem_of_cons in Hin as [->|[i Hi]%list_elem_of_lookup].
    - apply lookup_lt_Some in Hn. lia.
    - destruct (mi_actor _ _ _ Hm i m Hi) as (y & _ & Hy & _). apply lookup_lt_Some in Hy. lia. }
  apply submseteq_length in Hsub. rewrite length_seq in Hsub. cbn [length] in Hsub. lia.
Qed.

(** The session and its actor change, with the world. *)
Lemma mirrors_actor order p sys i n x x' a' w h calls' :
  mirrors order p sys -> order !! i = Some n -> sessions p !! n = Some x ->
  agrees x' a' -> se_stage x' <> Fresh -> decoder_callbacks_ (se_filter x') = decoder_callbacks_ (se_filter x) ->
  calls' = h ->
  mirrors order (Proxy w (<[n := x']> (sessions p)) h)
    (System w (<[i := a']> (actors sys)) (leaders sys) (source sys) calls').
Proof.
  intros Hm Hi Hn Ha Hs Hcb ->. pose proof (lookup_lt_Some _ _ _ Hn) as Hlt. split; cbn [cache_of sessions heard shared actors calls].
  - done.
  - done.
  - apply Hm.
  - rewrite length_insert. apply Hm.
  - rewrite length_insert. apply Hm.
  - intros j m Hj. destruct (mi_actor _ _ _ Hm j m Hj) as (y & b & Hy & Hb & Hag & Hst).
    pose proof (lookup_lt_Some _ _ _ Hb) as Hltj. destruct (decide (m = n)) as [->|Hne].
    + assert (j = i) as -> by (eapply NoDup_lookup; [apply Hm|done|done]).
      exists x', a'. by rewrite !list_lookup_insert_eq.
    + assert (i <> j) by (intros ->; congruence). exists y, b. by rewrite !list_lookup_insert_ne.
  - intros m y Hy Hout. apply list_lookup_insert_Some in Hy as [(-> & -> & _)|[_ Hy]]; [|by eapply mi_outside].
    destruct Hout. by eapply list_elem_of_lookup_2.
  - intros m y Hy. apply list_lookup_insert_Some in Hy as [(-> & -> & _)|[_ Hy]]; [|by eapply mi_callbacks].
    rewrite Hcb. by eapply mi_callbacks.
Qed.

(** The session changes, and the world does not. *)
Lemma mirrors_quiet order p sys n x x' :
  mirrors order p sys -> sessions p !! n = Some x ->
  (n ∉ order -> outside x -> outside x') -> (n ∈ order -> forall a, agrees x a -> agrees x' a) -> se_stage x' <> Fresh ->
  decoder_callbacks_ (se_filter x') = decoder_callbacks_ (se_filter x) ->
  mirrors order (Proxy (cache_of p) (<[n := x']> (sessions p)) (heard p)) sys.
Proof.
  intros Hm Hn Ho Ha Hs Hcb. pose proof (lookup_lt_Some _ _ _ Hn) as Hlt. split; cbn [cache_of sessions heard]; try apply Hm.
  - rewrite length_insert. apply Hm.
  - intros j m Hj. destruct (mi_actor _ _ _ Hm j m Hj) as (y & b & Hy & Hb & Hag & Hst).
    destruct (decide (m = n)) as [->|Hne].
    + simplify_eq. exists x', b. rewrite list_lookup_insert_eq by done. apply list_elem_of_lookup_2 in Hj. auto.
    + exists y, b. by rewrite list_lookup_insert_ne.
  - intros m y Hy Hout. apply list_lookup_insert_Some in Hy as [(-> & -> & _)|[_ Hy]]; [|by eapply mi_outside].
    apply Ho; [done|]. by eapply mi_outside.
  - intros m y Hy. apply list_lookup_insert_Some in Hy as [(-> & -> & _)|[_ Hy]]; [|by eapply mi_callbacks].
    rewrite Hcb. by eapply mi_callbacks.
Qed.

(** The session gets an actor. *)
Lemma mirrors_enter order p sys n x x' a w lds src :
  mirrors order p sys -> sessions p !! n = Some x -> n ∉ order ->
  agrees x' a -> se_stage x' <> Fresh -> decoder_callbacks_ (se_filter x') = decoder_callbacks_ (se_filter x) ->
  mirrors (order ++ [n]) (Proxy w (<[n := x']> (sessions p)) (heard p))
    (System w (actors sys ++ [a]) lds src (calls sys)).
Proof.
  intros Hm Hn Hout Ha Hs Hcb. pose proof (lookup_lt_Some _ _ _ Hn) as Hlt. split; cbn [cache_of sessions heard shared actors calls].
  - done.
  - apply Hm.
  - apply NoDup_app. split_and!; [apply Hm| |apply NoDup_singleton]. intros m Hm1 ->%list_elem_of_singleton. done.
  - rewrite !length_app. cbn [length]. f_equal. apply Hm.
  - rewrite length_insert. apply Hm.
  - intros j m Hj. apply lookup_snoc_Some in Hj as [[Hlj Hj]|[-> ->]].
    + destruct (mi_actor _ _ _ Hm j m Hj) as (y & b & Hy & Hb & Hag & Hst). exists y, b.
      assert (m <> n) by (intros ->; apply Hout; by eapply list_elem_of_lookup_2).
      rewrite list_lookup_insert_ne by done. by rewrite lookup_app_l by (by eapply lookup_lt_Some).
    + exists x', a. rewrite list_lookup_insert_eq by done. rewrite (mi_length _ _ _ Hm), list_lookup_middle by done. done.
  - intros m y Hy Hno. apply not_elem_of_app in Hno as [Hno Hnn]. apply list_lookup_insert_Some in Hy as [(-> & -> & _)|[_ Hy]].
    + destruct Hnn. by apply list_elem_of_singleton.
    + by eapply mi_outside.
  - intros m y Hy. apply list_lookup_insert_Some in Hy as [(-> & -> & _)|[_ Hy]]; [|by eapply mi_callbacks].
    rewrite Hcb. by eapply mi_callbacks.
Qed.

(** ** Calls that leave the cache alone *)

Lemma agrees_noted x a b st v :
  agrees x a -> role_ (se_filter x) <> RoleLeader -> se_rest x = Idle -> se_stage x <> Destroyed ->
  agrees (Session (set_done b (se_filter x)) (se_sent x) Idle st v (se_released x)) a.
Proof. intros Ha Hr Hi Hs. destruct Ha; try congruence; by constructor. Qed.

Lemma agrees_later x a st :
  agrees x a -> se_rest x = Idle -> se_stage x <> Destroyed ->
  agrees (Session (se_filter x) (se_sent x) Idle st (se_from x) (se_released x)) a.
Proof. intros Ha Hi Hs. destruct Ha; try congruence; constructor; cbn [se_filter se_rest]; first [done|congruence]. Qed.

Lemma outside_later x f st v :
  outside x -> role_ f = RoleUnset -> st <> Fresh ->
  outside (Session f (se_sent x) Idle st v (se_released x)).
Proof. intros [Hr Hi Hs Hrel _] Hf Hst. by split. Qed.

(** What the encoding handlers do on other streams than leaders *)
Lemma start_noted c (s : stream H) :
  role_ (filter s) <> RoleLeader ->
  match c with OnHeaders _ _ | OnData _ _ => True | _ => False end ->
  exists b, start c s = Done (Idle, Stream (set_done b (filter s)) (cache_world s) (sent s)).
Proof.
  intros Hr Hc. destruct s as [[d e k b r o] w l]. cbn [filter role_] in Hr. destruct c as [| | |]; try done; exists (end_stream || b);
    unfold start, when; destruct end_stream; unfold change_filter; mrun; cbn; by rewrite decide_True.
Qed.

(** The event is a step of the system or none, and the mirror holds again. *)
Definition mirrored sys (r : outcome (proxy (H := H))) : Prop :=
  exists p' order' sys', r = Done p' /\ follows sys sys' /\ mirrors order' p' sys'.

Lemma call_noted order p sys n x c :
  mirrors order p sys -> sessions p !! n = Some x -> may_call c x = true ->
  role_ (se_filter x) <> RoleLeader -> match c with OnHeaders _ _ | OnData _ _ => True | _ => False end ->
  mirrored sys (run_piece n x (start c) (next_stage c) (next_from c (se_from x)) p).
Proof.
  intros Hm Hn Hmay Hr Hc. unfold may_call in Hmay. apply andb_true_iff in Hmay as [Hidle Hmay].
  assert (Hi : se_rest x = Idle) by (unfold idle in Hidle; by destruct (se_rest x)).
  assert (Hst : se_stage x <> Destroyed) by (intros Hs; by rewrite Hs in Hmay).
  destruct (start_noted c (stream_of_session p x) Hr Hc) as [b Hrun]. unfold run_piece. rewrite Hrun.
  eexists _, order, sys. split; [reflexivity|]. split; [by left|]. cbn [filter sent cache_world stream_of_session].
  eapply mirrors_quiet; [exact Hm|exact Hn| | |by destruct c|done].
  - intros _ Ho. apply outside_later; [done|by destruct Ho|by destruct c].
  - intros _ a Ha. by apply agrees_noted.
Qed.

(** ** A request *)


Lemma fresh_outside order p sys n x :
  mirrors order p sys -> sessions p !! n = Some x -> se_stage x = Fresh -> (n ∉ order) /\ outside x.
Proof.
  intros Hm Hn Hs. assert (Hout : n ∉ order).
  { intros [i Hi]%list_elem_of_lookup. destruct (mi_actor _ _ _ Hm i n Hi) as (y & a & Hy & _ & _ & Hf). by simplify_eq. }
  split; [done|]. by eapply mi_outside.
Qed.

Lemma call_request order p sys n x host path :
  sys_ok sys -> mirrors order p sys -> sessions p !! n = Some x -> se_stage x = Fresh ->
  mirrored sys (run_piece n x (start (OnRequest host path)) Running (se_from x) p).
Proof.
  intros Hok Hm Hn Hs. destruct (fresh_outside _ _ _ _ _ Hm Hn Hs) as [Hout Ho].
  pose proof Ho as [_ Hi Hl Hrel Hf]. destruct (Hf Hs) as (Hfrom & cb & Hcb).
  unfold run_piece, start, stream_of_session. rewrite Hcb, Hl.
  destruct (is_empty host || is_empty path) eqn:Hkey.
  { unfold buildKey. rewrite Hkey. unfold bind, ret. cbn [negb filter sent cache_world].
    eexists _, order, sys. split; [reflexivity|]. split; [by left|].
    eapply mirrors_quiet; [exact Hm|exact Hn| | |done|by rewrite Hcb].
    - intros _ _. by split.
    - done. }
  apply orb_false_iff in Hkey as [Hh Hp].
  set (s1 := Stream (opened cb) (cache_of p) []). set (k := cache_key host path).
  erewrite bind_Done by (by apply (buildKey_eq host path s1)). cbn [negb]. rewrite bind_gets.
  cbn [set_key filter s1 opened filter_key_ decoder_callbacks_ cache_world sent].
  assert (Hroom : (Z.of_nat (length (actors sys)) <? 2 ^ 32 - 1) = true).
  { apply Z.ltb_lt. pose proof (mirrors_room _ _ _ _ _ Hm Hn Hout). pose proof (mi_few _ _ _ Hm).
    rewrite <- (mi_length _ _ _ Hm). lia. }
  eassert (Hex : sys_exec (DoLookup k cb) sys = run (lookup_locked k (Some cb)) sys _).
  { unfold sys_exec, step_lookup. rewrite Hroom. reflexivity. }
  destruct (enabled_runs _ _ _ _ Hok Hex) as (r & w & Hrun & Hstep).
  rewrite (mi_world _ _ _ Hm) in Hrun. unfold bind, call_cache. cbn [cache_world]. fold k. rewrite Hrun.
  destruct r as [q m| |wp];
    (eexists _, (order ++ [n]), _; split; [reflexivity|]; split; [right; by eexists|];
     eapply mirrors_enter; [exact Hm|exact Hn|exact Hout|by constructor|done|by rewrite Hcb]).
Qed.

(** ** Publishing *)

Lemma post_rest_idle ts : Idle = post_rest (H := H) ts -> ts = [].
Proof. by destruct ts. Qed.

(** The actor of an idle stream that leads *)
Lemma leading_actor order p sys n x :
  sys_ok sys -> mirrors order p sys -> sessions p !! n = Some x -> role_ (se_filter x) = RoleLeader -> se_rest x = Idle ->
  exists i l, order !! i = Some n /\ actors sys !! i = Some (Leading l) /\ filter_key_ (se_filter x) = pub_key l /\
    pub_todo l = [] /\ published l = se_from x /\ se_sent x = [] /\
    (pub_headers l = None -> pub_body l = "" /\ pub_ended l = false).
Proof.
  intros Hok Hm Hn Hr Hi. destruct (decide (n ∈ order)) as [Hin|Hout].
  2: { destruct (mi_outside _ _ _ Hm n x Hn Hout). congruence. }
  apply list_elem_of_lookup in Hin as [i Hoi]. destruct (mi_actor _ _ _ Hm i n Hoi) as (y & a & Hy & Ha & Hag & _).
  simplify_eq. destruct Hag as [| |l _ Hk Hrest Hsent Hpub| | |]; try congruence.
  rewrite Hi in Hrest. apply post_rest_idle in Hrest. exists i, l. split_and!; [done..|]. intros Hno.
  pose proof (leading_Leading _ _ _ Ha) as Hl. split; [by eapply (ld_start _ _ _ (so_leaders _ Hok))|].
  destruct (pub_ended l) eqn:He; [|done]. destruct (ld_ended _ _ _ (so_leaders _ Hok) _ _ Hl He). congruence.
Qed.

Lemma call_headers order p sys n x h e :
  sys_ok sys -> mirrors order p sys -> sessions p !! n = Some x -> role_ (se_filter x) = RoleLeader -> se_rest x = Idle ->
  se_from x = NoHeaders ->
  mirrored sys (run_piece n x (start (OnHeaders h e)) Running (next_from (OnHeaders h e) (se_from x)) p).
Proof.
  intros Hok Hm Hn Hr Hi Hfrom.
  destruct (leading_actor _ _ _ _ _ Hok Hm Hn Hr Hi) as (i & l & Hoi & Ha & Hk & Ht & Hpub & Hsent & Hno).
  rewrite Hfrom in *. destruct l as [key ho body ended todo]. cbn [pub_key pub_todo pub_headers pub_body pub_ended] in *.
  unfold published in Hpub. cbn [pub_headers pub_body pub_ended] in Hpub. destruct ho; [done|]. destruct Hno as [-> ->]; [done|]. subst todo key.
  eassert (Hex : sys_exec (DoHeaders i h e) sys = run (publishHeaders_locked (filter_key_ (se_filter x)) h e) sys _).
  { unfold sys_exec. rewrite Ha. reflexivity. }
  destruct (enabled_runs _ _ _ _ Hok Hex) as (r & w & Hrun & Hstep). rewrite (mi_world _ _ _ Hm) in Hrun.
  assert (Hstart : start (OnHeaders h e) (stream_of_session p x) = Done
    (match r with Some (ws, hc) => post_rest (map (fun wp => PostHeaders wp (createHeaderMap hc) e) ws) | None => Idle end,
     Stream (if e then set_done true (se_filter x) else se_filter x) w (se_sent x))).
  { unfold start, stream_of_session, when. destruct e; unfold change_filter; mrun; cbn [filter];
      (rewrite decide_False by (cbn; rewrite Hr; tauto)); unfold bind, call_cache; cbn [filter cache_world sent set_done filter_key_];
      by rewrite Hrun. }
  unfold run_piece. rewrite Hstart. eexists _, order, _. split; [reflexivity|]. split; [right; by eexists|].
  unfold set_actor. eapply mirrors_actor; [exact Hm|exact Hoi|exact Hn| |done|by destruct e|by apply (mi_heard _ _ _ Hm)].
  constructor; cbn [se_filter se_rest se_from se_sent filter sent]; [by destruct e|by destruct e| |done|done].
  by destruct r as [[ws hc]|].
Qed.

Lemma call_data order p sys n x h b d e :
  sys_ok sys -> mirrors order p sys -> sessions p !! n = Some x -> role_ (se_filter x) = RoleLeader -> se_rest x = Idle ->
  se_from x = Streaming h b false ->
  mirrored sys (run_piece n x (start (OnData d e)) Running (next_from (OnData d e) (se_from x)) p).
Proof.
  intros Hok Hm Hn Hr Hi Hfrom.
  destruct (leading_actor _ _ _ _ _ Hok Hm Hn Hr Hi) as (i & l & Hoi & Ha & Hk & Ht & Hpub & Hsent & _).
  rewrite Hfrom in *. destruct l as [key ho body ended todo]. cbn [pub_key pub_todo] in *.
  unfold published in Hpub. cbn [pub_headers pub_body pub_ended] in Hpub. destruct ho as [h0|]; [|done].
  injection Hpub as -> -> ->. subst todo key.
  eassert (Hex : sys_exec (DoData i d e) sys = run (publishData_locked (filter_key_ (se_filter x)) d e) sys _).
  { unfold sys_exec. rewrite Ha. reflexivity. }
  destruct (enabled_runs _ _ _ _ Hok Hex) as (r & w & Hrun & Hstep). rewrite (mi_world _ _ _ Hm) in Hrun.
  assert (Hstart : start (OnData d e) (stream_of_session p x) = Done
    (match r with Some ws => post_rest (map (fun wp => PostData wp d e) ws) | None => Idle end,
     Stream (if e then set_done true (se_filter x) else se_filter x) w (se_sent x))).
  { unfold start, stream_of_session, when. destruct e; unfold change_filter; mrun; cbn [filter];
      (rewrite decide_False by (cbn; rewrite Hr; tauto)); unfold bind, call_cache; cbn [filter cache_world sent set_done filter_key_];
      by rewrite Hrun. }
  unfold run_piece. rewrite Hstart. eexists _, order, _. split; [reflexivity|]. split; [right; by eexists|].
  unfold set_actor. eapply mirrors_actor; [exact Hm|exact Hoi|exact Hn| |done|by destruct e|by apply (mi_heard _ _ _ Hm)].
  constructor; cbn [se_filter se_rest se_from se_sent filter sent]; [by destruct e|by destruct e| |done|done].
  by destruct r as [ws|].
Qed.

(** ** Leaving *)

Lemma call_destroy order p sys n x :
  sys_ok sys -> mirrors order p sys -> sessions p !! n = Some x -> se_rest x = Idle -> se_stage x <> Destroyed ->
  mirrored sys (run_piece n x (start OnDestroy) Destroyed (se_from x) p).
Proof.
  intros Hok Hm Hn Hi Hs. unfold run_piece, start, stream_of_session. rewrite bind_gets. cbn [filter].
  destruct (bool_decide (role_ (se_filter x) = RoleFollower) && negb (done_ (se_filter x))) eqn:Hleave.
  - apply andb_true_iff in Hleave as [Hr%bool_decide_eq_true _]. destruct (decide (n ∈ order)) as [Hin|Hout].
    2: { destruct (mi_outside _ _ _ Hm n x Hn Hout). congruence. }
    apply list_elem_of_lookup in Hin as [i Hoi]. destruct (mi_actor _ _ _ Hm i n Hoi) as (y & a & Hy & Ha & Hag & _).
    simplify_eq. destruct Hag as [| | |key wp _ Hk _ Hsent Hw| |]; try congruence.
    eassert (Hex : sys_exec (DoCancel i) sys = run (cancel_waiter wp) sys _).
    { unfold sys_exec. rewrite Ha. reflexivity. }
    destruct (enabled_runs _ _ _ _ Hok Hex) as ([] & w & Hrun & Hstep). rewrite (mi_world _ _ _ Hm) in Hrun.
    rewrite Hw. cbn [or_fault]. unfold bind, ret, call_cache. cbn [cache_world filter sent]. rewrite Hrun.
    eexists _, order, _. split; [reflexivity|]. split; [right; by eexists|].
    unfold set_actor. eapply mirrors_actor; [exact Hm|exact Hoi|exact Hn| |done|done|by apply (mi_heard _ _ _ Hm)].
    rewrite Hk. by constructor.
  - eexists _, order, sys. split; [reflexivity|]. split; [by left|].
    eapply mirrors_quiet; [exact Hm|exact Hn| | |done|done].
    + intros _ Ho. apply outside_later; [done|by destruct Ho|done].
    + intros _ a Ha. by apply agrees_later.
Qed.

(** Every call that Envoy may make *)
Lemma call_mirrored order p sys n x c :
  sys_ok sys -> mirrors order p sys -> sessions p !! n = Some x -> may_call c x = true ->
  mirrored sys (run_piece n x (start c) (next_stage c) (next_from c (se_from x)) p).
Proof.
  intros Hok Hm Hn Hmay. pose proof Hmay as Hmay'. unfold may_call in Hmay'. apply andb_true_iff in Hmay' as [Hidle Hst].
  assert (Hi : se_rest x = Idle) by (unfold idle in Hidle; by destruct (se_rest x)).
  destruct (decide (role_ (se_filter x) = RoleLeader)) as [Hr|Hr]; destruct c as [host path|h e|d e|].
  - eapply call_request; [done|exact Hm|done..|]. by destruct (se_stage x).
  - eapply call_headers; [done|exact Hm|done..|]. by destruct (se_stage x), (se_from x).
  - destruct (se_from x) as [|h b []|] eqn:Hfrom; rewrite <- Hfrom; try (by destruct (se_stage x)). by eapply call_data.
  - eapply call_destroy; [done|exact Hm|done..|]. by destruct (se_stage x).
  - eapply call_request; [done|exact Hm|done..|]. by destruct (se_stage x).
  - by eapply call_noted.
  - by eapply call_noted.
  - eapply call_destroy; [done|exact Hm|done..|]. by destruct (se_stage x).
Qed.

(** ** The pieces after the mutex *)

(** The actor of a stream with a handler under way *)
Lemma busy_actor order p sys n x :
  mirrors order p sys -> sessions p !! n = Some x -> se_rest x <> Idle ->
  exists i a, order !! i = Some n /\ actors sys !! i = Some a /\ agrees x a /\ se_stage x <> Fresh.
Proof.
  intros Hm Hn Hi. destruct (decide (n ∈ order)) as [Hin|Hout].
  2: { destruct (mi_outside _ _ _ Hm n x Hn Hout). congruence. }
  apply list_elem_of_lookup in Hin as [i Hoi]. destruct (mi_actor _ _ _ Hm i n Hoi) as (y & a & Hy & Ha & Hag & Hs).
  simplify_eq. by exists i, a.
Qed.

(** Serving sends the headers and the body of the entry. *)
Lemma serve_runs order p sys n x q m :
  sys_ok sys -> mirrors order p sys -> sessions p !! n = Some x -> se_rest x = ToServe q m ->
  exists i e h d w, order !! i = Some n /\ se_stage x <> Fresh /\ se_released x = false /\
    actors sys !! i = Some (Serving (filter_key_ (se_filter x)) q (str_size (body_ e))) /\
    entries (shared sys) !! q = Some e /\ key_ e = filter_key_ (se_filter x) /\ headers_ e = Some h /\
    m = str_size (body_ e) /\ hit_headers_ d = h /\
    hit_body_ d = (if decide (body_ e = "") then None else Some {| fragment_entry := q; fragment_length := str_size (body_ e) |}) /\
    sys_step sys (DoServe i) (set_actor i (Served (filter_key_ (se_filter x)) d) sys w) /\
    resume (ToServe q m) (stream_of_session p x) =
      Done (Idle, Stream (set_done true (set_role RoleCached (se_filter x))) w (hit_sent h (hit_body_ d))).
Proof.
  intros Hok Hm Hn Hrest. destruct (busy_actor _ _ _ _ _ Hm Hn) as (i & a & Hoi & Ha & Hag & Hs); [congruence|].
  destruct Hag as [key q' m' Hr Hk Hrest' Hsent Hrel|?????|l ?? Hp ??|?????|?? Hp|]; try congruence;
    [|rewrite Hrest in Hp; by destruct (pub_todo l)].
  rewrite Hrest in Hrest'. injection Hrest' as <- <-.
  destruct (rf_serving _ _ (so_refs _ Hok) _ _ _ _ Ha) as (e & h & He & Hke & -> & Hh).
  pose proof (serve_hit_eq (shared sys) q e h He Hh) as Hserve. rewrite createHeaderMap_copy in Hserve.
  eassert (Hex : sys_exec (DoServe i) sys = run (serve_hit q (str_size (body_ e))) sys _).
  { unfold sys_exec. rewrite Ha. reflexivity. }
  destruct (enabled_runs _ _ _ _ Hok Hex) as (d & w & Hrun & Hstep).
  destruct (mi_callbacks _ _ _ Hm n x Hn) as [cb Hcb]. rewrite (mi_world _ _ _ Hm) in *. rewrite Hrun in Hserve.
  assert (Hd : hit_headers_ d = h /\ hit_body_ d =
    (if decide (body_ e = "") then None else Some {| fragment_entry := q; fragment_length := str_size (body_ e) |})).
  { destruct (decide (body_ e = "")); by injection Hserve as ->. }
  destruct Hd as [Hdh Hdb]. exists i, e, h, d, w. subst key. split_and!; try done.
  unfold resume, stream_of_session. rewrite Hsent. unfold bind at 1, call_cache. cbn [cache_world filter sent]. rewrite Hrun, Hdb, Hdh.
  unfold change_filter, send. destruct (decide (body_ e = "")) as [Hb|Hb]; mrun; cbn [buffer_length fragment_length filter set_role decoder_callbacks_];
    [|rewrite (proj2 (Z.ltb_lt _ _) (str_size_pos _ Hb))]; mrun; cbn; [done|]. unfold bind, ret, gets, or_fault. cbn. by rewrite Hcb.
Qed.

Lemma serve_mirrored order p sys n x q m :
  sys_ok sys -> mirrors order p sys -> sessions p !! n = Some x -> se_rest x = ToServe q m ->
  mirrored sys (run_piece n x (resume (ToServe q m)) (se_stage x) (se_from x) p).
Proof.
  intros Hok Hm Hn Hrest.
  destruct (serve_runs _ _ _ _ _ _ _ Hok Hm Hn Hrest) as (i & e & h & d & w & Hoi & Hs & Hrel & Ha & _ & _ & _ & _ & Hh & _ & Hstep & Hres).
  unfold run_piece. rewrite Hres. eexists _, order, _. split; [reflexivity|]. split; [right; by eexists|].
  unfold set_actor. eapply mirrors_actor; [exact Hm|exact Hoi|exact Hn| |done|done|by apply (mi_heard _ _ _ Hm)].
  assert (Hbuf : forall o, buffer_of (hit_sent h o) = o) by (by intros [f|]).
  constructor; unfold held; cbn [se_filter se_rest se_sent se_released filter sent]; rewrite ?Hbuf, ?Hrel, ?Hh; done.
Qed.

Lemma post_mirrored order p sys n x t ts :
  sys_ok sys -> mirrors order p sys -> sessions p !! n = Some x -> se_rest x = ToPost (t :: ts) ->
  mirrored sys (run_piece n x (resume (ToPost (t :: ts))) (se_stage x) (se_from x) p).
Proof.
  intros Hok Hm Hn Hrest. destruct (busy_actor _ _ _ _ _ Hm Hn) as (i & a & Hoi & Ha & Hag & Hs); [congruence|].
  destruct Hag as [?????|?????|[key h b e todo] Hr Hk Hp Hsent Hpub|?????|?? Hp|]; try congruence.
  rewrite Hrest in Hp. cbn [pub_todo pub_key] in *. destruct todo as [|t' todo]; [done|]. injection Hp as <- <-.
  eassert (Hex : sys_exec (DoPost i) sys = run (post_to (task_waiter t) t) sys _).
  { unfold sys_exec. rewrite Ha. reflexivity. }
  destruct (enabled_runs _ _ _ _ Hok Hex) as ([] & w & Hrun & Hstep). rewrite (mi_world _ _ _ Hm) in Hrun.
  unfold run_piece, resume, stream_of_session, bind, call_cache. cbn [cache_world filter sent]. rewrite Hrun. unfold ret.
  eexists _, order, _. split; [reflexivity|]. split; [right; by eexists|].
  unfold set_actor. eapply mirrors_actor; [exact Hm|exact Hoi|exact Hn| |done|done|by apply (mi_heard _ _ _ Hm)].
  by constructor.
Qed.

Lemma remove_mirrored order p sys n x key wp :
  sys_ok sys -> mirrors order p sys -> sessions p !! n = Some x -> se_rest x = ToRemove key wp ->
  mirrored sys (run_piece n x (resume (ToRemove key wp)) (se_stage x) (se_from x) p).
Proof.
  intros Hok Hm Hn Hrest. destruct (busy_actor _ _ _ _ _ Hm Hn) as (i & a & Hoi & Ha & Hag & Hs); [congruence|].
  destruct Hag as [?????|?????|l ?? Hp ??|?????|key' wp' Hr Hk Hp Hsent Hst|]; try congruence.
  { rewrite Hrest in Hp. by destruct (pub_todo l). }
  rewrite Hrest in Hp. injection Hp as <- <-.
  eassert (Hex : sys_exec (DoRemove i) sys = run (removeWaiter key wp) sys _).
  { unfold sys_exec. rewrite Ha. reflexivity. }
  destruct (enabled_runs _ _ _ _ Hok Hex) as ([] & w & Hrun & Hstep). rewrite (mi_world _ _ _ Hm) in Hrun.
  unfold run_piece, resume, stream_of_session, bind, call_cache. cbn [cache_world filter sent]. rewrite Hrun. unfold ret.
  eexists _, order, _. split; [reflexivity|]. split; [right; by eexists|].
  unfold set_actor. eapply mirrors_actor; [exact Hm|exact Hoi|exact Hn| |done|done|by apply (mi_heard _ _ _ Hm)].
  by constructor.
Qed.

Lemma resume_mirrored order p sys n x :
  sys_ok sys -> mirrors order p sys -> sessions p !! n = Some x -> idle x = false ->
  mirrored sys (run_piece n x (resume (se_rest x)) (se_stage x) (se_from x) p).
Proof.
  intros Hok Hm Hn Hi. unfold idle in Hi. destruct (se_rest x) as [|q m|[|t ts]|key wp] eqn:Hrest; [done| | | |].
  - by eapply serve_mirrored.
  - destruct (busy_actor _ _ _ _ _ Hm Hn) as (i & a & _ & _ & Hag & _); [congruence|].
    destruct Hag as [?????|?????|l ?? Hp ??|?????|?? Hp|]; try congruence. rewrite Hrest in *. by destruct (pub_todo l).
  - by eapply post_mirrored.
  - by eapply remove_mirrored.
Qed.

(** ** Event loops, buffers, and new streams *)

Lemma turn_mirrored order p sys d t ts :
  sys_ok sys -> mirrors order p sys -> queues (cache_of p) !! d = Some (t :: ts) ->
  forall r, happen (Turn d) p = Some r -> mirrored sys r.
Proof.
  intros Hok Hm Hq r Hr. unfold happen in Hr. rewrite Hq in Hr. injection Hr as <-.
  eassert (Hex : sys_exec (DoDispatch d) sys = run (run_dispatcher d) sys _).
  { unfold sys_exec. rewrite (mi_world _ _ _ Hm), Hq. reflexivity. }
  destruct (enabled_runs _ _ _ _ Hok Hex) as (a & w & Hrun & Hstep). rewrite (mi_world _ _ _ Hm) in Hrun. rewrite Hrun.
  eexists _, order, _. split; [reflexivity|]. split; [right; by eexists|].
  destruct Hm. split; try done. cbn [calls heard]. unfold calls_of, heard_by. by rewrite mi_heard0.
Qed.

Lemma release_mirrored order p sys n x f :
  sys_ok sys -> mirrors order p sys -> sessions p !! n = Some x -> held x = Some f ->
  forall r, happen (Release n) p = Some r -> mirrored sys r.
Proof.
  intros Hok Hm Hn Hf r Hr. unfold happen in Hr. rewrite Hn, Hf in Hr. injection Hr as <-.
  assert (Hsent : se_sent x <> []) by (unfold held in Hf; destruct (se_sent x); [by destruct (se_released x)|done]).
  destruct (decide (n ∈ order)) as [Hin|Hout].
  2: { by destruct (mi_outside _ _ _ Hm n x Hn Hout). }
  apply list_elem_of_lookup in Hin as [i Hoi]. destruct (mi_actor _ _ _ Hm i n Hoi) as (y & a & Hy & Ha & Hag & Hs).
  simplify_eq. destruct Hag as [|key d Hr Hk Hi Hsent' Hd| | | |]; try congruence. rewrite Hf in Hd.
  eassert (Hex : sys_exec (DoRelease i) sys = run (release_fragment f) sys _).
  { unfold sys_exec. rewrite Ha, Hd. reflexivity. }
  destruct (enabled_runs _ _ _ _ Hok Hex) as ([] & w & Hrun & Hstep). rewrite (mi_world _ _ _ Hm) in Hrun. rewrite Hrun.
  eexists _, order, _. split; [reflexivity|]. split; [right; by eexists|].
  unfold set_actor. eapply mirrors_actor; [exact Hm|exact Hoi|exact Hn| |done|done|by apply (mi_heard _ _ _ Hm)].
  by constructor.
Qed.

Lemma open_mirrored order p sys cb :
  mirrors order p sys -> forall r, happen (Open cb) p = Some r -> mirrored sys r.
Proof.
  intros Hm r Hr. unfold happen in Hr. destruct (Z.ltb_spec (Z.of_nat (length (sessions p))) (2 ^ 32 - 1)); [|done].
  injection Hr as <-. eexists _, order, sys. split; [reflexivity|]. split; [by left|].
  split; cbn [cache_of sessions heard]; try apply Hm.
  - rewrite length_app. cbn [length]. lia.
  - intros i n Hi. destruct (mi_actor _ _ _ Hm i n Hi) as (x & a & Hx & ?). exists x, a.
    by rewrite lookup_app_l by (by eapply lookup_lt_Some).
  - intros n x Hn Hout. apply lookup_snoc_Some in Hn as [[_ Hn]|[_ <-]]; [by eapply mi_outside|].
    split; try done. intros _. split; [done|]. by eexists.
  - intros n x Hn. apply lookup_snoc_Some in Hn as [[_ Hn]|[_ <-]]; [by eapply mi_callbacks|]. by eexists.
Qed.

(** Every event is mirrored by at most one step, and completes. *)
Lemma event_mirrored order p sys e r :
  sys_ok sys -> mirrors order p sys -> happen e p = Some r -> mirrored sys r.
Proof.
  intros Hok Hm Hr. destruct e as [cb|n c|n|d|n].
  - by eapply open_mirrored.
  - unfold happen in Hr. destruct (sessions p !! n) as [x|] eqn:Hn; [|done]. destruct (may_call c x) eqn:Hmay; [|done].
    injection Hr as <-. by eapply call_mirrored.
  - unfold happen in Hr. destruct (sessions p !! n) as [x|] eqn:Hn; [|done]. destruct (idle x) eqn:Hi; [done|].
    injection Hr as <-. by eapply resume_mirrored.
  - destruct (queues (cache_of p) !! d) as [[|t ts]|] eqn:Hq; [|by eapply turn_mirrored|]; unfold happen in Hr; by rewrite Hq in Hr.
  - destruct (sessions p !! n) as [x|] eqn:Hn; [|unfold happen in Hr; by rewrite Hn in Hr].
    destruct (held x) as [f|] eqn:Hf; [by eapply release_mirrored|]. unfold happen in Hr. by rewrite Hn, Hf in Hr.
Qed.

Lemma launched_mirrors capacity slot_count : mirrors [] (launched capacity slot_count) (initial capacity slot_count).
Proof. split; try done; cbn; [constructor|intros; by simplify_list_eq..]. Qed.

(** Every state of the proxy is mirrored by a reachable state of the system. *)
Lemma arises_mirrored capacity slot_count p :
  0 < capacity < 2 ^ 64 -> 0 < slot_count < 2 ^ 64 -> arises capacity slot_count p ->
  exists order sys, reachable capacity slot_count sys /\ sys_ok sys /\ mirrors order p sys.
Proof.
  intros Hc Hs. unfold arises. remember (launched capacity slot_count) as p0 eqn:Hp0. induction 1 as [|p1 e p2 p3 _ IH He]; subst.
  - exists [], (initial capacity slot_count). split_and!; [constructor|by apply initial_ok|apply launched_mirrors].
  - destruct (IH eq_refl) as (order & sys & Hr & Hok & Hm).
    destruct (event_mirrored _ _ _ _ _ Hok Hm He) as (p' & order' & sys' & Heq & Hf & Hm'). injection Heq as <-.
    exists order', sys'. destruct Hf as [->|[l Hl]]; [done|].
    assert (Hr' : reachable capacity slot_count sys') by (by eapply reach_step). split; [done|]. split; [|done].
    by eapply (reachable_ok capacity slot_count).
Qed.
End Mirror.
