(* ===== verification/ProxyLasting.v ===== *)
(** Runs of the proxy: whole handlers as runs of events, and what no event
    changes: of a stream that uses the cache, and of a follower that has left. *)
From S2P Require Import Prelude CacheTypes Ring Cache CacheProps CacheSpec CacheSystem CacheSystemRefs CacheSystemWaiters CacheSystemSteps CacheSystemLive CacheLasting Filter FilterProps Proxy ProxyMirror.

Local Open Scope Z_scope.
Local Open Scope cpp_scope.

Section Runs.
Context {H : Type} `{HeaderMapLaws H}.
Implicit Types (p : proxy (H := H)) (x : session (H := H)) (sys : system (H := H)) (n : nat) (s : stream H).

Fixpoint replay (es : list event) p : option (proxy (H := H)) :=
  match es with
  | [] => Some p
  | e :: es => match happen e p with Some (Done p') => replay es p' | _ => None end
  end.

Lemma happens_trans p1 p2 p3 : happens p1 p2 -> happens p2 p3 -> happens p1 p3.
Proof.
  intros Ha Hb. revert Ha. induction Hb as [|p2 e p p' _ IH He]; intros Ha; [done|].
  eapply happens_then; [by apply IH|exact He].
Qed.

Lemma replay_happens es p p' : replay es p = Some p' -> happens p p'.
Proof.
  revert p. induction es as [|e es IH]; intros p; cbn [replay]; [intros [= ->]; constructor|].
  destruct (happen e p) as [[p1|]|] eqn:He; try done. intros Hr%IH.
  eapply happens_trans; [|exact Hr]. eapply happens_then; [constructor|exact He].
Qed.

(** ** Handlers to their ends *)

Definition rest_size (r : rest (H := H)) : nat :=
  match r with Idle => 0 | ToPost ts => S (length ts) | _ => 1 end.

Lemma finish_resume r s : finish r s = bind (resume r) finish s.
Proof.
  destruct r as [|q m|[|t ts]|key wp]; try done; cbn [finish resume for_each].
  - rewrite !bind_assoc. apply bind_same. intros hit s1. rewrite !bind_assoc. apply bind_same. intros [] s2.
    rewrite !bind_assoc. apply bind_same. intros [] s3. rewrite !bind_assoc. apply bind_same. intros [] s4.
    rewrite !bind_assoc. by apply bind_same.
  - rewrite bind_assoc. apply bind_same. intros [] s1. rewrite bind_ret. by rewrite finish_post_rest.
  - rewrite !bind_assoc. by apply bind_same.
Qed.

Lemma resume_smaller r s r' s' : resume r s = Done (r', s') -> r <> Idle -> (rest_size r' < rest_size r)%nat.
Proof.
  destruct r as [|q m|[|t ts]|key wp]; intros Hr Hi; [done| | | |].
  - assert (r' = Idle) as ->; [|cbn; lia]. unfold resume, bind, ret in Hr. by repeat case_match; simplify_eq.
  - injection Hr as <- _. cbn. lia.
  - cbn [resume] in Hr. unfold bind, ret in Hr. repeat case_match; simplify_eq. destruct ts; cbn; lia.
  - cbn [resume] in Hr. unfold bind, ret in Hr. repeat case_match; simplify_eq. cbn. lia.
Qed.

Variables capacity slot_count : Z.
Hypothesis Hcapacity : 0 < capacity < 2 ^ 64.
Hypothesis Hslots : 0 < slot_count < 2 ^ 64.
#[local] Abbreviation arises := (arises capacity slot_count).

Lemma event_completes p e r :
  arises p -> happen e p = Some r -> exists p', r = Done p' /\ arises p'.
Proof.
  intros Hp Hr. destruct (arises_mirrored _ _ _ Hcapacity Hslots Hp) as (order & sys & _ & Hok & Hm).
  destruct (event_mirrored _ _ _ _ _ Hok Hm Hr) as (p' & _ & _ & -> & _). exists p'. split; [done|]. by eapply happens_then.
Qed.

Lemma run_piece_done n x m st v p p' :
  run_piece n x m st v p = Done p' ->
  exists r s, m (stream_of_session p x) = Done (r, s) /\
    p' = Proxy (cache_world s) (<[n := Session (filter s) (sent s) r st v (se_released x)]> (sessions p)) (heard p).
Proof. unfold run_piece. destruct (m _) as [[r s]|]; [|done]. intros [= <-]. by exists r, s. Qed.

(** What is left of a handler runs to its end. *)
Lemma finish_runs k p n x :
  arises p -> sessions p !! n = Some x -> (rest_size (se_rest x) <= k)%nat ->
  exists j p' x', finish (se_rest x) (stream_of_session p x) = Done (tt, stream_of_session p' x') /\
    replay (replicate j (Resume n)) p = Some p' /\ sessions p' !! n = Some x' /\ se_rest x' = Idle.
Proof.
  revert p x. induction k as [|k IH]; intros p x Hp Hn Hk; destruct (se_rest x) as [|q m|ts|key wp] eqn:Hrest;
    try (cbn in Hk; lia); try (exists 0%nat, p, x; by rewrite Hrest).
  all: assert (Hhap : happen (Resume n) p = Some (run_piece n x (resume (se_rest x)) (se_stage x) (se_from x) p))
         by (unfold happen, idle; by rewrite Hn, Hrest).
  all: destruct (event_completes p _ _ Hp Hhap) as (p1 & Hp1 & Har1); destruct (run_piece_done _ _ _ _ _ _ _ Hp1) as (r & s & Hrun & Heq).
  all: pose proof (resume_smaller _ _ _ _ Hrun ltac:(congruence)) as Hsmall; rewrite Hrest in *.
  all: destruct (IH p1 (Session (filter s) (sent s) r (se_stage x) (se_from x) (se_released x)) Har1) as (j & p' & x' & Hfin & Hplay & Hx' & Hi);
    [subst p1; apply list_lookup_insert_eq; by eapply lookup_lt_Some|cbn [se_rest] in *; lia|].
  all: exists (S j), p', x'; split; [|by cbn [replicate replay]; rewrite Hhap, Hp1].
  all: rewrite finish_resume; erewrite bind_Done by exact Hrun; cbn [se_rest] in Hfin; rewrite <- Hfin; subst p1; by destruct s.
Qed.

(** A handler that Envoy calls runs to its end. *)
Lemma handler_runs p n x c :
  arises p -> sessions p !! n = Some x -> may_call c x = true ->
  exists j p' x', whole c (stream_of_session p x) = Done (tt, stream_of_session p' x') /\
    replay (Call n c :: replicate j (Resume n)) p = Some p' /\ sessions p' !! n = Some x' /\ se_rest x' = Idle.
Proof.
  intros Hp Hn Hmay.
  assert (Hhap : happen (Call n c) p = Some (run_piece n x (start c) (next_stage c) (next_from c (se_from x)) p))
    by (unfold happen; by rewrite Hn, Hmay).
  destruct (event_completes p _ _ Hp Hhap) as (p1 & Hp1 & Har1). destruct (run_piece_done _ _ _ _ _ _ _ Hp1) as (r & s & Hrun & Heq).
  destruct (finish_runs (rest_size r) p1 n (Session (filter s) (sent s) r (next_stage c) (next_from c (se_from x)) (se_released x)) Har1)
    as (j & p' & x' & Hfin & Hplay & Hx' & Hi); [subst p1; apply list_lookup_insert_eq; by eapply lookup_lt_Some|done|].
  exists j, p', x'. split; [|by cbn [replay]; rewrite Hhap, Hp1].
  rewrite handler_pieces. erewrite bind_Done by exact Hrun. cbn [se_rest] in Hfin. rewrite <- Hfin. subst p1. by destruct s.
Qed.

(** ** What lasts *)

(** What no event changes of a stream that has used the cache *)
Record keeps x x' : Prop := {
  ke_role : role_ (se_filter x') = role_ (se_filter x);
  ke_key : filter_key_ (se_filter x') = filter_key_ (se_filter x);
  ke_sent : se_sent x' = se_sent x;
  ke_ended h b : se_from x = Streaming h b true -> se_from x' = Streaming h b true;
  ke_destroyed : se_stage x = Destroyed -> se_stage x' = Destroyed /\ se_from x' = se_from x
}.

Lemma keeps_same x : keeps x x.
Proof. by split. Qed.

Lemma keeps_trans x y z : keeps x y -> keeps y z -> keeps x z.
Proof.
  intros [Hr Hk Hs He Hd] [Hr' Hk' Hs' He' Hd']. split; [congruence..|by auto|].
  intros Hx. destruct (Hd Hx) as [Hy Hf]. destruct (Hd' Hy) as [Hz Hf']. split; [done|congruence].
Qed.

(** Only a request changes role, key or what is sent, and it makes no stream
    a cached one at once. *)
Lemma start_keeps c s r s' :
  start c s = Done (r, s') ->
  match c with
  | OnRequest _ _ => role_ (filter s') = role_ (filter s) \/ role_ (filter s') <> RoleCached
  | _ => role_ (filter s') = role_ (filter s) /\ filter_key_ (filter s') = filter_key_ (filter s) /\ sent s' = sent s
  end.
Proof.
  destruct c as [host path|h e|d e|]; cbn [start]; unfold buildKey, when, change_filter, call_cache, bind, ret, gets, modify, or_fault;
    intros Hs; repeat (case_match; unfold ret in *; simplify_eq); cbn; try done; first [by left|by right].
Qed.

Lemma resume_keeps r s r' s' :
  resume r s = Done (r', s') -> (exists q m, r = ToServe q m) \/ (filter s' = filter s /\ sent s' = sent s).
Proof.
  destruct r as [|q m|[|t ts]|key wp]; cbn [resume]; [|intros _; left; by eexists _, _|..]; intros Hs; right;
    unfold call_cache, bind, ret in Hs; repeat (case_match; simplify_eq); try (injection Hs as <- <-); done.
Qed.

Lemma session_settled p n x :
  arises p -> sessions p !! n = Some x -> role_ (se_filter x) <> RoleUnset ->
  se_stage x <> Fresh /\ forall q m, se_rest x <> ToServe q m.
Proof.
  intros Hp Hn Hr. destruct (arises_mirrored _ _ _ Hcapacity Hslots Hp) as (order & sys & _ & _ & Hm).
  destruct (decide (n ∈ order)) as [Hin|Hout].
  2: { by destruct (mi_outside _ _ _ Hm n x Hn Hout). }
  apply list_elem_of_lookup in Hin as [i Hoi]. destruct (mi_actor _ _ _ Hm i n Hoi) as (y & a & Hy & Ha & Hag & Hs).
  simplify_eq. split; [done|]. intros q m Hq. destruct Hag as [| |l ?? Hl| | |]; try congruence.
  rewrite Hq in Hl. by destruct (pub_todo l).
Qed.

Lemma next_from_ended c x h b :
  may_call c x = true -> se_from x = Streaming h b true -> next_from c (se_from x) = Streaming h b true.
Proof. unfold may_call. intros Hm Hf. rewrite Hf in *. destruct c; try done; by destruct (idle x), (se_stage x). Qed.

(** The changed session, or another *)
Lemma insert_keeps (l : list (session (H := H))) n m x x' y :
  l !! n = Some x -> (n = m -> keeps x y) -> l !! m = Some x' -> (n = m -> x' = x) ->
  exists z, <[n := y]> l !! m = Some z /\ keeps x' z.
Proof.
  intros Hn Hk Hm Heq. destruct (decide (n = m)) as [->|Hne].
  - exists y. rewrite list_lookup_insert_eq by (by eapply lookup_lt_Some). rewrite Heq by done. auto.
  - exists x'. rewrite list_lookup_insert_ne by done. split; [done|apply keeps_same].
Qed.

Lemma event_keeps p e p' n x :
  arises p -> happen e p = Some (Done p') -> sessions p !! n = Some x -> role_ (se_filter x) <> RoleUnset ->
  exists x', sessions p' !! n = Some x' /\ keeps x x'.
Proof.
  intros Hp He Hn Hr. destruct (session_settled p n x Hp Hn Hr) as [Hst Hserve].
  destruct e as [cb|m c|m|d|m]; unfold happen in He.
  - case_match; [|done]. injection He as <-. exists x. cbn [sessions].
    split; [by rewrite lookup_app_l by (by eapply lookup_lt_Some)|apply keeps_same].
  - destruct (sessions p !! m) as [y|] eqn:Hm; [|done]. destruct (may_call c y) eqn:Hmay; [|done]. injection He as He.
    destruct (run_piece_done _ _ _ _ _ _ _ He) as (r & s & Hrun & ->). cbn [sessions].
    eapply insert_keeps; [exact Hm| |exact Hn|congruence]. intros ->. assert (y = x) as -> by congruence.
    pose proof (start_keeps _ _ _ _ Hrun) as Hk. unfold may_call in Hmay. apply andb_true_iff in Hmay as [Hidle Hmay].
    destruct c as [host path|h e|d e|]; [by destruct (se_stage x)|..]; destruct Hk as (Hkr & Hkk & Hks);
      (split; cbn [se_filter se_sent se_from se_stage]; [done|done|done| |intros Hd; by rewrite Hd in Hmay]);
      intros h0 b0 Hf; (apply next_from_ended; [unfold may_call; by rewrite Hidle|done]).
  - destruct (sessions p !! m) as [y|] eqn:Hm; [|done]. destruct (idle y) eqn:Hidle; [done|]. injection He as He.
    destruct (run_piece_done _ _ _ _ _ _ _ He) as (r & s & Hrun & ->). cbn [sessions].
    eapply insert_keeps; [exact Hm| |exact Hn|congruence]. intros ->. assert (y = x) as -> by congruence.
    destruct (resume_keeps _ _ _ _ Hrun) as [(q & k & Hq)|[Hkf Hks]]; [by destruct (Hserve q k)|].
    split; cbn [se_filter se_sent se_from se_stage]; rewrite ?Hkf, ?Hks; done.
  - destruct (queues (cache_of p) !! d) as [[|t ts]|]; try done. injection He as He.
    destruct (run_dispatcher d (cache_of p)) as [[r w]|]; [|done]. injection He as <-. exists x. split; [done|apply keeps_same].
  - destruct (sessions p !! m) as [y|] eqn:Hm; [|done]. destruct (held y) as [f|] eqn:Hf; [|done]. injection He as He.
    destruct (release_fragment f (cache_of p)) as [[u w]|]; [|done]. injection He as <-. cbn [sessions].
    eapply insert_keeps; [exact Hm| |exact Hn|congruence]. intros ->. assert (y = x) as -> by congruence. by split.
Qed.

Lemma happens_keeps p p' n x :
  arises p -> happens p p' -> sessions p !! n = Some x -> role_ (se_filter x) <> RoleUnset ->
  exists x', sessions p' !! n = Some x' /\ keeps x x'.
Proof.
  intros Hp Hh Hn Hr. revert Hp Hn. induction Hh as [p|p e p1 p2 Hh IH He]; intros Hp Hn.
  - exists x. split; [done|apply keeps_same].
  - destruct (IH Hp Hn) as (x1 & Hn1 & Hk1). assert (Hp1 : arises p1) by (by eapply happens_trans).
    destruct (event_keeps p1 e p2 n x1 Hp1 He Hn1) as (x2 & Hn2 & Hk2); [by rewrite (ke_role _ _ Hk1)|].
    exists x2. split; [done|]. by eapply keeps_trans.
Qed.

(** A stream becomes a cached one when its hit is served. *)
Lemma event_serves p e p' n x' :
  happen e p = Some (Done p') -> sessions p' !! n = Some x' -> role_ (se_filter x') = RoleCached ->
  exists x, sessions p !! n = Some x /\
    (role_ (se_filter x) = RoleCached \/
     exists q m r s, se_rest x = ToServe q m /\ resume (ToServe q m) (stream_of_session p x) = Done (r, s) /\
       filter s = se_filter x' /\ sent s = se_sent x' /\ se_released x = se_released x').
Proof.
  intros He Hn Hr. destruct e as [cb|m c|m|d|m]; unfold happen in He.
  - case_match; [|done]. injection He as <-. cbn [sessions] in Hn. apply lookup_snoc_Some in Hn as [[_ Hn]|[_ <-]]; [|done].
    exists x'. auto.
  - destruct (sessions p !! m) as [y|] eqn:Hm; [|done]. destruct (may_call c y) eqn:Hmay; [|done]. injection He as He.
    destruct (run_piece_done _ _ _ _ _ _ _ He) as (r & s & Hrun & ->). cbn [sessions] in Hn.
    apply list_lookup_insert_Some in Hn as [(-> & <- & _)|[_ Hn]]; [|exists x'; auto].
    exists y. split; [done|]. left. pose proof (start_keeps _ _ _ _ Hrun) as Hk. cbn [se_filter] in Hr.
    destruct c; [destruct Hk as [Hk|Hk]; [|done]|destruct Hk as [Hk _]..]; by rewrite Hk in Hr.
  - destruct (sessions p !! m) as [y|] eqn:Hm; [|done]. destruct (idle y) eqn:Hidle; [done|]. injection He as He.
    destruct (run_piece_done _ _ _ _ _ _ _ He) as (r & s & Hrun & ->). cbn [sessions] in Hn.
    apply list_lookup_insert_Some in Hn as [(-> & <- & _)|[_ Hn]]; [|exists x'; auto].
    exists y. split; [done|]. destruct (resume_keeps _ _ _ _ Hrun) as [(q & k & Hq)|[Hkf _]].
    + right. rewrite Hq in Hrun. by exists q, k, r, s.
    + left. cbn [se_filter] in Hr. by rewrite Hkf in Hr.
  - destruct (queues (cache_of p) !! d) as [[|t ts]|]; try done. injection He as He.
    destruct (run_dispatcher d (cache_of p)) as [[r w]|]; [|done]. injection He as <-. exists x'. auto.
  - destruct (sessions p !! m) as [y|] eqn:Hm; [|done]. destruct (held y) as [f|] eqn:Hf; [|done]. injection He as He.
    destruct (release_fragment f (cache_of p)) as [[u w]|]; [|done]. injection He as <-. cbn [sessions] in Hn.
    apply list_lookup_insert_Some in Hn as [(-> & <- & _)|[_ Hn]]; [|exists x'; auto]. exists y. auto.
Qed.
(** ** A follower that has left *)

Definition cancelled_in p (wp : wptr) : Prop :=
  exists z, waiter_heap (cache_of p) !! wp = Some z /\ cancelled z = true.

(** [onDestroy] sets the flag before it does anything else. *)
Lemma destroy_cancels p n x wp p' :
  sessions p !! n = Some x -> role_ (se_filter x) = RoleFollower -> done_ (se_filter x) = false ->
  filter_waiter_ (se_filter x) = Some wp -> happen (Call n OnDestroy) p = Some (Done p') ->
  heard p' = heard p /\ cancelled_in p' wp.
Proof.
  intros Hn Hr Hd Hw He. unfold happen in He. rewrite Hn in He. destruct (may_call OnDestroy x); [|done]. injection He as He.
  destruct (run_piece_done _ _ _ _ _ _ _ He) as (r & s & Hrun & ->). split; [done|].
  unfold start, stream_of_session in Hrun. rewrite bind_gets in Hrun. cbn [filter] in Hrun.
  rewrite Hr, Hd, Hw, bool_decide_true in Hrun by done. cbn [negb andb or_fault] in Hrun.
  unfold bind at 1, ret at 1, bind at 1, call_cache in Hrun. cbn [cache_world filter sent] in Hrun.
  destruct (waiter_heap (cache_of p) !! wp) as [z|] eqn:Hz; unfold cancel_waiter, deref_waiter, bind in Hrun; rewrite Hz in Hrun;
    [|done]. cbn in Hrun. injection Hrun as <- <-. eexists. cbn. rewrite lookup_insert_eq. by split.
Qed.

(** From then on nothing calls its callbacks. *)
Lemma event_silent p e p' wp :
  arises p -> happen e p = Some (Done p') -> cancelled_in p wp ->
  heard p' !! wp = heard p !! wp /\ cancelled_in p' wp.
Proof.
  intros Hp He (z & Hz & Hcz). destruct (arises_mirrored _ _ _ Hcapacity Hslots Hp) as (order & sys & _ & Hok & Hm).
  destruct (event_mirrored _ _ _ _ _ Hok Hm He) as (p1 & order' & sys' & Heq & Hf & Hm'). injection Heq as <-.
  rewrite <- (mi_heard _ _ _ Hm), <- (mi_heard _ _ _ Hm'). unfold cancelled_in. rewrite <- (mi_world _ _ _ Hm').
  rewrite <- (mi_world _ _ _ Hm) in Hz. destruct Hf as [->|[l Hl]]; [by eauto|]. by eapply cancelled_step.
Qed.

Lemma happens_silent p p' wp :
  arises p -> happens p p' -> cancelled_in p wp -> heard p' !! wp = heard p !! wp /\ cancelled_in p' wp.
Proof.
  intros Hp Hh Hc. induction Hh as [p|p e p1 p2 Hh IH He]; [done|]. destruct (IH Hp Hc) as [Hs Hc1].
  assert (Hp1 : arises p1) by (by eapply happens_trans).
  destruct (event_silent p1 e p2 wp Hp1 He Hc1) as [Hs2 Hc2]. split; [congruence|done].
Qed.
End Runs.
