(* ===== verification/ProxyTheorems.v ===== *)
(** What the filters guarantee together, whatever order their pieces run in:
    handlers end, coalesced and cached clients are sent what an upstream sent
    through the filter of their leader, and what a leader that is destroyed
    too early leaves behind. *)
From S2P Require Import Prelude CacheTypes Ring Cache CacheProps CacheSpec CacheSystem CacheSystemRefs CacheSystemWaiters CacheSystemSteps CacheSystemLive CacheTests Filter FilterProps Proxy ProxyMirror ProxyLasting.

Local Open Scope Z_scope.
Local Open Scope cpp_scope.

Section ProxyTheorems.
Context {H : Type} `{HeaderMapLaws H}.
Implicit Types (p : proxy (H := H)) (x : session (H := H)) (sys : system (H := H)) (n m : nat).

(** ** Leaders *)

(** The stream [y] leads the key of [x], and the response [v] has passed
    through its filter. *)
Definition led_by x y (v : view (H := H)) : Prop :=
  role_ (se_filter y) = RoleLeader /\ filter_key_ (se_filter y) = filter_key_ (se_filter x) /\ se_from y = v.

Lemma leader_session order p sys i l :
  mirrors order p sys -> leading (actors sys) i = Some l ->
  exists m y, sessions p !! m = Some y /\ role_ (se_filter y) = RoleLeader /\ filter_key_ (se_filter y) = pub_key l /\
    se_rest y = post_rest (pub_todo l) /\ se_from y = published l.
Proof.
  intros Hm Hl. apply Leading_lookup in Hl. pose proof (lookup_lt_Some _ _ _ Hl) as Hlt.
  rewrite <- (mi_length _ _ _ Hm) in Hlt. apply lookup_lt_is_Some in Hlt as [m Hi].
  destruct (mi_actor _ _ _ Hm i m Hi) as (y & a & Hy & Ha & Hag & _). simplify_eq.
  inversion Hag; subst. by exists m, y.
Qed.

(** The actor of a stream that has used the cache *)
Lemma session_actor order p sys n x :
  mirrors order p sys -> sessions p !! n = Some x -> role_ (se_filter x) <> RoleUnset ->
  exists i a, order !! i = Some n /\ actors sys !! i = Some a /\ agrees x a.
Proof.
  intros Hm Hn Hr. destruct (decide (n ∈ order)) as [Hin|Hout].
  2: { by destruct (mi_outside _ _ _ Hm n x Hn Hout). }
  apply list_elem_of_lookup in Hin as [i Hoi]. destruct (mi_actor _ _ _ Hm i n Hoi) as (y & a & Hy & Ha & Hag & _).
  simplify_eq. by exists i, a.
Qed.

(** The response of an entry is one that a leader completed. *)
Lemma entry_session order p sys q e x :
  sys_ok sys -> mirrors order p sys -> entries (shared sys) !! q = Some e -> key_ e = filter_key_ (se_filter x) ->
  exists m y h, sessions p !! m = Some y /\ headers_ e = Some h /\ led_by x y (Streaming h (body_ e) true).
Proof.
  intros Hok Hm He Hk. destruct (rf_origin _ _ (so_refs _ Hok) _ _ He) as (i & l & Hl & Hlk & Hlh & Hlb & Hle).
  destruct (leader_session _ _ _ _ _ Hm Hl) as (m & y & Hy & Hr & Hyk & _ & Hfrom).
  destruct (ld_ended _ _ _ (so_leaders _ Hok) _ _ Hl Hle) as [h Hh].
  exists m, y, h. split; [done|]. split; [congruence|]. split; [done|]. split; [congruence|].
  rewrite Hfrom. unfold published. by rewrite Hh, Hlb, Hle.
Qed.

Variables capacity slot_count : Z.
Hypothesis Hcapacity : 0 < capacity < 2 ^ 64.
Hypothesis Hslots : 0 < slot_count < 2 ^ 64.
#[local] Abbreviation arises := (arises capacity slot_count).

(** What a cached stream has sent is the response [h], [b]; its buffer, while
    it is held, reads [b]. *)
Definition sent_as p x (h : H) (b : string) : Prop :=
  match buffer_of (se_sent x) with
  | Some f => fragment_length f = str_size b /\ se_sent x = hit_sent h (Some f)
  | None => b = "" /\ se_sent x = hit_sent h None
  end /\
  forall f, held x = Some f -> read_fragment f (cache_of p) = Done (b, cache_of p).

Definition backed p x : Prop :=
  exists m y h b, sessions p !! m = Some y /\ led_by x y (Streaming h b true) /\ sent_as p x h b.

(** While the buffer is held, the system vouches for it. *)
Lemma held_backed order p sys n x f :
  sys_ok sys -> mirrors order p sys -> sessions p !! n = Some x -> role_ (se_filter x) = RoleCached -> held x = Some f ->
  backed p x.
Proof.
  intros Hok Hm Hn Hr Hf. destruct (session_actor _ _ _ _ _ Hm Hn) as (i & a & Hoi & Ha & Hag); [congruence|].
  destruct Hag as [|key d _ Hk _ Hsent Hd| | | |]; try congruence. rewrite Hf in Hd.
  destruct (rf_served _ _ (so_refs _ Hok) _ _ _ _ Ha Hd) as (e & He & Hke & Hlen & Hh).
  destruct (entry_session order p sys _ e x Hok Hm He) as (m & y & h & Hy & Hh' & Hled); [congruence|].
  exists m, y, h, (body_ e). split; [done|]. split; [done|].
  assert (Hbuf : buffer_of (se_sent x) = Some f) by (unfold held in Hf; by destruct (se_released x)).
  rewrite Hbuf in Hsent. unfold sent_as. rewrite Hbuf. split; [split; [done|congruence]|].
  intros g Hg. assert (g = f) as -> by congruence. destruct f as [q k]. cbn [fragment_entry fragment_length] in *. subst k.
  rewrite <- (mi_world _ _ _ Hm). by apply read_fragment_eq.
Qed.

Lemma backed_keeps p p' n x x' :
  arises p -> happens p p' -> backed p x -> keeps x x' -> held x' = None -> backed p' x'.
Proof.
  intros Hp Hh (m & y & h & b & Hy & (Hr & Hk & Hf) & Hsent & _) Hx Hheld.
  destruct (happens_keeps _ _ Hcapacity Hslots p p' m y Hp Hh Hy) as (y' & Hy' & Hky); [congruence|].
  exists m, y', h, b. split; [done|]. split.
  - split_and!; [rewrite (ke_role _ _ Hky); congruence|rewrite (ke_key _ _ Hky), (ke_key _ _ Hx); congruence|].
    by apply (ke_ended _ _ Hky).
  - split; [by rewrite (ke_sent _ _ Hx)|]. intros f Hf'. congruence.
Qed.

(** Serving an empty body sends the headers of a completed response. *)
Lemma serve_backed p p' n x x' q k r s :
  arises p -> happens p p' -> sessions p !! n = Some x -> se_rest x = ToServe q k ->
  resume (ToServe q k) (stream_of_session p x) = Done (r, s) -> filter s = se_filter x' -> sent s = se_sent x' ->
  held x' = None -> buffer_of (se_sent x') = None -> backed p' x'.
Proof.
  intros Hp Hh Hn Hrest Hrun Hfs Hss Hheld Hbuf.
  destruct (arises_mirrored _ _ _ Hcapacity Hslots Hp) as (order & sys & _ & Hok & Hm).
  destruct (serve_runs _ _ _ _ _ _ _ Hok Hm Hn Hrest) as (i & e & h & d & w & _ & _ & _ & _ & He & Hke & Hhe & _ & _ & Hd & _ & Hres).
  rewrite Hrun in Hres. injection Hres as -> ->. cbn [filter sent] in *. rewrite <- Hss in Hbuf.
  assert (Hnone : hit_body_ d = None) by (by destruct (hit_body_ d)). rewrite Hnone in Hd, Hss.
  destruct (entry_session order p sys q e x Hok Hm He Hke) as (m & y & h' & Hy & Hh' & (Hr & Hk & Hf)).
  destruct (happens_keeps _ _ Hcapacity Hslots p p' m y Hp Hh Hy) as (y' & Hy' & Hky); [congruence|].
  assert (h' = h) as -> by congruence. destruct (decide (body_ e = "")) as [Hb|Hb]; [|done]. rewrite Hb in Hf.
  exists m, y', h, "". split; [done|]. split.
  - split_and!; [rewrite (ke_role _ _ Hky); congruence|rewrite (ke_key _ _ Hky), <- Hfs; exact Hk|]. by apply (ke_ended _ _ Hky).
  - unfold sent_as. rewrite <- Hss. cbn [hit_sent buffer_of]. split; [done|]. intros f Hf'. congruence.
Qed.

Lemma cached_backed p n x :
  arises p -> sessions p !! n = Some x -> role_ (se_filter x) = RoleCached -> backed p x.
Proof.
  intros Hp. pose proof Hp as Hp'. unfold Proxy.arises in Hp'. remember (launched capacity slot_count) as p0 eqn:Hp0.
  revert n x. induction Hp' as [|p0 e p1 p2 Hh IH He]; intros n x Hn Hr; subst; [done|].
  assert (Hp1 : arises p1) by exact Hh.
  destruct (arises_mirrored _ _ _ Hcapacity Hslots Hp) as (order & sys & _ & Hok & Hm).
  destruct (held x) as [f|] eqn:Hheld; [by eapply held_backed|].
  assert (Hstep : happens p1 p2) by (eapply happens_then; [constructor|exact He]).
  destruct (event_serves _ _ _ _ _ He Hn Hr) as (y & Hy & [Hry|(q & k & r & s & Hrest & Hrun & Hfs & Hss & Hrel)]).
  - specialize (IH Hp1 eq_refl n y Hy Hry).
    destruct (event_keeps _ _ Hcapacity Hslots p1 e p2 n y Hp1 He Hy) as (z & Hz & Hk); [congruence|]. simplify_eq.
    by eapply backed_keeps.
  - destruct (buffer_of (se_sent x)) as [f|] eqn:Hbuf; [|by eapply serve_backed].
    destruct (arises_mirrored _ _ _ Hcapacity Hslots Hp1) as (order1 & sys1 & _ & Hok1 & Hm1).
    destruct (serve_runs _ _ _ _ _ _ _ Hok1 Hm1 Hy Hrest) as (i & e' & h & d & w & _ & _ & Hrel' & _).
    unfold held in Hheld. rewrite <- Hrel, Hrel' in Hheld. congruence.
Qed.

(** ** The properties *)

(** C2. Filters end their work, however Envoy's threads interleave.  In every
    state that pieces of handlers, event loops and releases lead to, each event
    that can happen completes without a fault (no failed ASSERT, no null or
    dangling pointer); and each handler of a filter, called as Envoy calls it,
    returns, its effect being that of its pieces one after the other. *)
Theorem handlers_complete p :
  arises p ->
  (forall e r, happen e p = Some r -> exists p', r = Done p' /\ arises p') /\
  (forall n x c, sessions p !! n = Some x -> may_call c x = true ->
     exists j p' x', whole c (stream_of_session p x) = Done (tt, stream_of_session p' x') /\
       replay (Call n c :: replicate j (Resume n)) p = Some p' /\ sessions p' !! n = Some x' /\ se_rest x' = Idle).
Proof.
  intros Hp. split.
  - intros e r. by apply (event_completes capacity slot_count).
  - intros n x c. by apply (handler_runs capacity slot_count).
Qed.

(** C7. A coalesced client is sent what an upstream sends to another.  Of every
    stream that waits as a follower, the calls made on its callbacks so far are
    a beginning of the response that has passed through the filter of a leader
    of the same key; they are all of it once the leader's handlers are over and
    no closure for the follower is queued. *)
Theorem coalesced_client p n x wp :
  arises p -> sessions p !! n = Some x -> role_ (se_filter x) = RoleFollower -> se_stage x <> Destroyed ->
  filter_waiter_ (se_filter x) = Some wp ->
  exists m y v, sessions p !! m = Some y /\ led_by x y v /\ view_le (view_calls NoHeaders (heard_by p wp)) v /\
    (se_rest y = Idle -> (forall d q, queues (cache_of p) !! d = Some q -> calls_for wp q = []) ->
     view_calls NoHeaders (heard_by p wp) = v).
Proof.
  intros Hp Hn Hr Hs Hw. destruct (arises_mirrored _ _ _ Hcapacity Hslots Hp) as (order & sys & _ & Hok & Hm).
  destruct (session_actor _ _ _ _ _ Hm Hn) as (i & a & Hoi & Ha & Hag); [congruence|].
  destruct Hag as [| | |key wp' _ Hk _ _ Hw'| |]; try congruence. assert (wp' = wp) as -> by congruence.
  destruct (following_leader _ _ _ _ Hok Ha) as (z & j & l & Hz & _ & Hl & Hlk & Hview).
  destruct (leader_session _ _ _ _ _ Hm Hl) as (m & y & Hy & Hyr & Hyk & Hyt & Hyf).
  unfold stream_of in Hview. rewrite (mi_heard _ _ _ Hm), (mi_world _ _ _ Hm) in Hview.
  exists m, y, (published l). split; [done|]. split; [split_and!; congruence|]. split.
  - rewrite view_calls_app in Hview. eapply view_calls_le; [exact Hview|apply published_ok].
  - intros Hidle Hq. rewrite Hidle in Hyt. apply post_rest_idle in Hyt. rewrite Hyt in Hview. cbn [calls_for] in Hview.
    assert (Hnone : calls_for wp (default [] (queues (cache_of p) !! dispatcher_ z)) = []).
    { destruct (queues (cache_of p) !! dispatcher_ z) as [q|] eqn:Hqd; [by eapply Hq|done]. }
    rewrite Hnone, !app_nil_r in Hview. exact Hview.
Qed.

(** C8. A cached client is sent what an upstream sent to another: headers and
    body of a response that has passed, to its end, through the filter of a
    leader of the same key; and its buffer reads that body until it is
    released, whatever happens meanwhile. *)
Theorem cached_client p n x :
  arises p -> sessions p !! n = Some x -> role_ (se_filter x) = RoleCached ->
  exists m y h b, sessions p !! m = Some y /\ led_by x y (Streaming h b true) /\ sent_as p x h b.
Proof. apply cached_backed. Qed.

(** C23. A follower that has left is told nothing more: from the moment
    [onDestroy] runs on a follower whose response has not ended, no later event
    of any stream, event loop or release (the closures already queued for it
    and the posts of a publication that copied its waiter before included)
    adds a call on its callbacks. *)
Theorem destroyed_hears_nothing p n x wp p1 p2 :
  arises p -> sessions p !! n = Some x -> role_ (se_filter x) = RoleFollower -> done_ (se_filter x) = false ->
  filter_waiter_ (se_filter x) = Some wp ->
  happen (Call n OnDestroy) p = Some (Done p1) -> happens p1 p2 ->
  heard_by p2 wp = heard_by p wp.
Proof.
  intros Hp Hn Hr Hd Hw He Hh. destruct (destroy_cancels p n x wp p1 Hn Hr Hd Hw He) as [Hsame Hc].
  assert (Hp1 : arises p1) by (by eapply happens_then).
  destruct (happens_silent capacity slot_count Hcapacity Hslots p1 p2 wp Hp1 Hh Hc) as [Hs _].
  unfold heard_by. by rewrite Hs, Hsame.
Qed.

(** C35. A leader that is destroyed before its response has ended blocks its
    key: [onDestroy] does not give the key up, and from then on, in every
    later state, each request for it becomes a follower of the leader that is
    gone. *)
Theorem abandoned_key_blocked p n x p' m y host path :
  arises p -> sessions p !! n = Some x -> role_ (se_filter x) = RoleLeader -> se_stage x = Destroyed ->
  (forall h b, se_from x <> Streaming h b true) ->
  happens p p' -> sessions p' !! m = Some y -> se_stage y = Fresh ->
  is_empty host = false -> is_empty path = false -> cache_key host path = filter_key_ (se_filter x) ->
  exists s, decodeHeaders host path (stream_of_session p' y) = Done (HeadersStopIteration, s) /\
    role_ (filter s) = RoleFollower.
Proof.
  intros Hp Hn Hr Hs Hend Hh Hy Hfresh Hhost Hpath Hkey.
  destruct (happens_keeps _ _ Hcapacity Hslots p p' n x Hp Hh Hn) as (x' & Hx' & Hk); [congruence|].
  assert (Hp' : arises p') by (by eapply happens_trans).
  destruct (arises_mirrored _ _ _ Hcapacity Hslots Hp') as (order & sys & _ & Hok & Hm).
  destruct (session_actor _ _ _ _ _ Hm Hx') as (i & a & Hoi & Ha & Hag); [rewrite (ke_role _ _ Hk); congruence|].
  rewrite <- (ke_role _ _ Hk) in Hr. destruct Hag as [| |l _ Hlk _ _ Hpub| | |]; try congruence.
  apply leading_Leading in Ha. rewrite (proj2 (ke_destroyed _ _ Hk Hs)) in Hpub.
  assert (He : pub_ended l = false).
  { destruct (pub_ended l) eqn:He; [|done]. destruct (ld_ended _ _ _ (so_leaders _ Hok) _ _ Ha He) as [h Hhe].
    destruct (Hend h (pub_body l)). rewrite <- Hpub. unfold published. by rewrite Hhe, He. }
  destruct (ld_leader _ _ _ (so_leaders _ Hok) _ _ Ha He) as [_ [j Hj]].
  rewrite <- Hlk, (ke_key _ _ Hk), <- Hkey, (mi_world _ _ _ Hm) in Hj.
  assert (Hw : cache_ok (cache_of p')) by (rewrite <- (mi_world _ _ _ Hm); apply Hok).
  destruct (fresh_outside _ _ _ _ _ Hm Hy Hfresh) as [_ [_ _ Hsent _ Hf]]. destruct (Hf Hfresh) as (_ & cb & Hcb).
  destruct (decodeHeaders_follower host path cb None (cache_of p') _ _ _ Hw Hhost Hpath (status_pending _ _ _ Hw Hj))
    as (w' & wp & Hrun & _).
  unfold stream_of_session. rewrite Hcb, Hsent. exists (Stream (Filter (Some cb) None (cache_key host path) false RoleFollower (Some wp)) w' []).
  split; [exact Hrun|done].
Qed.
End ProxyTheorems.

(** ** Witnesses *)

Definition after_events (es : list (event (H := HeaderList))) : proxy (H := HeaderList) :=
  default (launched 1024 64) (replay es (launched 1024 64)).

Lemma after_events_arises es : arises 1024 64 (after_events es).
Proof.
  unfold after_events, arises. destruct (replay es _) as [p|] eqn:Hp; [by eapply replay_happens|constructor].
Qed.

(** Stream 1 joins the response that stream 0 leads. *)
Definition joined : list (event (H := HeaderList)) :=
  [Open (callbacks_on 0); Call 0 (OnRequest "a.test" "/x"); Open (callbacks_on 1); Call 1 (OnRequest "a.test" "/x");
   Call 0 (OnHeaders ok200 false); Resume 0; Call 0 (OnData "ab" true); Resume 0; Turn 1].

(** Stream 2 is served from the cache, and holds its buffer. *)
Definition then_hit : list (event (H := HeaderList)) :=
  joined ++ [Open (callbacks_on 2); Call 2 (OnRequest "a.test" "/x"); Resume 2].

(** Stream 0 leads, and is destroyed before the response. *)
Definition abandoned : list (event (H := HeaderList)) :=
  [Open (callbacks_on 0); Call 0 (OnRequest "a.test" "/x"); Call 0 OnDestroy].

Definition session_at (es : list (event (H := HeaderList))) (n : nat) : session (H := HeaderList) :=
  default (Session new_filter [] Idle Fresh NoHeaders false) (sessions (after_events es) !! n).

Lemma demo_bounds : 0 < 1024 < 2 ^ 64 /\ 0 < 64 < 2 ^ 64.
Proof. lia. Qed.

Lemma handlers_complete_witness :
  exists j p' x', whole (OnRequest "a.test" "/x") (stream_of_session (after_events [Open (callbacks_on 0)])
      (session_at [Open (callbacks_on 0)] 0)) = Done (tt, stream_of_session p' x') /\
    replay (Call 0 (OnRequest "a.test" "/x") :: replicate j (Resume 0)) (after_events [Open (callbacks_on 0)]) = Some p' /\
    sessions p' !! 0%nat = Some x' /\ se_rest x' = Idle.
Proof.
  destruct (handlers_complete 1024 64 (proj1 demo_bounds) (proj2 demo_bounds) _ (after_events_arises [Open (callbacks_on 0)]))
    as [_ Hwhole].
  apply (Hwhole 0%nat (session_at [Open (callbacks_on 0)] 0)); vm_compute; reflexivity.
Defined.

Lemma coalesced_client_witness :
  exists m y v, sessions (after_events joined) !! m = Some y /\ led_by (session_at joined 1) y v /\
    view_le (view_calls NoHeaders (heard_by (after_events joined) 0%nat)) v.
Proof.
  assert (Hs : se_stage (session_at joined 1) <> Destroyed) by (vm_compute; discriminate).
  destruct (coalesced_client 1024 64 (proj1 demo_bounds) (proj2 demo_bounds) (after_events joined) 1%nat (session_at joined 1) 0%nat
    (after_events_arises joined)) as (m & y & v & Hy & Hled & Hle & _); [vm_compute; reflexivity|vm_compute; reflexivity|exact Hs|vm_compute; reflexivity|].
  exists m, y, v. exact (conj Hy (conj Hled Hle)).
Defined.

Example joined_heard :
  view_calls NoHeaders (heard_by (after_events joined) 0%nat) = Streaming ok200 "" false.
Proof. vm_compute. reflexivity. Qed.

Lemma cached_client_witness :
  exists m y h b, sessions (after_events then_hit) !! m = Some y /\ led_by (session_at then_hit 2) y (Streaming h b true) /\
    sent_as (after_events then_hit) (session_at then_hit 2) h b.
Proof.
  apply (cached_client 1024 64 (proj1 demo_bounds) (proj2 demo_bounds) (after_events then_hit) 2%nat (session_at then_hit 2)
    (after_events_arises then_hit)); vm_compute; reflexivity.
Defined.

(** Stream 1 has joined, the data of stream 0 is queued for it and more is to
    come; then stream 1 is destroyed, and afterwards its event loop runs. *)
Definition leaving : list (event (H := HeaderList)) :=
  [Open (callbacks_on 0); Call 0 (OnRequest "a.test" "/x"); Open (callbacks_on 1); Call 1 (OnRequest "a.test" "/x");
   Call 0 (OnHeaders ok200 false); Resume 0; Turn 1; Call 0 (OnData "ab" false); Resume 0; Call 0 (OnData "cd" true)].

Definition left_behind : list (event (H := HeaderList)) := [Turn 1; Resume 1; Resume 0; Turn 1].

Lemma destroyed_hears_nothing_witness :
  view_calls NoHeaders (heard_by (after_events leaving) 0%nat) = Streaming ok200 "" false /\
  heard_by (after_events (leaving ++ Call 1 OnDestroy :: left_behind)) 0%nat = heard_by (after_events leaving) 0%nat.
Proof.
  assert (Hlater : happens (after_events (leaving ++ [Call 1 OnDestroy]))
    (after_events (leaving ++ Call 1 OnDestroy :: left_behind))).
  { apply (replay_happens left_behind). vm_compute. reflexivity. }
  assert (Hcall : happen (Call 1 OnDestroy) (after_events leaving) = Some (Done (after_events (leaving ++ [Call 1 OnDestroy]))))
    by (vm_compute; reflexivity).
  split; [vm_compute; reflexivity|].
  apply (destroyed_hears_nothing 1024 64 (proj1 demo_bounds) (proj2 demo_bounds) (after_events leaving) 1%nat (session_at leaving 1)
    0%nat (after_events (leaving ++ [Call 1 OnDestroy]))); first [exact Hcall|exact Hlater|exact (after_events_arises leaving)|vm_compute; reflexivity].
Defined.

(** The same events without the call of [onDestroy] do reach the client. *)
Example staying_heard :
  view_calls NoHeaders (heard_by (after_events (leaving ++ [Turn 1; Resume 0; Turn 1])) 0%nat) = Streaming ok200 "abcd" true.
Proof. vm_compute. reflexivity. Qed.

Lemma abandoned_key_blocked_witness :
  exists s, decodeHeaders "a.test" "/x" (stream_of_session (after_events (abandoned ++ [Open (callbacks_on 1)]))
      (session_at (abandoned ++ [Open (callbacks_on 1)]) 1)) = Done (HeadersStopIteration, s) /\
    role_ (filter s) = RoleFollower.
Proof.
  assert (Hend : forall h b, se_from (session_at abandoned 0) <> Streaming h b true) by (intros h b; vm_compute; discriminate).
  assert (Hlater : happens (after_events abandoned) (after_events (abandoned ++ [Open (callbacks_on 1)]))).
  { apply (replay_happens [Open (callbacks_on 1)]). vm_compute. reflexivity. }
  apply (abandoned_key_blocked 1024 64 (proj1 demo_bounds) (proj2 demo_bounds) (after_events abandoned) 0%nat (session_at abandoned 0)
    (after_events (abandoned ++ [Open (callbacks_on 1)])) 1%nat (session_at (abandoned ++ [Open (callbacks_on 1)]) 1) "a.test" "/x"
    (after_events_arises abandoned)); first [exact Hend|exact Hlater|vm_compute; reflexivity].
Defined.
