(* ===== verification/Config.v ===== *)
(** The configuration of the filter (src/ring-cache/config.h, config.cc,
    cache.proto): what a filter instance is built from, and the cache that all
    configurations of a server share. *)
From S2P Require Import Prelude CacheTypes Ring Cache CacheProps CacheTests Filter.

Local Open Scope Z_scope.

(** [ProtoRingCacheFilterConfig]: two [uint64] fields; the rules of
    cache.proto demand that they are positive. *)
Record ProtoRingCacheFilterConfig := Proto {
  proto_capacity : Z;
  proto_slot_count : Z
}.

Definition validate (p : ProtoRingCacheFilterConfig) : bool :=
  (0 <? proto_capacity p) && (0 <? proto_slot_count p).

Definition is_uint64 (z : Z) : Prop := 0 <= z < 2 ^ 64.

(** [Singleton::Manager::getTyped<RingBufferCache>] is Envoy's: it hands out
    the registered object, or the one its callback makes, as a reference of
    type [C]; [create] stands for the callback. *)
Class SingletonManager (Mgr C : Type) := {
  getTyped : (unit -> C) -> Mgr -> C * Mgr
}.

(** With [pin = true] the object stays registered: the next call returns it
    again, whatever its callback would make. *)
Class SingletonLaws (Mgr C : Type) `{SingletonManager Mgr C} := {
  getTyped_again (create create' : unit -> C) m :
    getTyped create' (getTyped create m).2 = ((getTyped create m).1, (getTyped create m).2)
}.

Section Config.
Context {Mgr C : Type} `{SingletonManager Mgr C}.
Variable make_cache : Z -> Z -> C.

Record RingCacheFilterConfig := FilterConfig {
  config_capacity_ : Z;
  config_slot_count_ : Z;
  config_cache_ : C
}.

(** The constructor of [RingCacheFilterConfig] *)
Definition make_config (proto : ProtoRingCacheFilterConfig) (m : Mgr) : RingCacheFilterConfig * Mgr :=
  let r := getTyped (fun _ => make_cache (proto_capacity proto) (proto_slot_count proto)) m in
  (FilterConfig (proto_capacity proto) (proto_slot_count proto) r.1, r.2).

(** [uint32_t capacity() const], of a [uint64_t] member *)
Definition capacity (c : RingCacheFilterConfig) : Z := u32 (config_capacity_ c).
Definition slotCount (c : RingCacheFilterConfig) : Z := u64 (config_slot_count_ c).
Definition cache (c : RingCacheFilterConfig) : C := config_cache_ c.

(** [createFilterFactoryFromProtoWithServerContext]: an invalid proto is
    refused (by an exception of [downcastAndValidate]). *)
Definition createFilterFactory (proto : ProtoRingCacheFilterConfig) (m : Mgr)
    : option (RingCacheFilterConfig * Mgr) :=
  if validate proto then Some (make_config proto m) else None.

(** C39. The getter of the capacity tells the truth exactly below 4 GiB: it
    narrows the configured 64-bit capacity to 32 bits, so a capacity that is
    a multiple of 4 GiB reads as zero. *)
Theorem capacity_truncates proto m :
  is_uint64 (proto_capacity proto) ->
  (capacity (make_config proto m).1 = proto_capacity proto <-> proto_capacity proto < 2 ^ 32) /\
  (capacity (make_config proto m).1 = 0 <-> exists k, proto_capacity proto = k * 2 ^ 32).
Proof.
  intros Hp. unfold capacity, u32, is_uint64 in *. simpl. split; split.
  - intros <-. apply Z.mod_pos_bound. lia.
  - intros ?. apply Z.mod_small. lia.
  - intros ?. exists (proto_capacity proto / 2 ^ 32). rewrite Z.mul_comm. by apply Z.div_exact.
  - intros [k ->]. apply Z_mod_mult.
Qed.

(** All configurations of a server share one cache: the first accepted
    one makes it; a later one gets the same cache, and reports its own
    capacity and slot count though the cache has those of the first. *)
Lemma configs_share_cache `{!SingletonLaws Mgr C} p1 p2 m c1 m1 c2 m2 :
  createFilterFactory p1 m = Some (c1, m1) -> createFilterFactory p2 m1 = Some (c2, m2) ->
  cache c2 = cache c1 /\ m2 = m1 /\
  config_capacity_ c2 = proto_capacity p2 /\ config_slot_count_ c2 = proto_slot_count p2.
Proof.
  unfold createFilterFactory, make_config. intros Hc1 Hc2. repeat case_match; simplify_eq.
  rewrite getTyped_again. done.
Qed.
End Config.

(** ** Witnesses *)

(** A manager that holds at most one cache, known by its parameters. *)
#[export] Instance one_cache : SingletonManager (option (Z * Z)) (Z * Z) := {
  getTyped create m := let c := default (create tt) m in (c, Some c)
}.

#[export] Instance one_cache_laws : SingletonLaws (option (Z * Z)) (Z * Z).
Proof. split. done. Qed.

Lemma capacity_truncates_witness :
  let c := (make_config pair (Proto (2 ^ 33) 16) None).1 in
  (capacity c = 2 ^ 33 <-> 2 ^ 33 < 2 ^ 32) /\ (capacity c = 0 <-> exists k, 2 ^ 33 = k * 2 ^ 32).
Proof. apply (capacity_truncates pair (Proto (2 ^ 33) 16) None). split; vm_compute; congruence. Defined.

Lemma configs_share_cache_witness :
  exists c1 m1 c2 m2,
    createFilterFactory pair (Proto 1024 16) None = Some (c1, m1) /\
    createFilterFactory pair (Proto 4096 64) m1 = Some (c2, m2) /\ cache c2 = cache c1 /\ cache c1 = (1024, 16).
Proof.
  do 4 eexists. split; [reflexivity|]. split; [reflexivity|]. split; [|reflexivity].
  eapply (configs_share_cache pair (Proto 1024 16) (Proto 4096 64) None); reflexivity.
Defined.
