(* ===== verification/HttpTypes.v ===== *)
(** Data of the HTTP/1 parser (src/bazel/external/http_parser/http_parser.h
    and the tables at the top of http_parser.c): the enumerations, the struct
    [http_parser], the callbacks of its user, and the character classes. *)
From S2P Require Import Prelude.

Local Open Scope Z_scope.

(** ** Characters

    A [char] is its code, 0 to 255.  The sources only look at a [char] through
    comparisons with ASCII characters, [LOWER], [& 0x80] and casts to
    [unsigned char], on which its signedness has no effect. *)

Definition char_code (s : string) : Z :=
  match s with
  | String a _ => Z.of_N (Ascii.N_of_ascii a)
  | EmptyString => 0
  end.

Notation "'chr' s" := (ltac:(let z := eval vm_compute in (char_code s) in exact z))
  (at level 10, s at level 9, only parsing).

Definition CR : Z := 13.
Definition LF : Z := 10.
Definition TAB : Z := 9.
Definition FF : Z := 12.

(** The characters of a C string. *)
Fixpoint chars (s : string) : list Z :=
  match s with
  | EmptyString => []
  | String a s => Z.of_N (Ascii.N_of_ascii a) :: chars s
  end.

(** [s[i]] for a C string [s]: its terminator is at its length. *)
Definition c_string_at (s : string) (i : Z) : option Z :=
  (chars s ++ [0]) !! Z.to_nat i.

Definition ULLONG_MAX : Z := 2 ^ 64 - 1.

(** ** Enumerations *)

Inductive state :=
  | s_dead | s_start_req_or_res | s_res_or_resp_H | s_start_res | s_res_H | s_res_HT
  | s_res_HTT | s_res_HTTP | s_res_http_major | s_res_http_dot | s_res_http_minor
  | s_res_http_end | s_res_first_status_code | s_res_status_code | s_res_status_start
  | s_res_status | s_res_line_almost_done | s_start_req | s_req_method
  | s_req_spaces_before_url | s_req_schema | s_req_schema_slash | s_req_schema_slash_slash
  | s_req_server_start | s_req_server | s_req_server_with_at | s_req_path
  | s_req_query_string_start | s_req_query_string | s_req_fragment_start | s_req_fragment
  | s_req_http_start | s_req_http_H | s_req_http_HT | s_req_http_HTT | s_req_http_HTTP
  | s_req_http_I | s_req_http_IC | s_req_http_major | s_req_http_dot | s_req_http_minor
  | s_req_http_end | s_req_line_almost_done | s_header_field_start | s_header_field
  | s_header_value_discard_ws | s_header_value_discard_ws_almost_done
  | s_header_value_discard_lws | s_header_value_start | s_header_value | s_header_value_lws
  | s_header_almost_done | s_chunk_size_start | s_chunk_size | s_chunk_parameters
  | s_chunk_size_almost_done | s_headers_almost_done | s_headers_done | s_chunk_data
  | s_chunk_data_almost_done | s_chunk_data_done | s_body_identity | s_body_identity_eof
  | s_message_done.

#[export] Instance state_eq_dec : EqDecision state.
Proof. solve_decision. Defined.

(** The value of an enumerator; [s_dead] is 1. *)
Definition state_num (s : state) : Z :=
  match s with
  | s_dead => 1
  | s_start_req_or_res => 2
  | s_res_or_resp_H => 3
  | s_start_res => 4
  | s_res_H => 5
  | s_res_HT => 6
  | s_res_HTT => 7
  | s_res_HTTP => 8
  | s_res_http_major => 9
  | s_res_http_dot => 10
  | s_res_http_minor => 11
  | s_res_http_end => 12
  | s_res_first_status_code => 13
  | s_res_status_code => 14
  | s_res_status_start => 15
  | s_res_status => 16
  | s_res_line_almost_done => 17
  | s_start_req => 18
  | s_req_method => 19
  | s_req_spaces_before_url => 20
  | s_req_schema => 21
  | s_req_schema_slash => 22
  | s_req_schema_slash_slash => 23
  | s_req_server_start => 24
  | s_req_server => 25
  | s_req_server_with_at => 26
  | s_req_path => 27
  | s_req_query_string_start => 28
  | s_req_query_string => 29
  | s_req_fragment_start => 30
  | s_req_fragment => 31
  | s_req_http_start => 32
  | s_req_http_H => 33
  | s_req_http_HT => 34
  | s_req_http_HTT => 35
  | s_req_http_HTTP => 36
  | s_req_http_I => 37
  | s_req_http_IC => 38
  | s_req_http_major => 39
  | s_req_http_dot => 40
  | s_req_http_minor => 41
  | s_req_http_end => 42
  | s_req_line_almost_done => 43
  | s_header_field_start => 44
  | s_header_field => 45
  | s_header_value_discard_ws => 46
  | s_header_value_discard_ws_almost_done => 47
  | s_header_value_discard_lws => 48
  | s_header_value_start => 49
  | s_header_value => 50
  | s_header_value_lws => 51
  | s_header_almost_done => 52
  | s_chunk_size_start => 53
  | s_chunk_size => 54
  | s_chunk_parameters => 55
  | s_chunk_size_almost_done => 56
  | s_headers_almost_done => 57
  | s_headers_done => 58
  | s_chunk_data => 59
  | s_chunk_data_almost_done => 60
  | s_chunk_data_done => 61
  | s_body_identity => 62
  | s_body_identity_eof => 63
  | s_message_done => 64
  end.

Definition PARSING_HEADER (s : state) : bool := state_num s <=? state_num s_headers_done.

Inductive header_states :=
  | h_general | h_C | h_CO | h_CON | h_matching_connection | h_matching_proxy_connection
  | h_matching_content_length | h_matching_transfer_encoding | h_matching_upgrade
  | h_connection | h_content_length | h_content_length_num | h_content_length_ws
  | h_transfer_encoding | h_upgrade | h_matching_transfer_encoding_token_start
  | h_matching_transfer_encoding_chunked | h_matching_transfer_encoding_token
  | h_matching_connection_token_start | h_matching_connection_keep_alive
  | h_matching_connection_close | h_matching_connection_upgrade | h_matching_connection_token
  | h_transfer_encoding_chunked | h_connection_keep_alive | h_connection_close
  | h_connection_upgrade.

#[export] Instance header_states_eq_dec : EqDecision header_states.
Proof. solve_decision. Defined.

Inductive http_host_state :=
  | s_http_host_dead | s_http_userinfo_start | s_http_userinfo | s_http_host_start
  | s_http_host_v6_start | s_http_host | s_http_host_v6 | s_http_host_v6_end
  | s_http_host_v6_zone_start | s_http_host_v6_zone | s_http_host_port_start
  | s_http_host_port.

#[export] Instance http_host_state_eq_dec : EqDecision http_host_state.
Proof. solve_decision. Defined.

Inductive http_parser_type := HTTP_REQUEST | HTTP_RESPONSE | HTTP_BOTH.

#[export] Instance http_parser_type_eq_dec : EqDecision http_parser_type.
Proof. solve_decision. Defined.

Inductive http_errno :=
  | HPE_OK | HPE_CB_message_begin | HPE_CB_url | HPE_CB_header_field | HPE_CB_header_value
  | HPE_CB_headers_complete | HPE_CB_body | HPE_CB_message_complete | HPE_CB_status
  | HPE_CB_chunk_header | HPE_CB_chunk_complete | HPE_INVALID_EOF_STATE | HPE_HEADER_OVERFLOW
  | HPE_CLOSED_CONNECTION | HPE_INVALID_VERSION | HPE_INVALID_STATUS | HPE_INVALID_METHOD
  | HPE_INVALID_URL | HPE_INVALID_HOST | HPE_INVALID_PORT | HPE_INVALID_PATH
  | HPE_INVALID_QUERY_STRING | HPE_INVALID_FRAGMENT | HPE_LF_EXPECTED
  | HPE_INVALID_HEADER_TOKEN | HPE_INVALID_CONTENT_LENGTH | HPE_UNEXPECTED_CONTENT_LENGTH
  | HPE_INVALID_CHUNK_SIZE | HPE_INVALID_CONSTANT | HPE_INVALID_INTERNAL_STATE | HPE_STRICT
  | HPE_PAUSED | HPE_UNKNOWN | HPE_INVALID_TRANSFER_ENCODING.

#[export] Instance http_errno_eq_dec : EqDecision http_errno.
Proof. solve_decision. Defined.

(** The methods the parser names; a method is its number. *)
Definition HTTP_DELETE : Z := 0.
Definition HTTP_GET : Z := 1.
Definition HTTP_HEAD : Z := 2.
Definition HTTP_POST : Z := 3.
Definition HTTP_PUT : Z := 4.
Definition HTTP_CONNECT : Z := 5.
Definition HTTP_OPTIONS : Z := 6.
Definition HTTP_TRACE : Z := 7.
Definition HTTP_COPY : Z := 8.
Definition HTTP_LOCK : Z := 9.
Definition HTTP_MKCOL : Z := 10.
Definition HTTP_MOVE : Z := 11.
Definition HTTP_PROPFIND : Z := 12.
Definition HTTP_PROPPATCH : Z := 13.
Definition HTTP_SEARCH : Z := 14.
Definition HTTP_UNLOCK : Z := 15.
Definition HTTP_BIND : Z := 16.
Definition HTTP_REBIND : Z := 17.
Definition HTTP_UNBIND : Z := 18.
Definition HTTP_ACL : Z := 19.
Definition HTTP_REPORT : Z := 20.
Definition HTTP_MKACTIVITY : Z := 21.
Definition HTTP_CHECKOUT : Z := 22.
Definition HTTP_MERGE : Z := 23.
Definition HTTP_MSEARCH : Z := 24.
Definition HTTP_NOTIFY : Z := 25.
Definition HTTP_SUBSCRIBE : Z := 26.
Definition HTTP_UNSUBSCRIBE : Z := 27.
Definition HTTP_PATCH : Z := 28.
Definition HTTP_PURGE : Z := 29.
Definition HTTP_MKCALENDAR : Z := 30.
Definition HTTP_LINK : Z := 31.
Definition HTTP_UNLINK : Z := 32.
Definition HTTP_SOURCE : Z := 33.

Definition method_strings : list string :=
  ["DELETE"; "GET"; "HEAD"; "POST"; "PUT"; "CONNECT"; "OPTIONS"; "TRACE";
   "COPY"; "LOCK"; "MKCOL"; "MOVE"; "PROPFIND"; "PROPPATCH"; "SEARCH"; "UNLOCK";
   "BIND"; "REBIND"; "UNBIND"; "ACL"; "REPORT"; "MKACTIVITY"; "CHECKOUT"; "MERGE";
   "M-SEARCH"; "NOTIFY"; "SUBSCRIBE"; "UNSUBSCRIBE"; "PATCH"; "PURGE"; "MKCALENDAR"; "LINK";
   "UNLINK"; "SOURCE"].

(** The flags *)
Definition F_CHUNKED : Z := 1.
Definition F_CONNECTION_KEEP_ALIVE : Z := 2.
Definition F_CONNECTION_CLOSE : Z := 4.
Definition F_CONNECTION_UPGRADE : Z := 8.
Definition F_TRAILING : Z := 16.
Definition F_UPGRADE : Z := 32.
Definition F_SKIPBODY : Z := 64.
Definition F_CONTENTLENGTH : Z := 128.

(** [flags & f], as a condition *)
Definition has_flag (flags f : Z) : bool := negb (Z.land flags f =? 0).

(** [flags |= f] *)
Definition with_flag (f flags : Z) : Z := Z.lor flags f.

(** ** [struct http_parser]

    Bit fields and integers of [w] bits hold values below [2 ^ w]; [data] is the
    state of the user, which the callbacks carry. *)

Record http_parser := Parser {
  type : http_parser_type;
  flags : Z;
  state_ : state;
  header_state : header_states;
  index : Z;
  uses_transfer_encoding : Z;
  allow_chunked_length : Z;
  lenient_http_headers : Z;
  nread_ : Z;
  content_length : Z;
  http_major : Z;
  http_minor : Z;
  status_code : Z;
  method : Z;
  errno_ : http_errno;
  upgrade : Z
}.

Definition set_type (f : http_parser_type -> http_parser_type) (x : http_parser) : http_parser :=
  Parser (f (type x)) (flags x) (state_ x) (header_state x) (index x) (uses_transfer_encoding x)
    (allow_chunked_length x) (lenient_http_headers x) (nread_ x) (content_length x)
    (http_major x) (http_minor x) (status_code x) (method x) (errno_ x) (upgrade x).
Definition set_flags (f : Z -> Z) (x : http_parser) : http_parser :=
  Parser (type x) (f (flags x)) (state_ x) (header_state x) (index x) (uses_transfer_encoding x)
    (allow_chunked_length x) (lenient_http_headers x) (nread_ x) (content_length x)
    (http_major x) (http_minor x) (status_code x) (method x) (errno_ x) (upgrade x).
Definition set_state (f : state -> state) (x : http_parser) : http_parser :=
  Parser (type x) (flags x) (f (state_ x)) (header_state x) (index x) (uses_transfer_encoding x)
    (allow_chunked_length x) (lenient_http_headers x) (nread_ x) (content_length x)
    (http_major x) (http_minor x) (status_code x) (method x) (errno_ x) (upgrade x).
Definition set_header_state (f : header_states -> header_states) (x : http_parser) : http_parser :=
  Parser (type x) (flags x) (state_ x) (f (header_state x)) (index x) (uses_transfer_encoding x)
    (allow_chunked_length x) (lenient_http_headers x) (nread_ x) (content_length x)
    (http_major x) (http_minor x) (status_code x) (method x) (errno_ x) (upgrade x).
Definition set_index (f : Z -> Z) (x : http_parser) : http_parser :=
  Parser (type x) (flags x) (state_ x) (header_state x) (f (index x)) (uses_transfer_encoding x)
    (allow_chunked_length x) (lenient_http_headers x) (nread_ x) (content_length x)
    (http_major x) (http_minor x) (status_code x) (method x) (errno_ x) (upgrade x).
Definition set_uses_transfer_encoding (f : Z -> Z) (x : http_parser) : http_parser :=
  Parser (type x) (flags x) (state_ x) (header_state x) (index x) (f (uses_transfer_encoding x))
    (allow_chunked_length x) (lenient_http_headers x) (nread_ x) (content_length x)
    (http_major x) (http_minor x) (status_code x) (method x) (errno_ x) (upgrade x).
Definition set_allow_chunked_length (f : Z -> Z) (x : http_parser) : http_parser :=
  Parser (type x) (flags x) (state_ x) (header_state x) (index x) (uses_transfer_encoding x)
    (f (allow_chunked_length x)) (lenient_http_headers x) (nread_ x) (content_length x)
    (http_major x) (http_minor x) (status_code x) (method x) (errno_ x) (upgrade x).
Definition set_lenient_http_headers (f : Z -> Z) (x : http_parser) : http_parser :=
  Parser (type x) (flags x) (state_ x) (header_state x) (index x) (uses_transfer_encoding x)
    (allow_chunked_length x) (f (lenient_http_headers x)) (nread_ x) (content_length x)
    (http_major x) (http_minor x) (status_code x) (method x) (errno_ x) (upgrade x).
Definition set_nread (f : Z -> Z) (x : http_parser) : http_parser :=
  Parser (type x) (flags x) (state_ x) (header_state x) (index x) (uses_transfer_encoding x)
    (allow_chunked_length x) (lenient_http_headers x) (f (nread_ x)) (content_length x)
    (http_major x) (http_minor x) (status_code x) (method x) (errno_ x) (upgrade x).
Definition set_content_length (f : Z -> Z) (x : http_parser) : http_parser :=
  Parser (type x) (flags x) (state_ x) (header_state x) (index x) (uses_transfer_encoding x)
    (allow_chunked_length x) (lenient_http_headers x) (nread_ x) (f (content_length x))
    (http_major x) (http_minor x) (status_code x) (method x) (errno_ x) (upgrade x).
Definition set_http_major (f : Z -> Z) (x : http_parser) : http_parser :=
  Parser (type x) (flags x) (state_ x) (header_state x) (index x) (uses_transfer_encoding x)
    (allow_chunked_length x) (lenient_http_headers x) (nread_ x) (content_length x)
    (f (http_major x)) (http_minor x) (status_code x) (method x) (errno_ x) (upgrade x).
Definition set_http_minor (f : Z -> Z) (x : http_parser) : http_parser :=
  Parser (type x) (flags x) (state_ x) (header_state x) (index x) (uses_transfer_encoding x)
    (allow_chunked_length x) (lenient_http_headers x) (nread_ x) (content_length x)
    (http_major x) (f (http_minor x)) (status_code x) (method x) (errno_ x) (upgrade x).
Definition set_status_code (f : Z -> Z) (x : http_parser) : http_parser :=
  Parser (type x) (flags x) (state_ x) (header_state x) (index x) (uses_transfer_encoding x)
    (allow_chunked_length x) (lenient_http_headers x) (nread_ x) (content_length x)
    (http_major x) (http_minor x) (f (status_code x)) (method x) (errno_ x) (upgrade x).
Definition set_method (f : Z -> Z) (x : http_parser) : http_parser :=
  Parser (type x) (flags x) (state_ x) (header_state x) (index x) (uses_transfer_encoding x)
    (allow_chunked_length x) (lenient_http_headers x) (nread_ x) (content_length x)
    (http_major x) (http_minor x) (status_code x) (f (method x)) (errno_ x) (upgrade x).
Definition set_errno (f : http_errno -> http_errno) (x : http_parser) : http_parser :=
  Parser (type x) (flags x) (state_ x) (header_state x) (index x) (uses_transfer_encoding x)
    (allow_chunked_length x) (lenient_http_headers x) (nread_ x) (content_length x)
    (http_major x) (http_minor x) (status_code x) (method x) (f (errno_ x)) (upgrade x).
Definition set_upgrade (f : Z -> Z) (x : http_parser) : http_parser :=
  Parser (type x) (flags x) (state_ x) (header_state x) (index x) (uses_transfer_encoding x)
    (allow_chunked_length x) (lenient_http_headers x) (nread_ x) (content_length x)
    (http_major x) (http_minor x) (status_code x) (method x) (errno_ x) (f (upgrade x)).

(** ** Users of the parser

    A callback gets the parser and its user's state; a data callback also the
    range of the buffer it is told about, as offset and length.  A null pointer
    is [None]. *)

Definition http_cb (U : Type) : Type := http_parser -> U -> Z * http_parser * U.
Definition http_data_cb (U : Type) : Type := Z -> Z -> http_parser -> U -> Z * http_parser * U.

Record http_parser_settings (U : Type) := Settings {
  on_message_begin : option (http_cb U);
  on_url : option (http_data_cb U);
  on_status : option (http_data_cb U);
  on_header_field : option (http_data_cb U);
  on_header_value : option (http_data_cb U);
  on_headers_complete : option (http_cb U);
  on_body : option (http_data_cb U);
  on_message_complete : option (http_cb U);
  on_chunk_header : option (http_cb U);
  on_chunk_complete : option (http_cb U)
}.
Arguments on_message_begin {U} _.
Arguments on_url {U} _.
Arguments on_status {U} _.
Arguments on_header_field {U} _.
Arguments on_header_value {U} _.
Arguments on_headers_complete {U} _.
Arguments on_body {U} _.
Arguments on_message_complete {U} _.
Arguments on_chunk_header {U} _.
Arguments on_chunk_complete {U} _.

(** ** Tables *)

(** [tokens]: the lower case of each token character, 0 for the others. *)
Definition tokens : list Z :=
  [0; 0; 0; 0; 0; 0; 0; 0; 0; 0; 0; 0; 0; 0; 0; 0;
   0; 0; 0; 0; 0; 0; 0; 0; 0; 0; 0; 0; 0; 0; 0; 0;
   32; 33; 0; 35; 36; 37; 38; 39; 0; 0; 42; 43; 0; 45; 46; 0;
   48; 49; 50; 51; 52; 53; 54; 55; 56; 57; 0; 0; 0; 0; 0; 0;
   0; 97; 98; 99; 100; 101; 102; 103; 104; 105; 106; 107; 108; 109; 110; 111;
   112; 113; 114; 115; 116; 117; 118; 119; 120; 121; 122; 0; 0; 0; 94; 95;
   96; 97; 98; 99; 100; 101; 102; 103; 104; 105; 106; 107; 108; 109; 110; 111;
   112; 113; 114; 115; 116; 117; 118; 119; 120; 121; 122; 0; 124; 0; 126; 0] ++ replicate 128 0.

(** [unhex]: the initialiser names 128 of the 256 values; C fills in zeros. *)
Definition unhex : list Z :=
  [(-1); (-1); (-1); (-1); (-1); (-1); (-1); (-1); (-1); (-1); (-1); (-1); (-1); (-1); (-1); (-1);
   (-1); (-1); (-1); (-1); (-1); (-1); (-1); (-1); (-1); (-1); (-1); (-1); (-1); (-1); (-1); (-1);
   (-1); (-1); (-1); (-1); (-1); (-1); (-1); (-1); (-1); (-1); (-1); (-1); (-1); (-1); (-1); (-1);
   0; 1; 2; 3; 4; 5; 6; 7; 8; 9; (-1); (-1); (-1); (-1); (-1); (-1);
   (-1); 10; 11; 12; 13; 14; 15; (-1); (-1); (-1); (-1); (-1); (-1); (-1); (-1); (-1);
   (-1); (-1); (-1); (-1); (-1); (-1); (-1); (-1); (-1); (-1); (-1); (-1); (-1); (-1); (-1); (-1);
   (-1); 10; 11; 12; 13; 14; 15; (-1); (-1); (-1); (-1); (-1); (-1); (-1); (-1); (-1);
   (-1); (-1); (-1); (-1); (-1); (-1); (-1); (-1); (-1); (-1); (-1); (-1); (-1); (-1); (-1); (-1)] ++ replicate 128 0.

Definition token_at (c : Z) : Z := default 0 (tokens !! Z.to_nat c).
Definition unhex_at (c : Z) : Z := default 0 (unhex !! Z.to_nat c).

(** ** Character classes *)

(** [LOWER(c)]: [(unsigned char)(c | 0x20)] *)
Definition LOWER (c : Z) : Z := Z.lor c 32.
Definition IS_ALPHA (c : Z) : bool := (chr "a" <=? LOWER c) && (LOWER c <=? chr "z").
Definition IS_NUM (c : Z) : bool := (chr "0" <=? c) && (c <=? chr "9").
Definition IS_ALPHANUM (c : Z) : bool := IS_ALPHA c || IS_NUM c.
Definition IS_HEX (c : Z) : bool := IS_NUM c || ((chr "a" <=? LOWER c) && (LOWER c <=? chr "f")).
Definition IS_MARK (c : Z) : bool :=
  (c =? chr "-") || (c =? chr "_") || (c =? chr ".") || (c =? chr "!") || (c =? chr "~") ||
  (c =? chr "*") || (c =? chr "'") || (c =? chr "(") || (c =? chr ")").
Definition IS_USERINFO_CHAR (c : Z) : bool :=
  IS_ALPHANUM c || IS_MARK c || (c =? chr "%") || (c =? chr ";") || (c =? chr ":") ||
  (c =? chr "&") || (c =? chr "=") || (c =? chr "+") || (c =? chr "$") || (c =? chr ",").
Definition IS_SCHEMA_CHAR (c : Z) : bool :=
  IS_ALPHANUM c || (c =? chr ".") || (c =? chr "-") || (c =? chr "+").
Definition STRICT_TOKEN (c : Z) : Z := if c =? chr " " then 0 else token_at c.
Definition IS_HEADER_CHAR (c : Z) : bool :=
  (c =? CR) || (c =? LF) || (c =? 9) || ((31 <? c) && negb (c =? 127)).

(** [HTTP_PARSER_STRICT] is a parameter of what depends on it. *)
Section Strict.
Variable strict : bool.

(** [T(v)] *)
Definition T (v : Z) : Z := if strict then 0 else v.

(** [normal_url_char]: a bit per ASCII character *)
Definition normal_url_char : list Z :=
  [0; T 2 + T 16 + 0; 0; 0; 246; 255; 255; 127; 255; 255; 255; 255; 255; 255; 255; 127].

(** [BIT_AT(normal_url_char, c)]; the table has 32 bytes, the last 16 of
    which C fills with zeros. *)
Definition normal_url_bit (c : Z) : bool :=
  Z.testbit (default 0 (normal_url_char !! Z.to_nat (Z.shiftr c 3))) (Z.land c 7).

Definition TOKEN (c : Z) : Z := if strict then STRICT_TOKEN c else token_at c.
Definition IS_URL_CHAR (c : Z) : bool :=
  if strict then normal_url_bit c else normal_url_bit c || negb (Z.land c 128 =? 0).
Definition IS_HOST_CHAR (c : Z) : bool :=
  if strict then IS_ALPHANUM c || (c =? chr ".") || (c =? chr "-")
  else IS_ALPHANUM c || (c =? chr ".") || (c =? chr "-") || (c =? chr "_").
End Strict.

(** ** Names *)

(** [http_strerror_tab], in the order of the enumeration *)
Definition http_strerror_tab : list (http_errno * string * string) :=
  [(HPE_OK, "HPE_OK", "success");
   (HPE_CB_message_begin, "HPE_CB_message_begin", "the on_message_begin callback failed");
   (HPE_CB_url, "HPE_CB_url", "the on_url callback failed");
   (HPE_CB_header_field, "HPE_CB_header_field", "the on_header_field callback failed");
   (HPE_CB_header_value, "HPE_CB_header_value", "the on_header_value callback failed");
   (HPE_CB_headers_complete, "HPE_CB_headers_complete", "the on_headers_complete callback failed");
   (HPE_CB_body, "HPE_CB_body", "the on_body callback failed");
   (HPE_CB_message_complete, "HPE_CB_message_complete", "the on_message_complete callback failed");
   (HPE_CB_status, "HPE_CB_status", "the on_status callback failed");
   (HPE_CB_chunk_header, "HPE_CB_chunk_header", "the on_chunk_header callback failed");
   (HPE_CB_chunk_complete, "HPE_CB_chunk_complete", "the on_chunk_complete callback failed");
   (HPE_INVALID_EOF_STATE, "HPE_INVALID_EOF_STATE", "stream ended at an unexpected time");
   (HPE_HEADER_OVERFLOW, "HPE_HEADER_OVERFLOW", "too many header bytes seen; overflow detected");
   (HPE_CLOSED_CONNECTION, "HPE_CLOSED_CONNECTION", "data received after completed connection: close message");
   (HPE_INVALID_VERSION, "HPE_INVALID_VERSION", "invalid HTTP version");
   (HPE_INVALID_STATUS, "HPE_INVALID_STATUS", "invalid HTTP status code");
   (HPE_INVALID_METHOD, "HPE_INVALID_METHOD", "invalid HTTP method");
   (HPE_INVALID_URL, "HPE_INVALID_URL", "invalid URL");
   (HPE_INVALID_HOST, "HPE_INVALID_HOST", "invalid host");
   (HPE_INVALID_PORT, "HPE_INVALID_PORT", "invalid port");
   (HPE_INVALID_PATH, "HPE_INVALID_PATH", "invalid path");
   (HPE_INVALID_QUERY_STRING, "HPE_INVALID_QUERY_STRING", "invalid query string");
   (HPE_INVALID_FRAGMENT, "HPE_INVALID_FRAGMENT", "invalid fragment");
   (HPE_LF_EXPECTED, "HPE_LF_EXPECTED", "LF character expected");
   (HPE_INVALID_HEADER_TOKEN, "HPE_INVALID_HEADER_TOKEN", "invalid character in header");
   (HPE_INVALID_CONTENT_LENGTH, "HPE_INVALID_CONTENT_LENGTH", "invalid character in content-length header");
   (HPE_UNEXPECTED_CONTENT_LENGTH, "HPE_UNEXPECTED_CONTENT_LENGTH", "unexpected content-length header");
   (HPE_INVALID_CHUNK_SIZE, "HPE_INVALID_CHUNK_SIZE", "invalid character in chunk size header");
   (HPE_INVALID_CONSTANT, "HPE_INVALID_CONSTANT", "invalid constant string");
   (HPE_INVALID_INTERNAL_STATE, "HPE_INVALID_INTERNAL_STATE", "encountered unexpected internal state");
   (HPE_STRICT, "HPE_STRICT", "strict mode assertion failed");
   (HPE_PAUSED, "HPE_PAUSED", "parser is paused");
   (HPE_UNKNOWN, "HPE_UNKNOWN", "an unknown error occurred");
   (HPE_INVALID_TRANSFER_ENCODING, "HPE_INVALID_TRANSFER_ENCODING", "request has invalid transfer-encoding")].

(** [HTTP_STATUS_MAP] *)
Definition status_map : list (Z * string) :=
  [(100, "Continue"); (101, "Switching Protocols"); (102, "Processing");
   (200, "OK"); (201, "Created"); (202, "Accepted");
   (203, "Non-Authoritative Information"); (204, "No Content"); (205, "Reset Content");
   (206, "Partial Content"); (207, "Multi-Status"); (208, "Already Reported");
   (226, "IM Used"); (300, "Multiple Choices"); (301, "Moved Permanently");
   (302, "Found"); (303, "See Other"); (304, "Not Modified");
   (305, "Use Proxy"); (307, "Temporary Redirect"); (308, "Permanent Redirect");
   (400, "Bad Request"); (401, "Unauthorized"); (402, "Payment Required");
   (403, "Forbidden"); (404, "Not Found"); (405, "Method Not Allowed");
   (406, "Not Acceptable"); (407, "Proxy Authentication Required"); (408, "Request Timeout");
   (409, "Conflict"); (410, "Gone"); (411, "Length Required");
   (412, "Precondition Failed"); (413, "Payload Too Large"); (414, "URI Too Long");
   (415, "Unsupported Media Type"); (416, "Range Not Satisfiable"); (417, "Expectation Failed");
   (421, "Misdirected Request"); (422, "Unprocessable Entity"); (423, "Locked");
   (424, "Failed Dependency"); (426, "Upgrade Required"); (428, "Precondition Required");
   (429, "Too Many Requests"); (431, "Request Header Fields Too Large"); (451, "Unavailable For Legal Reasons");
   (500, "Internal Server Error"); (501, "Not Implemented"); (502, "Bad Gateway");
   (503, "Service Unavailable"); (504, "Gateway Timeout"); (505, "HTTP Version Not Supported");
   (506, "Variant Also Negotiates"); (507, "Insufficient Storage"); (508, "Loop Detected");
   (510, "Not Extended"); (511, "Network Authentication Required")].
