(* ===== verification/HttpUrl.v ===== *)
(** The URL parser (src/bazel/external/http_parser/http_parser.c): the
    character automaton that [http_parser_execute] shares, and
    [http_parser_parse_url] with its host parser. *)
From S2P Require Import Prelude HttpTypes.

Local Open Scope Z_scope.
Local Open Scope cpp_scope.

(** ** [enum http_parser_url_fields], [struct http_parser_url] *)

Definition UF_SCHEMA : nat := 0.
Definition UF_HOST : nat := 1.
Definition UF_PORT : nat := 2.
Definition UF_PATH : nat := 3.
Definition UF_QUERY : nat := 4.
Definition UF_FRAGMENT : nat := 5.
Definition UF_USERINFO : nat := 6.
Definition UF_MAX : nat := 7.

Record url_field := Field { off : Z; len : Z }.

Record http_parser_url := Url {
  field_set : Z;
  port : Z;
  field_data : list url_field
}.

(** [http_parser_url_init] *)
Definition http_parser_url_init : http_parser_url := Url 0 0 (replicate UF_MAX (Field 0 0)).

Definition field (f : nat) (u : http_parser_url) : url_field := default (Field 0 0) (field_data u !! f).

Definition change_field (f : nat) (g : url_field -> url_field) : M http_parser_url unit :=
  modify (fun u => Url (field_set u) (port u) (alter g f (field_data u))).

(** [u->field_data[f].off = (uint16_t) z] *)
Definition set_off (f : nat) (z : Z) : M http_parser_url unit :=
  change_field f (fun x => Field (u16 z) (len x)).
Definition set_len (f : nat) (z : Z) : M http_parser_url unit :=
  change_field f (fun x => Field (off x) (u16 z)).
(** [u->field_data[f].len++] *)
Definition grow (f : nat) : M http_parser_url unit :=
  change_field f (fun x => Field (off x) (u16 (len x + 1))).

Definition set_field_set (g : Z -> Z) : M http_parser_url unit :=
  modify (fun u => Url (g (field_set u)) (port u) (field_data u)).
Definition set_port (z : Z) : M http_parser_url unit :=
  modify (fun u => Url (field_set u) z (field_data u)).

(** [1 << f] *)
Definition uf_bit (f : nat) : Z := Z.shiftl 1 (Z.of_nat f).

(** [u->field_set & (1 << f)] *)
Definition has_field (f : nat) (u : http_parser_url) : bool :=
  negb (Z.land (field_set u) (uf_bit f) =? 0).

(** [u->field_set |= (1 << f)] *)
Definition add_field (f : nat) : M http_parser_url unit :=
  set_field_set (fun z => Z.lor z (uf_bit f)).

Section Url.
Variable strict : bool.

(** ** [parse_url_char] *)

Definition server_char (ch : Z) : state :=
  if ch =? chr "/" then s_req_path
  else if ch =? chr "?" then s_req_query_string_start
  else if ch =? chr "@" then s_req_server_with_at
  else if IS_USERINFO_CHAR ch || (ch =? chr "[") || (ch =? chr "]") then s_req_server
  else s_dead.

Definition parse_url_char (s : state) (ch : Z) : state :=
  if (ch =? chr " ") || (ch =? CR) || (ch =? LF) then s_dead
  else if strict && ((ch =? TAB) || (ch =? FF)) then s_dead
  else
    match s with
    | s_req_spaces_before_url =>
        if (ch =? chr "/") || (ch =? chr "*") then s_req_path
        else if IS_ALPHA ch then s_req_schema
        else s_dead
    | s_req_schema =>
        if IS_SCHEMA_CHAR ch then s
        else if ch =? chr ":" then s_req_schema_slash
        else s_dead
    | s_req_schema_slash => if ch =? chr "/" then s_req_schema_slash_slash else s_dead
    | s_req_schema_slash_slash => if ch =? chr "/" then s_req_server_start else s_dead
    | s_req_server_with_at => if ch =? chr "@" then s_dead else server_char ch
    | s_req_server_start | s_req_server => server_char ch
    | s_req_path =>
        if IS_URL_CHAR strict ch then s
        else if ch =? chr "?" then s_req_query_string_start
        else if ch =? chr "#" then s_req_fragment_start
        else s_dead
    | s_req_query_string_start | s_req_query_string =>
        if IS_URL_CHAR strict ch then s_req_query_string
        else if ch =? chr "?" then s_req_query_string
        else if ch =? chr "#" then s_req_fragment_start
        else s_dead
    | s_req_fragment_start =>
        if IS_URL_CHAR strict ch then s_req_fragment
        else if ch =? chr "?" then s_req_fragment
        else if ch =? chr "#" then s
        else s_dead
    | s_req_fragment =>
        if IS_URL_CHAR strict ch then s
        else if (ch =? chr "?") || (ch =? chr "#") then s
        else s_dead
    | _ => s_dead
    end.

(** ** [http_parse_host_char] *)

Definition host_end_char (ch : Z) : http_host_state :=
  if ch =? chr ":" then s_http_host_port_start else s_http_host_dead.

Definition host_v6_char (s : http_host_state) (ch : Z) : http_host_state :=
  if IS_HEX ch || (ch =? chr ":") || (ch =? chr ".") then s_http_host_v6
  else if bool_decide (s = s_http_host_v6) && (ch =? chr "%") then s_http_host_v6_zone_start
  else s_http_host_dead.

Definition host_zone_char (ch : Z) : http_host_state :=
  if IS_ALPHANUM ch || (ch =? chr "%") || (ch =? chr ".") || (ch =? chr "-") || (ch =? chr "_")
     || (ch =? chr "~") then s_http_host_v6_zone
  else s_http_host_dead.

Definition http_parse_host_char (s : http_host_state) (ch : Z) : http_host_state :=
  match s with
  | s_http_userinfo | s_http_userinfo_start =>
      if ch =? chr "@" then s_http_host_start
      else if IS_USERINFO_CHAR ch then s_http_userinfo
      else s_http_host_dead
  | s_http_host_start =>
      if ch =? chr "[" then s_http_host_v6_start
      else if IS_HOST_CHAR strict ch then s_http_host
      else s_http_host_dead
  | s_http_host => if IS_HOST_CHAR strict ch then s_http_host else host_end_char ch
  | s_http_host_v6_end => host_end_char ch
  | s_http_host_v6 => if ch =? chr "]" then s_http_host_v6_end else host_v6_char s ch
  | s_http_host_v6_start => host_v6_char s ch
  | s_http_host_v6_zone => if ch =? chr "]" then s_http_host_v6_end else host_zone_char ch
  | s_http_host_v6_zone_start => host_zone_char ch
  | s_http_host_port | s_http_host_port_start =>
      if IS_NUM ch then s_http_host_port else s_http_host_dead
  | _ => s_http_host_dead
  end.

Section Buffer.
Variable buf : list Z.

(** [*p], for [p] at offset [i] of the buffer *)
Definition url_char_at (i : Z) : M http_parser_url Z :=
  or_fault IndexOutOfRange (buf !! Z.to_nat i).

(** ** [http_parse_host] *)

(** The switch on [new_s], at offset [i]. *)
Definition host_fields (s new_s : http_host_state) (i : Z) : M http_parser_url unit :=
  match new_s with
  | s_http_host =>
      when (bool_decide (s <> s_http_host)) (set_off UF_HOST i);;;
      grow UF_HOST
  | s_http_host_v6 =>
      when (bool_decide (s <> s_http_host_v6)) (set_off UF_HOST i);;;
      grow UF_HOST
  | s_http_host_v6_zone_start | s_http_host_v6_zone => grow UF_HOST
  | s_http_host_port =>
      when (bool_decide (s <> s_http_host_port))
        (set_off UF_PORT i;;; set_len UF_PORT 0;;; add_field UF_PORT);;;
      grow UF_PORT
  | s_http_userinfo =>
      when (bool_decide (s <> s_http_userinfo))
        (set_off UF_USERINFO i;;; set_len UF_USERINFO 0;;; add_field UF_USERINFO);;;
      grow UF_USERINFO
  | _ => ret tt
  end.

(** The loop, [n] characters from offset [i] on; nothing for [return 1]. *)
Fixpoint host_loop (n : nat) (i : Z) (s : http_host_state) : M http_parser_url (option http_host_state) :=
  match n with
  | O => ret (Some s)
  | S n =>
      let* ch := url_char_at i in
      let new_s := http_parse_host_char s ch in
      if decide (new_s = s_http_host_dead) then ret None
      else
        host_fields s new_s i;;;
        host_loop n (i + 1) new_s
  end.

(** The states in which a host must not end. *)
Definition host_unfinished (s : http_host_state) : bool :=
  match s with
  | s_http_host_start | s_http_host_v6_start | s_http_host_v6 | s_http_host_v6_zone_start
  | s_http_host_v6_zone | s_http_host_port_start | s_http_userinfo | s_http_userinfo_start => true
  | _ => false
  end.

Definition http_parse_host (found_at : bool) : M http_parser_url Z :=
  let* u := gets id in
  let start := off (field UF_HOST u) in
  let buflen := start + len (field UF_HOST u) in
  assert_ (has_field UF_HOST u);;;
  set_len UF_HOST 0;;;
  let s := if found_at then s_http_userinfo_start else s_http_host_start in
  let* r := host_loop (Z.to_nat (buflen - start)) start s in
  match r with
  | None => ret 1
  | Some s => if host_unfinished s then ret 1 else ret 0
  end.

(** ** [http_parser_parse_url] *)

(** The field a state belongs to; delimiters belong to none. *)
Inductive url_class := Dead | Delimiter | InField (uf : nat) | Unexpected.

Definition classify (s : state) : url_class :=
  match s with
  | s_dead => Dead
  | s_req_schema_slash | s_req_schema_slash_slash | s_req_server_start
  | s_req_query_string_start | s_req_fragment_start => Delimiter
  | s_req_schema => InField UF_SCHEMA
  | s_req_server_with_at | s_req_server => InField UF_HOST
  | s_req_path => InField UF_PATH
  | s_req_query_string => InField UF_QUERY
  | s_req_fragment => InField UF_FRAGMENT
  | _ => Unexpected
  end.

(** The loop: nothing for [return 1], else [found_at]. *)
Fixpoint url_loop (n : nat) (i : Z) (s : state) (old_uf : nat) (found_at : bool)
    : M http_parser_url (option bool) :=
  match n with
  | O => ret (Some found_at)
  | S n =>
      let* ch := url_char_at i in
      let s := parse_url_char s ch in
      let found_at := found_at || bool_decide (s = s_req_server_with_at) in
      match classify s with
      | Dead => ret None
      | Delimiter => url_loop n (i + 1) s old_uf found_at
      | Unexpected => assert_ false;;; ret None
      | InField uf =>
          if decide (uf = old_uf) then grow uf;;; url_loop n (i + 1) s old_uf found_at
          else
            set_off uf i;;;
            set_len uf 1;;;
            add_field uf;;;
            url_loop n (i + 1) s uf found_at
      end
  end.

(** The digits of the port: nothing when the value exceeds 65535. *)
Fixpoint port_loop (n : nat) (i : Z) (v : Z) : M http_parser_url (option Z) :=
  match n with
  | O => ret (Some v)
  | S n =>
      let* ch := url_char_at i in
      let v := u64 (u64 (v * 10) + (ch - chr "0")) in
      if v >? 65535 then ret None else port_loop n (i + 1) v
  end.

Definition parse_port : M http_parser_url Z :=
  let* u := gets id in
  let start := off (field UF_PORT u) in
  let n := len (field UF_PORT u) in
  assert_ (start + n <=? Z.of_nat (length buf));;;
  let* v := port_loop (Z.to_nat n) start 0 in
  match v with
  | None => ret 1
  | Some v => set_port (u16 v);;; ret 0
  end.

Definition http_parser_parse_url (is_connect : bool) : M http_parser_url Z :=
  if Z.of_nat (length buf) =? 0 then ret 1
  else
    set_port 0;;;
    set_field_set (fun _ => 0);;;
    let s := if is_connect then s_req_server_start else s_req_spaces_before_url in
    let* r := url_loop (length buf) 0 s UF_MAX false in
    match r with
    | None => ret 1
    | Some found_at =>
        let* u := gets id in
        if has_field UF_SCHEMA u && negb (has_field UF_HOST u) then ret 1
        else
          let* bad_host :=
            (if has_field UF_HOST u then http_parse_host found_at else ret 0) in
          if negb (bad_host =? 0) then ret 1
          else
            let* u := gets id in
            if is_connect && negb (field_set u =? Z.lor (uf_bit UF_HOST) (uf_bit UF_PORT)) then ret 1
            else if has_field UF_PORT u then parse_port
            else ret 0
    end.
End Buffer.
End Url.

(** The result for a C string, from a zeroed struct. *)
Definition url_of (strict is_connect : bool) (s : string) : outcome (Z * http_parser_url) :=
  http_parser_parse_url strict (chars s) is_connect http_parser_url_init.

Definition fields_of (strict is_connect : bool) (s : string) : option (Z * list (Z * Z)) :=
  match url_of strict is_connect s with
  | Done (0, u) => Some (port u, map (fun f => (off f, len f)) (field_data u))
  | _ => None
  end.

Example url_full : fields_of true false "http://user:pw@host.com:8080/p/a?q=1#frag"
  = Some (8080, [(0, 4); (15, 8); (24, 4); (28, 4); (33, 3); (37, 4); (7, 7)]).
Proof. vm_compute. reflexivity. Qed.

Example url_connect : fields_of true true "hostname:443" = Some (443, [(0, 0); (0, 8); (9, 3); (0, 0); (0, 0); (0, 0); (0, 0)]).
Proof. vm_compute. reflexivity. Qed.

Example url_v6 : fields_of true false "http://[1:2::3%25eth0]:67" = Some (67, [(0, 4); (8, 13); (23, 2); (0, 0); (0, 0); (0, 0); (0, 0)]).
Proof. vm_compute. reflexivity. Qed.

Example url_no_host : fields_of true false "http:///toto" = None.
Proof. vm_compute. reflexivity. Qed.

Example url_port_too_big : fields_of true false "http://a:65536/" = None.
Proof. vm_compute. reflexivity. Qed.
