(* ===== verification/HttpExec.v ===== *)
(** The machinery of [http_parser_execute] (src/bazel/external/http_parser/
    http_parser.c): its local variables and control flow as a state monad, the
    macros, and the queries on a parser that need no loop. *)
From S2P Require Import Prelude HttpTypes HttpUrl.

Local Open Scope Z_scope.

(** ** Queries *)

(** [http_message_needs_eof] *)
Definition http_message_needs_eof (x : http_parser) : bool :=
  if decide (type x = HTTP_REQUEST) then false
  else if (status_code x / 100 =? 1) || (status_code x =? 204) || (status_code x =? 304)
          || has_flag (flags x) F_SKIPBODY then false
  else if (uses_transfer_encoding x =? 1) && negb (has_flag (flags x) F_CHUNKED) then true
  else if has_flag (flags x) F_CHUNKED || negb (content_length x =? ULLONG_MAX) then false
  else true.

(** [http_should_keep_alive] *)
Definition http_should_keep_alive (x : http_parser) : bool :=
  if (http_major x >? 0) && (http_minor x >? 0) then
    if has_flag (flags x) F_CONNECTION_CLOSE then false else negb (http_message_needs_eof x)
  else
    if negb (has_flag (flags x) F_CONNECTION_KEEP_ALIVE) then false
    else negb (http_message_needs_eof x).

Definition start_state (x : http_parser) : state :=
  if decide (type x = HTTP_REQUEST) then s_start_req else s_start_res.

(** [http_parser_init]: everything zero but the type and the state.  Zero is
    not an enumerator of [state], and [h_general] and [HPE_OK] are zero. *)
Definition http_parser_init (t : http_parser_type) : http_parser :=
  Parser t 0
    (match t with
     | HTTP_REQUEST => s_start_req
     | HTTP_RESPONSE => s_start_res
     | HTTP_BOTH => s_start_req_or_res
     end) h_general 0 0 0 0 0 0 0 0 0 0 HPE_OK 0.

(** [http_parser_settings_init] *)
Definition http_parser_settings_init {U} : http_parser_settings U :=
  Settings U None None None None None None None None None None.

(** [http_method_str], through [ELEM_AT] *)
Definition http_method_str (m : Z) : string :=
  if m <? Z.of_nat (length method_strings) then default "<unknown>" (method_strings !! Z.to_nat m)
  else "<unknown>".

(** [http_status_str] *)
Definition http_status_str (s : Z) : string :=
  match list_find (fun e => e.1 = s) status_map with
  | Some (_, (_, name)) => name
  | None => "<unknown>"
  end.

Definition errno_num (e : http_errno) : option nat :=
  fst <$> list_find (fun x => x.1.1 = e) http_strerror_tab.

(** [http_errno_name], [http_errno_description] *)
Definition http_errno_name (e : http_errno) : string :=
  default "" (n ← errno_num e; x ← http_strerror_tab !! n; Some x.1.2).
Definition http_errno_description (e : http_errno) : string :=
  default "" (n ← errno_num e; x ← http_strerror_tab !! n; Some x.2).

(** [http_parser_pause]: an assertion fails in a state of error. *)
Definition http_parser_pause (paused : bool) (x : http_parser) : outcome http_parser :=
  if decide (errno_ x = HPE_OK \/ errno_ x = HPE_PAUSED)
  then Done (set_errno (fun _ => if paused then HPE_PAUSED else HPE_OK) x)
  else Faulted AssertFailure.

(** [http_body_is_final] *)
Definition http_body_is_final (x : http_parser) : bool := bool_decide (state_ x = s_message_done).

(** [http_parser_version], of version 2.9.4 *)
Definition http_parser_version : Z := Z.lor (Z.lor (2 * 65536) (9 * 256)) 4.

(** ** Locals of [http_parser_execute]

    Pointers into the buffer are offsets; [p] may run one past its end. *)

Record exec (U : Type) := Exec {
  parser : http_parser;
  p_state : state;
  nread : Z;
  p : Z;
  ch : Z;
  header_field_mark : option Z;
  header_value_mark : option Z;
  url_mark : option Z;
  body_mark : option Z;
  status_mark : option Z;
  user : U
}.
Arguments Exec {U}.
Arguments parser {U} _.
Arguments p_state {U} _.
Arguments nread {U} _.
Arguments p {U} _.
Arguments ch {U} _.
Arguments header_field_mark {U} _.
Arguments header_value_mark {U} _.
Arguments url_mark {U} _.
Arguments body_mark {U} _.
Arguments status_mark {U} _.
Arguments user {U} _.

(** How a piece of the loop's body ends: in a value, or by leaving the switch
    ([break]), [goto reexecute], [goto error], [return], or undefined behaviour. *)
Inductive flow (U A : Type) :=
| Value (a : A) (s : exec U)
| Break (s : exec U)
| Reexecute (s : exec U)
| GotoError (s : exec U)
| Return (v : Z) (s : exec U)
| Stuck (f : fault).
Arguments Value {U A} a s.
Arguments Break {U A} s.
Arguments Reexecute {U A} s.
Arguments GotoError {U A} s.
Arguments Return {U A} v s.
Arguments Stuck {U A} f.

Definition E (U A : Type) : Type := exec U -> flow U A.

Section Machine.
Context {U : Type}.

Definition done {A} (a : A) : E U A := fun s => Value a s.
Definition ebind {A B} (m : E U A) (k : A -> E U B) : E U B :=
  fun s => match m s with
           | Value a s' => k a s'
           | Break s' => Break s'
           | Reexecute s' => Reexecute s'
           | GotoError s' => GotoError s'
           | Return v s' => Return v s'
           | Stuck f => Stuck f
           end.
Definition look {A} (f : exec U -> A) : E U A := fun s => Value (f s) s.
Definition upd (f : exec U -> exec U) : E U unit := fun s => Value tt (f s).
Definition break {A} : E U A := fun s => Break s.
Definition reexecute {A} : E U A := fun s => Reexecute s.
Definition goto_error {A} : E U A := fun s => GotoError s.
Definition return_ {A} (v : Z) : E U A := fun s => Return v s.
Definition stuck {A} (f : fault) : E U A := fun _ => Stuck f.
Definition eassert (b : bool) : E U unit := if b then done tt else stuck AssertFailure.
Definition ewhen (b : bool) (m : E U unit) : E U unit := if b then m else done tt.

(** ** Assignments *)

Definition with_parser (f : http_parser -> http_parser) (s : exec U) : exec U :=
  Exec (f (parser s)) (p_state s) (nread s) (p s) (ch s) (header_field_mark s) (header_value_mark s)
    (url_mark s) (body_mark s) (status_mark s) (user s).
Definition with_state (x : state) (s : exec U) : exec U :=
  Exec (parser s) x (nread s) (p s) (ch s) (header_field_mark s) (header_value_mark s)
    (url_mark s) (body_mark s) (status_mark s) (user s).
Definition with_nread (f : Z -> Z) (s : exec U) : exec U :=
  Exec (parser s) (p_state s) (f (nread s)) (p s) (ch s) (header_field_mark s) (header_value_mark s)
    (url_mark s) (body_mark s) (status_mark s) (user s).
Definition with_p (f : Z -> Z) (s : exec U) : exec U :=
  Exec (parser s) (p_state s) (nread s) (f (p s)) (ch s) (header_field_mark s) (header_value_mark s)
    (url_mark s) (body_mark s) (status_mark s) (user s).
Definition with_ch (c : Z) (s : exec U) : exec U :=
  Exec (parser s) (p_state s) (nread s) (p s) c (header_field_mark s) (header_value_mark s)
    (url_mark s) (body_mark s) (status_mark s) (user s).
Definition with_user (u : U) (s : exec U) : exec U :=
  Exec (parser s) (p_state s) (nread s) (p s) (ch s) (header_field_mark s) (header_value_mark s)
    (url_mark s) (body_mark s) (status_mark s) u.

Definition change (f : http_parser -> http_parser) : E U unit := upd (with_parser f).
Definition UPDATE_STATE (x : state) : E U unit := upd (with_state x).
Definition add_p (d : Z) : E U unit := upd (with_p (fun z => z + d)).

(** The data callbacks, by the part of a message they are told. *)
Inductive part := header_field | header_value | url | body | status.

Definition mark_of (m : part) (s : exec U) : option Z :=
  match m with
  | header_field => header_field_mark s
  | header_value => header_value_mark s
  | url => url_mark s
  | body => body_mark s
  | status => status_mark s
  end.

Definition with_mark (m : part) (o : option Z) (s : exec U) : exec U :=
  Exec (parser s) (p_state s) (nread s) (p s) (ch s)
    (match m with header_field => o | _ => header_field_mark s end)
    (match m with header_value => o | _ => header_value_mark s end)
    (match m with url => o | _ => url_mark s end)
    (match m with body => o | _ => body_mark s end)
    (match m with status => o | _ => status_mark s end) (user s).

(** ** Macros *)

Section Macros.
Variable settings : http_parser_settings U.
Variable max_header_size : Z.

Definition SET_ERRNO (e : http_errno) : E U unit :=
  upd (fun s => with_parser (fun x => set_errno (fun _ => e) (set_nread (fun _ => nread s) x)) s).

(** [SET_ERRNO(e); goto error;] *)
Definition fail_with {A} (e : http_errno) : E U A := ebind (SET_ERRNO e) (fun _ => goto_error).

Definition RETURN {A} (v : Z) : E U A :=
  ebind (upd (fun s => with_parser (fun x => set_state (fun _ => p_state s)
                                          (set_nread (fun _ => nread s) x)) s))
    (fun _ => return_ v).

(** What follows a callback that returned [r] and left parser [x] and user
    state [u]. *)
Definition after_callback (e : http_errno) (er : Z) (r : Z) (x : http_parser) (u : U) : E U unit :=
  ebind (upd (fun s => with_user u (with_parser (fun _ => x) s))) (fun _ =>
  ebind (ewhen (negb (r =? 0)) (SET_ERRNO e)) (fun _ =>
  ebind (upd (fun s => with_state (state_ (parser s)) s)) (fun _ =>
  ebind (look parser) (fun y =>
  if decide (errno_ y <> HPE_OK) then return_ er else done tt)))).

Definition assert_no_errno : E U unit :=
  ebind (look parser) (fun x => eassert (bool_decide (errno_ x = HPE_OK))).

Definition CALLBACK_NOTIFY_ (cb : option (http_cb U)) (e : http_errno) (er : Z) : E U unit :=
  ebind assert_no_errno (fun _ =>
  match cb with
  | None => done tt
  | Some f =>
      ebind (upd (fun s => with_parser (set_state (fun _ => p_state s)) s)) (fun _ =>
      ebind (look id) (fun s =>
      let '(r, x, u) := f (parser s) (user s) in after_callback e er r x u))
  end).

Definition CALLBACK_NOTIFY (cb : option (http_cb U)) (e : http_errno) : E U unit :=
  ebind (look p) (fun i => CALLBACK_NOTIFY_ cb e (i + 1)).
Definition CALLBACK_NOTIFY_NOADVANCE (cb : option (http_cb U)) (e : http_errno) : E U unit :=
  ebind (look p) (fun i => CALLBACK_NOTIFY_ cb e i).

Definition data_cb (m : part) : option (http_data_cb U) :=
  match m with
  | header_field => on_header_field settings
  | header_value => on_header_value settings
  | url => on_url settings
  | body => on_body settings
  | status => on_status settings
  end.

Definition data_errno (m : part) : http_errno :=
  match m with
  | header_field => HPE_CB_header_field
  | header_value => HPE_CB_header_value
  | url => HPE_CB_url
  | body => HPE_CB_body
  | status => HPE_CB_status
  end.

(** The length of the range runs from the mark to [finish]. *)
Definition CALLBACK_DATA_ (m : part) (finish er : Z) : E U unit :=
  ebind assert_no_errno (fun _ =>
  ebind (look (mark_of m)) (fun mark =>
  match mark with
  | None => done tt
  | Some at_ =>
      ebind
        match data_cb m with
        | None => done tt
        | Some f =>
            ebind (upd (fun s => with_parser (set_state (fun _ => p_state s)) s)) (fun _ =>
            ebind (look id) (fun s =>
            let '(r, x, u) := f at_ (finish - at_) (parser s) (user s) in
            after_callback (data_errno m) er r x u))
        end
        (fun _ => upd (with_mark m None))
  end)).

Definition CALLBACK_DATA (m : part) : E U unit :=
  ebind (look p) (fun i => CALLBACK_DATA_ m i (i + 1)).
Definition CALLBACK_DATA_NOADVANCE (m : part) : E U unit :=
  ebind (look p) (fun i => CALLBACK_DATA_ m i i).

Definition MARK (m : part) : E U unit :=
  upd (fun s => match mark_of m s with
                | None => with_mark m (Some (p s)) s
                | Some _ => s
                end).

Definition COUNT_HEADER_SIZE (v : Z) : E U unit :=
  ebind (upd (with_nread (fun n => u32 (n + u32 v)))) (fun _ =>
  ebind (look nread) (fun n =>
  if n >? max_header_size then fail_with HPE_HEADER_OVERFLOW else done tt)).
End Macros.

(** [STRICT_CHECK(cond)] *)
Definition STRICT_CHECK (strict cond : bool) : E U unit :=
  if strict && cond then fail_with HPE_STRICT else done tt.

(** [NEW_MESSAGE()] *)
Definition NEW_MESSAGE (strict : bool) (x : http_parser) : state :=
  if strict then if http_should_keep_alive x then start_state x else s_dead
  else start_state x.

(** [*p] at offset [i] *)
Definition char_at (data : list Z) (i : Z) : E U Z :=
  match (if i <? 0 then None else data !! Z.to_nat i) with
  | Some c => done c
  | None => stuck IndexOutOfRange
  end.
End Machine.

Declare Scope exec_scope.
Delimit Scope exec_scope with exec.
Notation "'let!' x ':=' m 'in' k" := (ebind m (fun x => k))
  (at level 10, x name, m at level 100, k at level 200,
   format "'let!'  x  ':='  m  'in' '//' k") : exec_scope.
Notation "m ';!' k" := (ebind m (fun _ => k))
  (at level 199, right associativity, format "m ';!' '//' k") : exec_scope.
