(* ===== verification/HttpStates.v ===== *)
(** The cases of the switch of [http_parser_execute]
    (src/bazel/external/http_parser/http_parser.c) up to the end of the request
    or status line, and those of the end of the headers and of the body. *)
From S2P Require Import Prelude HttpTypes HttpUrl HttpExec.

Local Open Scope Z_scope.
Local Open Scope exec_scope.

Section States.
Context {U : Type}.
Variable strict : bool.
Variable settings : http_parser_settings U.
Variable max_header_size : Z.
(** The bits of the parser that are copied on entry *)
Variable lenient allow_chunked_length_ : bool.
Variable data : list Z.

Definition data_len : Z := Z.of_nat (length data).

(** ** The start of a message *)

(** [parser->flags = 0; parser->uses_transfer_encoding = 0;
    parser->content_length = ULLONG_MAX;] *)
Definition clear_message : E U unit :=
  change (set_flags (fun _ => 0));!
  change (set_uses_transfer_encoding (fun _ => 0));!
  change (set_content_length (fun _ => ULLONG_MAX)).

Definition do_dead : E U unit :=
  let! c := look ch in
  if (c =? CR) || (c =? LF) then break
  else fail_with HPE_CLOSED_CONNECTION.

Definition do_start_req_or_res : E U unit :=
  let! c := look ch in
  if (c =? CR) || (c =? LF) then break
  else
    clear_message;!
    (if c =? chr "H" then
       UPDATE_STATE s_res_or_resp_H;!
       CALLBACK_NOTIFY (on_message_begin settings) HPE_CB_message_begin
     else
       change (set_type (fun _ => HTTP_REQUEST));!
       UPDATE_STATE s_start_req;!
       reexecute);!
    break.

Definition do_res_or_resp_H : E U unit :=
  let! c := look ch in
  if c =? chr "T" then
    change (set_type (fun _ => HTTP_RESPONSE));!
    UPDATE_STATE s_res_HT;!
    break
  else if negb (c =? chr "E") then fail_with HPE_INVALID_CONSTANT
  else
    change (set_type (fun _ => HTTP_REQUEST));!
    change (set_method (fun _ => HTTP_HEAD));!
    change (set_index (fun _ => 2));!
    UPDATE_STATE s_req_method;!
    break.

Definition do_start_res : E U unit :=
  let! c := look ch in
  if (c =? CR) || (c =? LF) then break
  else
    clear_message;!
    (if c =? chr "H" then UPDATE_STATE s_res_H else fail_with HPE_INVALID_CONSTANT);!
    CALLBACK_NOTIFY (on_message_begin settings) HPE_CB_message_begin;!
    break.

(** A state that strict mode checks the character of, and leaves. *)
Definition expect (c0 : Z) (next : state) : E U unit :=
  let! c := look ch in
  STRICT_CHECK strict (negb (c =? c0));!
  UPDATE_STATE next;!
  break.

(** ** The status line *)

(** [s_res_http_major], [s_req_http_major]: one digit *)
Definition do_http_major (next : state) : E U unit :=
  let! c := look ch in
  if negb (IS_NUM c) then fail_with HPE_INVALID_VERSION
  else
    change (set_http_major (fun _ => u16 (c - chr "0")));!
    UPDATE_STATE next;!
    break.

Definition do_http_dot (next : state) : E U unit :=
  let! c := look ch in
  if negb (c =? chr ".") then fail_with HPE_INVALID_VERSION
  else UPDATE_STATE next;! break.

Definition do_http_minor (next : state) : E U unit :=
  let! c := look ch in
  if negb (IS_NUM c) then fail_with HPE_INVALID_VERSION
  else
    change (set_http_minor (fun _ => u16 (c - chr "0")));!
    UPDATE_STATE next;!
    break.

Definition do_res_http_end : E U unit :=
  let! c := look ch in
  if negb (c =? chr " ") then fail_with HPE_INVALID_VERSION
  else UPDATE_STATE s_res_first_status_code;! break.

Definition do_res_first_status_code : E U unit :=
  let! c := look ch in
  if negb (IS_NUM c) then
    if c =? chr " " then break else fail_with HPE_INVALID_STATUS
  else
    change (set_status_code (fun _ => u16 (c - chr "0")));!
    UPDATE_STATE s_res_status_code;!
    break.

Definition do_res_status_code : E U unit :=
  let! c := look ch in
  if negb (IS_NUM c) then
    if c =? chr " " then UPDATE_STATE s_res_status_start;! break
    else if (c =? CR) || (c =? LF) then UPDATE_STATE s_res_status_start;! reexecute
    else fail_with HPE_INVALID_STATUS
  else
    change (set_status_code (fun z => u16 (z * 10)));!
    change (set_status_code (fun z => u16 (z + (c - chr "0"))));!
    let! x := look parser in
    if status_code x >? 999 then fail_with HPE_INVALID_STATUS
    else break.

Definition do_res_status_start : E U unit :=
  MARK status;!
  UPDATE_STATE s_res_status;!
  change (set_index (fun _ => 0));!
  let! c := look ch in
  if (c =? CR) || (c =? LF) then reexecute else break.

Definition do_res_status : E U unit :=
  let! c := look ch in
  if c =? CR then
    UPDATE_STATE s_res_line_almost_done;!
    CALLBACK_DATA settings status;!
    break
  else if c =? LF then
    UPDATE_STATE s_header_field_start;!
    CALLBACK_DATA settings status;!
    break
  else break.

(** ** The request line *)

(** The method guessed from its first letter *)
Definition first_letter_method (c : Z) : option Z :=
  if c =? chr "A" then Some HTTP_ACL
  else if c =? chr "B" then Some HTTP_BIND
  else if c =? chr "C" then Some HTTP_CONNECT
  else if c =? chr "D" then Some HTTP_DELETE
  else if c =? chr "G" then Some HTTP_GET
  else if c =? chr "H" then Some HTTP_HEAD
  else if c =? chr "L" then Some HTTP_LOCK
  else if c =? chr "M" then Some HTTP_MKCOL
  else if c =? chr "N" then Some HTTP_NOTIFY
  else if c =? chr "O" then Some HTTP_OPTIONS
  else if c =? chr "P" then Some HTTP_POST
  else if c =? chr "R" then Some HTTP_REPORT
  else if c =? chr "S" then Some HTTP_SUBSCRIBE
  else if c =? chr "T" then Some HTTP_TRACE
  else if c =? chr "U" then Some HTTP_UNLOCK
  else None.

Definition do_start_req : E U unit :=
  let! c := look ch in
  if (c =? CR) || (c =? LF) then break
  else
    clear_message;!
    if negb (IS_ALPHA c) then fail_with HPE_INVALID_METHOD
    else
      change (set_method (fun _ => 0));!
      change (set_index (fun _ => 1));!
      match first_letter_method c with
      | None => fail_with HPE_INVALID_METHOD
      | Some m =>
          change (set_method (fun _ => m));!
          UPDATE_STATE s_req_method;!
          CALLBACK_NOTIFY (on_message_begin settings) HPE_CB_message_begin;!
          break
      end.

(** The corrections of a guessed method: at position [pos], character [c]
    means the method is another one. *)
Definition method_switch : list (Z * Z * Z * Z) :=
  [(HTTP_POST, 1, chr "U", HTTP_PUT);
   (HTTP_POST, 1, chr "A", HTTP_PATCH);
   (HTTP_POST, 1, chr "R", HTTP_PROPFIND);
   (HTTP_PUT, 2, chr "R", HTTP_PURGE);
   (HTTP_CONNECT, 1, chr "H", HTTP_CHECKOUT);
   (HTTP_CONNECT, 2, chr "P", HTTP_COPY);
   (HTTP_MKCOL, 1, chr "O", HTTP_MOVE);
   (HTTP_MKCOL, 1, chr "E", HTTP_MERGE);
   (HTTP_MKCOL, 1, chr "-", HTTP_MSEARCH);
   (HTTP_MKCOL, 2, chr "A", HTTP_MKACTIVITY);
   (HTTP_MKCOL, 3, chr "A", HTTP_MKCALENDAR);
   (HTTP_SUBSCRIBE, 1, chr "E", HTTP_SEARCH);
   (HTTP_SUBSCRIBE, 1, chr "O", HTTP_SOURCE);
   (HTTP_REPORT, 2, chr "B", HTTP_REBIND);
   (HTTP_PROPFIND, 4, chr "P", HTTP_PROPPATCH);
   (HTTP_LOCK, 1, chr "I", HTTP_LINK);
   (HTTP_UNLOCK, 2, chr "S", HTTP_UNSUBSCRIBE);
   (HTTP_UNLOCK, 2, chr "B", HTTP_UNBIND);
   (HTTP_UNLOCK, 3, chr "I", HTTP_UNLINK)].

(** [meth << 16 | pos << 8 | ch] *)
Definition method_code (m pos c : Z) : Z := Z.lor (Z.lor (Z.shiftl m 16) (Z.shiftl pos 8)) c.

Definition switch_method (m pos c : Z) : option Z :=
  (fun e => e.2.2) <$>
    list_find (fun '(m', pos', c', _) => method_code m' pos' c' = method_code m pos c) method_switch.

Definition do_req_method : E U unit :=
  let! c := look ch in
  if c =? 0 then fail_with HPE_INVALID_METHOD
  else
    let! x := look parser in
    match method_strings !! Z.to_nat (method x) ≫= (fun m => c_string_at m (index x)) with
    | None => stuck IndexOutOfRange
    | Some expected =>
        (if (c =? chr " ") && (expected =? 0) then UPDATE_STATE s_req_spaces_before_url
         else if c =? expected then done tt
         else if ((chr "A" <=? c) && (c <=? chr "Z")) || (c =? chr "-") then
           match switch_method (method x) (index x) c with
           | Some m => change (set_method (fun _ => m))
           | None => fail_with HPE_INVALID_METHOD
           end
         else fail_with HPE_INVALID_METHOD);!
        change (set_index (fun i => (i + 1) mod 32));!
        break
    end.

(** [UPDATE_STATE(parse_url_char(CURRENT_STATE(), ch))], and the check *)
Definition url_step (c : Z) : E U unit :=
  let! s := look p_state in
  UPDATE_STATE (parse_url_char strict s c);!
  let! s := look p_state in
  if decide (s = s_dead) then fail_with HPE_INVALID_URL else done tt.

Definition do_req_spaces_before_url : E U unit :=
  let! c := look ch in
  if c =? chr " " then break
  else
    MARK url;!
    let! x := look parser in
    ewhen (method x =? HTTP_CONNECT) (UPDATE_STATE s_req_server_start);!
    url_step c;!
    break.

(** [s_req_schema], [s_req_schema_slash], [s_req_schema_slash_slash],
    [s_req_server_start] *)
Definition do_req_schema : E U unit :=
  let! c := look ch in
  if (c =? chr " ") || (c =? CR) || (c =? LF) then fail_with HPE_INVALID_URL
  else url_step c;! break.

(** [s_req_server] to [s_req_fragment] *)
Definition do_req_url : E U unit :=
  let! c := look ch in
  if c =? chr " " then
    UPDATE_STATE s_req_http_start;!
    CALLBACK_DATA settings url;!
    break
  else if (c =? CR) || (c =? LF) then
    change (set_http_major (fun _ => 0));!
    change (set_http_minor (fun _ => 9));!
    UPDATE_STATE (if c =? CR then s_req_line_almost_done else s_header_field_start);!
    CALLBACK_DATA settings url;!
    break
  else url_step c;! break.

Definition do_req_http_start : E U unit :=
  let! c := look ch in
  let! x := look parser in
  if c =? chr " " then break
  else if c =? chr "H" then UPDATE_STATE s_req_http_H;! break
  else if (c =? chr "I") && (method x =? HTTP_SOURCE) then UPDATE_STATE s_req_http_I;! break
  else fail_with HPE_INVALID_CONSTANT.

Definition do_req_http_end : E U unit :=
  let! c := look ch in
  if c =? CR then UPDATE_STATE s_req_line_almost_done;! break
  else if c =? LF then UPDATE_STATE s_header_field_start;! break
  else fail_with HPE_INVALID_VERSION.

Definition do_req_line_almost_done : E U unit :=
  let! c := look ch in
  if negb (c =? LF) then fail_with HPE_LF_EXPECTED
  else UPDATE_STATE s_header_field_start;! break.

(** ** The end of the headers *)

Definition do_headers_complete : E U unit :=
  match on_headers_complete settings with
  | None => done tt
  | Some f =>
      let! s := look id in
      let '(r, x, u) := f (parser s) (user s) in
      upd (fun s => with_user u (with_parser (fun _ => x) s));!
      if r =? 0 then done tt
      else
        if (r =? 1) || (r =? 2) then
          ewhen (r =? 2) (change (set_upgrade (fun _ => 1)));!
          change (set_flags (with_flag F_SKIPBODY))
        else
          SET_ERRNO HPE_CB_headers_complete;!
          let! i := look p in
          RETURN i
  end.

(** The check of Content-Length against Transfer-Encoding *)
Definition check_framing : E U unit :=
  let! x := look parser in
  if (uses_transfer_encoding x =? 1) && has_flag (flags x) F_CONTENTLENGTH then
    if has_flag (flags x) F_CHUNKED then
      if negb allow_chunked_length_ then fail_with HPE_UNEXPECTED_CONTENT_LENGTH else done tt
    else if negb lenient then fail_with HPE_UNEXPECTED_CONTENT_LENGTH
    else done tt
  else done tt.

(** The value [parser->upgrade] gets before [on_headers_complete] *)
Definition upgrade_of (x : http_parser) : bool :=
  if has_flag (flags x) F_UPGRADE && has_flag (flags x) F_CONNECTION_UPGRADE
  then bool_decide (type x = HTTP_REQUEST) || (status_code x =? 101)
  else method x =? HTTP_CONNECT.

Definition do_headers_almost_done : E U unit :=
  let! c := look ch in
  STRICT_CHECK strict (negb (c =? LF));!
  let! x := look parser in
  if has_flag (flags x) F_TRAILING then
    UPDATE_STATE s_message_done;!
    CALLBACK_NOTIFY_NOADVANCE (on_chunk_complete settings) HPE_CB_chunk_complete;!
    reexecute
  else
    check_framing;!
    UPDATE_STATE s_headers_done;!
    change (fun x => set_upgrade (fun _ => if upgrade_of x then 1 else 0) x);!
    do_headers_complete;!
    let! x := look parser in
    if decide (errno_ x <> HPE_OK) then let! i := look p in RETURN i
    else reexecute.

(** [UPDATE_STATE(NEW_MESSAGE()); CALLBACK_NOTIFY(message_complete);] *)
Definition message_over : E U unit :=
  let! x := look parser in
  UPDATE_STATE (NEW_MESSAGE strict x);!
  CALLBACK_NOTIFY (on_message_complete settings) HPE_CB_message_complete.

Definition clear_nread : E U unit :=
  change (set_nread (fun _ => 0));!
  upd (with_nread (fun _ => 0)).

Definition do_headers_done : E U unit :=
  let! c := look ch in
  STRICT_CHECK strict (negb (c =? LF));!
  clear_nread;!
  let! x := look parser in
  let has_body := has_flag (flags x) F_CHUNKED
                  || ((content_length x >? 0) && negb (content_length x =? ULLONG_MAX)) in
  if negb (upgrade x =? 0) &&
     ((method x =? HTTP_CONNECT) || has_flag (flags x) F_SKIPBODY || negb has_body) then
    message_over;!
    let! i := look p in
    RETURN (i + 1)
  else
    (if has_flag (flags x) F_SKIPBODY then message_over
     else if has_flag (flags x) F_CHUNKED then UPDATE_STATE s_chunk_size_start
     else if uses_transfer_encoding x =? 1 then
       if bool_decide (type x = HTTP_REQUEST) && negb lenient then
         SET_ERRNO HPE_INVALID_TRANSFER_ENCODING;!
         let! i := look p in
         RETURN i
       else UPDATE_STATE s_body_identity_eof
     else if content_length x =? 0 then message_over
     else if negb (content_length x =? ULLONG_MAX) then UPDATE_STATE s_body_identity
     else if negb (http_message_needs_eof x) then message_over
     else UPDATE_STATE s_body_identity_eof);!
    break.

(** ** The body *)

(** The part of a body of known length that is in the buffer: marks it, takes
    it off [content_length], and moves to its last byte. *)
Definition take_body : E U unit :=
  let! i := look p in
  let! x := look parser in
  let to_read := Z.min (content_length x) (data_len - i) in
  eassert (negb (content_length x =? 0) && negb (content_length x =? ULLONG_MAX));!
  MARK body;!
  change (set_content_length (fun z => z - to_read));!
  add_p (to_read - 1).

Definition do_body_identity : E U unit :=
  take_body;!
  let! x := look parser in
  if content_length x =? 0 then
    UPDATE_STATE s_message_done;!
    let! i := look p in
    CALLBACK_DATA_ settings body (i + 1) i;!
    reexecute
  else break.

Definition do_body_identity_eof : E U unit :=
  MARK body;!
  upd (with_p (fun _ => data_len - 1));!
  break.

Definition do_message_done : E U unit :=
  message_over;!
  let! x := look parser in
  if negb (upgrade x =? 0) then let! i := look p in RETURN (i + 1)
  else break.

Definition assert_chunked : E U unit :=
  let! x := look parser in
  eassert (has_flag (flags x) F_CHUNKED).

Definition do_chunk_size_start : E U unit :=
  let! n := look nread in
  eassert (n =? 1);!
  assert_chunked;!
  let! c := look ch in
  let unhex_val := unhex_at c in
  if unhex_val =? -1 then fail_with HPE_INVALID_CHUNK_SIZE
  else
    change (set_content_length (fun _ => u64 unhex_val));!
    UPDATE_STATE s_chunk_size;!
    break.

Definition do_chunk_size : E U unit :=
  assert_chunked;!
  let! c := look ch in
  if c =? CR then UPDATE_STATE s_chunk_size_almost_done;! break
  else
    let unhex_val := unhex_at c in
    if unhex_val =? -1 then
      if (c =? chr ";") || (c =? chr " ") then UPDATE_STATE s_chunk_parameters;! break
      else fail_with HPE_INVALID_CHUNK_SIZE
    else
      let! x := look parser in
      let t := u64 (u64 (content_length x * 16) + unhex_val) in
      if (ULLONG_MAX - 16) / 16 <? content_length x then fail_with HPE_INVALID_CONTENT_LENGTH
      else change (set_content_length (fun _ => t));! break.

Definition do_chunk_parameters : E U unit :=
  assert_chunked;!
  let! c := look ch in
  if c =? CR then UPDATE_STATE s_chunk_size_almost_done;! break
  else break.

Definition do_chunk_size_almost_done : E U unit :=
  assert_chunked;!
  let! c := look ch in
  STRICT_CHECK strict (negb (c =? LF));!
  clear_nread;!
  let! x := look parser in
  (if content_length x =? 0 then
     change (set_flags (with_flag F_TRAILING));!
     UPDATE_STATE s_header_field_start
   else UPDATE_STATE s_chunk_data);!
  CALLBACK_NOTIFY (on_chunk_header settings) HPE_CB_chunk_header;!
  break.

Definition do_chunk_data : E U unit :=
  assert_chunked;!
  take_body;!
  let! x := look parser in
  ewhen (content_length x =? 0) (UPDATE_STATE s_chunk_data_almost_done);!
  break.

Definition do_chunk_data_almost_done : E U unit :=
  assert_chunked;!
  let! x := look parser in
  eassert (content_length x =? 0);!
  let! c := look ch in
  STRICT_CHECK strict (negb (c =? CR));!
  UPDATE_STATE s_chunk_data_done;!
  CALLBACK_DATA settings body;!
  break.

Definition do_chunk_data_done : E U unit :=
  assert_chunked;!
  let! c := look ch in
  STRICT_CHECK strict (negb (c =? LF));!
  clear_nread;!
  UPDATE_STATE s_chunk_size_start;!
  CALLBACK_NOTIFY (on_chunk_complete settings) HPE_CB_chunk_complete;!
  break.
End States.
