(* ===== verification/HttpHeaders.v ===== *)
(** The cases of the switch of [http_parser_execute]
    (src/bazel/external/http_parser/http_parser.c) that read header fields and
    header values, with their inner loops. *)
From S2P Require Import Prelude HttpTypes HttpUrl HttpExec HttpStates.

Local Open Scope Z_scope.
Local Open Scope exec_scope.

Section Headers.
Context {U : Type}.
Variable strict : bool.
Variable settings : http_parser_settings U.
Variable max_header_size : Z.
Variable lenient : bool.
Variable data : list Z.

Definition data_end : Z := Z.of_nat (length data).

Definition set_hs (h : header_states) : E U unit := change (set_header_state (fun _ => h)).

(** [parser->index++], of 5 bits *)
Definition next_index : E U unit := change (set_index (fun i => (i + 1) mod 32)).

(** One character of the comparison with [word]: [parser->index++; if
    (parser->index > sizeof(word)-1 || c != word[parser->index]) ... else if
    (parser->index == sizeof(word)-2) ...]; [old] when neither is the case. *)
Definition match_word (word : string) (c : Z) (old mismatch complete : header_states)
    : E U header_states :=
  next_index;!
  let! x := look parser in
  let n := Z.of_nat (String.length word) in
  if index x >? n then done mismatch
  else
    match c_string_at word (index x) with
    | None => stuck IndexOutOfRange
    | Some w =>
        if negb (c =? w) then done mismatch
        else if index x =? n - 1 then done complete
        else done old
    end.

(** ** Field names *)

Definition do_header_field_start : E U unit :=
  let! c0 := look ch in
  if c0 =? CR then UPDATE_STATE s_headers_almost_done;! break
  else if c0 =? LF then UPDATE_STATE s_headers_almost_done;! reexecute
  else
    let c := TOKEN strict c0 in
    if c =? 0 then fail_with HPE_INVALID_HEADER_TOKEN
    else
      MARK header_field;!
      change (set_index (fun _ => 0));!
      UPDATE_STATE s_header_field;!
      set_hs (if c =? chr "c" then h_C
              else if c =? chr "p" then h_matching_proxy_connection
              else if c =? chr "t" then h_matching_transfer_encoding
              else if c =? chr "u" then h_matching_upgrade
              else h_general);!
      break.

(** [while (p+1 < pe && TOKEN(p[1])) p++;] *)
Fixpoint skip_tokens (fuel : nat) (pe : Z) : E U unit :=
  match fuel with
  | O => stuck OutOfFuel
  | S fuel =>
      let! i := look p in
      if i + 1 <? pe then
        let! c := char_at data (i + 1) in
        if negb (TOKEN strict c =? 0) then add_p 1;! skip_tokens fuel pe
        else done tt
      else done tt
  end.

(** The switch on [parser->header_state], for the character [c0] with token
    [c] *)
Definition header_field_char (c0 c : Z) : E U unit :=
  let! x := look parser in
  match header_state x with
  | h_general =>
      let! i := look p in
      let left := data_end - i in
      let pe := i + Z.min left max_header_size in
      skip_tokens (S (length data)) pe
  | h_C => next_index;! set_hs (if c =? chr "o" then h_CO else h_general)
  | h_CO => next_index;! set_hs (if c =? chr "n" then h_CON else h_general)
  | h_CON =>
      next_index;!
      set_hs (if c =? chr "n" then h_matching_connection
              else if c =? chr "t" then h_matching_content_length
              else h_general)
  | h_matching_connection =>
      let! h := match_word "connection" c h_matching_connection h_general h_connection in set_hs h
  | h_matching_proxy_connection =>
      let! h := match_word "proxy-connection" c h_matching_proxy_connection h_general h_connection in
      set_hs h
  | h_matching_content_length =>
      let! h := match_word "content-length" c h_matching_content_length h_general h_content_length in
      set_hs h
  | h_matching_transfer_encoding =>
      let! h := match_word "transfer-encoding" c h_matching_transfer_encoding h_general
                  h_transfer_encoding in
      set_hs h;!
      ewhen (bool_decide (h = h_transfer_encoding)) (change (set_uses_transfer_encoding (fun _ => 1)))
  | h_matching_upgrade =>
      let! h := match_word "upgrade" c h_matching_upgrade h_general h_upgrade in set_hs h
  | h_connection | h_content_length | h_transfer_encoding | h_upgrade =>
      ewhen (negb (c0 =? chr " ")) (set_hs h_general)
  | _ => eassert false
  end.

(** [for (; p != data + len; p++)] *)
Fixpoint header_field_loop (fuel : nat) : E U unit :=
  match fuel with
  | O => stuck OutOfFuel
  | S fuel =>
      let! i := look p in
      if i =? data_end then done tt
      else
        let! c0 := char_at data i in
        upd (with_ch c0);!
        let c := TOKEN strict c0 in
        if c =? 0 then done tt
        else
          header_field_char c0 c;!
          add_p 1;!
          header_field_loop fuel
  end.

Definition do_header_field : E U unit :=
  let! start := look p in
  header_field_loop (S (length data));!
  let! i := look p in
  if i =? data_end then
    add_p (-1);!
    COUNT_HEADER_SIZE max_header_size (i - 1 - start);!
    break
  else
    COUNT_HEADER_SIZE max_header_size (i - start);!
    let! c := look ch in
    if c =? chr ":" then
      UPDATE_STATE s_header_value_discard_ws;!
      CALLBACK_DATA settings header_field;!
      break
    else fail_with HPE_INVALID_HEADER_TOKEN.

(** ** The start of a value *)

Definition do_header_value_start : E U unit :=
  MARK header_value;!
  UPDATE_STATE s_header_value;!
  change (set_index (fun _ => 0));!
  let! c0 := look ch in
  let c := LOWER c0 in
  let! x := look parser in
  match header_state x with
  | h_upgrade => change (set_flags (with_flag F_UPGRADE));! set_hs h_general
  | h_transfer_encoding =>
      set_hs (if c =? chr "c" then h_matching_transfer_encoding_chunked
              else h_matching_transfer_encoding_token)
  | h_matching_transfer_encoding_token_start => done tt
  | h_content_length =>
      if negb (IS_NUM c0) then fail_with HPE_INVALID_CONTENT_LENGTH
      else if has_flag (flags x) F_CONTENTLENGTH then fail_with HPE_UNEXPECTED_CONTENT_LENGTH
      else
        change (set_flags (with_flag F_CONTENTLENGTH));!
        change (set_content_length (fun _ => u64 (c0 - chr "0")));!
        set_hs h_content_length_num
  | h_content_length_ws => done tt
  | h_connection =>
      set_hs (if c =? chr "k" then h_matching_connection_keep_alive
              else if c =? chr "c" then h_matching_connection_close
              else if c =? chr "u" then h_matching_connection_upgrade
              else h_matching_connection_token)
  | h_matching_connection_token_start => done tt
  | _ => set_hs h_general
  end;!
  break.

Definition do_header_value_discard_ws : E U unit :=
  let! c := look ch in
  if (c =? chr " ") || (c =? TAB) then break
  else if c =? CR then UPDATE_STATE s_header_value_discard_ws_almost_done;! break
  else if c =? LF then UPDATE_STATE s_header_value_discard_lws;! break
  else do_header_value_start.

(** ** Values *)

(** [for (; p != pe; p++)] of an ordinary value *)
Fixpoint skip_value (fuel : nat) (pe : Z) : E U unit :=
  match fuel with
  | O => stuck OutOfFuel
  | S fuel =>
      let! i := look p in
      if i =? pe then done tt
      else
        let! c := char_at data i in
        upd (with_ch c);!
        if (c =? CR) || (c =? LF) then add_p (-1)
        else if negb lenient && negb (IS_HEADER_CHAR c) then fail_with HPE_INVALID_HEADER_TOKEN
        else add_p 1;! skip_value fuel pe
  end.

Definition do_general_value : E U unit :=
  let! i := look p in
  let left := data_end - i in
  let pe := i + Z.min left max_header_size in
  skip_value (S (length data)) pe;!
  let! i := look p in
  ewhen (i =? data_end) (add_p (-1)).

(** [SET_ERRNO(e); parser->header_state = h_state; goto error;] *)
Definition fail_value {A} (e : http_errno) (h : header_states) : E U A :=
  SET_ERRNO e;! set_hs h;! goto_error.

(** A digit, or a space, of a content length *)
Definition content_length_char (c0 : Z) : E U header_states :=
  if c0 =? chr " " then done h_content_length_ws
  else if negb (IS_NUM c0) then fail_value HPE_INVALID_CONTENT_LENGTH h_content_length_num
  else
    let! x := look parser in
    let t := u64 (u64 (content_length x * 10) + (c0 - chr "0")) in
    if (ULLONG_MAX - 10) / 10 <? content_length x
    then fail_value HPE_INVALID_CONTENT_LENGTH h_content_length_num
    else change (set_content_length (fun _ => t));! done h_content_length_num.

Definition clear_index : E U unit := change (set_index (fun _ => 0)).

(** The token of a list: [letters] are the first letters the parser looks
    for, else [token]. *)
Definition token_start (c : Z) (letters : list (Z * header_states)) (old token : header_states)
    : header_states :=
  match list_find (fun e => e.1 = c) letters with
  | Some (_, (_, h)) => h
  | None =>
      if negb (STRICT_TOKEN c =? 0) then token
      else if (c =? chr " ") || (c =? TAB) then old
      else h_general
  end.

Definition connection_flag (h : header_states) : Z :=
  match h with
  | h_connection_keep_alive => F_CONNECTION_KEEP_ALIVE
  | h_connection_close => F_CONNECTION_CLOSE
  | h_connection_upgrade => F_CONNECTION_UPGRADE
  | _ => 0
  end.

(** The switch on [h_state], for the character [c0], in lower case [c] *)
Definition header_value_char (c0 c : Z) (h : header_states) : E U header_states :=
  match h with
  | h_general => do_general_value;! done h
  | h_connection | h_transfer_encoding => eassert false;! done h
  | h_content_length => if c0 =? chr " " then done h else content_length_char c0
  | h_content_length_num => content_length_char c0
  | h_content_length_ws =>
      if c0 =? chr " " then done h else fail_value HPE_INVALID_CONTENT_LENGTH h
  | h_matching_transfer_encoding_token_start =>
      done (token_start c [(chr "c", h_matching_transfer_encoding_chunked)] h
              h_matching_transfer_encoding_token)
  | h_matching_transfer_encoding_chunked =>
      match_word "chunked" c h h_matching_transfer_encoding_token h_transfer_encoding_chunked
  | h_matching_transfer_encoding_token =>
      if c0 =? chr "," then clear_index;! done h_matching_transfer_encoding_token_start
      else done h
  | h_matching_connection_token_start =>
      done (token_start c [(chr "k", h_matching_connection_keep_alive);
                           (chr "c", h_matching_connection_close);
                           (chr "u", h_matching_connection_upgrade)] h h_matching_connection_token)
  | h_matching_connection_keep_alive =>
      match_word "keep-alive" c h h_matching_connection_token h_connection_keep_alive
  | h_matching_connection_close =>
      match_word "close" c h h_matching_connection_token h_connection_close
  | h_matching_connection_upgrade =>
      match_word "upgrade" c h h_matching_connection_token h_connection_upgrade
  | h_matching_connection_token =>
      if c0 =? chr "," then clear_index;! done h_matching_connection_token_start
      else done h
  | h_transfer_encoding_chunked =>
      done (if negb (c0 =? chr " ") then h_matching_transfer_encoding_token else h)
  | h_connection_keep_alive | h_connection_close | h_connection_upgrade =>
      if c0 =? chr "," then
        change (set_flags (with_flag (connection_flag h)));!
        clear_index;!
        done h_matching_connection_token_start
      else done (if negb (c0 =? chr " ") then h_matching_connection_token else h)
  | _ => UPDATE_STATE s_header_value;! done h_general
  end.

(** [for (; p != data + len; p++)]; the result is [h_state] at its end. *)
Fixpoint header_value_loop (fuel : nat) (start : Z) (h : header_states) : E U header_states :=
  match fuel with
  | O => stuck OutOfFuel
  | S fuel =>
      let! i := look p in
      if i =? data_end then done h
      else
        let! c0 := char_at data i in
        upd (with_ch c0);!
        if c0 =? CR then
          UPDATE_STATE s_header_almost_done;!
          set_hs h;!
          CALLBACK_DATA settings header_value;!
          done h
        else if c0 =? LF then
          UPDATE_STATE s_header_almost_done;!
          COUNT_HEADER_SIZE max_header_size (i - start);!
          set_hs h;!
          CALLBACK_DATA_NOADVANCE settings header_value;!
          reexecute
        else if negb lenient && negb (IS_HEADER_CHAR c0) then fail_with HPE_INVALID_HEADER_TOKEN
        else
          let! h := header_value_char c0 (LOWER c0) h in
          add_p 1;!
          header_value_loop fuel start h
  end.

Definition do_header_value : E U unit :=
  let! start := look p in
  let! x := look parser in
  let! h := header_value_loop (S (length data)) start (header_state x) in
  set_hs h;!
  let! i := look p in
  ewhen (i =? data_end) (add_p (-1));!
  let! i := look p in
  COUNT_HEADER_SIZE max_header_size (i - start);!
  break.

(** ** The end of a value *)

Definition do_header_almost_done : E U unit :=
  let! c := look ch in
  if negb (c =? LF) then fail_with HPE_LF_EXPECTED
  else UPDATE_STATE s_header_value_lws;! break.

(** The flag a finished value sets *)
Definition finished_flag (h : header_states) : Z :=
  match h with
  | h_connection_keep_alive => F_CONNECTION_KEEP_ALIVE
  | h_connection_close => F_CONNECTION_CLOSE
  | h_transfer_encoding_chunked => F_CHUNKED
  | h_connection_upgrade => F_CONNECTION_UPGRADE
  | _ => 0
  end.

Definition finish_header : E U unit :=
  change (fun x => set_flags (with_flag (finished_flag (header_state x))) x).

Definition do_header_value_lws : E U unit :=
  let! c := look ch in
  if (c =? chr " ") || (c =? TAB) then
    let! x := look parser in
    ewhen (bool_decide (header_state x = h_content_length_num)) (set_hs h_content_length_ws);!
    UPDATE_STATE s_header_value_start;!
    reexecute
  else
    finish_header;!
    UPDATE_STATE s_header_field_start;!
    reexecute.

Definition do_header_value_discard_lws : E U unit :=
  let! c := look ch in
  if (c =? chr " ") || (c =? TAB) then UPDATE_STATE s_header_value_discard_ws;! break
  else
    let! x := look parser in
    if decide (header_state x = h_content_length) then fail_with HPE_INVALID_CONTENT_LENGTH
    else
      finish_header;!
      MARK header_value;!
      UPDATE_STATE s_header_field_start;!
      CALLBACK_DATA_NOADVANCE settings header_value;!
      reexecute.
End Headers.
