(* ===== verification/HttpParser.v ===== *)
(** [http_parser_execute] (src/bazel/external/http_parser/http_parser.c): the
    dispatch on the state, the loop over the buffer, entry and exit; and
    messages parsed with it. *)
From S2P Require Import Prelude HttpTypes HttpUrl HttpExec HttpStates HttpHeaders.

Local Open Scope Z_scope.
Local Open Scope exec_scope.

Section Execute.
Context {U : Type}.
Variable strict : bool.
Variable settings : http_parser_settings U.
Variable max_header_size : Z.

Section Loop.
Variable lenient allow_chunked_length_ : bool.
Variable data : list Z.

(** [switch (CURRENT_STATE())] *)
Definition dispatch (s : state) : E U unit :=
  match s with
  | s_dead => do_dead
  | s_start_req_or_res => do_start_req_or_res settings
  | s_res_or_resp_H => do_res_or_resp_H
  | s_start_res => do_start_res settings
  | s_res_H => expect strict (chr "T") s_res_HT
  | s_res_HT => expect strict (chr "T") s_res_HTT
  | s_res_HTT => expect strict (chr "P") s_res_HTTP
  | s_res_HTTP => expect strict (chr "/") s_res_http_major
  | s_res_http_major => do_http_major s_res_http_dot
  | s_res_http_dot => do_http_dot s_res_http_minor
  | s_res_http_minor => do_http_minor s_res_http_end
  | s_res_http_end => do_res_http_end
  | s_res_first_status_code => do_res_first_status_code
  | s_res_status_code => do_res_status_code
  | s_res_status_start => do_res_status_start
  | s_res_status => do_res_status settings
  | s_res_line_almost_done => expect strict LF s_header_field_start
  | s_start_req => do_start_req settings
  | s_req_method => do_req_method
  | s_req_spaces_before_url => do_req_spaces_before_url strict
  | s_req_schema | s_req_schema_slash | s_req_schema_slash_slash | s_req_server_start =>
      do_req_schema strict
  | s_req_server | s_req_server_with_at | s_req_path | s_req_query_string_start
  | s_req_query_string | s_req_fragment_start | s_req_fragment => do_req_url strict settings
  | s_req_http_start => do_req_http_start
  | s_req_http_H => expect strict (chr "T") s_req_http_HT
  | s_req_http_HT => expect strict (chr "T") s_req_http_HTT
  | s_req_http_HTT => expect strict (chr "P") s_req_http_HTTP
  | s_req_http_I => expect strict (chr "C") s_req_http_IC
  | s_req_http_IC => expect strict (chr "E") s_req_http_HTTP
  | s_req_http_HTTP => expect strict (chr "/") s_req_http_major
  | s_req_http_major => do_http_major s_req_http_dot
  | s_req_http_dot => do_http_dot s_req_http_minor
  | s_req_http_minor => do_http_minor s_req_http_end
  | s_req_http_end => do_req_http_end
  | s_req_line_almost_done => do_req_line_almost_done
  | s_header_field_start => do_header_field_start strict
  | s_header_field => do_header_field strict settings max_header_size data
  | s_header_value_discard_ws => do_header_value_discard_ws
  | s_header_value_discard_ws_almost_done => expect strict LF s_header_value_discard_lws
  | s_header_value_discard_lws => do_header_value_discard_lws settings
  | s_header_value_start => do_header_value_start
  | s_header_value => do_header_value settings max_header_size lenient data
  | s_header_value_lws => do_header_value_lws
  | s_header_almost_done => do_header_almost_done
  | s_chunk_size_start => do_chunk_size_start
  | s_chunk_size => do_chunk_size
  | s_chunk_parameters => do_chunk_parameters
  | s_chunk_size_almost_done => do_chunk_size_almost_done strict settings
  | s_headers_almost_done => do_headers_almost_done strict settings lenient allow_chunked_length_
  | s_headers_done => do_headers_done strict settings lenient
  | s_chunk_data => do_chunk_data data
  | s_chunk_data_almost_done => do_chunk_data_almost_done strict settings
  | s_chunk_data_done => do_chunk_data_done strict settings
  | s_body_identity => do_body_identity settings data
  | s_body_identity_eof => do_body_identity_eof data
  | s_message_done => do_message_done strict settings
  end.

(** The top of the loop's body, for the byte at [p] *)
Definition next_byte : E U unit :=
  let! i := look p in
  let! c := char_at data i in
  upd (with_ch c);!
  let! s := look p_state in
  ewhen (PARSING_HEADER s) (COUNT_HEADER_SIZE max_header_size 1).

Definition count_marks (s : exec U) : nat :=
  length (filter (fun m => is_Some (mark_of m s)) [header_field; header_value; url; body; status]).

(** What follows the loop *)
Definition leftovers : E U unit :=
  let! s := look id in
  eassert (Nat.leb (count_marks s) 1);!
  CALLBACK_DATA_NOADVANCE settings header_field;!
  CALLBACK_DATA_NOADVANCE settings header_value;!
  CALLBACK_DATA_NOADVANCE settings url;!
  CALLBACK_DATA_NOADVANCE settings body;!
  CALLBACK_DATA_NOADVANCE settings status;!
  RETURN (Z.of_nat (length data)).

(** The label [error] *)
Definition error_label : E U unit :=
  let! x := look parser in
  ewhen (bool_decide (errno_ x = HPE_OK)) (SET_ERRNO HPE_UNKNOWN);!
  let! i := look p in
  RETURN i.

(** The number returned, and the locals at that point *)
Definition returned (f : flow U unit) : outcome (Z * exec U) :=
  match f with
  | Return v s => Done (v, s)
  | Stuck f => Faulted f
  | _ => Faulted OutOfFuel
  end.

(** The loop; [fresh] at its top, and not after [goto reexecute]. *)
Fixpoint loop (fuel : nat) (fresh : bool) (s : exec U) : outcome (Z * exec U) :=
  match fuel with
  | O => Faulted OutOfFuel
  | S fuel =>
      if fresh && (p s =? Z.of_nat (length data)) then returned (leftovers s)
      else
        match ((if fresh then next_byte else done tt);!
               let! st := look p_state in dispatch st) s with
        | Value _ s' | Break s' => loop fuel true (with_p (fun i => i + 1) s')
        | Reexecute s' => loop fuel false s'
        | GotoError s' => returned (error_label s')
        | Return v s' => Done (v, s')
        | Stuck f => Faulted f
        end
  end.
End Loop.

(** A byte is looked at five times at most. *)
Definition loop_fuel (data : list Z) : nat := 5 * S (length data).

(** The marks set on entry, when a token goes on from the last buffer *)
Definition entry_marks (st : state) : option Z * option Z * option Z * option Z :=
  ((if decide (st = s_header_field) then Some 0 else None),
   (if decide (st = s_header_value) then Some 0 else None),
   (match st with
    | s_req_path | s_req_schema | s_req_schema_slash | s_req_schema_slash_slash
    | s_req_server_start | s_req_server | s_req_server_with_at | s_req_query_string_start
    | s_req_query_string | s_req_fragment_start | s_req_fragment => Some 0
    | _ => None
    end),
   (if decide (st = s_res_status) then Some 0 else None)).

Definition entry (x : http_parser) (u : U) : exec U :=
  let '(hf, hv, ur, st) := entry_marks (state_ x) in
  Exec x (state_ x) (nread_ x) 0 0 hf hv ur None st u.

(** The end of the input: [len == 0] *)
Definition at_eof : E U unit :=
  let! s := look p_state in
  match s with
  | s_body_identity_eof =>
      CALLBACK_NOTIFY_NOADVANCE (on_message_complete settings) HPE_CB_message_complete;!
      return_ 0
  | s_dead | s_start_req_or_res | s_start_res | s_start_req => return_ 0
  | _ => SET_ERRNO HPE_INVALID_EOF_STATE;! return_ 1
  end.

Definition http_parser_execute (data : list Z) (x : http_parser) (u : U)
    : outcome (Z * http_parser * U) :=
  let result o :=
    match o with
    | Done (v, s) => Done (v, parser s, user s)
    | Faulted f => Faulted f
    end in
  if decide (errno_ x <> HPE_OK) then Done (0, x, u)
  else if Z.of_nat (length data) =? 0 then result (returned (at_eof (entry x u)))
  else result (loop (negb (lenient_http_headers x =? 0)) (negb (allow_chunked_length x =? 0)) data
                 (loop_fuel data) true (entry x u)).
End Execute.

(** ** A user that records what it is told *)

Inductive event :=
| MessageBegin | HeadersComplete | MessageComplete | ChunkHeader (n : Z) | ChunkComplete
| Data (m : part) (at_ len : Z).

Definition record_cb (e : http_parser -> event) : http_cb (list event) :=
  fun x u => (0, x, u ++ [e x]).
Definition record_data (m : part) : http_data_cb (list event) :=
  fun at_ len x u => (0, x, u ++ [Data m at_ len]).

Definition recorder : http_parser_settings (list event) :=
  Settings _ (Some (record_cb (fun _ => MessageBegin))) (Some (record_data url))
    (Some (record_data status)) (Some (record_data header_field)) (Some (record_data header_value))
    (Some (record_cb (fun _ => HeadersComplete))) (Some (record_data body))
    (Some (record_cb (fun _ => MessageComplete)))
    (Some (record_cb (fun x => ChunkHeader (content_length x))))
    (Some (record_cb (fun _ => ChunkComplete))).

(** The size the repository builds with: [-DHTTP_MAX_HEADER_SIZE=0x2000000] *)
Definition HTTP_MAX_HEADER_SIZE : Z := 33554432.

(** [static uint32_t max_header_size], shared by all parsers *)
Definition initial_max_header_size : Z := u32 HTTP_MAX_HEADER_SIZE.

Definition http_parser_set_max_header_size (size : Z) (max_header_size : Z) : Z := u32 size.

Definition crlf : string := String (Ascii.ascii_of_nat 13) (String (Ascii.ascii_of_nat 10) "").

Definition execute_string (s : string) (x : http_parser) : outcome (Z * http_parser * list event) :=
  http_parser_execute true recorder HTTP_MAX_HEADER_SIZE (chars s) x [].

Definition run_string (t : http_parser_type) (s : string) : option (Z * http_errno * state * list event) :=
  match execute_string s (http_parser_init t) with
  | Done (v, x, l) => Some (v, errno_ x, state_ x, l)
  | Faulted _ => None
  end.

Definition lines (l : list string) : string := foldr (fun a b => a +:+ crlf +:+ b) "" l.

Example run_get :
  run_string HTTP_REQUEST (lines ["GET /a?b HTTP/1.1"; "Host: x"; ""])
  = Some (30, HPE_OK, s_start_req,
      [MessageBegin; Data url 4 4; Data header_field 19 4; Data header_value 25 1; HeadersComplete;
       MessageComplete]).
Proof. vm_compute. reflexivity. Qed.

Example run_post :
  run_string HTTP_REQUEST (lines ["POST / HTTP/1.1"; "Content-Length: 5"; ""] +:+ "hello")
  = Some (43, HPE_OK, s_start_req,
      [MessageBegin; Data url 5 1; Data header_field 17 14; Data header_value 33 1; HeadersComplete;
       Data body 38 5; MessageComplete]).
Proof. vm_compute. reflexivity. Qed.

Example run_chunked :
  run_string HTTP_RESPONSE
    (lines ["HTTP/1.1 200 OK"; "Transfer-Encoding: chunked"; ""; "5"; "hello"; "0"; ""])
  = Some (62, HPE_OK, s_start_res,
      [MessageBegin; Data status 13 2; Data header_field 17 17; Data header_value 36 7; HeadersComplete;
       ChunkHeader 5; Data body 50 5; ChunkComplete; ChunkHeader 0; ChunkComplete; MessageComplete]).
Proof. vm_compute. reflexivity. Qed.

(** A byte from 128 on counts as a zero digit of a chunk size. *)
Definition byte_255 : string := String (Ascii.ascii_of_nat 255) "".

Example run_chunk_size_high_byte :
  run_string HTTP_RESPONSE
    (lines ["HTTP/1.1 200 OK"; "Transfer-Encoding: chunked"; ""; byte_255 +:+ "5"; "hello"; "0"; ""])
  = Some (63, HPE_OK, s_start_res,
      [MessageBegin; Data status 13 2; Data header_field 17 17; Data header_value 36 7; HeadersComplete;
       ChunkHeader 5; Data body 51 5; ChunkComplete; ChunkHeader 0; ChunkComplete; MessageComplete]).
Proof. vm_compute. reflexivity. Qed.
