(* ===== verification/HttpLogic.v ===== *)
(** A program logic for the pieces of [http_parser_execute]: total correctness
    with a postcondition per way of ending, the invariant of the parser, and
    the rules for the macros. *)
From S2P Require Import Prelude HttpTypes HttpUrl HttpExec HttpStates HttpHeaders HttpParser.

Local Open Scope Z_scope.
Local Open Scope exec_scope.

(** ** Triples *)

(** What is to hold when a piece ends other than in a value. *)
Record post (U : Type) := Post {
  on_break : exec U -> Prop;
  on_reexecute : exec U -> Prop;
  on_error : exec U -> Prop;
  on_return : Z -> exec U -> Prop
}.
Arguments Post {U}.
Arguments on_break {U} _.
Arguments on_reexecute {U} _.
Arguments on_error {U} _.
Arguments on_return {U} _.

Section Spec.
Context {U : Type}.
Implicit Types (s : exec U) (P : post U).

Definition spec {A} (m : E U A) s (K : A -> exec U -> Prop) P : Prop :=
  match m s with
  | Value a s' => K a s'
  | Break s' => on_break P s'
  | Reexecute s' => on_reexecute P s'
  | GotoError s' => on_error P s'
  | Return v s' => on_return P v s'
  | Stuck _ => False
  end.

Lemma spec_bind {A B} (m : E U A) (k : A -> E U B) s K P :
  spec m s (fun a s' => spec (k a) s' K P) P -> spec (ebind m k) s K P.
Proof. unfold spec, ebind. by destruct (m s). Qed.

Lemma spec_mono {A} (m : E U A) s (K K' : A -> exec U -> Prop) P :
  spec m s K P -> (forall a s', K a s' -> K' a s') -> spec m s K' P.
Proof. unfold spec. destruct (m s); eauto. Qed.

Lemma spec_done {A} (a : A) s (K : A -> exec U -> Prop) P : K a s -> spec (done a) s K P.
Proof. done. Qed.
Lemma spec_look {A} (f : exec U -> A) s (K : A -> exec U -> Prop) P : K (f s) s -> spec (look f) s K P.
Proof. done. Qed.
Lemma spec_upd f s (K : unit -> exec U -> Prop) P : K tt (f s) -> spec (upd f) s K P.
Proof. done. Qed.
Lemma spec_change f s (K : unit -> exec U -> Prop) P : K tt (with_parser f s) -> spec (change f) s K P.
Proof. done. Qed.
Lemma spec_UPDATE_STATE x s (K : unit -> exec U -> Prop) P : K tt (with_state x s) -> spec (UPDATE_STATE x) s K P.
Proof. done. Qed.
Lemma spec_add_p d s (K : unit -> exec U -> Prop) P : K tt (with_p (fun z => z + d) s) -> spec (add_p d) s K P.
Proof. done. Qed.
Lemma spec_break {A} s (K : A -> exec U -> Prop) P : on_break P s -> spec break s K P.
Proof. done. Qed.
Lemma spec_reexecute {A} s (K : A -> exec U -> Prop) P : on_reexecute P s -> spec reexecute s K P.
Proof. done. Qed.
Lemma spec_return {A} v s (K : A -> exec U -> Prop) P : on_return P v s -> spec (return_ v) s K P.
Proof. done. Qed.
Lemma spec_assert b s (K : unit -> exec U -> Prop) P : b = true -> K tt s -> spec (eassert b) s K P.
Proof. by intros ->. Qed.
Lemma spec_when b m s (K : unit -> exec U -> Prop) P :
  (b = true -> spec m s K P) -> (b = false -> K tt s) -> spec (ewhen b m) s K P.
Proof. destruct b; intros Ht Hf; [by apply Ht|by apply Hf]. Qed.

(** [s] with another errno, and with [nread] stored *)
Definition set_error (e : http_errno) s : exec U :=
  with_parser (fun x => set_errno (fun _ => e) (set_nread (fun _ => nread s) x)) s.

Lemma spec_SET_ERRNO e s (K : unit -> exec U -> Prop) P :
  K tt (set_error e s) -> spec (SET_ERRNO e) s K P.
Proof. done. Qed.

Lemma spec_fail {A} e s (K : A -> exec U -> Prop) P : on_error P (set_error e s) -> spec (fail_with e) s K P.
Proof. done. Qed.

Lemma spec_RETURN {A} v s (K : A -> exec U -> Prop) P :
  on_return P v (with_parser (fun x => set_state (fun _ => p_state s) (set_nread (fun _ => nread s) x)) s) ->
  spec (RETURN v) s K P.
Proof. done. Qed.

Lemma spec_char_at data i c s (K : Z -> exec U -> Prop) P :
  0 <= i -> data !! Z.to_nat i = Some c -> K c s -> spec (char_at data i) s K P.
Proof.
  intros Hi Hc HK. unfold spec, char_at. destruct (Z.ltb_spec i 0); [lia|]. by rewrite Hc.
Qed.

Lemma spec_MARK m s (K : unit -> exec U -> Prop) P :
  K tt (match mark_of m s with None => with_mark m (Some (p s)) s | Some _ => s end) ->
  spec (MARK m) s K P.
Proof. done. Qed.

Lemma spec_STRICT strict cond s (K : unit -> exec U -> Prop) P :
  on_error P (set_error HPE_STRICT s) -> K tt s -> spec (STRICT_CHECK strict cond) s K P.
Proof. intros He HK. unfold STRICT_CHECK. by destruct (strict && cond). Qed.

Lemma spec_COUNT max v s (K : unit -> exec U -> Prop) P :
  let s' := with_nread (fun n => u32 (n + u32 v)) s in
  (nread s' <= max -> K tt s') -> (max < nread s' -> on_error P (set_error HPE_HEADER_OVERFLOW s')) ->
  spec (COUNT_HEADER_SIZE max v) s K P.
Proof.
  intros s' HK He. unfold COUNT_HEADER_SIZE, spec, ebind, upd, look. fold s'.
  destruct (Z.gtb_spec (nread s') max); [by apply He|apply HK; lia].
Qed.
End Spec.

(** ** Equations, to run a piece step by step *)

Section Equations.
Context {U : Type}.
Implicit Types (s : exec U).

Lemma ebind_assoc {A B C} (m : E U A) (k : A -> E U B) (l : B -> E U C) s :
  ebind (ebind m k) l s = ebind m (fun a => ebind (k a) l) s.
Proof. unfold ebind. by destruct (m s). Qed.

Lemma ebind_done {A B} (a : A) (k : A -> E U B) s : ebind (done a) k s = k a s.
Proof. done. Qed.
Lemma ebind_look {A B} (f : exec U -> A) (k : A -> E U B) s : ebind (look f) k s = k (f s) s.
Proof. done. Qed.
Lemma ebind_upd {B} f (k : unit -> E U B) s : ebind (upd f) k s = k tt (f s).
Proof. done. Qed.
Lemma ebind_change {B} f (k : unit -> E U B) s : ebind (change f) k s = k tt (with_parser f s).
Proof. done. Qed.
Lemma ebind_UPDATE_STATE {B} x (k : unit -> E U B) s : ebind (UPDATE_STATE x) k s = k tt (with_state x s).
Proof. done. Qed.
Lemma ebind_assert {B} b (k : unit -> E U B) s : b = true -> ebind (eassert b) k s = k tt s.
Proof. by intros ->. Qed.
Lemma ebind_fail {A B} e (k : A -> E U B) s : ebind (fail_with e) k s = GotoError (set_error e s).
Proof. done. Qed.
Lemma fail_eq {A} e s : fail_with (A := A) e s = GotoError (set_error e s).
Proof. done. Qed.
End Equations.

Ltac ereduce := cbn [parser p_state nread p ch user with_parser with_state with_nread with_p with_ch with_user] in *.
Ltac erun := repeat (first
  [ rewrite ebind_assoc | rewrite ebind_look | rewrite ebind_upd | rewrite ebind_change | rewrite ebind_UPDATE_STATE
  | rewrite ebind_done | rewrite ebind_fail | rewrite fail_eq | rewrite ebind_assert by done ]; cbv beta; ereduce).

(** ** The invariant of a parser *)

(** The header states of a field name *)
Definition field_header_state (h : header_states) : bool :=
  match h with
  | h_general | h_C | h_CO | h_CON | h_matching_connection | h_matching_proxy_connection
  | h_matching_content_length | h_matching_transfer_encoding | h_matching_upgrade
  | h_connection | h_content_length | h_transfer_encoding | h_upgrade => true
  | _ => false
  end.

(** The header states of a value *)
Definition value_header_state (h : header_states) : bool :=
  match h with
  | h_connection | h_transfer_encoding => false
  | _ => true
  end.

(** The index into the name of the method is in the string, or at its end. *)
Definition method_ok (x : http_parser) : Prop :=
  0 <= method x < 34 /\
  exists m, method_strings !! Z.to_nat (method x) = Some m /\ index x <= Z.of_nat (String.length m).

(** A length that leaves something to read *)
Definition length_ok (x : http_parser) : Prop :=
  content_length x <> 0 /\ content_length x <> ULLONG_MAX.

Definition chunk_size_ok (x : http_parser) : Prop :=
  has_flag (flags x) F_CHUNKED = true /\ content_length x <= 2 ^ 64 - 17.

(** What the parser is like in a state *)
Definition state_ok (st : state) (x : http_parser) : Prop :=
  match st with
  | s_header_field => field_header_state (header_state x) = true
  | s_header_value => value_header_state (header_state x) = true
  | s_req_method => method_ok x
  | s_chunk_size_start | s_chunk_data_done => has_flag (flags x) F_CHUNKED = true
  | s_chunk_size | s_chunk_parameters | s_chunk_size_almost_done => chunk_size_ok x
  | s_chunk_data => has_flag (flags x) F_CHUNKED = true /\ length_ok x
  | s_chunk_data_almost_done => has_flag (flags x) F_CHUNKED = true /\ content_length x = 0
  | s_body_identity => length_ok x
  | _ => True
  end.

Definition fields_ok (x : http_parser) : Prop :=
  0 <= content_length x < 2 ^ 64 /\ 0 <= index x < 32.

Section Invariant.
Variable max_header_size : Z.

(** A parser between two calls, when it has no error *)
Record parser_ok (x : http_parser) : Prop := {
  po_state : state_ok (state_ x) x;
  po_fields : fields_ok x;
  po_nread : 0 <= nread_ x <= max_header_size;
  po_chunk : state_ x = s_chunk_size_start -> nread_ x = 0
}.

Context {U : Type}.
(** What the user relies on about a state of its own *)
Variable Iu : U -> Prop.

(** The states in which part of the message is being collected *)
Definition mark_state (m : part) (st : state) : bool :=
  match m, st with
  | header_field, s_header_field | header_value, s_header_value | status, s_res_status => true
  | url, (s_req_schema | s_req_schema_slash | s_req_schema_slash_slash | s_req_server_start
    | s_req_server | s_req_server_with_at | s_req_path | s_req_query_string_start
    | s_req_query_string | s_req_fragment_start | s_req_fragment) => true
  | body, (s_body_identity | s_body_identity_eof | s_chunk_data | s_chunk_data_almost_done) => true
  | _, _ => false
  end.

Definition marks_in (s : exec U) : Prop :=
  forall m i, mark_of m s = Some i -> 0 <= i <= p s.

Definition marks_ok (s : exec U) : Prop :=
  forall m i, mark_of m s = Some i -> mark_state m (p_state s) = true.

(** The locals in the loop, but for where marks may be set *)
Record core (s : exec U) : Prop := {
  co_errno : errno_ (parser s) = HPE_OK;
  co_state : state_ok (p_state s) (parser s);
  co_fields : fields_ok (parser s);
  co_nread : 0 <= nread s <= max_header_size;
  co_stored : 0 <= nread_ (parser s) <= max_header_size;
  co_in : marks_in s;
  co_user : Iu (user s)
}.

Definition inv (s : exec U) : Prop := core s /\ marks_ok s.

Definition chunk_start (n : Z) (s : exec U) : Prop := p_state s = s_chunk_size_start -> nread s = n.

(** How often a byte may be looked at again: each [goto reexecute] leads to a
    state of lower rank. *)
Definition rank (st : state) : nat :=
  match st with
  | s_message_done | s_headers_done | s_res_status | s_start_req | s_header_almost_done
  | s_header_value_start => 0
  | s_headers_almost_done | s_res_status_start => 1
  | s_header_field_start => 2
  | _ => 3
  end.

Variable size : Z.

Definition break_ok (i : Z) (s : exec U) : Prop :=
  inv s /\ chunk_start 0 s /\ i <= p s < size.

Definition reexecute_ok (i : Z) (r : nat) (s : exec U) : Prop :=
  inv s /\ p_state s <> s_chunk_size_start /\ i <= p s < size /\ (rank (p_state s) < r)%nat.

Definition error_ok (s : exec U) : Prop :=
  errno_ (parser s) <> HPE_PAUSED /\ 0 <= p s <= size /\ Iu (user s).

(** A parser that was left without error, or was paused, can be resumed. *)
Definition resumable (x : http_parser) : Prop :=
  errno_ x = HPE_OK \/ errno_ x = HPE_PAUSED -> parser_ok (set_errno (fun _ => HPE_OK) x).

(** The number returned is that of the bytes parsed: all of them, unless there
    was an error, a pause, or an upgrade. *)
Definition all_parsed (v : Z) (x : http_parser) : Prop :=
  errno_ x = HPE_OK -> v = size \/ upgrade x <> 0.

Definition return_ok (v : Z) (s : exec U) : Prop :=
  0 <= v <= size /\ resumable (parser s) /\ all_parsed v (parser s) /\ Iu (user s).

(** A return from inside the loop is for an error, a pause or an upgrade. *)
Definition exit_ok (v : Z) (s : exec U) : Prop :=
  0 <= v <= size /\ resumable (parser s) /\ (errno_ (parser s) = HPE_OK -> upgrade (parser s) <> 0) /\
  Iu (user s).

Lemma exit_return v s : exit_ok v s -> return_ok v s.
Proof. intros (Hv & Hr & Hx & Hu). split; [done|]. split; [done|]. split; [by right; apply Hx|done]. Qed.

Definition ends (i : Z) (r : nat) : post U :=
  Post (break_ok i) (reexecute_ok i r) error_ok exit_ok.

(** ** Callbacks *)

(** A callback may set the errno of the parser, as [http_parser_pause] does,
    and nothing else of it, and keeps what the user relies on. *)
Definition cb_ok (cb : option (http_cb U)) : Prop :=
  forall f, cb = Some f -> forall x u, Iu u ->
    (f x u).1.2 = set_errno (fun _ => errno_ (f x u).1.2) x /\ Iu (f x u).2.

(** A data callback need only do so for ranges of the buffer. *)
Definition data_cb_ok (cb : option (http_data_cb U)) : Prop :=
  forall f, cb = Some f -> forall at_ n x u, 0 <= at_ -> 0 <= n -> at_ + n <= size -> Iu u ->
    (f at_ n x u).1.2 = set_errno (fun _ => errno_ (f at_ n x u).1.2) x /\ Iu (f at_ n x u).2.

Record settings_ok (settings : http_parser_settings U) : Prop := {
  so_message_begin : cb_ok (on_message_begin settings);
  so_headers_complete : cb_ok (on_headers_complete settings);
  so_message_complete : cb_ok (on_message_complete settings);
  so_chunk_header : cb_ok (on_chunk_header settings);
  so_chunk_complete : cb_ok (on_chunk_complete settings);
  so_data m : data_cb_ok (data_cb settings m)
}.
End Invariant.
Arguments fields_ok : simpl never.
Arguments marks_in : simpl never.
Arguments marks_ok : simpl never.

(** ** Rules for the callbacks *)

Section Rules.
Context {U : Type}.
Variable max_header_size : Z.
Variable Iu : U -> Prop.
Variable size : Z.
Implicit Types (s : exec U) (x : http_parser).

(** [s] after a callback that did not stop the parser: only the stored state
    and the user's state may differ. *)
Definition called (st : state) (u : U) (s : exec U) : exec U :=
  with_user u (with_parser (set_state (fun _ => st)) s).

Lemma called_same s : called (state_ (parser s)) (user s) s = s.
Proof. by destruct s as [[] ? ? ? ? ? ? ? ? ? ?]. Qed.

Lemma inv_resumable st e s :
  core max_header_size Iu s -> p_state s = st ->
  (p_state s = s_chunk_size_start -> nread_ (parser s) = 0) ->
  resumable max_header_size (set_errno (fun _ => e) (set_state (fun _ => st) (parser s))).
Proof.
  intros Hs <- Hc _. destruct Hs as [_ Hst Hf _ Hn _ _]. split; [|exact Hf|exact Hn|exact Hc].
  destruct (p_state s); exact Hst.
Qed.

Lemma set_errno_id x : errno_ x = HPE_OK -> set_errno (fun _ => HPE_OK) x = x.
Proof. destruct x. simpl. by intros ->. Qed.

(** The tail of a callback, from a parser it changed the errno of. *)
Lemma spec_after e er r x u s (K : unit -> exec U -> Prop) P :
  (forall v s', exit_ok max_header_size Iu size v s' -> on_return P v s') ->
  core max_header_size Iu s -> (p_state s = s_chunk_size_start -> nread_ (parser s) = 0) ->
  0 <= er <= size -> e <> HPE_OK -> e <> HPE_PAUSED -> Iu u ->
  x = set_errno (fun _ => errno_ x) (set_state (fun _ => p_state s) (parser s)) ->
  K tt (called (p_state s) u s) ->
  spec (after_callback e er r x u) s K P.
Proof.
  intros HP Hs Hc Her He Hp Hu Hx HK. unfold after_callback.
  apply spec_bind, spec_upd, spec_bind. rewrite Hx. apply spec_when.
  - intros _. apply spec_SET_ERRNO, spec_bind, spec_upd, spec_bind, spec_look.
    cbn. rewrite decide_True by done. apply HP. split; [done|]. split; [intros [?|?]; done|by split; [intros ?|]].
  - intros _. apply spec_bind, spec_upd, spec_bind, spec_look. cbn. case_decide as Herr.
    + apply HP. split; [done|]. split; [by apply inv_resumable|by split; [intros ?|]].
    + apply spec_done. destruct (decide (errno_ x = HPE_OK)) as [Hok|]; [|by destruct Herr].
      rewrite Hok. replace (with_state _ _) with (called (p_state s) u s); [done|].
      unfold called, with_state, with_user, with_parser. destruct s as [y ? ? ? ? ? ? ? ? ? ?]. cbn.
      rewrite set_errno_id; [done|]. apply (co_errno _ _ _ Hs).
Qed.

Lemma spec_no_errno s (K : unit -> exec U -> Prop) P :
  core max_header_size Iu s -> K tt s -> spec assert_no_errno s K P.
Proof.
  intros Hs HK. apply spec_bind, spec_look, spec_assert; [|done].
  apply bool_decide_eq_true, (co_errno _ _ _ Hs).
Qed.

Lemma core_stored st s : core max_header_size Iu s -> core max_header_size Iu (with_parser (set_state (fun _ => st)) s).
Proof. intros [? Hst ? ? ? ? ?]. by split. Qed.

(** A notification *)
Lemma spec_NOTIFY_any cb e er s (K : unit -> exec U -> Prop) P :
  (forall v s', exit_ok max_header_size Iu size v s' -> on_return P v s') ->
  core max_header_size Iu s -> (p_state s = s_chunk_size_start -> nread_ (parser s) = 0) ->
  0 <= er <= size -> e <> HPE_OK -> e <> HPE_PAUSED -> cb_ok Iu cb ->
  (forall st u, Iu u -> st = p_state s \/ st = state_ (parser s) -> K tt (called st u s)) ->
  spec (CALLBACK_NOTIFY_ cb e er) s K P.
Proof.
  intros HP Hs Hc Her He Hp Hcb HK. unfold CALLBACK_NOTIFY_. apply spec_bind, spec_no_errno; [done|].
  destruct cb as [f|].
  - apply spec_bind, spec_upd, spec_bind, spec_look. cbn [id parser user with_parser].
    pose proof (Hcb f eq_refl (set_state (fun _ => p_state s) (parser s)) (user s) (co_user _ _ _ Hs)) as [Hf Hu].
    destruct (f _ _) as [[r x] u] eqn:Hr. simpl in Hf, Hu.
    apply spec_after; [exact HP|by apply core_stored|exact Hc|done|done|done|done|exact Hf|].
    cbn. exact (HK (p_state s) u Hu (or_introl eq_refl)).
  - apply spec_done. rewrite <- (called_same s). apply HK; [apply Hs|by right].
Qed.

(** A data callback, which clears its mark *)
Lemma spec_DATA_any settings m fin er s (K : unit -> exec U -> Prop) P :
  (forall v s', exit_ok max_header_size Iu size v s' -> on_return P v s') ->
  core max_header_size Iu s ->
  (is_Some (mark_of m s) -> p_state s = s_chunk_size_start -> nread_ (parser s) = 0) ->
  0 <= er <= size -> p s <= fin <= size -> data_cb_ok Iu size (data_cb settings m) ->
  (forall st u, Iu u -> K tt (with_mark m None (called st u s))) ->
  spec (CALLBACK_DATA_ settings m fin er) s K P.
Proof.
  intros HP Hs Hc Her Hfin Hcb HK. unfold CALLBACK_DATA_. apply spec_bind, spec_no_errno; [done|].
  apply spec_bind, spec_look. destruct (mark_of m s) as [j|] eqn:Hm.
  - pose proof (co_in _ _ _ Hs m j Hm) as Hj. apply spec_bind. destruct (data_cb settings m) as [f|] eqn:Hd.
    + apply spec_bind, spec_upd, spec_bind, spec_look. cbn [id parser user with_parser].
      destruct (Hcb f eq_refl j (fin - j) (set_state (fun _ => p_state s) (parser s)) (user s)) as [Hf Hu];
        [lia|lia|lia|apply Hs|].
      destruct (f _ _ _ _) as [[r x] u] eqn:Hr. simpl in Hf, Hu.
      apply spec_after; [exact HP|by apply core_stored|exact (Hc ltac:(eauto))|done|by destruct m|by destruct m
        |done|exact Hf|].
      apply spec_upd. exact (HK (p_state s) u Hu).
    + apply spec_done, spec_upd. rewrite <- (called_same s) at 1. apply HK, Hs.
  - apply spec_done. assert (Heq : with_mark m None (called (state_ (parser s)) (user s) s) = s).
    { rewrite called_same. destruct s as [? ? ? ? ? ? ? ? ? ? ?], m; cbn in Hm; by subst. }
    rewrite <- Heq. apply HK, Hs.
Qed.

Lemma spec_NOTIFY_ cb e er s (K : unit -> exec U -> Prop) i n :
  core max_header_size Iu s -> (p_state s = s_chunk_size_start -> nread_ (parser s) = 0) ->
  0 <= er <= size -> e <> HPE_OK -> e <> HPE_PAUSED -> cb_ok Iu cb ->
  (forall st u, Iu u -> st = p_state s \/ st = state_ (parser s) -> K tt (called st u s)) ->
  spec (CALLBACK_NOTIFY_ cb e er) s K (ends max_header_size Iu size i n).
Proof. intros. by apply spec_NOTIFY_any. Qed.

Lemma spec_DATA_ settings m fin er s (K : unit -> exec U -> Prop) i n :
  core max_header_size Iu s ->
  (is_Some (mark_of m s) -> p_state s = s_chunk_size_start -> nread_ (parser s) = 0) ->
  0 <= er <= size -> p s <= fin <= size -> data_cb_ok Iu size (data_cb settings m) ->
  (forall st u, Iu u -> K tt (with_mark m None (called st u s))) ->
  spec (CALLBACK_DATA_ settings m fin er) s K (ends max_header_size Iu size i n).
Proof. intros. by apply spec_DATA_any. Qed.
End Rules.
