(* ===== verification/HttpSafe.v ===== *)
(** The cases of the switch keep the invariant of HttpLogic.v, run into no
    failed assertion and no read out of bounds, and stay within the ranks of
    the states when they [goto reexecute]. *)
From S2P Require Import Prelude HttpTypes HttpUrl HttpExec HttpStates HttpHeaders HttpParser HttpLogic.

Local Open Scope Z_scope.
Local Open Scope exec_scope.
#[local] Arguments Z.add : simpl never.
#[local] Arguments Z.sub : simpl never.

(** Steps through a triple, as far as its control flow goes. *)
Ltac estep :=
  lazymatch goal with
  | |- spec (ebind _ _) _ _ _ => apply spec_bind
  | |- spec (look _) _ _ _ => apply spec_look
  | |- spec (upd _) _ _ _ => apply spec_upd
  | |- spec (change _) _ _ _ => apply spec_change
  | |- spec (UPDATE_STATE _) _ _ _ => apply spec_UPDATE_STATE
  | |- spec (add_p _) _ _ _ => apply spec_add_p
  | |- spec break _ _ _ => apply spec_break
  | |- spec reexecute _ _ _ => apply spec_reexecute
  | |- spec (fail_with _) _ _ _ => apply spec_fail
  | |- spec (done _) _ _ _ => apply spec_done
  | |- spec (SET_ERRNO _) _ _ _ => apply spec_SET_ERRNO
  | |- spec (RETURN _) _ _ _ => apply spec_RETURN
  | |- spec (STRICT_CHECK _ _) _ _ _ => apply spec_STRICT
  | |- spec (ewhen _ _) _ _ _ => apply spec_when; intros ?
  | |- spec (if ?b then _ else _) _ _ _ => destruct b eqn:?
  | |- spec (MARK _) _ _ _ => apply spec_MARK; cbn [mark_of]
  end; cbv beta.
Ltac esteps := repeat (estep; cbn [parser p_state nread p ch user header_field_mark header_value_mark url_mark
  body_mark status_mark with_parser with_state with_nread with_p with_ch with_user with_mark mark_of called]).

(** ** Facts on the tables and on integers *)

Lemma next_index_range i : 0 <= (i + 1) mod 32 < 32.
Proof. apply Z.mod_pos_bound. lia. Qed.

Lemma ULLONG_MAX_range : 0 <= ULLONG_MAX < 2 ^ 64.
Proof. unfold ULLONG_MAX. lia. Qed.

Lemma method_known x m : method x = m -> 0 <= m < 34 -> index x <= 2 -> method_ok x.
Proof.
  intros Hx Hm Hi. split; [lia|]. rewrite Hx.
  destruct (lookup_lt_is_Some_2 method_strings (Z.to_nat m)) as [w Hw]; [cbn; lia|].
  exists w. split; [done|].
  assert (Hall : forall j w, method_strings !! j = Some w -> 2 <= Z.of_nat (String.length w)).
  { intros j v Hj. apply list_elem_of_lookup_2 in Hj.
    cut (Forall (fun v => 2 <= Z.of_nat (String.length v)) method_strings).
    { rewrite Forall_forall. intros Hf. by apply Hf. }
    unfold method_strings. repeat (constructor; [cbn; lia|]). constructor. }
  specialize (Hall _ _ Hw). lia.
Qed.

Lemma first_letter_range c m : first_letter_method c = Some m -> 0 <= m < 34.
Proof. unfold first_letter_method. repeat case_match; intros [= <-]; done. Qed.

Lemma chars_length w : length (chars w) = String.length w.
Proof. induction w as [|a w IH]; simpl; [done|]. by rewrite IH. Qed.

Lemma c_string_at_some w i :
  0 <= i <= Z.of_nat (String.length w) -> is_Some (c_string_at w i).
Proof.
  intros Hi. unfold c_string_at. apply lookup_lt_is_Some_2. rewrite length_app, chars_length. simpl. lia.
Qed.

Lemma c_string_at_inside w i c :
  0 <= i -> c_string_at w i = Some c -> c <> 0 -> i < Z.of_nat (String.length w).
Proof.
  unfold c_string_at. intros Hi Hc Hne. apply lookup_app_Some in Hc as [Hc|[Hl Hc]].
  - apply lookup_lt_Some in Hc. rewrite chars_length in Hc. lia.
  - apply list_lookup_singleton_Some in Hc as [_ <-]. done.
Qed.

Lemma lor_low a b k : 0 <= k -> 0 <= b < 2 ^ k -> Z.lor (Z.shiftl a k) b = a * 2 ^ k + b.
Proof.
  intros Hk Hb. rewrite <- Z.shiftl_mul_pow2 by done. symmetry. apply Z.add_nocarry_lor.
  apply Z.bits_inj'. intros j Hj. rewrite Z.land_spec, Z.bits_0.
  destruct (Z.lt_ge_cases j k).
  - by rewrite Z.shiftl_spec_low.
  - rewrite (Z.testbit_eqb b) by done. rewrite Z.div_small; [apply andb_false_r|].
    split; [lia|]. apply Z.lt_le_trans with (2 ^ k); [lia|]. by apply Z.pow_le_mono_r.
Qed.

Lemma method_code_eq m pos c :
  0 <= pos < 256 -> 0 <= c < 256 -> method_code m pos c = m * 65536 + (pos * 256 + c).
Proof.
  intros Hp Hc. unfold method_code. rewrite <- Z.lor_assoc, (lor_low pos c 8) by lia.
  rewrite lor_low by lia. lia.
Qed.

(** A correction leads to a method whose name is longer. *)
Lemma switch_method_ok m pos c m' :
  0 <= pos < 256 -> 0 <= c < 256 -> switch_method m pos c = Some m' ->
  0 <= m' < 34 /\ exists w, method_strings !! Z.to_nat m' = Some w /\ pos < Z.of_nat (String.length w).
Proof.
  intros Hp Hc Hs. unfold switch_method in Hs. apply fmap_Some in Hs as ([j [[[a b] d] e]] & Hf & ->).
  apply list_find_Some in Hf as (Hj & Hcode & _). simpl.
  apply list_elem_of_lookup_2 in Hj.
  assert (Hall : Forall (fun '(a, b, d, e) => 0 <= b < 256 /\ 0 <= d < 256 /\ 0 <= e < 34 /\
    exists w, method_strings !! Z.to_nat e = Some w /\ b < Z.of_nat (String.length w)) method_switch).
  { unfold method_switch.
    repeat (constructor; [split_and!; try done; eexists; split; [reflexivity|done]|]). constructor. }
  rewrite Forall_forall in Hall. destruct (Hall _ Hj) as (Hb & Hd & He & w & Hw & Hlen).
  rewrite !method_code_eq in Hcode by done. assert (b = pos) as -> by lia. eauto.
Qed.

Lemma method_lengths j w : method_strings !! j = Some w -> Z.of_nat (String.length w) < 16.
Proof.
  intros Hj. apply list_elem_of_lookup_2 in Hj. revert w Hj. rewrite <- Forall_forall.
  unfold method_strings. repeat (constructor; [done|]). constructor.
Qed.

Lemma method_advance x m w f :
  method_strings !! Z.to_nat m = Some w -> 0 <= m < 34 -> 0 <= index x < Z.of_nat (String.length w) ->
  method (f x) = m -> index (f x) = index x ->
  method_ok (set_index (fun i => (i + 1) mod 32) (f x)).
Proof.
  intros Hw Hm Hi Hfm Hfi. pose proof (method_lengths _ _ Hw).
  split; [cbn; by rewrite Hfm|]. exists w. cbn. rewrite Hfm, Hfi. split; [done|].
  rewrite Z.mod_small by lia. lia.
Qed.

Lemma length_ok_intro x :
  (content_length x =? 0) = false -> negb (content_length x =? ULLONG_MAX) = true -> length_ok x.
Proof. intros H0 Hm. apply negb_true_iff, Z.eqb_neq in Hm. apply Z.eqb_neq in H0. by split. Qed.

Lemma length_taken x k :
  fields_ok x -> 1 <= k <= content_length x -> (content_length x - k =? 0) = false ->
  length_ok (set_content_length (fun z => z - k) x).
Proof. intros [Hc _] Hk H0. apply Z.eqb_neq in H0. split; cbn; [done|unfold ULLONG_MAX]. lia. Qed.

Lemma unhex_at_range c : -1 <= unhex_at c <= 15.
Proof.
  unfold unhex_at. destruct (unhex !! Z.to_nat c) as [v|] eqn:Hv; cbn; [|lia].
  apply list_elem_of_lookup_2 in Hv. revert v Hv. rewrite <- Forall_forall.
  unfold unhex. repeat (constructor; [done|]). constructor.
Qed.

Lemma unhex_digit c : (unhex_at c =? -1) = false -> 0 <= unhex_at c <= 15.
Proof. intros Hc. apply Z.eqb_neq in Hc. pose proof (unhex_at_range c). lia. Qed.

Section Safe.
Context {U : Type}.
Variable strict : bool.
Variable settings : http_parser_settings U.
Variable max_header_size bound : Z.
(** The stored count may come from a call with a larger limit. *)
Hypothesis Hbound : 0 <= max_header_size <= bound.
Variable Iu : U -> Prop.
Variable lenient allow_chunked_length_ : bool.
Variable data : list Z.
Let size := Z.of_nat (length data).
Hypothesis Hsettings : settings_ok Iu size settings.

(** A case of the switch does what it should from state [st]. *)
Definition case_ok (st : state) (m : E U unit) : Prop :=
  forall s, inv bound Iu s -> p_state s = st ->
    (st = s_chunk_size_start -> nread s = 1) -> 0 <= p s < size ->
    spec m s (fun _ s' => break_ok bound Iu size (p s) s') (ends bound Iu size (p s) (rank st)).

(** A mark that is set is before [p], and belongs to the state. *)
Definition mark_at (m : part) (st : state) (i : Z) (o : option Z) : Prop :=
  forall j, o = Some j -> 0 <= j <= i /\ mark_state m st = true.

Lemma case_intro st m :
  (forall x n i c hf hv ur bd sm us,
     errno_ x = HPE_OK -> state_ok st x -> fields_ok x -> 0 <= n <= bound ->
     0 <= nread_ x <= bound ->
     mark_at header_field st i hf -> mark_at header_value st i hv -> mark_at url st i ur ->
     mark_at body st i bd -> mark_at status st i sm ->
     (st = s_chunk_size_start -> n = 1) -> 0 <= i < size -> Iu us ->
     spec m (Exec x st n i c hf hv ur bd sm us)
       (fun _ s' => break_ok bound Iu size i s') (ends bound Iu size i (rank st))) ->
  case_ok st m.
Proof.
  intros Hm [x st' n i c hf hv ur bd sm us] [[He Hst Hf Hn Hsn Hin Hus] Hmk] Hst' Hc Hp. cbn in *. subst st'.
  apply Hm; try done; intros j Hj.
  - split; [exact (Hin header_field j Hj)|exact (Hmk header_field j Hj)].
  - split; [exact (Hin header_value j Hj)|exact (Hmk header_value j Hj)].
  - split; [exact (Hin url j Hj)|exact (Hmk url j Hj)].
  - split; [exact (Hin body j Hj)|exact (Hmk body j Hj)].
  - split; [exact (Hin status j Hj)|exact (Hmk status j Hj)].
Qed.

(** Starts a case: no marks but those of the state. *)
Ltac no_mark o H := destruct o as [?|]; [try (destruct (H _ eq_refl) as [_ ?]; discriminate)|clear H].
Ltac start :=
  apply case_intro;
  intros x n i c hf hv ur bd sm us He Hst Hf Hn Hsn Hhf Hhv Hur Hbd Hsm Hone Hi Hus;
  no_mark hf Hhf; no_mark hv Hhv; no_mark ur Hur; no_mark bd Hbd; no_mark sm Hsm;
  cbn [state_ok] in Hst; cbn [rank].

Ltac solve_fields :=
  unfold fields_ok in *; cbn; split; first [lia | apply u64_range | apply next_index_range
    | apply ULLONG_MAX_range | (destruct (_ : _ /\ _) ; lia)].
Ltac solve_marks :=
  intros [] ? ?; cbn in *; simplify_eq; try done; try lia;
  try (match goal with H : mark_at _ _ _ _ |- _ => edestruct H; [reflexivity|]; lia end).
Ltac solve_core := split; [cbn; done|cbn; try done|first [done|solve_fields]
  |cbn; first [lia|split; [apply u32_range|assumption]]|cbn; lia|solve_marks|cbn; assumption].
Ltac solve_inv := split; [solve_core|solve_marks].
(** A [return] before the end is for an upgrade, or with an error. *)
Ltac solve_parsed :=
  intros ?; try done; cbn in *;
  first [by apply Z.eqb_neq, negb_true_iff
        | match goal with H : _ && _ = true |- _ =>
            apply andb_true_iff in H; destruct H as [H _]; by apply Z.eqb_neq, negb_true_iff end].
Ltac solve_end :=
  lazymatch goal with
  | |- break_ok _ _ _ _ _ => split; [solve_inv|split; [intros ?; cbn in *; try done; try lia|cbn in *; lia]]
  | |- reexecute_ok _ _ _ _ _ _ => split; [solve_inv|split; [done|split; [cbn in *; lia|cbn; lia]]]
  | |- error_ok _ _ _ => split; [done|split; [cbn in *; lia|cbn; assumption]]
  | |- exit_ok _ _ _ _ _ => split; [cbn in *; lia|];
      first [split; [intros [?|?]; discriminate|split; [by intros ?|cbn; assumption]]
            | split; [intros _; split; cbn; [try done|first [done|solve_fields]|lia|try done]|split; [solve_parsed|cbn; assumption]]]
  | |- _ => idtac
  end.
Ltac notify :=
  apply spec_NOTIFY_;
    [solve_core | cbn; try done | cbn in *; lia | done | done | apply Hsettings | intros ? ? ? _].
Ltac tell :=
  apply (spec_DATA_ bound Iu size settings);
    [solve_core | cbn; try done | cbn in *; lia | cbn in *; lia | apply Hsettings | intros ? ? ?].
Ltac call :=
  lazymatch goal with
  | |- spec (CALLBACK_NOTIFY _ _) _ _ _ => unfold CALLBACK_NOTIFY
  | |- spec (CALLBACK_NOTIFY_NOADVANCE _ _) _ _ _ => unfold CALLBACK_NOTIFY_NOADVANCE
  | |- spec (CALLBACK_NOTIFY_ _ _ _) _ _ _ => notify
  | |- spec (CALLBACK_DATA _ _) _ _ _ => unfold CALLBACK_DATA
  | |- spec (CALLBACK_DATA_NOADVANCE _ _) _ _ _ => unfold CALLBACK_DATA_NOADVANCE
  | |- spec (CALLBACK_DATA_ _ _ _ _) _ _ _ => tell
  end.
Ltac go := repeat (first [progress esteps | call]).
Ltac close := cbn [on_break on_reexecute on_error on_return ends]; solve_end.
Ltac run := start; go; close.

Lemma do_dead_ok : case_ok s_dead do_dead.
Proof. unfold do_dead. run. Qed.

Lemma do_start_req_or_res_ok : case_ok s_start_req_or_res (do_start_req_or_res settings).
Proof. unfold do_start_req_or_res, clear_message. run. Qed.

Lemma do_res_or_resp_H_ok : case_ok s_res_or_resp_H do_res_or_resp_H.
Proof. unfold do_res_or_resp_H. run. apply (method_known _ HTTP_HEAD); done. Qed.

Lemma do_start_res_ok : case_ok s_start_res (do_start_res settings).
Proof. unfold do_start_res, clear_message. run. Qed.

(** States without marks and conditions *)
Definition plain (st : state) : Prop :=
  (forall m, mark_state m st = false) /\ (forall x, state_ok st x) /\ st <> s_chunk_size_start.

Lemma plain_intro st m :
  plain st ->
  (forall x n i c us, errno_ x = HPE_OK -> fields_ok x -> 0 <= n <= bound ->
     0 <= nread_ x <= bound -> 0 <= i < size -> Iu us ->
     spec m (Exec x st n i c None None None None None us)
       (fun _ s' => break_ok bound Iu size i s') (ends bound Iu size i (rank st))) ->
  case_ok st m.
Proof.
  intros (Hm & _ & _) Hspec. apply case_intro.
  intros x n i c hf hv ur bd sm us He Hst Hf Hn Hsn Hhf Hhv Hur Hbd Hsm _ Hi Hus.
  assert (Hnone : forall m o, mark_at m st i o -> o = None).
  { intros k [j|] Ho; [|done]. destruct (Ho j eq_refl). by rewrite Hm in *. }
  rewrite (Hnone _ _ Hhf), (Hnone _ _ Hhv), (Hnone _ _ Hur), (Hnone _ _ Hbd), (Hnone _ _ Hsm).
  by apply Hspec.
Qed.

Ltac plain_case :=
  intros Hst (_ & Hok & Hne); apply plain_intro; [done|]; intros; go; close.

Lemma expect_ok st c0 next : plain st -> plain next -> case_ok st (expect strict c0 next).
Proof. unfold expect. plain_case. Qed.

Lemma do_http_major_ok st next : plain st -> plain next -> case_ok st (do_http_major next).
Proof. unfold do_http_major. plain_case. Qed.

Lemma do_http_dot_ok st next : plain st -> plain next -> case_ok st (do_http_dot next).
Proof. unfold do_http_dot. plain_case. Qed.

Lemma do_http_minor_ok st next : plain st -> plain next -> case_ok st (do_http_minor next).
Proof. unfold do_http_minor. plain_case. Qed.

Lemma do_res_http_end_ok : case_ok s_res_http_end do_res_http_end.
Proof. unfold do_res_http_end. run. Qed.

Lemma do_res_first_status_code_ok : case_ok s_res_first_status_code do_res_first_status_code.
Proof. unfold do_res_first_status_code. run. Qed.

Lemma do_res_status_code_ok : case_ok s_res_status_code do_res_status_code.
Proof. unfold do_res_status_code. run. Qed.

Lemma do_res_status_start_ok : case_ok s_res_status_start do_res_status_start.
Proof. unfold do_res_status_start. run. Qed.

Lemma do_res_status_ok : case_ok s_res_status (do_res_status settings).
Proof. unfold do_res_status. run. Qed.

Lemma do_start_req_ok : case_ok s_start_req (do_start_req settings).
Proof.
  unfold do_start_req, clear_message. start. go; close.
  destruct (first_letter_method c) as [m|] eqn:Hm; go; close;
    (apply (method_known _ m); [done|by eapply first_letter_range|done]).
Qed.

Lemma do_req_method_ok : case_ok s_req_method do_req_method.
Proof.
  unfold do_req_method. start. go; close.
  destruct Hst as (Hm & w & Hw & Hlen). pose proof Hf as [_ Hidx]. rewrite Hw. cbn [mbind option_bind].
  destruct (c_string_at_some w (index x)) as [expected Hexp]; [lia|]. rewrite Hexp.
  go; close.
  - apply (method_advance x (method x) w id); try done. split; [lia|].
    eapply c_string_at_inside; [lia|exact Hexp|]. apply Z.eqb_eq in Heqb1. apply Z.eqb_neq in Heqb. lia.
  - destruct (switch_method (method x) (index x) c) as [m|] eqn:Hsw; go; close.
    apply orb_true_iff in Heqb2. rewrite andb_true_iff, !Z.leb_le, Z.eqb_eq in Heqb2.
    destruct (switch_method_ok (method x) (index x) c m) as (Hm' & w' & Hw' & Hlen'); [lia|lia|done|].
    apply (method_advance x m w' (set_method (fun _ => m))); try done. lia.
Qed.

(** The states of a URL, and where [parse_url_char] leads from them *)
Definition url_state (st : state) : bool := mark_state url st.

Lemma parse_url_char_state st ch :
  url_state (parse_url_char strict st ch) = true \/ parse_url_char strict st ch = s_dead.
Proof.
  unfold parse_url_char, server_char. repeat case_match; simpl; tauto.
Qed.

Lemma url_state_ok st x : url_state st = true -> state_ok st x /\ st <> s_chunk_size_start.
Proof. by destruct st. Qed.

Lemma spec_url_step c s (K : unit -> exec U -> Prop) P :
  (forall st, url_state st = true -> K tt (with_state st s)) ->
  on_error P (set_error HPE_INVALID_URL (with_state s_dead s)) ->
  spec (url_step strict c) s K P.
Proof.
  intros HK He. unfold url_step. esteps.
  - rewrite e in *. exact He.
  - apply HK. by destruct (parse_url_char_state (p_state s) c).
Qed.

(** A state of a URL, at the end of a case *)
Lemma url_break x st n i c (us : U) o :
  url_state st = true -> errno_ x = HPE_OK -> fields_ok x -> 0 <= n <= bound ->
  0 <= nread_ x <= bound -> 0 <= i < size -> Iu us -> (forall j, o = Some j -> 0 <= j <= i) ->
  break_ok bound Iu size i (Exec x st n i c None None o None None us).
Proof.
  intros Hu He Hf Hn Hsn Hi Hus Ho. destruct (url_state_ok st x Hu) as [Hok Hne].
  split; [split; [split|]|]; try done.
  - intros [] j Hj; simplify_eq/=. by apply Ho.
  - intros [] ? ?; simplify_eq/=. done.
  - split; [unfold chunk_start; cbn; by intros ->|]. cbn. lia.
Qed.

Ltac url_step :=
  apply spec_url_step; [intros st' Hu; go; cbn [on_break ends]; apply url_break; try done|close].

Lemma do_req_spaces_before_url_ok : case_ok s_req_spaces_before_url (do_req_spaces_before_url strict).
Proof.
  unfold do_req_spaces_before_url. start. go; close; (url_step; intros; cbn in *; simplify_eq; lia).
Qed.

Lemma do_req_schema_ok st :
  url_state st = true -> rank st = 3%nat -> case_ok st (do_req_schema strict).
Proof.
  intros Hst Hr. unfold do_req_schema. apply case_intro. rewrite Hr.
  intros x n i c hf hv ur bd sm us He _ Hf Hn Hsn Hhf Hhv Hur Hbd Hsm _ Hi Hus.
  assert (Hnone : forall m o, m <> url -> mark_at m st i o -> o = None).
  { intros m [j|] Hm Ho; [|done]. destruct (Ho j eq_refl) as [_ Hms]. by destruct m, st. }
  rewrite (Hnone header_field hf), (Hnone header_value hv), (Hnone body bd), (Hnone status sm) by done.
  go; close. url_step. cbn. intros j ->. by destruct (Hur j).
Qed.

Lemma do_req_url_ok st :
  url_state st = true -> rank st = 3%nat -> case_ok st (do_req_url strict settings).
Proof.
  intros Hst Hr. unfold do_req_url. apply case_intro. rewrite Hr.
  intros x n i c hf hv ur bd sm us He _ Hf Hn Hsn Hhf Hhv Hur Hbd Hsm _ Hi Hus.
  assert (Hnone : forall m o, m <> url -> mark_at m st i o -> o = None).
  { intros m [j|] Hm Ho; [|done]. destruct (Ho j eq_refl) as [_ Hms]. by destruct m, st. }
  rewrite (Hnone header_field hf), (Hnone header_value hv), (Hnone body bd), (Hnone status sm) by done.
  assert (forall j, ur = Some j -> 0 <= j <= i) by (intros j ->; by destruct (Hur j)).
  apply spec_bind, spec_look. cbn [ch]. set (nx := if c =? CR then _ else s_header_field_start).
  assert (nx = s_req_line_almost_done \/ nx = s_header_field_start) as [-> | ->]
    by (destruct (c =? CR); tauto).
  all: go; close. all: url_step.
Qed.

Lemma do_req_http_start_ok : case_ok s_req_http_start do_req_http_start.
Proof. unfold do_req_http_start. run. Qed.

Lemma do_req_http_end_ok : case_ok s_req_http_end do_req_http_end.
Proof. unfold do_req_http_end. run. Qed.

Lemma do_req_line_almost_done_ok : case_ok s_req_line_almost_done do_req_line_almost_done.
Proof. unfold do_req_line_almost_done. run. Qed.

(** ** The end of the headers, and the body *)

(** What [on_headers_complete] may leave of the parser: all but the errno is
    determined by it, but the parts of a parser that are bounded stay. *)
Lemma spec_headers_complete s (K : unit -> exec U -> Prop) i r :
  fields_ok (parser s) -> 0 <= p s <= size -> Iu (user s) ->
  (forall y u, Iu u -> fields_ok y -> nread_ y = nread_ (parser s) ->
     K tt (with_user u (with_parser (fun _ => y) s))) ->
  spec (do_headers_complete settings) s K (ends bound Iu size i r).
Proof.
  intros Hf Hp Hus HK. unfold do_headers_complete. destruct (on_headers_complete settings) as [f|] eqn:Hcb.
  - estep. estep. cbn [id]. destruct (so_headers_complete _ _ _ Hsettings f Hcb (parser s) (user s) Hus) as [Hx Hu].
    destruct (f _ _) as [[v y] u]. cbn in Hx, Hu.
    assert (Hy : fields_ok y /\ nread_ y = nread_ (parser s)) by (rewrite Hx; by split).
    destruct Hy as [Hy1 Hy2]. esteps; [by apply HK|..].
    1,2: apply (HK (set_flags (with_flag F_SKIPBODY) _) u); done.
    split; [cbn; lia|split; [by intros [?|?]|split; [by intros ?|done]]].
  - estep. specialize (HK (parser s) (user s)). destruct s. by apply HK.
Qed.

Lemma do_headers_almost_done_ok :
  case_ok s_headers_almost_done (do_headers_almost_done strict settings lenient allow_chunked_length_).
Proof.
  unfold do_headers_almost_done, check_framing. start. go; close.
  all: apply spec_headers_complete; [done|cbn; lia|done|].
  all: intros y u Hu Hy Hny; cbn in Hny; estep; estep; cbn; case_decide as Herr;
    [esteps; cbn; split; [cbn; lia|split; [intros _; by split|split; [by intros ?|done]]]|].
  all: go; close.
Qed.

Lemma NEW_MESSAGE_cases x :
  NEW_MESSAGE strict x = s_start_req \/ NEW_MESSAGE strict x = s_start_res \/ NEW_MESSAGE strict x = s_dead.
Proof. unfold NEW_MESSAGE, start_state. repeat case_match; auto. Qed.

(** The end of a message leads to the start of another, or to the end. *)
Lemma spec_message_over s (K : unit -> exec U -> Prop) i r :
  core bound Iu s -> 0 <= p s < size ->
  (forall st st' u, Iu u -> st = s_start_req \/ st = s_start_res \/ st = s_dead ->
     K tt (called st' u (with_state st s))) ->
  spec (message_over strict settings) s K (ends bound Iu size i r).
Proof.
  intros Hs Hp HK. unfold message_over. do 4 estep. unfold CALLBACK_NOTIFY. do 2 estep.
  specialize (HK (NEW_MESSAGE strict (parser s))).
  assert (Hc : core bound Iu (with_state (NEW_MESSAGE strict (parser s)) s) /\
    NEW_MESSAGE strict (parser s) <> s_chunk_size_start).
  { split; [destruct Hs; split; try done|]; cbn; by destruct (NEW_MESSAGE_cases (parser s)) as [-> | [-> | ->]]. }
  destruct Hc as [Hc Hne]. apply spec_NOTIFY_; [done|by intros ?|cbn; lia|done|done|apply Hsettings|].
  intros st u Hu _. apply HK, NEW_MESSAGE_cases. done.
Qed.

Ltac over := apply spec_message_over;
  [solve_core|cbn in *; lia|intros ? ? ? ? [-> | [-> | ->]]].

Lemma do_message_done_ok : case_ok s_message_done (do_message_done strict settings).
Proof. unfold do_message_done. start. go; over; go; close. Qed.

Lemma do_headers_done_ok : case_ok s_headers_done (do_headers_done strict settings lenient).
Proof.
  unfold do_headers_done, clear_nread. start. go; try over; go; close. by apply length_ok_intro.
Qed.

(** The body of known length: [n] bytes are taken, up to the end of the
    buffer. *)
Lemma spec_take_body s (K : unit -> exec U -> Prop) P :
  length_ok (parser s) -> fields_ok (parser s) -> 0 <= p s < size ->
  (forall n, 1 <= n -> n <= content_length (parser s) -> p s + n <= size ->
     let s' := with_p (fun z => z + (n - 1)) (with_parser (set_content_length (fun z => z - n))
                 (match body_mark s with None => with_mark body (Some (p s)) s | Some _ => s end)) in
     K tt s') ->
  spec (take_body data) s K P.
Proof.
  intros [H0 Hm] [Hc _] Hp HK. unfold take_body. do 4 estep. estep.
  apply spec_assert; [by rewrite (proj2 (Z.eqb_neq _ _) H0), (proj2 (Z.eqb_neq _ _) Hm)|].
  unfold data_len. fold size.
  do 5 estep. apply HK; [..|]; lia.
Qed.

Ltac take := apply spec_take_body;
  [done|done|done|intros k Hk1 Hk2 Hk3; cbn in Hk2, Hk3; cbn [body_mark]].

Lemma do_body_identity_ok : case_ok s_body_identity (do_body_identity settings data).
Proof. unfold do_body_identity. start. all: estep; take; go; close. all: by apply length_taken. Qed.

Lemma do_body_identity_eof_ok : case_ok s_body_identity_eof (do_body_identity_eof data).
Proof. unfold do_body_identity_eof, data_len. fold size. run. Qed.

(** ** Chunks *)

Lemma spec_assert_chunked s (K : unit -> exec U -> Prop) P :
  has_flag (flags (parser s)) F_CHUNKED = true -> K tt s -> spec assert_chunked s K P.
Proof. intros Hc HK. unfold assert_chunked. do 2 estep. by apply spec_assert. Qed.

Ltac chunked H := apply spec_assert_chunked; [exact H|].

Lemma do_chunk_size_start_ok : case_ok s_chunk_size_start do_chunk_size_start.
Proof.
  unfold do_chunk_size_start. start. go. apply spec_assert; [by rewrite Hone|].
  estep. chunked Hst. go; close.
  split; [done|]. cbn. pose proof (unhex_digit _ Heqb). unfold u64. rewrite Z.mod_small; lia.
Qed.

(** One more digit does not wrap the size of a chunk around. *)
Lemma chunk_size_step x d :
  chunk_size_ok x -> fields_ok x -> 0 <= d <= 15 -> ((ULLONG_MAX - 16) / 16 <? content_length x) = false ->
  u64 (u64 (content_length x * 16) + d) = content_length x * 16 + d /\
  content_length x * 16 + d <= 2 ^ 64 - 17.
Proof.
  intros [_ _] [Hc _] Hd Hlt. apply Z.ltb_ge in Hlt.
  change ((ULLONG_MAX - 16) / 16) with (2 ^ 60 - 2) in Hlt.
  unfold u64. rewrite (Z.mod_small (_ * _)), Z.mod_small by lia. lia.
Qed.

Lemma do_chunk_size_ok : case_ok s_chunk_size do_chunk_size.
Proof.
  unfold do_chunk_size. start. estep. chunked (proj1 Hst). go; close.
  destruct (chunk_size_step x (unhex_at c)) as [Heq Hle]; [done|done|by apply unhex_digit|done|].
  split; [apply Hst|]. cbn. lia.
Qed.

Lemma do_chunk_parameters_ok : case_ok s_chunk_parameters do_chunk_parameters.
Proof. unfold do_chunk_parameters. start. estep. chunked (proj1 Hst). go; close. Qed.

Lemma do_chunk_size_almost_done_ok :
  case_ok s_chunk_size_almost_done (do_chunk_size_almost_done strict settings).
Proof.
  unfold do_chunk_size_almost_done, clear_nread. start. estep. chunked (proj1 Hst). go; close.
  all: split; [apply Hst|split; cbn; [by apply Z.eqb_neq|destruct Hst; unfold ULLONG_MAX; lia]].
Qed.

Lemma do_chunk_data_ok : case_ok s_chunk_data (do_chunk_data data).
Proof.
  unfold do_chunk_data. start. all: destruct Hst as [Hch Hlen].
  all: estep; chunked Hch; estep; take; go; close.
  all: split; [done|]; first [by apply length_taken|by apply Z.eqb_eq].
Qed.

Lemma do_chunk_data_almost_done_ok :
  case_ok s_chunk_data_almost_done (do_chunk_data_almost_done strict settings).
Proof.
  unfold do_chunk_data_almost_done. start. all: destruct Hst as [Hch Hz].
  all: estep; chunked Hch; estep; estep; estep; apply spec_assert; [by apply Z.eqb_eq|]; go; close.
Qed.

Lemma do_chunk_data_done_ok : case_ok s_chunk_data_done (do_chunk_data_done strict settings).
Proof. unfold do_chunk_data_done, clear_nread. start. estep. chunked Hst. go; close. Qed.

(** ** Field names *)

Lemma do_header_field_start_ok : case_ok s_header_field_start (do_header_field_start strict).
Proof.
  unfold do_header_field_start, set_hs. start. go; close. by repeat case_match.
Qed.

(** [s] with another parser, at another place *)
Definition moved (y : http_parser) (j c : Z) (s : exec U) : exec U :=
  with_ch c (with_p (fun _ => j) (with_parser (fun _ => y) s)).

(** What the inner loops change of the parser stays in range. *)
Definition kept (x y : http_parser) : Prop :=
  errno_ y = errno_ x /\ nread_ y = nread_ x /\ fields_ok y.

Lemma kept_trans x y z : kept x y -> kept y z -> kept x z.
Proof. intros (? & ? & ?) (? & ? & ?). split; [congruence|split; [congruence|done]]. Qed.

Lemma kept_intro x y :
  errno_ y = errno_ x -> nread_ y = nread_ x -> fields_ok y -> kept x y.
Proof. by split. Qed.

Lemma spec_skip_tokens fuel pe s (K : unit -> exec U -> Prop) P :
  0 <= p s < size -> pe <= size -> pe - p s < Z.of_nat fuel -> (0 < fuel)%nat ->
  (forall j, p s <= j < size -> K tt (moved (parser s) j (ch s) s)) ->
  spec (skip_tokens strict data fuel pe) s K P.
Proof.
  revert s. induction fuel as [|fuel IH]; intros s Hp Hpe Hfuel Hpos HK; [lia|]. simpl.
  assert (Hhere : K tt s).
  { specialize (HK (p s)). destruct s. apply HK. cbn in *. lia. }
  estep. estep. estep; [|by estep]. apply Z.ltb_lt in Heqb. estep.
  destruct (lookup_lt_is_Some_2 data (Z.to_nat (p s + 1))) as [d Hd]; [subst size; lia|].
  eapply spec_char_at; [lia|exact Hd|]. estep; [|by estep]. estep. estep.
  apply IH; cbn; [lia|lia|lia|lia|].
  intros j Hj. apply HK. lia.
Qed.

Lemma spec_match_word word c old mm cp s (K : header_states -> exec U -> Prop) P :
  0 <= index (parser s) < 32 ->
  (forall h j, 0 <= j < 32 -> h = old \/ h = mm \/ h = cp ->
     K h (with_parser (set_index (fun _ => j)) s)) ->
  spec (match_word word c old mm cp) s K P.
Proof.
  intros Hi HK. unfold match_word, next_index. do 4 estep. cbn [index set_index parser with_parser].
  pose proof (next_index_range (index (parser s))) as Hj.
  estep; [estep; apply HK; [done|tauto]|].
  destruct (c_string_at_some word ((index (parser s) + 1) mod 32)) as [w Hw]; [lia|]. rewrite Hw.
  estep; [estep; apply HK; [done|tauto]|]. estep; estep; (apply HK; [done|tauto]).
Qed.

Lemma kept_header_state x h : fields_ok x -> kept x (set_header_state (fun _ => h) x).
Proof. intros Hf. by apply kept_intro. Qed.

Lemma kept_index x j : fields_ok x -> 0 <= j < 32 -> kept x (set_index (fun _ => j) x).
Proof. intros [? ?] ?. by apply kept_intro. Qed.

Lemma spec_header_field_char c0 c s (K : unit -> exec U -> Prop) P :
  0 <= p s < size -> fields_ok (parser s) -> field_header_state (header_state (parser s)) = true ->
  (forall y j, kept (parser s) y -> field_header_state (header_state y) = true -> p s <= j < size ->
     K tt (moved y j (ch s) s)) ->
  spec (header_field_char strict max_header_size data c0 c) s K P.
Proof.
  intros Hp Hf Hh HK. pose proof (proj2 Hf) as Hidx.
  assert (Hset : forall h j, 0 <= j < 32 -> field_header_state h = true ->
    K tt (with_parser (set_header_state (fun _ => h)) (with_parser (set_index (fun _ => j)) s))).
  { intros h j Hj Hh'. specialize (HK (set_header_state (fun _ => h) (set_index (fun _ => j) (parser s))) (p s)).
    destruct s. apply HK; [|done|cbn in *; lia].
    eapply kept_trans; [by apply kept_index|]. apply kept_header_state, kept_index; done. }
  pose proof (next_index_range (index (parser s))) as Hnext.
  unfold header_field_char, next_index, set_hs. do 2 estep.
  destruct (header_state (parser s)) eqn:Hhs; try discriminate Hh.
  1: { estep. estep. unfold data_end. fold size. apply spec_skip_tokens; [done|lia|lia|lia|].
       intros j Hj. apply HK; [by apply kept_intro|by rewrite Hhs|done]. }
  1-3: do 2 estep; estep; apply (Hset _ _ Hnext); by repeat case_match.
  1-5: estep; apply spec_match_word; [done|]; intros h j Hj Hcases.
  1-3,5: estep; apply (Hset _ _ Hj); by destruct Hcases as [-> | [-> | ->]].
  { estep. estep. estep; [estep|]; [|apply (Hset _ _ Hj); by destruct Hcases as [-> | [-> | ->]]].
    apply (HK (set_uses_transfer_encoding (fun _ => 1)
      (set_header_state (fun _ => h) (set_index (fun _ => j) (parser s)))) (p s));
      [by apply kept_intro; [..|split; [apply Hf|]]|by destruct Hcases as [-> | [-> | ->]]|lia]. }
  all: estep; [estep; apply (HK (set_header_state (fun _ => h_general) (parser s)) (p s));
    [by apply kept_intro|done|lia]|].
  all: specialize (HK (parser s) (p s)); destruct s; apply HK; [by apply kept_intro|cbn in *; by rewrite Hhs|cbn in *; lia].
Qed.

Lemma data_at i : 0 <= i < size -> is_Some (data !! Z.to_nat i).
Proof. intros Hi. apply lookup_lt_is_Some_2. subst size. lia. Qed.

Lemma spec_header_field_loop fuel s (K : unit -> exec U -> Prop) P :
  0 <= p s <= size -> size - p s < Z.of_nat fuel -> fields_ok (parser s) ->
  field_header_state (header_state (parser s)) = true ->
  (forall y j c, kept (parser s) y -> field_header_state (header_state y) = true -> p s <= j <= size ->
     K tt (moved y j c s)) ->
  spec (header_field_loop strict max_header_size data fuel) s K P.
Proof.
  revert s. induction fuel as [|fuel IH]; intros s Hp Hfuel Hf Hh HK; [lia|]. simpl.
  estep. estep. unfold data_end. fold size. estep.
  - estep. specialize (HK (parser s) (p s) (ch s)). destruct s. apply HK; [by apply kept_intro|done|cbn in *; lia].
  - apply Z.eqb_neq in Heqb. estep. destruct (data_at (p s)) as [c0 Hc0]; [lia|].
    eapply spec_char_at; [lia|exact Hc0|]. estep. estep. estep.
    + estep. apply (HK (parser s) (p s) c0); [by apply kept_intro|done|lia].
    + estep. apply spec_header_field_char; cbn; [lia|done|done|].
      intros y j Hy Hyh Hj. estep. estep. apply IH; cbn; [lia|lia|apply Hy|done|].
      intros y' j' c' Hy' Hyh' Hj'. apply (HK y' j' c'); [by eapply kept_trans|done|lia].
Qed.

Ltac count := apply spec_COUNT; cbn; intros Hcount;
  [pose proof (Z.le_trans _ _ _ Hcount (proj2 Hbound)); clear Hcount|].

Lemma do_header_field_ok : case_ok s_header_field (do_header_field strict settings max_header_size data).
Proof.
  unfold do_header_field. start.
  all: estep; estep; estep; apply spec_header_field_loop; cbn; [lia|subst size; lia|done|done|].
  all: intros y j d (Hye & Hyn & Hyf) Hyh Hj; cbn; unfold data_end; fold size.
  all: rewrite He in Hye; repeat (first [count|progress go]); close.
Qed.

(** ** Values *)

Lemma do_header_value_start_ok st : st = s_header_value_start \/ st = s_header_value_discard_ws ->
  case_ok st do_header_value_start.
Proof.
  intros Hst. apply plain_intro; [by destruct Hst as [-> | ->]; (split; [intros []; done|split; done])|].
  intros x n i c us He Hf Hn Hsn Hi Hus. unfold do_header_value_start, set_hs.
  assert (Hd : (0 <= u64 (c - chr "0") < 2 ^ 64)) by apply u64_range.
  go. change (header_state (set_index _ x)) with (header_state x). destruct (header_state x) eqn:Hh; go; close; first [by repeat case_match|by rewrite Hh|idtac].
Qed.

Lemma do_header_value_discard_ws_ok : case_ok s_header_value_discard_ws do_header_value_discard_ws.
Proof.
  pose proof (do_header_value_start_ok s_header_value_discard_ws (or_intror eq_refl)) as Hstart.
  intros s Hs Hst Hc Hp. specialize (Hstart s Hs Hst Hc Hp). destruct Hs as [[] Hm].
  destruct s as [x st n i c [?|] [?|] [?|] [?|] [?|] us]; cbn in Hst; subst st;
    try (by specialize (Hm header_field _ eq_refl)); try (by specialize (Hm header_value _ eq_refl));
    try (by specialize (Hm url _ eq_refl)); try (by specialize (Hm body _ eq_refl));
    try (by specialize (Hm status _ eq_refl)).
  cbn in *. unfold do_header_value_discard_ws. estep. estep. cbn [ch].
  estep; [|estep; [|estep; [|exact Hstart]]]; go; close.
Qed.

Definition is_break (c : Z) : bool := (c =? CR) || (c =? LF).

Lemma spec_skip_value fuel pe lo s (K : unit -> exec U -> Prop) i r :
  0 <= lo <= p s -> p s <= pe <= size -> pe - p s < Z.of_nat fuel ->
  (p s = lo -> forall c, data !! Z.to_nat lo = Some c -> is_break c = false) -> Iu (user s) ->
  (forall j c, lo <= j <= pe -> K tt (moved (parser s) j c s)) ->
  spec (skip_value lenient data fuel pe) s K (ends bound Iu size i r).
Proof.
  revert s. induction fuel as [|fuel IH]; intros s Hlo Hpe Hfuel Hbr Hus HK; [lia|]. simpl.
  estep. estep. estep.
  - estep. specialize (HK (p s) (ch s)). destruct s. apply HK. cbn in *. lia.
  - apply Z.eqb_neq in Heqb. estep. destruct (data_at (p s)) as [c Hc]; [lia|].
    eapply spec_char_at; [lia|exact Hc|]. estep. estep. estep.
    + estep. apply (HK (p s + -1) c). destruct (decide (p s = lo)) as [Heq|]; [|lia].
      rewrite Heq in Hc. specialize (Hbr Heq c Hc). unfold is_break in Hbr. congruence.
    + estep; [estep; split; [done|split; [cbn; lia|done]]|]. estep. estep.
      apply IH; cbn; [lia|lia|lia|intros ?; lia|done|]. intros j d Hj. by apply HK.
Qed.

Lemma spec_general_value s (K : unit -> exec U -> Prop) i r c0 :
  0 <= p s < size -> 0 <= max_header_size -> data !! Z.to_nat (p s) = Some c0 -> is_break c0 = false -> Iu (user s) ->
  (forall j c, p s <= j < size -> K tt (moved (parser s) j c s)) ->
  spec (do_general_value max_header_size lenient data) s K (ends bound Iu size i r).
Proof.
  intros Hp Hm Hc0 Hbr Hus HK. unfold do_general_value, data_end. fold size. estep. estep. estep.
  apply (spec_skip_value _ _ (p s)); [lia|lia|subst size; lia| |done|].
  - intros _ c Hc. congruence.
  - intros j c Hj. estep. estep. cbn [p moved with_p with_ch].
    estep; [apply Z.eqb_eq in H; estep; apply (HK (j + -1) c)|apply Z.eqb_neq in H; apply HK]; lia.
Qed.

Lemma spec_fail_value {A} e h s (K : A -> exec U -> Prop) i r :
  e <> HPE_PAUSED -> 0 <= p s <= size -> Iu (user s) ->
  spec (fail_value e h) s K (ends bound Iu size i r).
Proof. intros He Hp Hus. unfold fail_value, set_hs. esteps. by split. Qed.

Section ValueChar.
Variable s : exec U.
Variable K : header_states -> exec U -> Prop.
Variable i : Z.
Variable r : nat.
Hypothesis Hp : 0 <= p s < size.
Hypothesis Hf : fields_ok (parser s).
Hypothesis Hus : Iu (user s).
Hypothesis Hstate : p_state s = s_header_value.
Hypothesis HK : forall y j d h, kept (parser s) y -> value_header_state h = true -> p s <= j < size ->
  K h (moved y j d s).

Lemma value_stays h : value_header_state h = true -> K h s.
Proof.
  intros Hh. specialize (HK (parser s) (p s) (ch s) h). destruct s.
  apply HK; [by apply kept_intro|done|cbn in *; lia].
Qed.

Lemma value_changes f h :
  kept (parser s) (f (parser s)) -> value_header_state h = true -> K h (with_parser f s).
Proof. intros Hk Hh. apply (HK (f (parser s)) (p s) (ch s) h); [done|done|lia]. Qed.

Lemma spec_content_length_char c0 :
  spec (content_length_char c0) s K (ends bound Iu size i r).
Proof.
  unfold content_length_char. estep; [estep; by apply value_stays|].
  estep; [apply spec_fail_value; [done|lia|done]|]. do 2 estep.
  estep; [apply spec_fail_value; [done|lia|done]|]. do 3 estep.
  apply value_changes; [|done]. apply kept_intro; [done|done|]. split; [apply u64_range|apply Hf].
Qed.

Lemma token_start_ok c letters old token :
  Forall (fun e => value_header_state e.2 = true) letters ->
  value_header_state old = true -> value_header_state token = true ->
  value_header_state (token_start c letters old token) = true.
Proof.
  intros Hl Ho Ht. unfold token_start. destruct (list_find _ _) as [[? [? h]]|] eqn:Hfind.
  - apply list_find_Some in Hfind as (Hj & _). rewrite Forall_lookup in Hl. apply (Hl _ _ Hj).
  - by repeat case_match.
Qed.

Lemma spec_value_word word c old mm cp :
  value_header_state old = true -> value_header_state mm = true -> value_header_state cp = true ->
  spec (match_word word c old mm cp) s K (ends bound Iu size i r).
Proof.
  intros Ho Hm Hc. apply spec_match_word; [apply Hf|]. intros h j Hj Hh.
  apply value_changes; [by apply kept_index|]. by destruct Hh as [-> | [-> | ->]].
Qed.

Lemma spec_header_value_char c0 c h :
  0 <= max_header_size -> data !! Z.to_nat (p s) = Some c0 -> is_break c0 = false ->
  value_header_state h = true ->
  spec (header_value_char max_header_size lenient data c0 c h) s K (ends bound Iu size i r).
Proof.
  intros Hm Hc0 Hbr Hh. unfold header_value_char, clear_index.
  assert (Hstay : forall h', value_header_state h' = true ->
    spec (done h') s K (ends bound Iu size i r)).
  { intros h' Hh'. estep. by apply value_stays. }
  assert (Hnext : forall f h', kept (parser s) (f (parser s)) -> value_header_state h' = true ->
    spec (change f;! change (set_index (fun _ => 0));! done h') s K (ends bound Iu size i r)).
  { intros f h' Hk Hh'. do 5 estep. apply (value_changes (fun x => set_index (fun _ => 0) (f x))); [|done].
    eapply kept_trans; [exact Hk|]. apply kept_index; [apply Hk|lia]. }
  assert (Hplain : spec (UPDATE_STATE s_header_value;! done h_general) s K (ends bound Iu size i r)).
  { do 3 estep. pose proof (value_stays h_general eq_refl) as Hk. destruct s. cbn in Hstate. by subst. }
  assert (Hclear : forall h', value_header_state h' = true ->
    spec (change (set_index (fun _ => 0));! done h') s K (ends bound Iu size i r)).
  { intros h' Hh'. do 3 estep. apply value_changes; [by apply kept_index|done]. }
  destruct h; try discriminate Hh; try exact Hplain;
    cbn [header_value_char connection_flag];
    try (by apply spec_value_word); try (by apply Hstay, token_start_ok; [repeat constructor|..]);
    try (destruct (c0 =? chr ",")); try (destruct (c0 =? chr " ")); cbn [negb];
    try (by apply Hstay); try (by apply Hclear); try (by apply Hnext; [apply kept_intro|]).
  all: try first [apply spec_content_length_char|apply spec_fail_value; [done|lia|done]].
  all: estep; eapply spec_general_value; [done|done|done|done|done|].
  all: intros j d Hj; estep; by apply HK; [apply kept_intro|..].
Qed.
End ValueChar.

(** A range of header bytes that is counted fits in the header size. *)
Lemma spec_COUNT_ends v s (K : unit -> exec U -> Prop) i r :
  0 <= p s <= size -> Iu (user s) ->
  (forall n, 0 <= n <= bound -> K tt (with_nread (fun _ => n) s)) ->
  spec (COUNT_HEADER_SIZE max_header_size v) s K (ends bound Iu size i r).
Proof.
  intros Hp Hus HK. apply spec_COUNT; cbn; intros Hn.
  - apply (HK (u32 (nread s + u32 v))). split; [apply u32_range|lia].
  - split; [done|split; [cbn; lia|done]].
Qed.

(** The locals of the loop over a value: as they were, but for the place and
    what is kept of the parser. *)
Definition ended (s : exec U) (y : http_parser) (j d : Z) (st : state) : exec U :=
  with_state st (moved y j d s).

Lemma core_ended s y j d :
  core bound Iu (with_state s_header_almost_done s) -> kept (parser s) y -> p s <= j ->
  core bound Iu (ended s y j d s_header_almost_done).
Proof.
  intros [He _ Hf Hn Hsn Hin Hus] (Hye & Hyn & Hyf) Hj. cbn in *. split; cbn; [congruence|done|done|done|by rewrite Hyn| |done].
  intros m o Ho. assert (mark_of m s = Some o) as Hs by (by destruct m). pose proof (Hin m o) as Hmo.
  assert (0 <= o <= p s) by (apply Hmo; by destruct m). cbn. lia.
Qed.

Lemma core_nread (s : exec U) n :
  core bound Iu s -> 0 <= n <= bound -> core bound Iu (with_nread (fun _ => n) s).
Proof. intros [? ? ? ? ? ? ?] ?. by split. Qed.

(** After the callback for a value, no mark is left. *)
Lemma inv_value_over (s : exec U) st u :
  core bound Iu s -> p_state s = s_header_almost_done -> Iu u ->
  (forall m, m <> header_value -> mark_of m s = None) ->
  inv bound Iu (with_mark header_value None (called st u s)).
Proof.
  intros [He _ Hf Hn Hsn _ _] Hst Hu Hm.
  assert (Hnone : forall m, mark_of m (with_mark header_value None (called st u s)) = None).
  { intros []; try done; cbn; [apply (Hm header_field)|apply (Hm url)|apply (Hm body)|apply (Hm status)]; done. }
  split; [split; try done|].
  - cbn. by rewrite Hst.
  - intros m o Ho. by rewrite Hnone in Ho.
  - intros m o Ho. by rewrite Hnone in Ho.
Qed.

Lemma spec_header_value_loop fuel start s h (K : header_states -> exec U -> Prop) i r :
  core bound Iu (with_state s_header_almost_done s) -> p_state s = s_header_value ->
  (forall m, m <> header_value -> mark_of m s = None) -> (0 < r)%nat ->
  i <= p s -> 0 <= i -> 0 <= p s <= size -> size - p s < Z.of_nat fuel -> 0 <= max_header_size ->
  value_header_state h = true ->
  (forall y d h', kept (parser s) y -> value_header_state h' = true -> K h' (moved y size d s)) ->
  (forall y j d st u h', Iu u -> kept (parser s) y -> p s <= j < size ->
     K h' (with_mark header_value None (called st u (ended s y j d s_header_almost_done)))) ->
  spec (header_value_loop settings max_header_size lenient data fuel start h) s K
    (ends bound Iu size i r).
Proof.
  revert s h. induction fuel as [|fuel IH];
    intros s h Hs Hst Hm Hr Hi Hi0 Hp Hfuel Hmax0 Hh HKend HKbreak; [lia|]. simpl.
  estep. estep. unfold data_end. fold size. estep.
  - apply Z.eqb_eq in Heqb. estep. specialize (HKend (parser s) (ch s) h). destruct s. cbn in *. subst p.
    apply HKend; [apply kept_intro; [done..|apply Hs]|done].
  - apply Z.eqb_neq in Heqb. estep. destruct (data_at (p s)) as [c Hc]; [lia|].
    eapply spec_char_at; [lia|exact Hc|]. do 2 estep. unfold set_hs.
    assert (Hended : core bound Iu
      (ended s (set_header_state (fun _ => h) (parser s)) (p s) c s_header_almost_done)).
    { apply core_ended; [done|apply kept_header_state, Hs|lia]. }
    estep; [|estep; [|estep; [estep; split; [done|split; [cbn; lia|apply Hs]]|]]].
    + do 4 estep. estep. unfold CALLBACK_DATA. do 2 estep.
      apply (spec_DATA_ bound Iu size settings); [exact Hended|done|cbn; lia|cbn; lia|apply Hsettings|].
      intros st u Hu. estep. apply (HKbreak (set_header_state (fun _ => h) (parser s)) (p s) c);
        [done|apply kept_header_state, Hs|lia].
    + do 3 estep. apply spec_COUNT_ends; [cbn; lia|first [done|apply Hs]|]. intros n Hn. do 3 estep.
      unfold CALLBACK_DATA_NOADVANCE. do 2 estep.
      apply (spec_DATA_ bound Iu size settings); [|done|cbn; lia|cbn; lia|apply Hsettings|].
      * exact (core_nread _ _ Hended Hn).
      * intros st u Hu. estep.
        split; [|split; [done|split; [cbn; lia|done]]].
        apply (inv_value_over (with_nread (fun _ => n) (ended s _ (p s) c s_header_almost_done)));
          [by apply core_nread|done|done|]. intros m Hne. rewrite <- (Hm m Hne). by destruct m.
    + estep. apply spec_header_value_char; cbn [p p_state parser with_ch];
        [lia|apply Hs|apply Hs|done| |done|exact Hc|by apply orb_false_iff|done].
      intros y j d h' Hy Hh' Hj. estep. estep.
      pose proof (core_ended s y (j + 1) d Hs Hy ltac:(lia)) as Hs'.
      apply IH; cbn; [exact Hs'|done| |done|lia|done|lia|lia|done|done|..].
      * intros m Hne. rewrite <- (Hm m Hne). by destruct m.
      * intros y' d' h'' Hy' Hh''. apply (HKend y' d' h''); [by eapply kept_trans|done].
      * intros y' j' d' st u h'' Hu Hy' Hj'. apply (HKbreak y' j' d' st u h''); [done|by eapply kept_trans|lia].
Qed.

Lemma do_header_value_ok :
  case_ok s_header_value (do_header_value settings max_header_size lenient data).
Proof.
  unfold do_header_value, set_hs. start.
  all: do 5 estep; apply spec_header_value_loop;
    [solve_core|done|by intros []|cbn; lia|cbn; lia|lia|cbn; lia|subst size; cbn; lia|lia|exact Hst| |].
  all: cbn [parser p].
  1,3: intros y d h (Hye & Hyn & Hyf) Hh; do 5 estep; unfold data_end; fold size; cbn [p moved with_parser with_p with_ch];
    estep; [|by apply Z.eqb_neq in H]; do 4 estep; apply spec_COUNT_ends; [cbn; lia|done|];
    intros n' Hn'; cbn in Hye; rewrite He in Hye; go; close.
  all: intros y j d st u h Hu (Hye & Hyn & Hyf) Hj; do 5 estep; unfold data_end; fold size;
    cbn [p moved with_parser with_p with_ch ended called with_user with_state with_mark];
    estep; [apply Z.eqb_eq in H; lia|]; do 3 estep; apply spec_COUNT_ends; [cbn; lia|done|];
    intros n' Hn'; cbn in Hye; rewrite He in Hye; go; close.
Qed.

Lemma do_header_almost_done_ok : case_ok s_header_almost_done do_header_almost_done.
Proof. unfold do_header_almost_done. run. Qed.

Lemma do_header_value_lws_ok : case_ok s_header_value_lws do_header_value_lws.
Proof. unfold do_header_value_lws, set_hs, finish_header. run. Qed.

Lemma do_header_value_discard_lws_ok :
  case_ok s_header_value_discard_lws (do_header_value_discard_lws settings).
Proof. unfold do_header_value_discard_lws, finish_header. start. go; close. Qed.
End Safe.

(** The cases, for the dispatch *)
Create HintDb http_cases discriminated.
#[export] Hint Resolve do_dead_ok do_start_req_or_res_ok do_res_or_resp_H_ok do_start_res_ok
  do_res_http_end_ok do_res_first_status_code_ok do_res_status_code_ok do_res_status_start_ok
  do_res_status_ok do_start_req_ok do_req_method_ok do_req_spaces_before_url_ok do_req_schema_ok
  do_req_url_ok do_req_http_start_ok do_req_http_end_ok do_req_line_almost_done_ok
  do_headers_almost_done_ok do_message_done_ok do_headers_done_ok do_body_identity_ok
  do_body_identity_eof_ok do_chunk_size_start_ok do_chunk_size_ok do_chunk_parameters_ok
  do_chunk_size_almost_done_ok do_chunk_data_ok do_chunk_data_almost_done_ok do_chunk_data_done_ok
  do_header_field_start_ok do_header_field_ok do_header_value_start_ok do_header_value_discard_ws_ok
  do_header_value_ok do_header_almost_done_ok do_header_value_lws_ok do_header_value_discard_lws_ok
  expect_ok do_http_major_ok do_http_dot_ok do_http_minor_ok eq_refl : http_cases.
#[export] Hint Extern 1 (plain _) => (split; [by intros []|by split]) : http_cases.
