(* ===== verification/HttpTotal.v ===== *)
(** [http_parser_execute] returns: no assertion fails, no byte outside the
    buffer is read, the loop ends, and the parser it leaves can be used again. *)
From S2P Require Import Prelude HttpTypes HttpUrl HttpExec HttpStates HttpHeaders HttpParser HttpLogic HttpSafe.

Local Open Scope Z_scope.
Local Open Scope exec_scope.
#[local] Arguments Z.add : simpl never.
#[local] Arguments Z.sub : simpl never.

Section Total.
Context {U : Type}.
Variable strict : bool.
Variable settings : http_parser_settings U.
Variable max_header_size bound : Z.
(** The stored count may come from a call with a larger limit. *)
Hypothesis Hbound : 0 <= max_header_size <= bound.
Variable Iu : U -> Prop.
Variable lenient allow_chunked_length_ : bool.
Variable data : list Z.
Let size := Z.of_nat (length data).
Hypothesis Hsettings : settings_ok Iu size settings.

Lemma dispatch_ok st :
  case_ok bound Iu data st
    (dispatch strict settings max_header_size lenient allow_chunked_length_ data st).
Proof.
  destruct st; cbn [dispatch]; eauto with http_cases.
Qed.

(** ** The loop *)

Lemma spec_next_byte s (K : unit -> exec U -> Prop) i r :
  inv bound Iu s -> chunk_start 0 s -> 0 <= p s < size ->
  (forall s', inv bound Iu s' -> (p_state s' = s_chunk_size_start -> nread s' = 1) -> p s' = p s ->
     p_state s' = p_state s -> K tt s') ->
  spec (next_byte max_header_size data) s K (ends bound Iu size i r).
Proof.
  intros Hs Hc Hp HK. unfold next_byte.
  assert (Hn : forall n c, 0 <= n <= bound -> inv bound Iu (with_nread (fun _ => n) (with_ch c s))).
  { intros n c Hn. destruct Hs as [[] ?]. by split. }
  estep. estep. estep. destruct (data_at data (p s)) as [c Hd]; [done|].
  eapply spec_char_at; [lia|exact Hd|]. do 4 estep. estep.
  - apply spec_COUNT; cbn; intros Hle.
    + apply HK; [apply Hn; split; [apply u32_range|eapply Z.le_trans; [exact Hle|apply Hbound]]| |done|done].
      cbn. intros Hst. by rewrite (Hc Hst).
    + split; [done|split; [cbn; lia|apply Hs]].
  - apply HK; [|cbn; intros Hst|done|done].
    + destruct Hs as [[] ?]. by split.
    + change (p_state (with_ch c s)) with (p_state s) in H. rewrite Hst in H. discriminate.
Qed.

(** What is left for a callback does not disturb the rest. *)
Definition tail_ok (s : exec U) : Prop :=
  core bound Iu s /\ chunk_start 0 s /\ marks_ok s /\ p s = size.

(** Nothing but a value, or a return *)
Definition only_returns : post U :=
  Post (fun _ => False) (fun _ => False) (fun _ => False) (return_ok bound Iu size).

Lemma spec_leftover m s (K : unit -> exec U -> Prop) :
  tail_ok s -> (forall s', tail_ok s' -> K tt s') ->
  spec (CALLBACK_DATA_NOADVANCE settings m) s K only_returns.
Proof.
  intros (Hs & Hc & Hm & Hp) HK. unfold CALLBACK_DATA_NOADVANCE. do 2 estep. apply (spec_DATA_any bound Iu size); [apply exit_return|done| |fold size; lia|fold size; lia|apply Hsettings|].
  - intros [j Hj] Hst. specialize (Hm _ _ Hj). rewrite Hst in Hm. by destruct m.
  - intros st u Hu. apply HK. split; [|split; [exact Hc|split; [|exact Hp]]].
    + destruct Hs as [He Hst Hf Hn Hsn Hin Hus]. split; try done.
      intros m' j Hj. apply (Hin m'). by destruct m, m'.
    + intros m' j Hj. cbn. apply (Hm m' j). by destruct m, m'.
Qed.

Lemma one_mark (s : exec U) : marks_ok s -> (count_marks s <= 1)%nat.
Proof.
  intros Hm. unfold count_marks.
  assert (Hno : forall m, mark_state m (p_state s) = false -> mark_of m s = None).
  { intros m Hf. destruct (mark_of m s) as [j|] eqn:Hj; [|done]. specialize (Hm _ _ Hj). congruence. }
  clear Hm. rewrite !filter_cons, filter_nil. revert Hno. destruct (p_state s); intros Hno;
    try rewrite (Hno header_field eq_refl); try rewrite (Hno header_value eq_refl);
    try rewrite (Hno url eq_refl); try rewrite (Hno body eq_refl); try rewrite (Hno status eq_refl);
    rewrite ?(decide_False (P := is_Some None)) by (by intros []); repeat case_decide; cbn; lia.
Qed.

Lemma spec_leftovers s :
  tail_ok s ->
  spec (leftovers settings data) s (fun _ _ => False) only_returns.
Proof.
  intros Hs. unfold leftovers. do 3 estep. cbn [id].
  apply spec_assert; [apply Nat.leb_le, one_mark, Hs|].
  do 5 (estep; apply spec_leftover; [done|]; clear dependent s; intros s Hs).
  estep. cbn [only_returns on_return]. destruct Hs as (Hs & Hc & Hm & Hp). split; [fold size; lia|].
  split; [intros _|split; [by left|apply Hs]]. destruct Hs as [He Hst Hf Hn Hsn Hin Hus]. split; cbn; [|done|done|done].
  by destruct (p_state s).
Qed.

(** The fuel a point of the loop needs *)
Definition need (fresh : bool) (s : exec U) : Z :=
  if fresh then 5 * (size - p s) + 1 else 5 * (size - p s - 1) + 2 + Z.of_nat (rank (p_state s)).

Definition loop_ok (fresh : bool) (s : exec U) : Prop :=
  inv bound Iu s /\
  if fresh then chunk_start 0 s /\ 0 <= p s <= size
  else (p_state s = s_chunk_size_start -> nread s = 1) /\ 0 <= p s < size.

Definition returns (o : outcome (Z * exec U)) : Prop :=
  exists v s, o = Done (v, s) /\ return_ok bound Iu size v s.

Lemma spec_returned (m : E U unit) s : spec m s (fun _ _ => False) only_returns -> returns (returned (m s)).
Proof. unfold spec. destruct (m s) as [| | | |v s'|]; try done. intros Hm. by exists v, s'. Qed.

Lemma error_returns s : error_ok Iu size s -> returns (returned (error_label s)).
Proof.
  intros (He & Hp & Hus). unfold error_label, returned, ebind, ewhen, look.
  destruct (decide (errno_ (parser s) = HPE_OK)) as [Hok|Hne].
  - rewrite bool_decide_true by done. eexists _, _. split; [reflexivity|]. split; [done|].
    split; [intros [Hf|Hf]; discriminate|by split; [intros ?|]].
  - rewrite bool_decide_false by done. eexists _, _. split; [reflexivity|]. split; [done|].
    split; [intros [?|?]; done|by split; [intros ?|]].
Qed.

Lemma rank_bound st : (rank st <= 3)%nat.
Proof. destruct st; cbn; lia. Qed.

Lemma step_ok fresh s :
  loop_ok fresh s -> fresh = false \/ p s < size ->
  spec ((if fresh then next_byte max_header_size data else done tt);!
        let! st := look p_state in
        dispatch strict settings max_header_size lenient allow_chunked_length_ data st) s
    (fun _ s' => break_ok bound Iu size (p s) s')
    (ends bound Iu size (p s) (rank (p_state s))).
Proof.
  intros [Hs Hw] Hf. estep. destruct fresh.
  - destruct Hw as [Hc Hp]. destruct Hf as [Hf|Hf]; [done|].
    apply spec_next_byte; [done|done|lia|]. intros s' Hs' Hn Hp' Hst. do 2 estep.
    rewrite <- Hp', <- Hst. apply dispatch_ok; [done|done|exact Hn|]. fold size. lia.
  - destruct Hw as [Hone Hp]. do 3 estep. by apply dispatch_ok.
Qed.

Lemma next_ok i s : 0 <= i -> break_ok bound Iu size i s -> loop_ok true (with_p (fun z => z + 1) s).
Proof.
  intros Hi (Hs & Hc & Hp). split; [|split; [exact Hc|cbn; lia]].
  destruct Hs as [[He Hst Hf Hn Hsn Hin Hus] Hm]. split; [split; try done|done].
  intros m j Hj. assert (0 <= j <= p s); [|cbn; lia]. apply (Hin m). by destruct m.
Qed.

Lemma loop_returns fuel fresh s :
  loop_ok fresh s -> need fresh s <= Z.of_nat fuel ->
  returns (loop strict settings max_header_size lenient allow_chunked_length_ data fuel fresh s).
Proof.
  revert fresh s. induction fuel as [|fuel IH]; intros fresh s Hs Hfuel.
  { unfold need in Hfuel. destruct Hs as [_ Hs], fresh; lia. }
  cbn [loop]. destruct (fresh && _) eqn:Hend.
  - apply andb_true_iff in Hend as [-> Hend]. apply Z.eqb_eq in Hend. fold size in Hend.
    destruct Hs as ([Hc Hm] & Hch & _). pose proof (spec_leftovers s (conj Hc (conj Hch (conj Hm Hend)))) as Hl.
    by apply spec_returned.
  - assert (Hlt : fresh = false \/ p s < size).
    { destruct fresh; [right|by left]. apply Z.eqb_neq in Hend. fold size in Hend. destruct Hs as (_ & _ & ?). lia. }
    pose proof (step_ok fresh s Hs Hlt) as Hstep. unfold spec in Hstep. fold size.
    destruct (ebind _ _ s) as [[] s'|s'|s'|s'|v s'|f]; try done.
    all: pose proof (rank_bound (p_state s)) as Hrank; unfold need in Hfuel.
    + apply IH; [eapply next_ok, Hstep|destruct Hs as [_ Hs], Hstep as (_ & _ & ?), fresh; cbn; lia].
      destruct Hs as [_ Hs], fresh; lia.
    + apply IH; [eapply next_ok, Hstep|destruct Hs as [_ Hs], Hstep as (_ & _ & ?), fresh; cbn; lia].
      destruct Hs as [_ Hs], fresh; lia.
    + destruct Hstep as (Hi & Hne & Hp & Hr). apply IH.
      * split; [done|]. split; [by intros|]. destruct Hs as [_ Hs], fresh; lia.
      * cbn. destruct Hs as [_ Hs], fresh; lia.
    + by apply error_returns.
    + exists v, s'. split; [done|]. by apply exit_return.
Qed.
End Total.

(** ** Calls *)

Lemma init_ok bound t : 0 <= bound -> parser_ok bound (http_parser_init t).
Proof. intros Hbound. split; [by destruct t|by split|cbn; lia|by destruct t]. Qed.

Section Calls.
Context {U : Type}.
Variable strict : bool.
Variable max_header_size bound : Z.
(** The stored count may come from a call with a larger limit. *)
Hypothesis Hbound : 0 <= max_header_size <= bound.
Variable Iu : U -> Prop.

Lemma entry_ok x (u : U) :
  parser_ok bound x -> errno_ x = HPE_OK -> Iu u ->
  inv bound Iu (entry x u) /\ chunk_start 0 (entry x u) /\
  p (entry x u) = 0 /\ parser (entry x u) = x /\ p_state (entry x u) = state_ x.
Proof.
  intros [Hst Hf Hn Hc] He Hus. unfold entry. destruct (entry_marks (state_ x)) as [[[hf hv] ur] sm] eqn:Hm.
  assert (Hmarks : forall m i, mark_of m (Exec x (state_ x) (nread_ x) 0 0 hf hv ur None sm u) = Some i ->
    i = 0 /\ mark_state m (state_ x) = true).
  { intros m i Hi. unfold entry_marks in Hm. injection Hm as <- <- <- <-.
    destruct m; cbn in Hi; try case_decide as Hd; try rewrite Hd; destruct (state_ x); simplify_eq; done. }
  split; [split; [split; try done|]|split; [exact Hc|done]].
  - intros m i Hi. destruct (Hmarks m i Hi) as [-> _]. cbn. lia.
  - intros m i Hi. by destruct (Hmarks m i Hi).
Qed.

(** What a call promises of the number it returns, and the parser it leaves *)
Definition call_ok (data : list Z) (v : Z) (x : http_parser) (u : U) : Prop :=
  0 <= v <= Z.max 1 (Z.of_nat (length data)) /\
  resumable bound x /\
  (errno_ x = HPE_OK -> v = Z.of_nat (length data) \/ upgrade x <> 0) /\
  Iu u.

Lemma eof_ok (settings : http_parser_settings U) x (u : U) :
  settings_ok Iu 0 settings -> parser_ok bound x -> errno_ x = HPE_OK -> Iu u ->
  exists v s, returned (at_eof settings (entry x u)) = Done (v, s) /\ call_ok [] v (parser s) (user s).
Proof.
  intros Hset Hx He Hus. destruct (entry_ok x u Hx He Hus) as ([Hs _] & Hc & Hp & Hpx & Hst).
  assert (Hsame : call_ok [] 0 x u).
  { split; [cbn; lia|]. split; [|split; [by left|done]]. intros _. by rewrite set_errno_id. }
  assert (Hu : user (entry x u) = u).
  { unfold entry. by destruct (entry_marks _) as [[[? ?] ?] ?]. }
  assert (Hdone : exists v s, returned (return_ 0 (entry x u)) = Done (v, s) /\ call_ok [] v (parser s) (user s)).
  { eexists _, _. split; [reflexivity|]. by rewrite Hpx, Hu. }
  assert (Hbad : exists v s, returned ((SET_ERRNO HPE_INVALID_EOF_STATE;! return_ 1) (entry x u)) = Done (v, s) /\
    call_ok [] v (parser s) (user s)).
  { eexists _, _. split; [reflexivity|]. split; [cbn; lia|]. split; [intros [Hf|Hf]; discriminate|split; [by intros ?|rewrite <- Hu in Hus; exact Hus]]. }
  unfold at_eof, ebind at 1, look. rewrite Hst. destruct (state_ x) eqn:Hx'; try exact Hbad; try exact Hdone.
  assert (Hspec : spec (CALLBACK_NOTIFY_NOADVANCE (on_message_complete settings) HPE_CB_message_complete;!
    return_ (A := unit) 0) (entry x u) (fun _ _ => False) (only_returns bound Iu [])).
  { estep. unfold CALLBACK_NOTIFY_NOADVANCE. do 2 estep. rewrite Hp. apply (spec_NOTIFY_any bound Iu 0); [apply exit_return|done| |done|done|done|apply Hset|].
    - by rewrite Hst.
    - intros st u' Hu' Hcases. apply spec_return. split; [cbn; lia|]. rewrite Hst, Hpx in Hcases.
      assert (st = state_ x) as -> by (destruct Hcases; congruence).
      assert (Hsx : set_state (fun _ => s_body_identity_eof) x = x) by (rewrite <- Hx'; by destruct x).
      cbn [called parser with_user with_parser]. rewrite Hpx, ?Hx', Hsx.
      split; [intros _; by rewrite set_errno_id|split; [by left|done]]. }
  destruct (spec_returned _ _ _ _ _ Hspec) as (v & s & Heq & Hv & Hr & Ha).
  exists v, s. split; [exact Heq|]. cbn in Hv. split; [cbn; lia|by split].
Qed.

(** Whatever the callbacks do, as long as they leave the parser alone but for
    its errno, [http_parser_execute] returns. *)
Lemma execute_returns (settings : http_parser_settings U) data x u :
  settings_ok Iu (Z.of_nat (length data)) settings -> parser_ok bound x -> errno_ x = HPE_OK -> Iu u ->
  exists v x' u', http_parser_execute strict settings max_header_size data x u = Done (v, x', u') /\
    call_ok data v x' u'.
Proof.
  intros Hset Hx He Hus. unfold http_parser_execute. rewrite decide_False by (by intros Hne).
  destruct (Z.eqb_spec (Z.of_nat (length data)) 0) as [Hz|Hz].
  - destruct data; [|cbn in Hz; lia]. destruct (eof_ok settings x u Hset Hx He Hus) as (v & s & -> & Hs). eauto.
  - destruct (entry_ok x u Hx He Hus) as (Hinv & Hc & Hp & Hpx & Hst).
    destruct (loop_returns strict settings max_header_size bound Hbound Iu (negb (lenient_http_headers x =? 0))
      (negb (allow_chunked_length x =? 0)) data Hset (loop_fuel data) true (entry x u))
      as (v & s & -> & Hv & Hr & Ha).
    + split; [done|]. split; [done|]. lia.
    + unfold need, loop_fuel. lia.
    + exists v, (parser s), (user s). split; [done|]. split; [lia|by split].
Qed.
End Calls.
