(* ===== verification/HttpScan.v ===== *)
(** The loops over the bytes of a field name that is none of those the parser
    looks for, and of an ordinary value, in closed form. *)
From S2P Require Import Prelude HttpTypes HttpUrl HttpExec HttpStates HttpHeaders HttpLogic.

Local Open Scope Z_scope.
Local Open Scope exec_scope.
#[local] Arguments Z.add : simpl never.
#[local] Arguments Z.sub : simpl never.

(** ** The first byte that stops a scan *)

Section Stop.
Variable f : Z -> bool.

Definition stop (data : list Z) (i : Z) : Z := i + Z.of_nat (prefix_len f (drop (Z.to_nat i) data)).

Lemma stop_range data i : 0 <= i <= Z.of_nat (length data) -> i <= stop data i <= Z.of_nat (length data).
Proof.
  intros Hi. unfold stop. pose proof (prefix_len_le f (drop (Z.to_nat i) data)) as Hl. rewrite length_drop in Hl. lia.
Qed.

Lemma stop_skip data i c : 0 <= i -> data !! Z.to_nat i = Some c -> f c = true -> stop data i = stop data (i + 1).
Proof.
  intros Hi Hc Hf. unfold stop. rewrite (prefix_len_drop f _ _ _ Hc), Hf.
  replace (Z.to_nat (i + 1)) with (S (Z.to_nat i)) by lia. lia.
Qed.

Lemma stop_here data i c : data !! Z.to_nat i = Some c -> f c = false -> stop data i = i.
Proof. intros Hc Hf. unfold stop. rewrite (prefix_len_drop f _ _ _ Hc), Hf. lia. Qed.

Lemma stop_end data : stop data (Z.of_nat (length data)) = Z.of_nat (length data).
Proof. unfold stop. rewrite Nat2Z.id, drop_all. simpl. lia. Qed.

Lemma stop_cases data i :
  0 <= i <= Z.of_nat (length data) ->
  stop data i = Z.of_nat (length data) \/
  stop data i < Z.of_nat (length data) /\ exists c, data !! Z.to_nat (stop data i) = Some c /\ f c = false.
Proof.
  intros Hi. destruct (decide (stop data i = Z.of_nat (length data))) as [|Hne]; [by left|right].
  pose proof (stop_range data i Hi). split; [lia|]. unfold stop in *.
  destruct (prefix_len_next f (drop (Z.to_nat i) data)) as (c & Hc & Hf); [rewrite length_drop; lia|].
  exists c. split; [|done]. rewrite lookup_drop in Hc. rewrite <- Hc. f_equal. lia.
Qed.

Lemma stop_cons x l i : 0 <= i -> stop (x :: l) (i + 1) = stop l i + 1.
Proof. intros Hi. unfold stop. replace (Z.to_nat (i + 1)) with (S (Z.to_nat i)) by lia. simpl. lia. Qed.
End Stop.

(** ** Names *)

Section Scan.
Context {U : Type}.
Variable strict : bool.
Variable settings : http_parser_settings U.
Variable max_header_size : Z.
Variable lenient : bool.
Variable data : list Z.
Implicit Types (s : exec U).

Let size := Z.of_nat (length data).
Hypothesis Hmax : size <= max_header_size.

Lemma char_at_eq i c s : 0 <= i -> data !! Z.to_nat i = Some c -> char_at data i s = Value c s.
Proof. intros Hi Hc. unfold char_at. destruct (Z.ltb_spec i 0); [lia|]. by rewrite Hc. Qed.

Lemma ebind_char_at {B} i c (k : Z -> E U B) s :
  0 <= i -> data !! Z.to_nat i = Some c -> ebind (char_at data i) k s = k c s.
Proof. intros Hi Hc. unfold ebind. by rewrite (char_at_eq i c). Qed.

Lemma byte_at i : 0 <= i < size -> exists c, data !! Z.to_nat i = Some c.
Proof. intros Hi. apply lookup_lt_is_Some_2. unfold size in Hi. lia. Qed.

(** [s] at offset [i] *)
Definition at_offset (i : Z) (s : exec U) : exec U := with_p (fun _ => i) s.

Lemma at_offset_id s : at_offset (p s) s = s.
Proof. by destruct s. Qed.

Definition token (c : Z) : bool := negb (TOKEN strict c =? 0).

Lemma skip_tokens_eq fuel s :
  0 <= p s < size -> size - p s <= Z.of_nat fuel ->
  skip_tokens strict data fuel size s = Value tt (at_offset (stop token data (p s + 1) - 1) s).
Proof.
  revert s. induction fuel as [|fuel IH]; intros s Hp Hf; [lia|]. cbn [skip_tokens]. rewrite ebind_look.
  destruct (Z.ltb_spec (p s + 1) size) as [Hlt|Hge].
  - destruct (byte_at (p s + 1)) as [c Hc]; [lia|]. rewrite (ebind_char_at _ c) by (lia || done).
    fold (token c). destruct (token c) eqn:Ht.
    + unfold ebind, add_p, upd. rewrite IH by (cbn; lia). cbn [with_p p].
      by rewrite (stop_skip _ data (p s + 1) c) by (lia || done).
    + rewrite (stop_here _ data (p s + 1) c) by done. replace (p s + 1 - 1) with (p s) by lia.
      by rewrite at_offset_id.
  - replace (p s + 1) with size by lia. unfold size. rewrite stop_end. fold size.
    replace (size - 1) with (p s) by lia. by rewrite at_offset_id.
Qed.

(** Where the loop stops, it does so whatever the fuel. *)
Lemma header_field_loop_stop f f' s :
  0 <= p s <= size -> stop token data (p s) = p s ->
  header_field_loop strict max_header_size data (S f) s = header_field_loop strict max_header_size data (S f') s.
Proof.
  intros Hp Hs. cbn [header_field_loop]. rewrite !ebind_look. change (data_end data) with size.
  destruct (Z.eqb_spec (p s) size) as [|Hne]; [done|].
  destruct (stop_cases token data (p s) Hp) as [He|(Hlt & c & Hc & Ht)]; [fold size in He; lia|].
  rewrite Hs in Hc. rewrite !(ebind_char_at _ c) by (lia || done).
  rewrite !ebind_upd. unfold token in Ht. apply negb_false_iff in Ht. by rewrite Ht.
Qed.

Lemma header_field_loop_general fuel s :
  header_state (parser s) = h_general -> 0 <= p s <= size -> size - p s < Z.of_nat fuel ->
  exists c, forall f,
    header_field_loop strict max_header_size data fuel s
    = header_field_loop strict max_header_size data (S f) (at_offset (stop token data (p s)) (with_ch c s)).
Proof.
  intros Hg Hp Hf. destruct fuel as [|fuel]; [lia|].
  destruct (decide (stop token data (p s) = p s)) as [Hs|Hs].
  { exists (ch s). intros f. rewrite Hs. replace (at_offset _ _) with s by (by destruct s). by apply header_field_loop_stop. }
  assert (Hlt : p s < size).
  { destruct (decide (p s = size)) as [He|]; [|lia]. destruct Hs. rewrite He. apply stop_end. }
  destruct (byte_at (p s)) as [c Hc]; [lia|]. exists c. intros f.
  destruct (token c) eqn:Ht; [|by rewrite (stop_here _ data _ c) in Hs by done].
  cbn [header_field_loop]. rewrite ebind_look. change (data_end data) with size.
  destruct (Z.eqb_spec (p s) size) as [|_]; [lia|]. rewrite (ebind_char_at _ c) by (lia || done).
  rewrite ebind_upd. pose proof Ht as Htok. unfold token in Htok. apply negb_true_iff in Htok. rewrite Htok.
  unfold header_field_char. rewrite ebind_assoc, ebind_look. cbn [parser with_ch]. rewrite Hg.
  rewrite ebind_assoc, ebind_look. cbn [p with_ch]. cbv zeta. change (data_end data) with size.
  replace (p s + (size - p s) `min` max_header_size) with size by lia.
  unfold ebind at 1. rewrite skip_tokens_eq; [|cbn [p with_ch]; lia|cbn [p with_ch]; unfold size; lia].
  cbn [p with_ch]. unfold add_p. rewrite ebind_upd. rewrite (stop_skip token data (p s) c) by (lia || done).
  pose proof (stop_range token data (p s + 1)) as Hr. fold size in Hr.
  replace (with_p _ (at_offset _ _)) with (at_offset (stop token data (p s + 1)) (with_ch c s))
    by (unfold at_offset, with_p; cbn; f_equal; lia).
  destruct fuel as [|fuel]; [lia|]. apply (header_field_loop_stop fuel f); cbn [at_offset with_p p]; [lia|].
  destruct (stop_cases token data (p s + 1)) as [He|(_ & c' & Hc' & Ht')]; [lia| |by apply (stop_here _ _ _ c')].
  rewrite He. apply stop_end.
Qed.
(** ** Values *)

Definition value_ends (c : Z) : bool := (c =? CR) || (c =? LF).
Definition value_bad (c : Z) : bool := negb lenient && negb (IS_HEADER_CHAR c).
Definition value_byte (c : Z) : bool := negb (value_ends c) && negb (value_bad c).

Lemma value_byte_eq c : value_byte c = negb (value_ends c) && negb (value_bad c).
Proof. done. Qed.

Lemma skip_value_eq fuel s :
  0 <= p s <= size -> size - p s < Z.of_nat fuel ->
  exists c, forall f, skip_value lenient data fuel size s
    = skip_value lenient data (S f) size (at_offset (stop value_byte data (p s)) (with_ch c s)).
Proof.
  revert s. induction fuel as [|fuel IH]; intros s Hp Hf; [lia|].
  destruct (decide (p s = size)) as [He|Hne].
  { exists (ch s). intros f. cbn [skip_value]. rewrite !ebind_look. rewrite He. unfold size at 3. rewrite stop_end. fold size.
    cbn [at_offset with_p p]. rewrite Z.eqb_refl, <- He. by destruct s. }
  destruct (byte_at (p s)) as [c Hc]; [lia|]. destruct (value_byte c) eqn:Hb.
  - destruct (IH (with_p (fun z => z + 1) (with_ch c s))) as [c' Heq]; [cbn; lia..|]. exists c'. intros f.
    rewrite (stop_skip _ _ _ c) by (lia || done).
    etransitivity; [|exact (Heq f)]. cbn [skip_value]. rewrite ebind_look. destruct (Z.eqb_spec (p s) size); [lia|].
    rewrite (ebind_char_at _ c), ebind_upd by (lia || done).
    rewrite value_byte_eq in Hb. apply andb_true_iff in Hb as [Hend Hbad]. apply negb_true_iff in Hend, Hbad.
    fold (value_ends c) (value_bad c). by rewrite Hend, Hbad.
  - exists (ch s). intros f. rewrite (stop_here _ _ _ c) by done. cbn [skip_value]. rewrite !ebind_look.
    cbn [at_offset with_p with_ch p]. destruct (Z.eqb_spec (p s) size); [lia|].
    rewrite !(ebind_char_at _ c), !ebind_upd by (lia || done).
    rewrite value_byte_eq in Hb. apply andb_false_iff in Hb. rewrite !negb_false_iff in Hb.
    fold (value_ends c) (value_bad c). destruct (value_ends c); [by destruct s|].
    destruct (value_bad c); [by destruct s|]. by destruct Hb.
Qed.

Lemma header_value_loop_stop f f' start h s :
  0 <= p s <= size -> stop value_byte data (p s) = p s ->
  header_value_loop settings max_header_size lenient data (S f) start h s
  = header_value_loop settings max_header_size lenient data (S f') start h s.
Proof.
  intros Hp Hs. cbn [header_value_loop]. rewrite !ebind_look. change (data_end data) with size.
  destruct (Z.eqb_spec (p s) size) as [|Hne]; [done|].
  destruct (stop_cases value_byte data (p s) Hp) as [He|(Hlt & c & Hc & Hb)]; [fold size in He; lia|].
  rewrite Hs in Hc. rewrite !(ebind_char_at _ c), !ebind_upd by (lia || done).
  rewrite value_byte_eq in Hb. unfold value_ends in Hb. destruct (c =? CR); [done|]. destruct (c =? LF); [done|].
  cbn in Hb. apply negb_false_iff in Hb. fold (value_bad c). by rewrite Hb.
Qed.

Lemma stop_stop f i : 0 <= i <= size -> stop f data (stop f data i) = stop f data i.
Proof.
  intros Hi. destruct (stop_cases f data i Hi) as [He|(_ & c & Hc & Hb)]; [rewrite He; apply stop_end|].
  by apply (stop_here _ _ _ c).
Qed.

(** The inner loop stops at the last byte of the value, or at a bad one. *)
Lemma do_general_value_eq c s :
  0 <= p s < size -> data !! Z.to_nat (p s) = Some c -> value_byte c = true ->
  let j := stop value_byte data (p s) in
  (exists c', do_general_value max_header_size lenient data s = Value tt (at_offset (j - 1) (with_ch c' s))) \/
  exists d, j < size /\ data !! Z.to_nat j = Some d /\ value_ends d = false /\ value_bad d = true /\
    do_general_value max_header_size lenient data s
    = GotoError (set_error HPE_INVALID_HEADER_TOKEN (at_offset j (with_ch d s))).
Proof.
  intros Hp Hc Hb j. destruct (skip_value_eq (S (length data)) s) as [c' Hskip]; [lia|unfold size; lia|]. fold j in Hskip.
  pose proof (stop_range value_byte data (p s)) as Hr. fold j in Hr.
  assert (Hm : do_general_value max_header_size lenient data s
    = (skip_value lenient data 1 size;! let! i := look p in ewhen (i =? size) (add_p (-1))) (at_offset j (with_ch c' s))).
  { unfold do_general_value. rewrite ebind_look. cbv zeta. change (data_end data) with size.
    replace (p s + (size - p s) `min` max_header_size) with size by lia. unfold ebind. by rewrite (Hskip O). }
  rewrite Hm. clear Hm Hskip. cbn [skip_value]. rewrite ebind_assoc, ebind_look. cbn [p at_offset with_p].
  destruct (Z.eqb_spec j size) as [He|Hne].
  - left. exists c'. rewrite ebind_done, ebind_look. cbn [p with_p at_offset].
    rewrite (proj2 (Z.eqb_eq j size) He). by destruct s.
  - destruct (stop_cases value_byte data (p s)) as [He|(_ & d & Hd & Hb')]; [lia|fold j size in He; lia|].
    fold j in Hd. rewrite ebind_assoc, (ebind_char_at _ d) by (lia || done). rewrite ebind_assoc, ebind_upd.
    fold (value_ends d) (value_bad d). rewrite value_byte_eq in Hb'. destruct (value_ends d) eqn:Hd1.
    + left. exists d. unfold add_p at 1. rewrite ebind_upd, ebind_look. cbn [p with_p with_ch at_offset].
      destruct (Z.eqb_spec (j + -1) size); [lia|]. by destruct s.
    + right. apply negb_false_iff in Hb'. exists d. rewrite Hb'.
      split_and!; [lia|done..|by destruct s].
Qed.

Lemma header_value_loop_general fuel start s :
  0 <= p s <= size -> size - p s < Z.of_nat fuel ->
  exists c, forall f,
    header_value_loop settings max_header_size lenient data fuel start h_general s
    = header_value_loop settings max_header_size lenient data (S f) start h_general
        (at_offset (stop value_byte data (p s)) (with_ch c s)).
Proof.
  intros Hp Hf. destruct fuel as [|fuel]; [lia|].
  destruct (decide (stop value_byte data (p s) = p s)) as [Hs|Hs].
  { exists (ch s). intros f. rewrite Hs. replace (at_offset _ _) with s by (by destruct s). by apply header_value_loop_stop. }
  assert (Hlt : p s < size).
  { destruct (decide (p s = size)) as [He|]; [|lia]. destruct Hs. rewrite He. apply stop_end. }
  destruct (byte_at (p s)) as [c Hc]; [lia|].
  destruct (value_byte c) eqn:Hb; [|by rewrite (stop_here _ data _ c) in Hs by done].
  pose proof Hb as Hbyte. rewrite value_byte_eq in Hb. apply andb_true_iff in Hb as [Hend Hbad].
  apply negb_true_iff in Hend, Hbad. unfold value_ends in Hend. apply orb_false_iff in Hend as [Hcr Hlf].
  pose proof (stop_range value_byte data (p s)) as Hr. pose proof (stop_stop value_byte (p s)) as Hj.
  assert (Hiter : header_value_loop settings max_header_size lenient data (S fuel) start h_general s
    = (do_general_value max_header_size lenient data;! add_p 1;!
       header_value_loop settings max_header_size lenient data fuel start h_general) (with_ch c s)).
  { cbn [header_value_loop]. rewrite ebind_look. change (data_end data) with size.
    destruct (Z.eqb_spec (p s) size) as [|_]; [lia|]. rewrite (ebind_char_at _ c), ebind_upd by (lia || done).
    rewrite Hcr, Hlf. fold (value_bad c). rewrite Hbad. cbn [header_value_char]. by rewrite ebind_assoc. }
  rewrite Hiter. unfold ebind at 1.
  destruct (do_general_value_eq c (with_ch c s)) as [[c' ->]|(d & Hd & Hat & Hends & Hbad' & ->)]; [cbn; lia|done|done| |];
    cbn [p with_ch] in *.
  - exists c'. intros f. unfold add_p. rewrite ebind_upd. destruct fuel as [|fuel]; [lia|].
    replace (with_p _ _) with (at_offset (stop value_byte data (p s)) (with_ch c' s))
      by (unfold at_offset, with_p, with_ch; cbn; f_equal; lia).
    apply header_value_loop_stop; cbn [p at_offset with_p]; [lia|]. apply Hj. lia.
  - exists d. intros f. cbn [header_value_loop]. rewrite ebind_look. cbn [p with_p at_offset].
    change (data_end data) with size. destruct (Z.eqb_spec (stop value_byte data (p s)) size); [lia|].
    rewrite (ebind_char_at _ d), ebind_upd by (lia || done).
    unfold value_ends in Hends. apply orb_false_iff in Hends as [-> ->]. fold (value_bad d). rewrite Hbad'.
    by destruct s.
Qed.
End Scan.
