(* ===== verification/HttpRel.v ===== *)
(** Two runs of http_parser side by side: users that take a message in parts, a
    relation between the locals of two runs whose buffers are offset from each
    other, and rules that run both through the same piece of code. *)
From S2P Require Import Prelude HttpTypes HttpUrl HttpExec HttpStates HttpHeaders HttpParser HttpLogic HttpSafe.

Local Open Scope Z_scope.
Local Open Scope exec_scope.
#[local] Arguments Z.add : simpl never.
#[local] Arguments Z.sub : simpl never.

#[export] Instance part_eq_dec : EqDecision part.
Proof. solve_decision. Defined.

(** ** Users that take a message in parts *)

Inductive notice := message_begin | headers_complete | message_complete | chunk_header | chunk_complete.

(** The fields of a parser that are not private to it: http_parser.h declares
    [state] and [nread] private. *)
Definition public (x : http_parser) : http_parser := set_nread (fun _ => 0) (set_state (fun _ => s_dead) x).

(** A user is told of notices, and given the bytes of the parts of a message;
    [skips] is what it returns from [on_headers_complete]. *)
Class Reader (U : Type) := {
  told : notice -> http_parser -> U -> U;
  given : part -> list Z -> U -> U;
  skips : http_parser -> U -> Z
}.

(** It is all one to it whether a part comes at once or in pieces. *)
Class ReaderLaws (U : Type) `{Reader U} := {
  given_app m a b u : given m (a ++ b) u = given m b (given m a u)
}.

Section Reader.
Context {U : Type} `{Reader U}.

Definition reader_cb (n : notice) : http_cb U := fun x u => (0, x, told n (public x) u).
Definition reader_headers : http_cb U := fun x u => (skips (public x) u, x, told headers_complete (public x) u).
Definition reader_data (data : list Z) (m : part) : http_data_cb U :=
  fun at_ n x u => (0, x, given m (slice data at_ n) u).

(** The callbacks of a user, for a call with buffer [data] *)
Definition reader (data : list Z) : http_parser_settings U :=
  Settings _ (Some (reader_cb message_begin)) (Some (reader_data data url)) (Some (reader_data data status))
    (Some (reader_data data header_field)) (Some (reader_data data header_value)) (Some reader_headers)
    (Some (reader_data data body)) (Some (reader_cb message_complete)) (Some (reader_cb chunk_header))
    (Some (reader_cb chunk_complete)).

Lemma reader_ok data size : settings_ok (fun _ => True) size (reader data).
Proof. split; [..|intros []]; intros f [= <-]; intros; (split; [by destruct x|done]). Qed.

Lemma reader_data_cb data m : data_cb (reader data) m = Some (reader_data data m).
Proof. by destruct m. Qed.
End Reader.

(** ** Relational triples *)

(** How the ways of ending other than in a value are to be related *)
Record ties (U : Type) := Ties {
  tie_break : exec U -> exec U -> Prop;
  tie_reexecute : exec U -> exec U -> Prop;
  tie_error : exec U -> exec U -> Prop;
  tie_return : Z -> exec U -> Z -> exec U -> Prop
}.
Arguments Ties {U}.
Arguments tie_break {U} _.
Arguments tie_reexecute {U} _.
Arguments tie_error {U} _.
Arguments tie_return {U} _.

Section Rel.
Context {U : Type}.
Implicit Types (w s : exec U) (T : ties U).

Definition rel {A B} (m1 : E U A) w (m2 : E U B) s (K : A -> exec U -> B -> exec U -> Prop) T : Prop :=
  match m1 w, m2 s with
  | Value a w', Value b s' => K a w' b s'
  | Break w', Break s' => tie_break T w' s'
  | Reexecute w', Reexecute s' => tie_reexecute T w' s'
  | GotoError w', GotoError s' => tie_error T w' s'
  | Return v1 w', Return v2 s' => tie_return T v1 w' v2 s'
  | Stuck _, Stuck _ => True
  | _, _ => False
  end.

Lemma rel_bind {A A' B B'} (m1 : E U A) (k1 : A -> E U B) (m2 : E U A') (k2 : A' -> E U B') w s K T :
  rel m1 w m2 s (fun a w' b s' => rel (k1 a) w' (k2 b) s' K T) T ->
  rel (ebind m1 k1) w (ebind m2 k2) s K T.
Proof. unfold rel, ebind. by destruct (m1 w), (m2 s). Qed.

Lemma rel_mono {A B} (m1 : E U A) w (m2 : E U B) s (K K' : A -> exec U -> B -> exec U -> Prop) T :
  rel m1 w m2 s K T -> (forall a w' b s', K a w' b s' -> K' a w' b s') -> rel m1 w m2 s K' T.
Proof. unfold rel. destruct (m1 w), (m2 s); eauto. Qed.

(** What is known of one of the two runs *)
Lemma rel_spec {A B} (m1 : E U A) (m2 : E U B) w s (K : A -> exec U -> B -> exec U -> Prop) T (K1 : A -> exec U -> Prop) P :
  spec m1 w K1 P -> rel m1 w m2 s K T -> rel m1 w m2 s (fun a w' b s' => K1 a w' /\ K a w' b s') T.
Proof. unfold rel, spec. by destruct (m1 w), (m2 s). Qed.

Lemma rel_done {A B} (a : A) (b : B) w s (K : A -> exec U -> B -> exec U -> Prop) T :
  K a w b s -> rel (done a) w (done b) s K T.
Proof. done. Qed.
Lemma rel_look {A B} (f : exec U -> A) (g : exec U -> B) w s (K : A -> exec U -> B -> exec U -> Prop) T :
  K (f w) w (g s) s -> rel (look f) w (look g) s K T.
Proof. done. Qed.
Lemma rel_upd f g w s (K : unit -> exec U -> unit -> exec U -> Prop) T :
  K tt (f w) tt (g s) -> rel (upd f) w (upd g) s K T.
Proof. done. Qed.
Lemma rel_change f w s (K : unit -> exec U -> unit -> exec U -> Prop) T :
  K tt (with_parser f w) tt (with_parser f s) -> rel (change f) w (change f) s K T.
Proof. done. Qed.
Lemma rel_UPDATE_STATE x w s (K : unit -> exec U -> unit -> exec U -> Prop) T :
  K tt (with_state x w) tt (with_state x s) -> rel (UPDATE_STATE x) w (UPDATE_STATE x) s K T.
Proof. done. Qed.
Lemma rel_add_p d e w s (K : unit -> exec U -> unit -> exec U -> Prop) T :
  K tt (with_p (fun z => z + d) w) tt (with_p (fun z => z + e) s) -> rel (add_p d) w (add_p e) s K T.
Proof. done. Qed.
Lemma rel_break {A B} w s (K : A -> exec U -> B -> exec U -> Prop) T :
  tie_break T w s -> rel break w break s K T.
Proof. done. Qed.
Lemma rel_reexecute {A B} w s (K : A -> exec U -> B -> exec U -> Prop) T :
  tie_reexecute T w s -> rel reexecute w reexecute s K T.
Proof. done. Qed.
Lemma rel_goto_error {A B} w s (K : A -> exec U -> B -> exec U -> Prop) T :
  tie_error T w s -> rel goto_error w goto_error s K T.
Proof. done. Qed.
Lemma rel_assert b w s (K : unit -> exec U -> unit -> exec U -> Prop) T :
  (b = true -> K tt w tt s) -> rel (eassert b) w (eassert b) s K T.
Proof. unfold rel. destruct b; [|done]. intros HK. by apply HK. Qed.
Lemma rel_when b m1 m2 w s (K : unit -> exec U -> unit -> exec U -> Prop) T :
  (b = true -> rel m1 w m2 s K T) -> (b = false -> K tt w tt s) -> rel (ewhen b m1) w (ewhen b m2) s K T.
Proof. destruct b; intros Ht Hf; [by apply Ht|by apply Hf]. Qed.
Lemma rel_SET_ERRNO e w s (K : unit -> exec U -> unit -> exec U -> Prop) T :
  K tt (set_error e w) tt (set_error e s) -> rel (SET_ERRNO e) w (SET_ERRNO e) s K T.
Proof. done. Qed.
Lemma rel_fail {A B} e w s (K : A -> exec U -> B -> exec U -> Prop) T :
  tie_error T (set_error e w) (set_error e s) -> rel (fail_with e) w (fail_with e) s K T.
Proof. done. Qed.
Lemma rel_STRICT strict b w s (K : unit -> exec U -> unit -> exec U -> Prop) T :
  tie_error T (set_error HPE_STRICT w) (set_error HPE_STRICT s) -> K tt w tt s ->
  rel (STRICT_CHECK strict b) w (STRICT_CHECK strict b) s K T.
Proof. intros He HK. unfold STRICT_CHECK. by destruct (strict && b). Qed.

(** [s] as [RETURN] leaves it *)
Definition stored (s : exec U) : exec U :=
  with_parser (fun x => set_state (fun _ => p_state s) (set_nread (fun _ => nread s) x)) s.

Lemma rel_RETURN {A B} v1 v2 w s (K : A -> exec U -> B -> exec U -> Prop) T :
  tie_return T v1 (stored w) v2 (stored s) -> rel (RETURN v1) w (RETURN v2) s K T.
Proof. done. Qed.

Lemma rel_MARK m w s (K : unit -> exec U -> unit -> exec U -> Prop) T :
  K tt (match mark_of m w with None => with_mark m (Some (p w)) w | Some _ => w end)
    tt (match mark_of m s with None => with_mark m (Some (p s)) s | Some _ => s end) ->
  rel (MARK m) w (MARK m) s K T.
Proof. done. Qed.

Lemma rel_COUNT max v w s (K : unit -> exec U -> unit -> exec U -> Prop) T :
  nread w = nread s ->
  let w' := with_nread (fun n => u32 (n + u32 v)) w in
  let s' := with_nread (fun n => u32 (n + u32 v)) s in
  K tt w' tt s' -> tie_error T (set_error HPE_HEADER_OVERFLOW w') (set_error HPE_HEADER_OVERFLOW s') ->
  rel (COUNT_HEADER_SIZE max v) w (COUNT_HEADER_SIZE max v) s K T.
Proof.
  intros Hn w' s' HK He. unfold COUNT_HEADER_SIZE, rel, ebind, upd, look. fold w' s'.
  assert (Heq : nread w' = nread s') by (cbn; by rewrite Hn). rewrite Heq.
  by destruct (nread s' >? max).
Qed.

(** The same, when the two have counted differently up to here *)
Lemma rel_COUNT_sum max vw vs n w s (K : unit -> exec U -> unit -> exec U -> Prop) T :
  n = u32 (nread s + vs) -> u32 (nread w + vw) = n ->
  K tt (with_nread (fun _ => n) w) tt (with_nread (fun _ => n) s) ->
  tie_error T (set_error HPE_HEADER_OVERFLOW (with_nread (fun _ => n) w))
    (set_error HPE_HEADER_OVERFLOW (with_nread (fun _ => n) s)) ->
  rel (COUNT_HEADER_SIZE max vw) w (COUNT_HEADER_SIZE max vs) s K T.
Proof.
  intros Hs Hw HK He. unfold COUNT_HEADER_SIZE, rel, ebind, upd, look.
  assert (Hsum : forall a b, u32 (a + u32 b) = u32 (a + b)).
  { intros a b. unfold u32. by rewrite Zplus_mod_idemp_r. }
  assert (Hv : forall v (s : exec U), with_nread (fun n => u32 (n + u32 v)) s = with_nread (fun _ => u32 (nread s + v)) s).
  { intros v [? ? nr ? ? ? ? ? ? ? ?]. unfold with_nread. cbn. by rewrite Hsum. }
  rewrite !Hv, Hw, <- Hs. cbn [nread with_nread]. by destruct (n >? max).
Qed.

(** ** The callbacks of a reader *)

Context `{Reader U}.

Lemma rel_NOTIFY n e er1 er2 w s (K : unit -> exec U -> unit -> exec U -> Prop) T :
  public (parser w) = public (parser s) -> p_state w = p_state s -> user w = user s ->
  (let u := told n (public (parser s)) (user s) in
   K tt (called (p_state w) u w) tt (called (p_state s) u s)) ->
  rel (CALLBACK_NOTIFY_ (Some (reader_cb n)) e er1) w (CALLBACK_NOTIFY_ (Some (reader_cb n)) e er2) s K T.
Proof.
  destruct w as [y st nr i c hf hv ur bd sm us], s as [x st' nr' i' c' hf' hv' ur' bd' sm' us'].
  cbn. intros Hp Hs Hu HK. subst st' us'. unfold rel, CALLBACK_NOTIFY_, assert_no_errno, ebind, look, upd. cbn.
  assert (He : errno_ y = errno_ x) by (by apply (f_equal errno_) in Hp).
  rewrite He. unfold eassert. case_bool_decide as Hok; [|done]. unfold reader_cb. cbn.
  unfold after_callback, ebind, look, upd. cbn. rewrite He, !decide_False by (by intros Hne).
  unfold called in HK. cbn in HK. replace (public (set_state _ y)) with (public x) by (by rewrite <- Hp).
  exact HK.
Qed.

(** What each run gives its user, and the users afterwards *)
Lemma rel_DATA dw ds m fw fs erw ers w s (K : unit -> exec U -> unit -> exec U -> Prop) T :
  public (parser w) = public (parser s) -> p_state w = p_state s ->
  (forall t1 t2 u,
     u = match mark_of m w with Some j => given m (slice dw j (fw - j)) (user w) | None => user w end ->
     u = match mark_of m s with Some j => given m (slice ds j (fs - j)) (user s) | None => user s end ->
     K tt (with_mark m None (called t1 u w)) tt (with_mark m None (called t2 u s))) ->
  match mark_of m w with Some j => given m (slice dw j (fw - j)) (user w) | None => user w end
  = match mark_of m s with Some j => given m (slice ds j (fs - j)) (user s) | None => user s end ->
  rel (CALLBACK_DATA_ (reader dw) m fw erw) w (CALLBACK_DATA_ (reader ds) m fs ers) s K T.
Proof.
  destruct w as [y st nr i c hf hv ur bd sm us], s as [x st' nr' i' c' hf' hv' ur' bd' sm' us'].
  cbn. intros Hp Hs HK Hu. subst st'.
  assert (He : errno_ y = errno_ x) by (by apply (f_equal errno_) in Hp).
  assert (Hrun : forall (data : list Z) x fin er nr i c hf hv ur bd sm us (s := Exec x st nr i c hf hv ur bd sm us),
    errno_ x = HPE_OK -> exists t, CALLBACK_DATA_ (reader data) m fin er s
      = Value tt (with_mark m None (called t
          match mark_of m s with Some j => given m (slice data j (fin - j)) us | None => us end s))).
  { clear. intros data x fin er nr i c hf hv ur bd sm us s He. subst s.
    unfold CALLBACK_DATA_, assert_no_errno, ebind, look, upd. cbn. rewrite He, bool_decide_true by done. cbn.
    destruct (mark_of m _) as [j|] eqn:Hm.
    - rewrite reader_data_cb. unfold reader_data, after_callback, ebind, look, upd. cbn. rewrite He, decide_False by (by intros Hne).
      by exists st.
    - exists (state_ x). unfold called, with_parser, with_user, with_mark. cbn.
      destruct x, m; cbn in *; by subst. }
  unfold rel. destruct (decide (errno_ x = HPE_OK)) as [Hok|Hne].
  - destruct (Hrun dw y fw erw nr i c hf hv ur bd sm us) as [t1 ->]; [congruence|].
    destruct (Hrun ds x fs ers nr' i' c' hf' hv' ur' bd' sm' us') as [t2 ->]; [done|].
    cbn [user] in Hu. rewrite Hu. apply HK; [by rewrite Hu|done].
  - unfold CALLBACK_DATA_, assert_no_errno, ebind, look. cbn.
    rewrite He, bool_decide_false by done. done.
Qed.
Lemma rel_NOTIFY_same n e er1 er2 w s (K : unit -> exec U -> unit -> exec U -> Prop) T :
  public (parser w) = public (parser s) -> p_state w = p_state s -> user w = user s ->
  (forall u, K tt (called (p_state w) u w) tt (called (p_state s) u s)) ->
  rel (CALLBACK_NOTIFY_ (Some (reader_cb n)) e er1) w (CALLBACK_NOTIFY_ (Some (reader_cb n)) e er2) s K T.
Proof. intros. by apply rel_NOTIFY. Qed.
End Rel.

(** ** What is private *)

(** [x] with what is private to it from another parser *)
Definition stale (t : state) (n : Z) (x : http_parser) : http_parser :=
  Parser (type x) (flags x) t (header_state x) (index x) (uses_transfer_encoding x)
    (allow_chunked_length x) (lenient_http_headers x) n (content_length x)
    (http_major x) (http_minor x) (status_code x) (method x) (errno_ x) (upgrade x).

Lemma public_stale x y : public y = public x -> exists t n, y = stale t n x.
Proof. destruct x, y. unfold public. cbn. intros [=]. subst. by eexists _, _. Qed.

Lemma NEW_MESSAGE_public strict x y : public y = public x -> NEW_MESSAGE strict y = NEW_MESSAGE strict x.
Proof. intros (t & n & ->)%public_stale. done. Qed.

(** ** Running both *)

Ltac norm := cbn [parser p_state nread p ch user header_field_mark header_value_mark url_mark body_mark status_mark
  with_parser with_state with_nread with_p with_ch with_user with_mark mark_of called set_error stored
  stale type flags state_ header_state index uses_transfer_encoding allow_chunked_length lenient_http_headers nread_
  content_length http_major http_minor status_code method errno_ upgrade
  set_type set_flags set_state set_header_state set_index set_uses_transfer_encoding set_allow_chunked_length
  set_lenient_http_headers set_nread set_content_length set_http_major set_http_minor set_status_code set_method
  set_errno set_upgrade id].

Ltac rstep :=
  lazymatch goal with
  | |- rel (ebind _ _) _ (ebind _ _) _ _ _ => apply rel_bind
  | |- rel (look _) _ (look _) _ _ _ => apply rel_look
  | |- rel (upd _) _ (upd _) _ _ _ => apply rel_upd
  | |- rel (change _) _ (change _) _ _ _ => apply rel_change
  | |- rel (UPDATE_STATE _) _ (UPDATE_STATE _) _ _ _ => apply rel_UPDATE_STATE
  | |- rel (add_p _) _ (add_p _) _ _ _ => apply rel_add_p
  | |- rel break _ break _ _ _ => apply rel_break
  | |- rel reexecute _ reexecute _ _ _ => apply rel_reexecute
  | |- rel goto_error _ goto_error _ _ _ => apply rel_goto_error
  | |- rel (done _) _ (done _) _ _ _ => apply rel_done
  | |- rel (fail_with _) _ (fail_with _) _ _ _ => apply rel_fail
  | |- rel (SET_ERRNO _) _ (SET_ERRNO _) _ _ _ => apply rel_SET_ERRNO
  | |- rel (RETURN _) _ (RETURN _) _ _ _ => apply rel_RETURN
  | |- rel (STRICT_CHECK _ _) _ (STRICT_CHECK _ _) _ _ _ => apply rel_STRICT
  | |- rel (MARK _) _ (MARK _) _ _ _ => apply rel_MARK
  | |- rel (stuck _) _ (stuck _) _ _ _ => exact I
  | |- rel (eassert ?b) _ (eassert ?b) _ _ _ => apply rel_assert; intros ?
  | |- rel (ewhen ?b _) _ (ewhen ?b _) _ _ _ => apply rel_when; intros ?
  | |- rel (if ?b then _ else _) _ (if ?b then _ else _) _ _ _ => destruct b eqn:?
  | |- rel (match ?o with _ => _ end) _ (match ?o with _ => _ end) _ _ _ => destruct o eqn:?
  | |- rel (CALLBACK_NOTIFY _ _) _ (CALLBACK_NOTIFY _ _) _ _ _ => unfold CALLBACK_NOTIFY
  | |- rel (CALLBACK_NOTIFY_NOADVANCE _ _) _ (CALLBACK_NOTIFY_NOADVANCE _ _) _ _ _ =>
      unfold CALLBACK_NOTIFY_NOADVANCE
  | |- rel (CALLBACK_NOTIFY_ _ _ _) _ (CALLBACK_NOTIFY_ _ _ _) _ _ _ =>
      apply rel_NOTIFY_same; [try reflexivity|try reflexivity|try reflexivity|intros ?]
  end; cbv beta; norm.
