(* ===== verification/HttpTied.v ===== *)
(** When two runs of [http_parser_execute] are tied: the buffer of one is offset
    from that of the other, a part of the message may have begun in what only
    the first has in its buffer, and all else is equal. *)
From S2P Require Import Prelude HttpTypes HttpUrl HttpExec HttpStates HttpHeaders HttpParser HttpLogic HttpSafe HttpRel.

Local Open Scope Z_scope.
Local Open Scope exec_scope.
#[local] Arguments Z.add : simpl never.
#[local] Arguments Z.sub : simpl never.

(** The parts that a call goes on with when the last buffer ended in them *)
Definition token_state (m : part) (st : state) : bool :=
  match m with body => false | _ => mark_state m st end.

Definition full {U} (s : exec U) : Prop := forall m, token_state m (p_state s) = true -> is_Some (mark_of m s).

Section Tied.
Context {U : Type} `{ReaderLaws U}.
Variable strict : bool.
Variable max_header_size : Z.
Variable lenient allow_chunked_length_ : bool.
(** The buffers of the two runs; that of the second is at offset [k] in that of
    the first, after [c0] *)
Variable dw ds : list Z.
Variable k c0 : Z.
Hypothesis Hk : 0 <= k.
Hypothesis Hslice : forall i n, 0 <= i -> 0 <= n -> i + n <= Z.of_nat (length ds) -> slice dw (i + k) n = slice ds i n.
(** A bound for [nread], and bits of the parser that never change *)
Variable N l0 a0 : Z.
Hypothesis HN : 0 <= N.
Implicit Types (w s : exec U) (x y : http_parser).

Let size := Z.of_nat (length ds).

(** Whether a part has begun before the buffer of the second run *)
Inductive user_tie w s : Prop :=
| in_step :
    (forall m, mark_of m w = (fun i => i + k) <$> mark_of m s) -> user w = user s -> user_tie w s
| behind m :
    k = 1 -> dw = c0 :: ds -> mark_of m w = Some 0 -> mark_of m s = Some 0 ->
    (forall m', m' <> m -> mark_of m' w = None /\ mark_of m' s = None) ->
    user s = given m [c0] (user w) -> user_tie w s.

Record tied w s : Prop := {
  ti_public : public (parser w) = public (parser s);
  ti_state : p_state w = p_state s;
  ti_nread : nread w = nread s;
  ti_bound : nread s <= N;
  ti_p : p w = p s + k;
  ti_bits : lenient_http_headers (parser s) = l0 /\ allow_chunked_length (parser s) = a0;
  ti_in : marks_in s;
  ti_full : full s;
  ti_user : user_tie w s
}.

(** The end of a message is the only case that is looked at again and may have
    another character there: it does not look at it. *)
Definition tied_again w s : Prop := tied w s /\ (ch w = ch s \/ p_state s = s_message_done).

Definition tied_error w s : Prop := errno_ (parser w) = errno_ (parser s) /\ p w = p s + k.

Definition tied_return (v1 : Z) w (v2 : Z) s : Prop :=
  v1 = v2 + k /\ errno_ (parser w) = errno_ (parser s) /\
  (errno_ (parser s) = HPE_OK -> parser w = parser s /\ user w = user s).

Definition both : ties U := Ties tied tied_again tied_error tied_return.

(** A case keeps two runs tied. *)
Definition case_tied (st : state) (m1 m2 : E U unit) : Prop :=
  forall w s, inv max_header_size (fun _ => True) w -> tied_again w s -> p_state s = st -> 0 <= p s < size ->
    rel m1 w m2 s (fun _ w' _ s' => tied w' s') both.

(** ** Runs without a part under way *)

Lemma plain_tied_any st m1 m2 :
  (forall m, mark_state m st = false) ->
  (forall x t0 n0 n i cw c us, n <= N -> lenient_http_headers x = l0 -> allow_chunked_length x = a0 -> 0 <= i < size ->
     errno_ x = HPE_OK -> cw = c \/ st = s_message_done ->
     rel m1 (Exec (stale t0 n0 x) st n (i + k) cw None None None None None us)
         m2 (Exec x st n i c None None None None None us) (fun _ w' _ s' => tied w' s') both) ->
  case_tied st m1 m2.
Proof.
  intros Hno Hm w s [Hw Hmk] [[Hpub Hst Hn HnN Hp [Hl Ha] Hin Hfull Hu] Hch] <- Hi.
  assert (Hnone : forall m, mark_of m w = None).
  { intros m. destruct (mark_of m w) as [j|] eqn:Hj; [|done].
    specialize (Hmk m j Hj). rewrite Hst in Hmk. by rewrite Hno in Hmk. }
  destruct Hu as [Hmarks Hu|m _ _ Hm0]; [|by rewrite Hnone in Hm0].
  assert (Hnone' : forall m, mark_of m s = None).
  { intros m. specialize (Hmarks m). rewrite Hnone in Hmarks. by destruct (mark_of m s). }
  pose proof (co_errno _ _ _ Hw) as He.
  apply public_stale in Hpub as (t & n & Hy).
  pose proof (Hnone header_field). pose proof (Hnone header_value). pose proof (Hnone url).
  pose proof (Hnone body). pose proof (Hnone status).
  pose proof (Hnone' header_field). pose proof (Hnone' header_value). pose proof (Hnone' url).
  pose proof (Hnone' body). pose proof (Hnone' status).
  destruct w as [y st nr i c hf hv ur bd sm us], s as [x st' nr' i' c' hf' hv' ur' bd' sm' us'].
  cbn in *. subst. by apply Hm.
Qed.

Lemma plain_tied st m1 m2 :
  st <> s_message_done -> (forall m, mark_state m st = false) ->
  (forall x t0 n0 n i c us, n <= N -> lenient_http_headers x = l0 -> allow_chunked_length x = a0 -> 0 <= i < size ->
     errno_ x = HPE_OK ->
     rel m1 (Exec (stale t0 n0 x) st n (i + k) c None None None None None us)
         m2 (Exec x st n i c None None None None None us) (fun _ w' _ s' => tied w' s') both) ->
  case_tied st m1 m2.
Proof.
  intros Hne Hno Hm. apply plain_tied_any; [done|]. intros x t0 n0 n i cw c us Hn Hl Ha Hi He [->|]; [|done]. by apply Hm.
Qed.

(** ** Runs with one part under way *)

(** The marks of a part, and the users, at position [i] of the second buffer.
    The second of two calls marks a part of the body late, when there is more of
    it; until then its user has been given what the other's has not. *)
Inductive part_tie (m : part) (i : Z) : option Z -> option Z -> U -> U -> Prop :=
| part_none u : part_tie m i None None u u
| part_step j u : 0 <= j <= i -> part_tie m i (Some (j + k)) (Some j) u u
| part_behind u : k = 1 -> dw = c0 :: ds -> part_tie m i (Some 0) (Some 0) u (given m [c0] u)
| part_late u : k = 1 -> dw = c0 :: ds -> i = 0 -> part_tie m i (Some 0) None u (given m [c0] u).

(** Locals with no mark but that of [m] *)
Lemma only_mark m s :
  (forall m', m' <> m -> mark_of m' s = None) ->
  s = with_mark m (mark_of m s) (Exec (parser s) (p_state s) (nread s) (p s) (ch s) None None None None None (user s)).
Proof.
  intros Ho. destruct s as [x st nr i c hf hv ur bd sm us].
  pose proof (Ho header_field). pose proof (Ho header_value). pose proof (Ho url).
  pose proof (Ho body). pose proof (Ho status). destruct m; cbn in *; repeat match goal with
    H : ?a <> ?b -> _ |- _ => first [specialize (H ltac:(discriminate)); subst | clear H] end; reflexivity.
Qed.

Lemma some_mark s : (exists m j, mark_of m s = Some j) \/ forall m, mark_of m s = None.
Proof.
  destruct s as [x st nr i c [j1|] [j2|] [j3|] [j4|] [j5|] us];
    first [by left; eexists header_field, _|by left; eexists header_value, _|by left; eexists url, _
      |by left; eexists body, _|by left; eexists status, _|right; by intros []].
Qed.

Lemma user_part m w s :
  (forall m', m' <> m -> mark_of m' w = None) -> user_tie w s -> marks_in s ->
  part_tie m (p s) (mark_of m w) (mark_of m s) (user w) (user s) /\ (forall m', m' <> m -> mark_of m' s = None).
Proof.
  intros Hno Hu Hin. destruct Hu as [Hm Hu|m' Hk1 Hdw Hw Hs Ho Hu].
  - split.
    + rewrite Hu, (Hm m). destruct (mark_of m s) as [j|] eqn:Hj; cbn; [|constructor].
      constructor. by apply (Hin m).
    + intros m' Hne. specialize (Hm m'). rewrite Hno in Hm by done. by destruct (mark_of m' s).
  - destruct (decide (m' = m)) as [->|Hne]; [|by rewrite Hno in Hw].
    split; [|intros m' Hne; by apply Ho]. rewrite Hu, Hw, Hs. by constructor.
Qed.

Lemma part_user m w s :
  (forall m', m' <> m -> mark_of m' w = None /\ mark_of m' s = None) -> is_Some (mark_of m s) ->
  part_tie m (p s) (mark_of m w) (mark_of m s) (user w) (user s) -> user_tie w s.
Proof.
  intros Ho Hsome Hp. remember (mark_of m w) as ow eqn:Hw. remember (mark_of m s) as os eqn:Hs.
  remember (user w) as uw eqn:Huw. remember (user s) as us eqn:Hus.
  destruct Hp as [u|j u Hj|u Hk1 Hdw|u Hk1 Hdw Hi].
  - apply in_step; [|congruence]. intros m'. destruct (decide (m' = m)) as [->|Hne]; [by rewrite <- Hw, <- Hs|].
    destruct (Ho m' Hne) as [-> ->]. done.
  - apply in_step; [|congruence]. intros m'. destruct (decide (m' = m)) as [->|Hne]; [by rewrite <- Hw, <- Hs|].
    destruct (Ho m' Hne) as [-> ->]. done.
  - apply (behind _ _ m); try done; congruence.
  - by destruct Hsome.
Qed.

Lemma part_given m i fs ow os uw us :
  part_tie m i ow os uw us -> i <= fs <= size -> fs = i \/ is_Some os -> 0 <= i ->
  match ow with Some j => given m (slice dw j (fs + k - j)) uw | None => uw end
  = match os with Some j => given m (slice ds j (fs - j)) us | None => us end.
Proof.
  intros Hp Hfs Hlate Hi. destruct Hp as [u|j u Hj|u Hk1 Hdw|u Hk1 Hdw Hi0]; [done|..].
  - replace (fs + k - (j + k)) with (fs - j) by lia. rewrite Hslice; [done|lia..].
  - rewrite Hk1, Hdw. replace (fs + 1 - 0) with (fs + 1) by lia. rewrite slice_cons_zero by lia.
    change (c0 :: ?l) with ([c0] ++ l). rewrite given_app. by replace (fs - 0) with fs by lia.
  - destruct Hlate as [->|[? ?]]; [|done]. rewrite Hk1, Hdw, Hi0. done.
Qed.

Lemma tied_DATA m i fw fs erw ers w s (K : unit -> exec U -> unit -> exec U -> Prop) T :
  public (parser w) = public (parser s) -> p_state w = p_state s -> fw = fs + k ->
  part_tie m i (mark_of m w) (mark_of m s) (user w) (user s) ->
  0 <= i -> i <= fs <= size -> fs = i \/ is_Some (mark_of m s) ->
  (forall t1 t2 u, K tt (with_mark m None (called t1 u w)) tt (with_mark m None (called t2 u s))) ->
  rel (CALLBACK_DATA_ (reader dw) m fw erw) w (CALLBACK_DATA_ (reader ds) m fs ers) s K T.
Proof.
  intros Hp Hst -> Hpart Hi Hfs Hlate HK. apply rel_DATA; [done|done|by intros|]. by eapply part_given.
Qed.

Lemma part_shape m st w s :
  st <> s_message_done -> (forall m', m' <> m -> mark_state m' st = false) ->
  inv max_header_size (fun _ => True) w -> tied_again w s -> p_state s = st ->
  exists x t0 n0 n c ow os uw us,
    w = with_mark m ow (Exec (stale t0 n0 x) st n (p s + k) c None None None None None uw) /\
    s = with_mark m os (Exec x st n (p s) c None None None None None us) /\
    0 <= n <= N /\ (lenient_http_headers x = l0 /\ allow_chunked_length x = a0) /\ errno_ x = HPE_OK /\
    state_ok st (stale t0 n0 x) /\ fields_ok x /\ part_tie m (p s) ow os uw us /\
    (token_state m st = true -> is_Some os) /\ (is_Some ow -> is_Some os).
Proof.
  intros Hover Hno [Hw Hmk] [[Hpub Hst Hn HnN Hp [Hl Ha] Hin Hfull Hu] [Hch|Hd]] <-; [|done].
  assert (Hnone : forall m', m' <> m -> mark_of m' w = None).
  { intros m' Hne. destruct (mark_of m' w) as [j|] eqn:Hj; [|done].
    specialize (Hmk m' j Hj). rewrite Hst, Hno in Hmk; done. }
  destruct (user_part m w s Hnone Hu Hin) as [Hpart Hnone'].
  pose proof (co_errno _ _ _ Hw) as He. pose proof (co_nread _ _ _ Hw) as Hnr.
  pose proof (co_state _ _ _ Hw) as Hok. pose proof (co_fields _ _ _ Hw) as Hf.
  apply public_stale in Hpub as (t & n & Hy). rewrite Hst, Hy in Hok. rewrite Hy in Hf, He.
  exists (parser s), t, n, (nread s), (ch s), (mark_of m w), (mark_of m s), (user w), (user s).
  split; [|split; [by apply only_mark|split_and!; try done; [lia|exact (Hfull m)|]]].
  - rewrite (only_mark m w Hnone) at 1. by rewrite Hy, Hst, Hn, Hp, Hch.
  - intros Hsome. destruct Hu as [Hm _|m' _ _ Hm Hm' Ho _].
    + specialize (Hm m). destruct (mark_of m s); [by eexists|]. rewrite Hm in Hsome. by destruct Hsome.
    + destruct (decide (m' = m)) as [->|Hne]; [by eexists|]. rewrite Hnone in Hm; done.
Qed.

Lemma part_tied m st m1 m2 :
  st <> s_message_done -> (forall m', m' <> m -> mark_state m' st = false) ->
  (forall x t0 n0 n i c ow os uw us, n <= N -> lenient_http_headers x = l0 -> allow_chunked_length x = a0 ->
     0 <= i < size -> errno_ x = HPE_OK -> state_ok st (stale t0 n0 x) -> fields_ok x ->
     part_tie m i ow os uw us -> (token_state m st = true -> is_Some os) ->
     rel m1 (with_mark m ow (Exec (stale t0 n0 x) st n (i + k) c None None None None None uw))
         m2 (with_mark m os (Exec x st n i c None None None None None us)) (fun _ w' _ s' => tied w' s') both) ->
  case_tied st m1 m2.
Proof.
  intros Hover Hno Hm w s Hw Hws Hst Hi.
  destruct (part_shape m st w s Hover Hno Hw Hws Hst) as
    (x & t0 & n0 & n & c & ow & os & uw & us & Hww & Hss & Hn & [Hl Ha] & He & Hok & Hf & Hpart & Htok & _).
  remember (p s) as i eqn:Hps. clear Hps. rewrite Hww, Hss. apply Hm; try done. lia.
Qed.

Lemma part_in m i ow j uw us : 0 <= i -> part_tie m i ow (Some j) uw us -> 0 <= j <= i.
Proof. intros Hi Hp. inversion Hp; subst; lia. Qed.

Lemma part_mono m i i' ow j uw us : i <= i' -> part_tie m i ow (Some j) uw us -> part_tie m i' ow (Some j) uw us.
Proof. intros Hi Hp. inversion Hp; subst; constructor; try done. lia. Qed.

(** The marks after [MARK(m)] *)
Lemma part_mark m i ow os uw us :
  0 <= i -> part_tie m i ow os uw us ->
  exists j' j, match ow with None => Some (i + k) | Some _ => ow end = Some j' /\
    match os with None => Some i | Some _ => os end = Some j /\
    part_tie m i (Some j') (Some j) uw us.
Proof.
  intros Hi Hp. destruct Hp as [u|j u Hj|u Hk1 Hdw|u Hk1 Hdw Hi0].
  - exists (i + k), i. split; [done|]. split; [done|]. constructor. lia.
  - exists (j + k), j. split; [done|]. split; [done|]. by apply part_step.
  - exists 0, 0. split; [done|]. split; [done|]. by constructor.
  - subst i. exists 0, 0. split; [done|]. split; [done|]. by apply part_behind.
Qed.

Lemma tied_MARK m x y st n i c ow os uw us (K : unit -> exec U -> unit -> exec U -> Prop) T :
  0 <= i -> part_tie m i ow os uw us ->
  (forall j' j, part_tie m i (Some j') (Some j) uw us ->
     K tt (with_mark m (Some j') (Exec y st n (i + k) c None None None None None uw))
       tt (with_mark m (Some j) (Exec x st n i c None None None None None us))) ->
  rel (MARK m) (with_mark m ow (Exec y st n (i + k) c None None None None None uw))
      (MARK m) (with_mark m os (Exec x st n i c None None None None None us)) K T.
Proof.
  intros Hi Hpart HK. destruct (part_mark _ _ _ _ _ _ Hi Hpart) as (j' & j & Hj' & Hj & Hpart').
  specialize (HK j' j Hpart'). apply rel_MARK. destruct ow, os; simplify_eq; destruct m; exact HK.
Qed.
End Tied.

(** ** Automation *)

Ltac solve_full :=
  intros m Hm; cbn [p_state mark_of header_field_mark header_value_mark url_mark status_mark body_mark] in *;
  first [by match goal with Hf : forall m, token_state m _ = false |- _ => rewrite Hf in Hm end
        |destruct m; cbn in *; first [discriminate|by eauto]].
Ltac solve_tied :=
  lazymatch goal with
  | |- tied _ _ _ _ _ _ _ _ _ => split; norm;
      [reflexivity|reflexivity|reflexivity|lia|lia|by split
      |intros [] ? ?; cbn in *; simplify_eq; lia
      |try solve_full
      |apply in_step; [by intros []|reflexivity]]
  | |- tied_again _ _ _ _ _ _ _ _ _ => split; [solve_tied|first [left; reflexivity|right; reflexivity]]
  | |- tied_error _ _ _ => split; norm; [reflexivity|lia]
  | |- tied_return _ _ _ _ _ => split; [norm; lia|split; [reflexivity|split; reflexivity]]
  | |- _ => idtac
  end.
Ltac close := cbn [both tie_break tie_reexecute tie_error tie_return]; solve_tied.
Ltac both_run := repeat (rstep; cbv zeta); close.
Ltac plain := apply plain_tied; [done|by intros []|]; intros x t0 n0 n i c us Hn Hl Ha Hi He; both_run.

(** The runs still tied, with the part [q] under way *)
Ltac solve_part q Hpart :=
  lazymatch goal with
  | |- tied _ _ _ _ _ _ _ _ _ => split; norm;
      [reflexivity|reflexivity|reflexivity|lia|lia|by split
      |intros [] ? ?; cbn in *; simplify_eq; eapply part_in; [|exact Hpart]; lia
      |try solve_full
      |apply part_user with (m := q); [intros [] ?; by try split|first [by eexists|assumption]|exact Hpart]]
  | |- tied_again _ _ _ _ _ _ _ _ _ => split; [solve_part q Hpart|first [left; reflexivity|right; reflexivity]]
  | |- _ => idtac
  end.

Ltac rstep_data q Hpart :=
  lazymatch goal with
  | |- rel (CALLBACK_DATA _ _) _ (CALLBACK_DATA _ _) _ _ _ => unfold CALLBACK_DATA
  | |- rel (CALLBACK_DATA_NOADVANCE _ _) _ (CALLBACK_DATA_NOADVANCE _ _) _ _ _ => unfold CALLBACK_DATA_NOADVANCE
  | |- rel (CALLBACK_DATA_ _ _ _ _) _ (CALLBACK_DATA_ _ _ _ _) _ _ _ =>
      eapply tied_DATA with (m := q);
        [| | | |exact Hpart|..];
        [eassumption|reflexivity|reflexivity|try lia|lia|try lia|first [by left|right; norm; by eexists]|intros ? ? ?; norm]
  end.

Ltac part_run q Hpart :=
  repeat (first [rstep | rstep_data q Hpart]; cbv zeta);
  cbn [both tie_break tie_reexecute tie_error tie_return];
  first [solve [solve_tied] | solve_part q Hpart | solve_tied].
