(* ===== verification/HttpTiedCases.v ===== *)
(** The cases of the switch keep two runs tied; those that read many bytes of a
    header are in HttpTiedHeaders.v. *)
From S2P Require Import Prelude HttpTypes HttpUrl HttpExec HttpStates HttpHeaders HttpParser HttpLogic HttpSafe HttpRel HttpTied.

Local Open Scope Z_scope.
Local Open Scope exec_scope.
#[local] Arguments Z.add : simpl never.
#[local] Arguments Z.sub : simpl never.

(** What the cases of a body do when they have taken a part of it *)
Definition identity_rest {U} (settings : http_parser_settings U) : E U unit :=
  let! x := look parser in
  if content_length x =? 0 then
    UPDATE_STATE s_message_done;!
    let! i := look p in
    CALLBACK_DATA_ settings body (i + 1) i;!
    reexecute
  else break.

Definition chunk_rest {U} : E U unit :=
  let! x := look parser in
  ewhen (content_length x =? 0) (UPDATE_STATE s_chunk_data_almost_done);!
  break.

Section Cases.
Context {U : Type} `{ReaderLaws U}.
Variable strict : bool.
Variable max_header_size : Z.
Variable lenient allow_chunked_length_ : bool.
(** The buffers of the two runs; that of the second is at offset [k] in that of
    the first, after [c0] *)
Variable dw ds : list Z.
Variable k c0 : Z.
Hypothesis Hk : 0 <= k.
Hypothesis Hslice : forall i n, 0 <= i -> 0 <= n -> i + n <= Z.of_nat (length ds) -> slice dw (i + k) n = slice ds i n.
(** A bound for [nread], and bits of the parser that never change *)
Variable N l0 a0 : Z.
Hypothesis HN : 0 <= N.
Implicit Types (w s : exec U) (x y : http_parser).

Let size := Z.of_nat (length ds).
#[local] Abbreviation tied := (tied dw ds k c0 N l0 a0).
#[local] Abbreviation both := (both dw ds k c0 N l0 a0).
#[local] Abbreviation part_tie := (part_tie dw ds k c0).
#[local] Abbreviation case_tied := (case_tied max_header_size dw ds k c0 N l0 a0).

Lemma tied_message_over w s (K : unit -> exec U -> unit -> exec U -> Prop) T :
  public (parser w) = public (parser s) -> user w = user s ->
  (forall u st, st = s_start_req \/ st = s_start_res \/ st = s_dead ->
     K tt (called st u (with_state st w)) tt (called st u (with_state st s))) ->
  rel (message_over strict (reader dw)) w (message_over strict (reader ds)) s K T.
Proof.
  intros Hp Hu HK. unfold message_over. do 2 rstep. rewrite (NEW_MESSAGE_public strict _ _ Hp). do 5 rstep.
  apply rel_NOTIFY_same; [done|done|done|]. intros u. apply HK. unfold NEW_MESSAGE, start_state. repeat case_match; tauto.
Qed.

Lemma tied_headers_complete w s (K : unit -> exec U -> unit -> exec U -> Prop) T :
  public (parser w) = public (parser s) -> user w = user s ->
  (forall f u, (f = (fun x => x) \/ f = set_flags (with_flag F_SKIPBODY) \/
       f = (fun x => set_flags (with_flag F_SKIPBODY) (set_upgrade (fun _ => 1) x))) ->
     K tt (with_user u (with_parser f w)) tt (with_user u (with_parser f s))) ->
  (forall u, let fault s := with_user u (stored (set_error HPE_CB_headers_complete s)) in
     tie_return T (p w) (fault w) (p s) (fault s)) ->
  rel (do_headers_complete (reader dw)) w (do_headers_complete (reader ds)) s K T.
Proof.
  intros Hp Hu HK HT. unfold do_headers_complete. cbn [reader on_headers_complete].
  do 2 rstep. unfold reader_headers. rewrite Hp, Hu. do 2 rstep.
  destruct (skips _ _ =? 0).
  - rstep. exact (HK (fun x => x) _ (or_introl eq_refl)).
  - destruct (_ || _).
    + destruct (skips _ _ =? 2); cbn [ewhen].
      * do 3 rstep. exact (HK (fun x => set_flags _ (set_upgrade _ x)) _ (or_intror (or_intror eq_refl))).
      * do 3 rstep. exact (HK (set_flags _) _ (or_intror (or_introl eq_refl))).
    + do 5 rstep. apply HT.
Qed.

Lemma do_dead_tied : case_tied s_dead do_dead do_dead.
Proof. unfold do_dead. plain. Qed.

Lemma do_start_req_or_res_tied :
  case_tied s_start_req_or_res (do_start_req_or_res (reader dw)) (do_start_req_or_res (reader ds)).
Proof. unfold do_start_req_or_res, clear_message. plain. Qed.

Lemma do_res_or_resp_H_tied : case_tied s_res_or_resp_H do_res_or_resp_H do_res_or_resp_H.
Proof. unfold do_res_or_resp_H. plain. Qed.

Lemma do_start_res_tied : case_tied s_start_res (do_start_res (reader dw)) (do_start_res (reader ds)).
Proof. unfold do_start_res, clear_message. plain. Qed.
Lemma expect_tied st ch0 next :
  st <> s_message_done -> (forall m, mark_state m st = false) -> (forall m, token_state m next = false) ->
  case_tied st (expect strict ch0 next) (expect strict ch0 next).
Proof.
  intros Hne Hst Hnext. unfold expect. apply plain_tied; [done|done|]. intros. repeat (rstep; cbv zeta); close.
Qed.
Lemma do_http_major_tied st next :
  st <> s_message_done -> (forall m, mark_state m st = false) -> (forall m, token_state m next = false) ->
  case_tied st (do_http_major next) (do_http_major next).
Proof. intros Hne Hst Hnext. unfold do_http_major. apply plain_tied; [done|done|]. intros. both_run. Qed.

Lemma do_http_dot_tied st next :
  st <> s_message_done -> (forall m, mark_state m st = false) -> (forall m, token_state m next = false) ->
  case_tied st (do_http_dot next) (do_http_dot next).
Proof. intros Hne Hst Hnext. unfold do_http_dot. apply plain_tied; [done|done|]. intros. both_run. Qed.

Lemma do_http_minor_tied st next :
  st <> s_message_done -> (forall m, mark_state m st = false) -> (forall m, token_state m next = false) ->
  case_tied st (do_http_minor next) (do_http_minor next).
Proof. intros Hne Hst Hnext. unfold do_http_minor. apply plain_tied; [done|done|]. intros. both_run. Qed.

Lemma do_res_http_end_tied : case_tied s_res_http_end do_res_http_end do_res_http_end.
Proof. unfold do_res_http_end. plain. Qed.

Lemma do_res_first_status_code_tied :
  case_tied s_res_first_status_code do_res_first_status_code do_res_first_status_code.
Proof. unfold do_res_first_status_code. plain. Qed.

Lemma do_res_status_code_tied : case_tied s_res_status_code do_res_status_code do_res_status_code.
Proof. unfold do_res_status_code. plain. Qed.

Lemma do_res_status_start_tied : case_tied s_res_status_start do_res_status_start do_res_status_start.
Proof. unfold do_res_status_start. plain. Qed.

Lemma do_start_req_tied : case_tied s_start_req (do_start_req (reader dw)) (do_start_req (reader ds)).
Proof. unfold do_start_req, clear_message. plain. Qed.

Lemma do_req_method_tied : case_tied s_req_method do_req_method do_req_method.
Proof. unfold do_req_method. plain. Qed.

Lemma do_req_http_start_tied : case_tied s_req_http_start do_req_http_start do_req_http_start.
Proof. unfold do_req_http_start. plain. Qed.

Lemma do_req_http_end_tied : case_tied s_req_http_end do_req_http_end do_req_http_end.
Proof. unfold do_req_http_end. plain. Qed.

Lemma do_req_line_almost_done_tied :
  case_tied s_req_line_almost_done do_req_line_almost_done do_req_line_almost_done.
Proof. unfold do_req_line_almost_done. plain. Qed.
(** ** Header lines *)

Lemma do_header_field_start_tied :
  case_tied s_header_field_start (do_header_field_start strict) (do_header_field_start strict).
Proof. unfold do_header_field_start, set_hs. plain. Qed.

Lemma do_header_value_start_tied st :
  st <> s_message_done -> (forall m, mark_state m st = false) -> case_tied st do_header_value_start do_header_value_start.
Proof. intros Hne Hst. unfold do_header_value_start, set_hs. apply plain_tied; [done|done|]. intros. both_run. Qed.

Lemma do_header_value_discard_ws_tied :
  case_tied s_header_value_discard_ws do_header_value_discard_ws do_header_value_discard_ws.
Proof. unfold do_header_value_discard_ws, do_header_value_start, set_hs. plain. Qed.

Lemma do_header_value_lws_tied : case_tied s_header_value_lws do_header_value_lws do_header_value_lws.
Proof. unfold do_header_value_lws, finish_header, set_hs. plain. Qed.

Lemma do_header_almost_done_tied : case_tied s_header_almost_done do_header_almost_done do_header_almost_done.
Proof. unfold do_header_almost_done. plain. Qed.

Lemma do_headers_almost_done_tied :
  case_tied s_headers_almost_done
    (do_headers_almost_done strict (reader dw) lenient allow_chunked_length_)
    (do_headers_almost_done strict (reader ds) lenient allow_chunked_length_).
Proof.
  unfold do_headers_almost_done, check_framing. plain;
    (apply tied_headers_complete;
      [reflexivity|reflexivity|intros f u [->|[->| ->]]; both_run|intros u fault; close]).
Qed.

Ltac over := apply tied_message_over; [reflexivity|reflexivity|intros u st [->|[->| ->]]; both_run].

Lemma do_headers_done_tied :
  case_tied s_headers_done (do_headers_done strict (reader dw) lenient) (do_headers_done strict (reader ds) lenient).
Proof.
  unfold do_headers_done, clear_nread. plain; try over.
  change (http_message_needs_eof (set_nread _ (stale t0 n0 x))) with (http_message_needs_eof (set_nread (fun _ => 0) x)).
  both_run. over.
Qed.

(** ** The body *)

Lemma do_message_done_tied :
  case_tied s_message_done (do_message_done strict (reader dw)) (do_message_done strict (reader ds)).
Proof.
  unfold do_message_done. apply plain_tied_any; [by intros []|]. intros x t0 n0 n i cw c us Hn Hl Ha Hi He _. both_run. over.
Qed.

Lemma do_chunk_size_start_tied : case_tied s_chunk_size_start do_chunk_size_start do_chunk_size_start.
Proof. unfold do_chunk_size_start, assert_chunked. plain. Qed.

Lemma do_chunk_size_tied : case_tied s_chunk_size do_chunk_size do_chunk_size.
Proof. unfold do_chunk_size, assert_chunked. plain. Qed.

Lemma do_chunk_parameters_tied : case_tied s_chunk_parameters do_chunk_parameters do_chunk_parameters.
Proof. unfold do_chunk_parameters, assert_chunked. plain. Qed.

Lemma do_chunk_size_almost_done_tied :
  case_tied s_chunk_size_almost_done (do_chunk_size_almost_done strict (reader dw))
    (do_chunk_size_almost_done strict (reader ds)).
Proof. unfold do_chunk_size_almost_done, assert_chunked, clear_nread. plain. Qed.

Lemma do_chunk_data_done_tied :
  case_tied s_chunk_data_done (do_chunk_data_done strict (reader dw)) (do_chunk_data_done strict (reader ds)).
Proof. unfold do_chunk_data_done, assert_chunked, clear_nread. plain. Qed.

Lemma do_res_status_tied : case_tied s_res_status (do_res_status (reader dw)) (do_res_status (reader ds)).
Proof.
  unfold do_res_status. apply part_tied with (m := status); [done|by intros []|].
  intros x t0 n0 n i c ow os uw us Hn Hl Ha Hi He Hok Hf Hpart Htok. specialize (Htok eq_refl).
  part_run status Hpart.
Qed.

Lemma do_header_value_discard_lws_tied :
  case_tied s_header_value_discard_lws (do_header_value_discard_lws (reader dw))
    (do_header_value_discard_lws (reader ds)).
Proof.
  unfold do_header_value_discard_lws, finish_header. plain.
  pose proof (part_step dw ds k c0 header_value i i us ltac:(lia)) as Hpart.
  repeat first [rstep|rstep_data header_value Hpart]. close.
Qed.

(** ** The request line *)

(** The state of a URL after a character that is allowed there *)
Lemma url_char_state st ch : parse_url_char strict st ch <> s_dead -> mark_state url (parse_url_char strict st ch) = true.
Proof. unfold parse_url_char, server_char. repeat case_match; simpl; done. Qed.

Lemma url_entered st ch (s : exec U) :
  parse_url_char strict st ch <> s_dead -> p_state s = parse_url_char strict st ch -> is_Some (url_mark s) -> full s.
Proof.
  intros Hst Hs Ho m Hm. apply url_char_state in Hst. rewrite <- Hs in Hst.
  destruct m; [..|done| |]; cbn in *; by destruct (p_state s).
Qed.

Lemma do_req_spaces_before_url_tied :
  case_tied s_req_spaces_before_url (do_req_spaces_before_url strict) (do_req_spaces_before_url strict).
Proof.
  unfold do_req_spaces_before_url, url_step. plain; (eapply url_entered; [eassumption|reflexivity|by eexists]).
Qed.

Lemma do_req_schema_tied st :
  mark_state url st = true -> case_tied st (do_req_schema strict) (do_req_schema strict).
Proof.
  unfold do_req_schema, url_step. intros Hst. apply part_tied with (m := url); [by intros ->|by destruct st; try done; intros []|].
  intros x t0 n0 n i c ow os uw us Hn Hl Ha Hi He Hok Hf Hpart Htok. specialize (Htok Hst).
  part_run url Hpart. eapply url_entered; [eassumption|reflexivity|exact Htok].
Qed.

Lemma do_req_url_tied st :
  mark_state url st = true -> case_tied st (do_req_url strict (reader dw)) (do_req_url strict (reader ds)).
Proof.
  unfold do_req_url, url_step. intros Hst. apply part_tied with (m := url); [by intros ->|by destruct st; try done; intros []|].
  intros x t0 n0 n i c ow os uw us Hn Hl Ha Hi He Hok Hf Hpart Htok. specialize (Htok Hst).
  part_run url Hpart.
  - intros m Hm. cbn [p_state called with_user with_parser with_mark with_state] in Hm. by destruct (c =? CR), m.
  - eapply url_entered; [eassumption|reflexivity|exact Htok].
Qed.

(** ** Parts of the body *)

Lemma chunk_data_over x t0 n0 n i c ow os uw us :
  n <= N -> lenient_http_headers x = l0 -> allow_chunked_length x = a0 -> 0 <= i < size -> part_tie body i ow os uw us ->
  rel (do_chunk_data_almost_done strict (reader dw))
      (with_mark body ow (Exec (stale t0 n0 x) s_chunk_data_almost_done n (i + k) c None None None None None uw))
      (do_chunk_data_almost_done strict (reader ds))
      (with_mark body os (Exec x s_chunk_data_almost_done n i c None None None None None us))
      (fun _ w' _ s' => tied w' s') both.
Proof. intros Hn Hl Ha Hi Hpart. unfold do_chunk_data_almost_done, assert_chunked. part_run body Hpart. Qed.

Lemma do_chunk_data_almost_done_tied :
  case_tied s_chunk_data_almost_done (do_chunk_data_almost_done strict (reader dw))
    (do_chunk_data_almost_done strict (reader ds)).
Proof.
  apply part_tied with (m := body); [done|by intros []|].
  intros x t0 n0 n i c ow os uw us Hn Hl Ha Hi He Hok Hf Hpart Htok. by apply chunk_data_over.
Qed.

(** [take_body], where as much is left to take for both *)
Lemma tied_take_body x t0 n0 st n i c ow os uw us (K : unit -> exec U -> unit -> exec U -> Prop) T :
  Z.min (content_length x) (data_len dw - (i + k)) = Z.min (content_length x) (data_len ds - i) ->
  length_ok x -> fields_ok x -> 0 <= i < size -> part_tie body i ow os uw us ->
  (forall r j' j, 1 <= r <= size - i -> part_tie body (i + (r - 1)) (Some j') (Some j) uw us ->
     let take s := with_p (fun z => z + (r - 1)) (with_parser (set_content_length (fun z => z - r)) s) in
     K tt (take (with_mark body (Some j') (Exec (stale t0 n0 x) st n (i + k) c None None None None None uw)))
       tt (take (with_mark body (Some j) (Exec x st n i c None None None None None us)))) ->
  rel (take_body dw) (with_mark body ow (Exec (stale t0 n0 x) st n (i + k) c None None None None None uw))
      (take_body ds) (with_mark body os (Exec x st n i c None None None None None us)) K T.
Proof.
  intros Hleft [Hnz Hmax] [Hc _] Hi Hpart HK. unfold take_body. do 4 rstep. rewrite Hleft. cbv zeta.
  do 3 rstep. eapply tied_MARK with (m := body); [|exact Hpart|]; [lia|]. intros j' j Hpart'. do 3 rstep.
  assert (1 <= content_length x `min` (data_len ds - i) <= size - i) by (unfold data_len, size in *; lia).
  apply (HK _ j' j); [done|]. eapply part_mono; [|exact Hpart']. lia.
Qed.

(** What is done with a part of the body that was taken *)
Lemma identity_rest_tied x y n i cw c j' j uw us :
  n <= N -> lenient_http_headers x = l0 -> allow_chunked_length x = a0 -> 0 <= i < size -> public y = public x ->
  part_tie body i (Some j') (Some j) uw us ->
  rel (identity_rest (reader dw)) (Exec y s_body_identity n (i + k) cw None None None (Some j') None uw)
      (identity_rest (reader ds)) (Exec x s_body_identity n i c None None None (Some j) None us)
      (fun _ w' _ s' => tied w' s') both.
Proof.
  intros Hn Hl Ha Hi (t & n0 & ->)%public_stale Hpart. unfold identity_rest. part_run body Hpart.
Qed.

Lemma chunk_rest_tied x y n i cw c j' j uw us :
  n <= N -> lenient_http_headers x = l0 -> allow_chunked_length x = a0 -> 0 <= i < size -> public y = public x ->
  part_tie body i (Some j') (Some j) uw us ->
  rel chunk_rest (Exec y s_chunk_data n (i + k) cw None None None (Some j') None uw)
      chunk_rest (Exec x s_chunk_data n i c None None None (Some j) None us)
      (fun _ w' _ s' => tied w' s') both.
Proof.
  intros Hn Hl Ha Hi (t & n0 & ->)%public_stale Hpart. unfold chunk_rest. part_run body Hpart.
Qed.

Lemma body_identity_left x t0 n0 n i c ow os uw us :
  Z.min (content_length x) (data_len dw - (i + k)) = Z.min (content_length x) (data_len ds - i) ->
  n <= N -> lenient_http_headers x = l0 -> allow_chunked_length x = a0 ->
  length_ok x -> fields_ok x -> 0 <= i < size -> part_tie body i ow os uw us ->
  rel (do_body_identity (reader dw) dw)
      (with_mark body ow (Exec (stale t0 n0 x) s_body_identity n (i + k) c None None None None None uw))
      (do_body_identity (reader ds) ds)
      (with_mark body os (Exec x s_body_identity n i c None None None None None us))
      (fun _ w' _ s' => tied w' s') both.
Proof.
  intros. apply rel_bind, tied_take_body; [done..|]. intros r j' j Hr Hpart' take. unfold take, with_p. cbn.
  replace (i + k + (r - 1)) with (i + (r - 1) + k) by lia. by apply (identity_rest_tied (set_content_length _ _)); [..|lia| |].
Qed.

Lemma chunk_data_left x t0 n0 n i c ow os uw us :
  Z.min (content_length x) (data_len dw - (i + k)) = Z.min (content_length x) (data_len ds - i) ->
  n <= N -> lenient_http_headers x = l0 -> allow_chunked_length x = a0 ->
  length_ok x -> fields_ok x -> 0 <= i < size -> part_tie body i ow os uw us ->
  rel (do_chunk_data dw)
      (with_mark body ow (Exec (stale t0 n0 x) s_chunk_data n (i + k) c None None None None None uw))
      (do_chunk_data ds)
      (with_mark body os (Exec x s_chunk_data n i c None None None None None us))
      (fun _ w' _ s' => tied w' s') both.
Proof.
  intros. unfold do_chunk_data, assert_chunked. do 5 rstep. apply tied_take_body; [done..|].
  intros r j' j Hr Hpart' take. unfold take, with_p. cbn.
  replace (i + k + (r - 1)) with (i + (r - 1) + k) by lia. by apply (chunk_rest_tied (set_content_length _ _)); [..|lia| |].
Qed.

Lemma body_eof_left x t0 n0 n i c ow os uw us :
  Z.of_nat (length dw) = Z.of_nat (length ds) + k ->
  n <= N -> lenient_http_headers x = l0 -> allow_chunked_length x = a0 -> 0 <= i < size -> part_tie body i ow os uw us ->
  rel (do_body_identity_eof dw)
      (with_mark body ow (Exec (stale t0 n0 x) s_body_identity_eof n (i + k) c None None None None None uw))
      (do_body_identity_eof ds)
      (with_mark body os (Exec x s_body_identity_eof n i c None None None None None us))
      (fun _ w' _ s' => tied w' s') both.
Proof.
  intros Hlen Hn Hl Ha Hi Hpart. unfold do_body_identity_eof.
  do 1 rstep. eapply tied_MARK with (m := body); [|exact Hpart|]; [lia|]. intros j' j Hpart'. rstep. rstep.
  apply part_mono with (i' := size - 1) in Hpart'; [|lia]. unfold data_len.
  part_run body Hpart'.
Qed.

(** The second buffer is what is left of the first. *)
Section Suffix.
Hypothesis Hlen : Z.of_nat (length dw) = Z.of_nat (length ds) + k.

Lemma left_eq z i : Z.min z (data_len dw - (i + k)) = Z.min z (data_len ds - i).
Proof. unfold data_len. f_equal. lia. Qed.

Lemma do_chunk_data_tied : case_tied s_chunk_data (do_chunk_data dw) (do_chunk_data ds).
Proof.
  apply part_tied with (m := body); [done|by intros []|].
  intros x t0 n0 n i c ow os uw us Hn Hl Ha Hi He [_ Hlok] Hf Hpart Htok.
  by apply chunk_data_left; [apply left_eq|..].
Qed.

Lemma do_body_identity_tied :
  case_tied s_body_identity (do_body_identity (reader dw) dw) (do_body_identity (reader ds) ds).
Proof.
  apply part_tied with (m := body); [done|by intros []|].
  intros x t0 n0 n i c ow os uw us Hn Hl Ha Hi He Hlok Hf Hpart Htok.
  by apply body_identity_left; [apply left_eq|..].
Qed.

Lemma do_body_identity_eof_tied :
  case_tied s_body_identity_eof (do_body_identity_eof dw) (do_body_identity_eof ds).
Proof.
  apply part_tied with (m := body); [done|by intros []|].
  intros x t0 n0 n i c ow os uw us Hn Hl Ha Hi He Hlok Hf Hpart Htok. by apply body_eof_left.
Qed.
End Suffix.
End Cases.
