(* ===== verification/HttpTiedHeaders.v ===== *)
(** The cases of header fields and header values, which read many bytes at once,
    keep two runs tied when the buffer of one is what the other has left. *)
From S2P Require Import Prelude HttpTypes HttpUrl HttpExec HttpStates HttpHeaders HttpParser HttpLogic HttpSafe HttpRel HttpTied.

Local Open Scope Z_scope.
Local Open Scope exec_scope.
#[local] Arguments Z.add : simpl never.
#[local] Arguments Z.sub : simpl never.

(** ** A buffer that is the end of another *)

Section Buffers.
Context {U : Type}.
Variable max_header_size : Z.
Variable pre ds : list Z.
Implicit Types (w s : exec U).

Let dw := pre ++ ds.
Let k := Z.of_nat (length pre).
Let size := Z.of_nat (length ds).

Lemma suffix_slice i n : 0 <= i -> 0 <= n -> i + n <= size -> slice dw (i + k) n = slice ds i n.
Proof.
  intros Hi Hn Hs. unfold slice, dw, k. rewrite drop_app_ge by lia. do 2 f_equal. lia.
Qed.

Lemma suffix_length : Z.of_nat (length dw) = size + k.
Proof. unfold dw, k, size. rewrite length_app. lia. Qed.

Lemma suffix_end i : (i + k =? data_end dw) = (i =? data_end ds).
Proof.
  unfold data_end. pose proof suffix_length. unfold size in *.
  destruct (Z.eqb_spec i (Z.of_nat (length ds))), (Z.eqb_spec (i + k) (Z.of_nat (length dw))); lia || done.
Qed.

Lemma rel_char_at i w s (K : Z -> exec U -> Z -> exec U -> Prop) T :
  0 <= i -> (forall c, ds !! Z.to_nat i = Some c -> K c w c s) -> rel (char_at dw (i + k)) w (char_at ds i) s K T.
Proof.
  intros Hi HK. unfold rel, char_at. destruct (Z.ltb_spec i 0), (Z.ltb_spec (i + k) 0); try lia.
  unfold dw. rewrite lookup_app_r by lia. replace (Z.to_nat (i + k) - length pre)%nat with (Z.to_nat i) by (unfold k; lia).
  destruct (ds !! Z.to_nat i); [by apply HK|done].
Qed.

(** The top of the loop *)
Lemma next_byte_tied w s (K : unit -> exec U -> unit -> exec U -> Prop) T :
  p_state w = p_state s -> nread w = nread s -> p w = p s + k -> 0 <= p s ->
  (forall c f, (f = (fun n => n) \/ f = (fun n => u32 (n + u32 1))) ->
     K tt (with_nread f (with_ch c w)) tt (with_nread f (with_ch c s)) /\
     tie_error T (set_error HPE_HEADER_OVERFLOW (with_nread f (with_ch c w)))
       (set_error HPE_HEADER_OVERFLOW (with_nread f (with_ch c s)))) ->
  rel (next_byte max_header_size dw) w (next_byte max_header_size ds) s K T.
Proof.
  intros Hst Hn Hp Hi HK. unfold next_byte. apply rel_bind, rel_look, rel_bind. rewrite Hp.
  apply rel_char_at; [done|]. intros c _. apply rel_bind, rel_upd, rel_bind, rel_look.
  cbn [p_state with_ch]. rewrite Hst. apply rel_when; intros _.
  - apply rel_COUNT; [exact Hn|apply HK; by right|apply HK; by right].
  - destruct (HK c (fun n => n) (or_introl eq_refl)) as [HK' _]. by destruct w, s.
Qed.
End Buffers.

(** ** Two runs inside a field name *)

Section Field.
Context {U : Type}.
Variable strict : bool.
Variable max_header_size : Z.
Variable k l0 a0 : Z.
Variable t0 : state.
(** What does not change while a name is read *)
Variable n0 nw ns j' j : Z.
Variable uw us : U.
Implicit Types (w s : exec U).

(** The parsers and the positions agree; the counts of bytes may not. *)
Inductive field_at : exec U -> exec U -> Prop :=
| field_at_intro x i cw cs :
    lenient_http_headers x = l0 /\ allow_chunked_length x = a0 -> errno_ x = HPE_OK ->
    field_at (Exec (stale t0 n0 x) s_header_field nw (i + k) cw (Some j') None None None None uw)
             (Exec x s_header_field ns i cs (Some j) None None None None us).

Lemma match_word_tied word c old mismatch complete w s (K : header_states -> exec U -> header_states -> exec U -> Prop) T :
  field_at w s ->
  (forall h w' s', field_at w' s' -> p s' = p s -> ch w' = ch w -> ch s' = ch s -> K h w' h s') ->
  rel (match_word word c old mismatch complete) w (match_word word c old mismatch complete) s K T.
Proof.
  intros Hws HK. unfold match_word, next_index. destruct Hws as [x i cw cs Hb He].
  assert (Hnext : forall h, K h _ h _) by
    (intros h; exact (HK h _ _ (field_at_intro (set_index (fun i => (i + 1) mod 32) x) i cw cs Hb He) eq_refl eq_refl eq_refl)).
  repeat rstep; apply Hnext.
Qed.

Ltac solve_field Hb He :=
  lazymatch goal with
  | |- field_at _ ?s =>
      let s := eval hnf in s in
      lazymatch s with {| parser := ?y |} => exact (field_at_intro y _ _ _ Hb He) end
  | |- _ => reflexivity
  end.

(** A character of a name the parser may be looking for *)
Lemma header_field_char_tied dw ds c0 c w s (K : unit -> exec U -> unit -> exec U -> Prop) T :
  field_at w s -> header_state (parser s) <> h_general ->
  (forall w' s', field_at w' s' -> p s' = p s -> ch w' = ch w -> ch s' = ch s -> K tt w' tt s') ->
  rel (header_field_char strict max_header_size dw c0 c) w (header_field_char strict max_header_size ds c0 c) s K T.
Proof.
  intros Hws Hne HK. unfold header_field_char, next_index, set_hs. apply rel_bind, rel_look.
  replace (header_state (parser w)) with (header_state (parser s)) by (by destruct Hws).
  revert Hne. destruct (header_state (parser s)); intros Hne; [done|..];
    first
    [ by apply rel_assert
    | apply rel_bind, match_word_tied; [exact Hws|]; intros h w' s' Hws' Hp Hcw Hcs;
      destruct Hws' as [x i cw cs Hb He], Hws; cbn in Hp, Hcw, Hcs; subst; repeat rstep; apply HK; solve_field Hb He
    | destruct Hws as [x i cw cs Hb He]; repeat rstep; apply HK; solve_field Hb He ].
Qed.
(** ** The loop over a name, in a buffer and in what is left of it *)

Section Suffix.
Variable pre ds : list Z.
Hypothesis Hpre : k = Z.of_nat (length pre).

Let dw := pre ++ ds.
Let size := Z.of_nat (length ds).

Lemma char_at_tied i w s (K : Z -> exec U -> Z -> exec U -> Prop) T :
  0 <= i -> (forall c, K c w c s) -> rel (char_at dw (i + k)) w (char_at ds i) s K T.
Proof. intros Hi HK. rewrite Hpre. apply rel_char_at; [done|]. intros c _. apply HK. Qed.

Lemma end_tied i : (i + k =? data_end dw) = (i =? size).
Proof. rewrite Hpre. apply suffix_end. Qed.

Lemma length_tied : Z.of_nat (length dw) = size + k.
Proof. rewrite Hpre. apply suffix_length. Qed.

Lemma skip_tokens_tied pe fw fs w s (K : unit -> exec U -> unit -> exec U -> Prop) T :
  field_at w s -> 0 <= p s < pe -> pe - p s <= Z.of_nat fs -> pe - p s <= Z.of_nat fw ->
  (forall w' s', field_at w' s' -> p s <= p s' < pe -> K tt w' tt s') ->
  rel (skip_tokens strict dw fw (pe + k)) w (skip_tokens strict ds fs pe) s K T.
Proof.
  revert fw w s. induction fs as [|fs IH]; intros fw w s Hws Hp Hfs Hfw HK; [lia|].
  destruct fw as [|fw]; [lia|]. cbn [skip_tokens]. apply rel_bind, rel_look.
  destruct Hws as [x i cw cs Hb He]. cbn [p] in *.
  replace (i + k + 1 <? pe + k) with (i + 1 <? pe).
  2: { destruct (Z.ltb_spec (i + 1) pe), (Z.ltb_spec (i + k + 1) (pe + k)); lia || done. }
  destruct (Z.ltb_spec (i + 1) pe) as [Hlt|Hge]; [|apply rel_done, HK; [done|cbn; lia]].
  apply rel_bind. replace (i + k + 1) with (i + 1 + k) by lia. apply char_at_tied; [lia|]. intros c'.
  destruct (negb _); [|apply rel_done, HK; [done|cbn; lia]]. apply rel_bind, rel_add_p. unfold with_p. cbn [p].
  replace (i + k + 1) with (i + 1 + k) by lia.
  apply IH; [done|cbn; lia..|].
  intros w' s' Hws' Hp'. apply HK; [done|]. cbn in Hp'. lia.
Qed.

Lemma header_field_loop_tied fw fs w s (K : unit -> exec U -> unit -> exec U -> Prop) T :
  0 < max_header_size -> field_at w s -> 0 <= p s <= size ->
  size - p s < Z.of_nat fs -> size - p s < Z.of_nat fw ->
  (forall w' s', field_at w' s' -> p s <= p s' <= size -> p s' = size \/ ch w' = ch s' -> K tt w' tt s') ->
  rel (header_field_loop strict max_header_size dw fw) w (header_field_loop strict max_header_size ds fs) s K T.
Proof.
  intros Hmax. revert fw w s. induction fs as [|fs IH]; intros fw w s Hws Hp Hfs Hfw HK; [lia|].
  destruct fw as [|fw]; [lia|]. cbn [header_field_loop]. apply rel_bind, rel_look.
  destruct Hws as [x i cw cs Hb He]. cbn [p] in *. rewrite end_tied. unfold data_end at 1.
  fold size. destruct (Z.eqb_spec i size) as [->|Hne]; [apply rel_done, HK; [done|cbn; lia|by left]|].
  apply rel_bind, char_at_tied; [lia|]. intros c. apply rel_bind, rel_upd. unfold with_ch. cbn.
  destruct (TOKEN strict c =? 0); [apply rel_done, HK; [done|cbn; lia|by right]|]. apply rel_bind.
  assert (Hnext : forall w' s', field_at w' s' -> i <= p s' < size ->
    rel (add_p 1;! header_field_loop strict max_header_size dw fw) w'
        (add_p 1;! header_field_loop strict max_header_size ds fs) s' K T).
  { intros w' s' Hws' Hp'. apply rel_bind, rel_add_p. destruct Hws' as [x' i' cw' cs' Hb' He'].
    unfold with_p. cbn [p] in *. replace (i' + k + 1) with (i' + 1 + k) by lia.
    apply IH; [done|cbn; lia..|]. intros w' s' Hws' Hp''. apply HK; [done|]. cbn in Hp''. lia. }
  destruct (decide (header_state x = h_general)) as [Hg|Hg].
  - unfold header_field_char. apply rel_bind, rel_look. cbn [stale header_state parser]. rewrite Hg.
    apply rel_bind, rel_look. cbn [p]. cbv zeta.
    pose proof length_tied as Hlen. unfold data_end. fold size.
    replace (Z.of_nat (length dw) - (i + k)) with (size - i) by lia.
    replace (i + k + (size - i) `min` max_header_size) with (i + (size - i) `min` max_header_size + k) by lia.
    apply skip_tokens_tied; [done|cbn [p]; lia..|]. intros w' s' Hws' Hp'. cbn [p] in Hp'. apply Hnext; [done|lia].
  - apply header_field_char_tied; [done|done|]. intros w' s' Hws' Hp' _ _. cbn in Hp'. apply Hnext; [done|lia].
Qed.
End Suffix.
End Field.

(** ** After the loop over a name *)

(** What [do_header_field] does at the end of the name, [n] bytes from where it
    began to count *)
Definition field_end {U} (settings : http_parser_settings U) (max_header_size n : Z) : E U unit :=
  COUNT_HEADER_SIZE max_header_size n;!
  let! c := look ch in
  if c =? chr ":" then
    UPDATE_STATE s_header_value_discard_ws;!
    CALLBACK_DATA settings header_field;!
    break
  else fail_with HPE_INVALID_HEADER_TOKEN.

(** What it does after its loop, which began at [start] *)
Definition after_field {U} (settings : http_parser_settings U) (max_header_size : Z) (data : list Z) (start : Z)
    : E U unit :=
  let! i := look p in
  if i =? data_end data then
    add_p (-1);!
    COUNT_HEADER_SIZE max_header_size (i - 1 - start);!
    break
  else field_end settings max_header_size (i - start).

Section Field_end.
Context {U : Type} `{ReaderLaws U}.
Variable max_header_size : Z.
Variable dw ds : list Z.
Variable k c0 N l0 a0 : Z.
Hypothesis Hslice : forall i n, 0 <= i -> 0 <= n -> i + n <= Z.of_nat (length ds) -> slice dw (i + k) n = slice ds i n.

Lemma field_end_tied x t0 n0 nw ns vw vs j' j (uw us : U) i pos c :
  lenient_http_headers x = l0 -> allow_chunked_length x = a0 -> 0 <= i <= pos -> pos < Z.of_nat (length ds) ->
  part_tie dw ds k c0 header_field i (Some j') (Some j) uw us ->
  nw + vw = ns + vs -> u32 (ns + vs) <= N ->
  rel (field_end (reader dw) max_header_size vw)
      (Exec (stale t0 n0 x) s_header_field nw (pos + k) c (Some j') None None None None uw)
      (field_end (reader ds) max_header_size vs)
      (Exec x s_header_field ns pos c (Some j) None None None None us)
      (fun _ w' _ s' => tied dw ds k c0 N l0 a0 w' s') (both dw ds k c0 N l0 a0).
Proof.
  intros Hl Ha Hi Hp Hpart Hsum Hn. unfold field_end. apply rel_bind.
  apply rel_COUNT_sum with (n := u32 (ns + vs)); [reflexivity|cbn [nread]; by rewrite Hsum|..]; [|close].
  part_run header_field Hpart.
Qed.
End Field_end.

Section Header_field.
Context {U : Type} `{ReaderLaws U}.
Variable strict : bool.
Variable max_header_size : Z.
Hypothesis Hmax : 0 < max_header_size.
Variable pre ds : list Z.
Variable c0 N l0 a0 : Z.
Hypothesis HN : 2 ^ 32 <= N.
Implicit Types (w s : exec U).

Let dw := pre ++ ds.
Let k := Z.of_nat (length pre).
Let size := Z.of_nat (length ds).
#[local] Abbreviation tied := (tied dw ds k c0 N l0 a0).
#[local] Abbreviation both := (both dw ds k c0 N l0 a0).
#[local] Abbreviation part_tie := (part_tie dw ds k c0).

(** The two may have begun to count at different places. *)
Lemma after_field_tied t0 n0 nw ns j' j uw us i sw ss w s :
  field_at k l0 a0 t0 n0 nw ns j' j uw us w s -> p s = size \/ ch w = ch s ->
  0 <= i < size -> i <= p s <= size -> part_tie header_field i (Some j') (Some j) uw us ->
  nw + k - sw = ns - ss ->
  rel (after_field (reader dw) max_header_size dw sw) w (after_field (reader ds) max_header_size ds ss) s
    (fun _ w' _ s' => tied w' s') both.
Proof.
  intros Hws Hch Hi Hp Hpart Hsum. destruct Hws as [x pos cw cs [Hl Ha] He]. cbn [p ch] in *.
  assert (Hu : forall z, u32 z <= N) by (intros z; pose proof (u32_range z); lia).
  assert (Hend : (pos + k =? data_end dw) = (pos =? size)) by apply suffix_end.
  unfold after_field. apply rel_bind, rel_look. cbn [p]. rewrite Hend. change (data_end ds) with size.
  destruct (Z.eqb_spec pos size) as [->|Hne].
  - apply rel_bind, rel_add_p, rel_bind.
    apply rel_COUNT_sum with (n := u32 (ns + (size - 1 - ss))); [reflexivity|cbn [with_p nread]; f_equal; lia|..];
      specialize (Hu (ns + (size - 1 - ss))); [|close].
    apply rel_break. apply part_mono with (i' := size - 1) in Hpart; [|lia].
    part_run header_field Hpart.
  - destruct Hch as [Hch|<-]; [lia|].
    eapply field_end_tied; [apply suffix_slice|done|done| |unfold size in *; lia|exact Hpart|lia|apply Hu]. lia.
Qed.

Lemma do_header_field_tied :
  case_tied max_header_size dw ds k c0 N l0 a0 s_header_field
    (do_header_field strict (reader dw) max_header_size dw) (do_header_field strict (reader ds) max_header_size ds).
Proof.
  apply part_tied with (m := header_field); [done|by intros []|].
  intros x t0 n0 n i c ow os uw us Hn Hl Ha Hi He Hok Hf Hpart Htok.
  destruct Htok as [j ->]; [done|]. assert (exists j', ow = Some j') as [j' ->] by (inversion Hpart; eauto).
  unfold with_mark. norm. apply rel_bind, rel_look, rel_bind.
  eapply header_field_loop_tied; [reflexivity|exact Hmax|by apply field_at_intro|cbn [p]; fold size in Hi |- *; lia..
    |pose proof (suffix_length pre ds); cbn [p]; unfold dw, size in *; lia|].
  intros w s Hws Hp Hch. cbn [p] in Hp. eapply after_field_tied; [exact Hws|exact Hch|exact Hi|exact Hp|exact Hpart|cbn [p]; lia].
Qed.
End Header_field.
