(* ===== verification/HttpTiedValues.v ===== *)
(** The case of header values keeps two runs tied when the buffer of one is
    what the other has left. *)
From S2P Require Import Prelude HttpTypes HttpUrl HttpExec HttpStates HttpHeaders HttpParser HttpLogic HttpSafe HttpRel HttpTied HttpTiedHeaders.

Local Open Scope Z_scope.
Local Open Scope exec_scope.
#[local] Arguments Z.add : simpl never.
#[local] Arguments Z.sub : simpl never.

(** ** Two runs inside a value *)

Section Value.
Context {U : Type}.
Variable max_header_size : Z.
Variable lenient : bool.
Variable k l0 a0 : Z.
Variable t0 : state.
(** What does not change while a value is read: the header state is a local
    variable there, and stored when the value ends. *)
Variable hw hs : header_states.
Variable n0 nw ns j' j : Z.
Variable uw us : U.
Implicit Types (w s : exec U).

Inductive value_at : exec U -> exec U -> Prop :=
| value_at_intro x i cw cs :
    lenient_http_headers x = l0 /\ allow_chunked_length x = a0 -> errno_ x = HPE_OK ->
    value_at
      (Exec (stale t0 n0 (set_header_state (fun _ => hw) x)) s_header_value nw (i + k) cw None (Some j') None None None uw)
      (Exec (set_header_state (fun _ => hs) x) s_header_value ns i cs None (Some j) None None None us).

(** Two runs that read the same character of a value *)
Record value_next (w s w' s' : exec U) : Prop := {
  vn_at : value_at w' s';
  vn_p : p s' = p s;
  vn_ch : ch w' = ch w /\ ch s' = ch s
}.

Ltac solve_value Hb He :=
  lazymatch goal with
  | |- value_next _ _ _ ?s' =>
      let s' := eval hnf in s' in
      lazymatch s' with
        {| parser := ?y |} => split; [exact (value_at_intro y _ _ _ Hb He)|reflexivity|split; reflexivity] end
  end.

(** What the errors of a value are to be tied by *)
Variable T : ties U.
Hypothesis HT : forall w s, errno_ (parser w) = errno_ (parser s) -> p w = p s + k -> tie_error T w s.

Lemma header_value_char_tied dw ds c0 c h w s (K : header_states -> exec U -> header_states -> exec U -> Prop) :
  value_at w s -> h <> h_general ->
  (forall h' w' s', value_next w s w' s' -> K h' w' h' s') ->
  rel (header_value_char max_header_size lenient dw c0 c h) w (header_value_char max_header_size lenient ds c0 c h) s K T.
Proof.
  intros Hws Hne HK. unfold header_value_char, content_length_char, fail_value, match_word, next_index, clear_index, set_hs.
  destruct Hws as [x i cw cs Hb He]. revert Hne.
  destruct h; intros Hne; [done|..];
    repeat (rstep; cbv zeta); first [apply HT; [reflexivity|norm; lia]|apply HK; solve_value Hb He].
Qed.
End Value.

(** ** The loop over a value, and what follows it *)

(** What [do_header_value] does after its loop, which began at [start] *)
Definition after_value {U} (max_header_size : Z) (data : list Z) (start : Z) (h : header_states) : E U unit :=
  set_hs h;!
  let! i := look p in
  ewhen (i =? data_end data) (add_p (-1));!
  let! i := look p in
  COUNT_HEADER_SIZE max_header_size (i - start);!
  break.

(** One turn of the loop, at a byte [c] that is [n] bytes from where it began
    to count; [rest] is what it does when the value goes on. *)
Definition value_turn {U} (settings : http_parser_settings U) (max_header_size : Z) (lenient : bool) (n c : Z)
    (h : header_states) (rest : E U header_states) : E U header_states :=
  if c =? CR then
    UPDATE_STATE s_header_almost_done;!
    set_hs h;!
    CALLBACK_DATA settings header_value;!
    done h
  else if c =? LF then
    UPDATE_STATE s_header_almost_done;!
    COUNT_HEADER_SIZE max_header_size n;!
    set_hs h;!
    CALLBACK_DATA_NOADVANCE settings header_value;!
    reexecute
  else if negb lenient && negb (IS_HEADER_CHAR c) then fail_with HPE_INVALID_HEADER_TOKEN
  else rest.

Section Turn.
Context {U : Type} `{ReaderLaws U}.
Variable max_header_size : Z.
Variable lenient : bool.
Variable dw ds : list Z.
Variable k c0 N l0 a0 : Z.
Hypothesis Hslice : forall i n, 0 <= i -> 0 <= n -> i + n <= Z.of_nat (length ds) -> slice dw (i + k) n = slice ds i n.
#[local] Abbreviation both := (both dw ds k c0 N l0 a0).

Lemma value_turn_tied h c rw rs t0 n0 nw ns vw vs hw hs j' j (uw us : U) x i0 i
    (K : header_states -> exec U -> header_states -> exec U -> Prop) :
  lenient_http_headers x = l0 -> allow_chunked_length x = a0 -> 0 <= i0 <= i -> i < Z.of_nat (length ds) ->
  part_tie dw ds k c0 header_value i0 (Some j') (Some j) uw us ->
  nw + vw = ns + vs -> u32 (ns + vs) <= N ->
  let w := Exec (stale t0 n0 (set_header_state (fun _ => hw) x)) s_header_value nw (i + k) c None (Some j')
             None None None uw in
  let s := Exec (set_header_state (fun _ => hs) x) s_header_value ns i c None (Some j) None None None us in
  (forall y x u, public y = public x -> lenient_http_headers x = l0 /\ allow_chunked_length x = a0 ->
     K h (Exec y s_header_almost_done nw (i + k) c None None None None None u)
       h (Exec x s_header_almost_done ns i c None None None None None u)) ->
  ((c =? CR) = false -> (c =? LF) = false -> negb lenient && negb (IS_HEADER_CHAR c) = false -> rel rw w rs s K both) ->
  rel (value_turn (reader dw) max_header_size lenient vw c h rw) w
      (value_turn (reader ds) max_header_size lenient vs c h rs) s K both.
Proof.
  intros Hl Ha Hi Hp Hpart Hsum Hn w s HK Hrest. unfold value_turn.
  destruct (c =? CR); [|destruct (c =? LF); [|destruct (negb lenient && negb (IS_HEADER_CHAR c)) eqn:Hbad; [|by apply Hrest]]].
  - unfold set_hs, w, s. repeat first [rstep | rstep_data header_value Hpart]. by apply HK.
  - apply rel_bind, rel_UPDATE_STATE, rel_bind.
    apply rel_COUNT_sum with (n := u32 (ns + vs)); [reflexivity|cbn; by rewrite Hsum|..]; unfold w, s; [|close].
    unfold set_hs. part_run header_value Hpart.
  - apply rel_fail. unfold w, s. close.
Qed.

(** After a value that ended *)
Lemma after_value_cr x y nw ns sw ss h i c (u : U) :
  public y = public x -> lenient_http_headers x = l0 -> allow_chunked_length x = a0 -> 0 <= i < Z.of_nat (length ds) ->
  (i + k =? data_end dw) = false -> nw + (i + k - sw) = ns + (i - ss) -> u32 (ns + (i - ss)) <= N ->
  rel (after_value max_header_size dw sw h) (Exec y s_header_almost_done nw (i + k) c None None None None None u)
      (after_value max_header_size ds ss h) (Exec x s_header_almost_done ns i c None None None None None u)
      (fun _ w' _ s' => tied dw ds k c0 N l0 a0 w' s') both.
Proof.
  intros (t & n & ->)%public_stale Hl Ha Hi Hend Hsum Hn. unfold after_value, set_hs.
  apply rel_bind, rel_change, rel_bind, rel_look. unfold with_parser. cbn [p]. rewrite Hend. unfold data_end at 1.
  destruct (Z.eqb_spec i (Z.of_nat (length ds))); [lia|]. apply rel_bind, rel_done, rel_bind, rel_look, rel_bind. cbn [p].
  apply rel_COUNT_sum with (n := u32 (ns + (i - ss))); [reflexivity|cbn [nread]; by rewrite Hsum|..]; [apply rel_break|]; close.
Qed.
End Turn.

Section Header_value.
Context {U : Type} `{ReaderLaws U}.
Variable max_header_size : Z.
Hypothesis Hmax : 0 < max_header_size.
Variable lenient : bool.
Variable pre ds : list Z.
Variable c0 N l0 a0 : Z.
Hypothesis HN : 2 ^ 32 <= N.
Implicit Types (w s : exec U).

Let dw := pre ++ ds.
Let k := Z.of_nat (length pre).
Let size := Z.of_nat (length ds).
#[local] Abbreviation tied := (tied dw ds k c0 N l0 a0).
#[local] Abbreviation both := (both dw ds k c0 N l0 a0).
#[local] Abbreviation part_tie := (part_tie dw ds k c0).
#[local] Abbreviation value_at := (value_at k l0 a0).

Let Hslice : forall i n, 0 <= i -> 0 <= n -> i + n <= size -> slice dw (i + k) n = slice ds i n.
Proof. apply suffix_slice. Qed.
Let Hend i : (i + k =? data_end dw) = (i =? size).
Proof. apply suffix_end. Qed.
Let Hu z : u32 z <= N.
Proof. pose proof (u32_range z). lia. Qed.

Section Loop.
Variable t0 : state.
Variable hw hs : header_states.
Variable n0 nw ns j' j : Z.
Variable uw us : U.
(** Where a part has begun, and where the two began to count *)
Variable i0 sw ss : Z.
Hypothesis Hi0 : 0 <= i0 < size.
Hypothesis Hpart : part_tie header_value i0 (Some j') (Some j) uw us.
Hypothesis Hsum : nw + k - sw = ns - ss.
#[local] Abbreviation at_value := (value_at t0 hw hs n0 nw ns j' j uw us).

(** The ends of the loop: that of the buffer, and that of the value *)
Inductive value_end (h : header_states) : exec U -> exec U -> Prop :=
| at_end w s : at_value w s -> p s = size -> value_end h w s
| at_cr y x i c u :
    public y = public x -> lenient_http_headers x = l0 /\ allow_chunked_length x = a0 -> i0 <= i < size ->
    value_end h (Exec y s_header_almost_done nw (i + k) c None None None None None u)
                (Exec x s_header_almost_done ns i c None None None None None u).

(** [i] is where no value ends. *)
Definition no_end (i : Z) : Prop := forall c, ds !! Z.to_nat i = Some c -> (c =? CR) || (c =? LF) = false.

Lemma skip_value_tied lo pe fw fs w s (K : unit -> exec U -> unit -> exec U -> Prop) :
  no_end lo -> 0 <= lo -> at_value w s -> lo <= p s <= pe -> pe - p s < Z.of_nat fs -> pe - p s < Z.of_nat fw ->
  (forall w' s', at_value w' s' -> lo <= p s' <= pe -> K tt w' tt s') ->
  rel (skip_value lenient dw fw (pe + k)) w (skip_value lenient ds fs pe) s K both.
Proof.
  intros Hlo Hlo'. revert fw w s. induction fs as [|fs IH]; intros fw w s Hws Hp Hfs Hfw HK; [lia|].
  destruct fw as [|fw]; [lia|]. cbn [skip_value]. apply rel_bind, rel_look.
  destruct Hws as [x i cw cs Hb He]. cbn [p] in *.
  replace (i + k =? pe + k) with (i =? pe) by (destruct (Z.eqb_spec i pe), (Z.eqb_spec (i + k) (pe + k)); lia || done).
  destruct (Z.eqb_spec i pe) as [->|Hne]; [apply rel_done, HK; [done|cbn; lia]|].
  apply rel_bind, (rel_char_at pre); [lia|]. intros c Hc. apply rel_bind, rel_upd. unfold with_ch. cbn.
  destruct ((c =? CR) || (c =? LF)) eqn:Hcr.
  { apply rel_add_p. unfold with_p. cbn [p]. replace (i + k + -1) with (i - 1 + k) by lia. apply HK; [done|cbn [p]].
    destruct (decide (i = lo)) as [->|]; [|lia]. apply Hlo in Hc. congruence. }
  destruct (negb lenient && negb (IS_HEADER_CHAR c)); [apply rel_fail; close|].
  apply rel_bind, rel_add_p. unfold with_p. cbn [p]. replace (i + k + 1) with (i + 1 + k) by lia.
  apply IH; [done|cbn [p]; lia..|]. cbn [p]. intros w' s' Hws' Hp'. apply HK; [done|]. lia.
Qed.

Lemma do_general_value_tied w s (K : unit -> exec U -> unit -> exec U -> Prop) :
  no_end (p s) -> at_value w s -> 0 <= p s < size ->
  (forall w' s', at_value w' s' -> p s <= p s' < size -> K tt w' tt s') ->
  rel (do_general_value max_header_size lenient dw) w (do_general_value max_header_size lenient ds) s K both.
Proof.
  intros Hno Hws Hp HK. unfold do_general_value. apply rel_bind, rel_look. cbv zeta.
  assert (Hpw : p w = p s + k) by (by destruct Hws).
  assert (Hlen : data_end dw = size + k) by apply suffix_length. rewrite Hlen, Hpw.
  change (data_end ds) with size. unfold data_end in Hlen. apply rel_bind.
  replace (size + k - (p s + k)) with (size - p s) by lia.
  replace (p s + k + (size - p s) `min` max_header_size) with (p s + (size - p s) `min` max_header_size + k) by lia.
  apply skip_value_tied with (lo := p s); [done|lia|done|lia| | |].
  { unfold size in *. lia. }
  { unfold size in *. lia. }
  intros w' s' Hws' Hp'. apply rel_bind, rel_look. destruct Hws' as [x i cw cs Hb He]. cbn [p] in *.
  fold dw. rewrite <- Hlen. fold (data_end dw). rewrite Hend.
  destruct (Z.eqb_spec i size) as [->|Hne]; cbn [ewhen].
  - apply rel_add_p. unfold with_p. cbn [p]. replace (size + k + -1) with (size - 1 + k) by lia.
    apply HK; [done|cbn; lia].
  - apply rel_done, HK; [done|cbn; lia].
Qed.

Lemma header_value_loop_tied fw fs h w s :
  at_value w s -> i0 <= p s <= size -> size - p s < Z.of_nat fs -> size - p s < Z.of_nat fw ->
  rel (header_value_loop (reader dw) max_header_size lenient dw fw sw h) w
      (header_value_loop (reader ds) max_header_size lenient ds fs ss h) s
      (fun hw' w' hs' s' => hw' = hs' /\ value_end hw' w' s') both.
Proof.
  revert fw h w s. induction fs as [|fs IH]; intros fw h w s Hws Hp Hfs Hfw; [lia|].
  destruct fw as [|fw]; [lia|]. cbn [header_value_loop]. apply rel_bind, rel_look.
  destruct Hws as [x i cw cs Hb He]. cbn [p] in *. rewrite Hend. change (data_end ds) with size.
  destruct (Z.eqb_spec i size) as [->|Hne]; [apply rel_done; split; [done|]; by constructor|].
  apply rel_bind, (rel_char_at pre); [lia|]. intros c Hc. apply rel_bind, rel_upd. unfold with_ch. cbn.
  eapply (value_turn_tied max_header_size lenient dw ds k c0 N l0 a0 Hslice h c
    (let! h := header_value_char max_header_size lenient dw c (LOWER c) h in _)
    (let! h := header_value_char max_header_size lenient ds c (LOWER c) h in _));
    [apply Hb|apply Hb|split; [|apply Hp]; lia|unfold size in *; lia|exact Hpart|lia|apply Hu| |intros Hcr Hlf _].
  - intros y' x' u Hpub Hb'. split; [done|]. apply at_cr; [done|done|lia].
  - assert (Hnext : forall h' w' s', at_value w' s' -> i <= p s' < size ->
      rel (add_p 1;! header_value_loop (reader dw) max_header_size lenient dw fw sw h') w'
          (add_p 1;! header_value_loop (reader ds) max_header_size lenient ds fs ss h') s'
          (fun hw' w' hs' s' => hw' = hs' /\ value_end hw' w' s') both).
    { intros h' w' s' Hws' Hp'. destruct Hws' as [x' i' cw' cs' Hb' He']. apply rel_bind, rel_add_p.
      unfold with_p. cbn [p] in *. replace (i' + k + 1) with (i' + 1 + k) by lia.
      apply IH; [by constructor|cbn [p]; lia..]. }
    apply rel_bind. destruct (decide (h = h_general)) as [->|Hg].
    + unfold header_value_char. apply rel_bind, do_general_value_tied; [|by constructor|cbn [p]; lia|].
      { cbn [p]. intros c' Hc'. assert (c' = c) as -> by congruence. by rewrite Hcr, Hlf. }
      cbn [p]. intros w' s' Hws' Hp'. apply rel_done, Hnext; [done|lia].
    + eapply header_value_char_tied; [|by constructor|done|].
      { intros w s Hw Hs. by split. }
      cbn [p]. intros h' w' s' [Hws' Hp' _]. cbn [p] in Hp'. apply Hnext; [done|lia].
Qed.

Lemma after_value_tied h w s :
  value_end h w s ->
  rel (after_value max_header_size dw sw h) w (after_value max_header_size ds ss h) s (fun _ w' _ s' => tied w' s') both.
Proof.
  intros Hend'. unfold after_value, set_hs. destruct Hend' as [w s Hws Hp|y x i c u Hpub [Hl Ha] Hi].
  - destruct Hws as [x i cw cs [Hl Ha] He]. cbn [p] in Hp. subst i. apply rel_bind, rel_change, rel_bind, rel_look.
    unfold with_parser. cbn [p]. rewrite Hend. change (data_end ds) with size. rewrite Z.eqb_refl.
    apply rel_bind, rel_add_p, rel_bind, rel_look, rel_bind. unfold with_p. cbn [p].
    apply rel_COUNT_sum with (n := u32 (ns + (size + -1 - ss))); [reflexivity|cbn [nread]; f_equal; lia|..];
      specialize (Hu (ns + (size + -1 - ss))); [|close].
    apply part_mono with (i' := size + -1) in Hpart; [|lia].
    part_run header_value Hpart.
  - apply after_value_cr; [done|done|done|unfold size in *; lia| |lia|apply Hu].
    rewrite Hend. destruct (Z.eqb_spec i size); [lia|done].
Qed.
End Loop.

Lemma do_header_value_tied :
  case_tied max_header_size dw ds k c0 N l0 a0 s_header_value
    (do_header_value (reader dw) max_header_size lenient dw) (do_header_value (reader ds) max_header_size lenient ds).
Proof.
  apply part_tied with (m := header_value); [done|by intros []|].
  intros x t0 n0 n i c ow os uw us Hn Hl Ha Hi He Hok Hf Hpart Htok.
  destruct Htok as [j ->]; [done|]. assert (exists j', ow = Some j') as [j' ->] by (inversion Hpart; eauto).
  unfold with_mark. norm. apply rel_bind, rel_look, rel_bind, rel_look, rel_bind. norm.
  eapply rel_mono.
  - apply (header_value_loop_tied t0 (header_state x) (header_state x) n0 n n j' j uw us i (i + k) i); [done|exact Hpart|lia| | | |].
    + assert (Hx : x = set_header_state (fun _ => header_state x) x) by (by destruct x).
      rewrite Hx at 1. rewrite Hx at 4. by constructor.
    + cbn [p]. lia.
    + cbn [p]. unfold size. lia.
    + cbn [p]. pose proof (suffix_length pre ds). unfold dw, size in *. lia.
  - intros hw w hs s [-> Hws]. eapply after_value_tied; [exact Hi|exact Hpart| |exact Hws]. lia.
Qed.
End Header_value.
