(* ===== verification/HttpCross.v ===== *)
(** A byte by itself, and as the first of more: the cases that would read on
    past it do, with the rest in the buffer, what they do with the byte alone
    and then with the rest. *)
From S2P Require Import Prelude HttpTypes HttpUrl HttpExec HttpStates HttpHeaders HttpParser HttpLogic HttpSafe HttpScan HttpRel HttpTied HttpTiedCases HttpTiedHeaders HttpTiedValues.

Local Open Scope Z_scope.
Local Open Scope exec_scope.
#[local] Arguments Z.add : simpl never.
#[local] Arguments Z.sub : simpl never.

(** ** Equations *)

Section Equations.
Context {U : Type}.
Implicit Types (w s : exec U).

Lemma rel_eq {A B} (m1 m1' : E U A) (m2 m2' : E U B) w w' s s' (K : A -> exec U -> B -> exec U -> Prop) T :
  m1 w = m1' w' -> m2 s = m2' s' -> rel m1' w' m2' s' K T -> rel m1 w m2 s K T.
Proof. unfold rel. by intros -> ->. Qed.

(** Two runs end in values, or stay related whatever is done with values. *)
Lemma rel_or {A B} (m1 : E U A) (m2 : E U B) w s (K : A -> exec U -> B -> exec U -> Prop) T :
  rel m1 w m2 s K T ->
  (exists a w' b s', m1 w = Value a w' /\ m2 s = Value b s' /\ K a w' b s') \/
  (forall A' B' (k1 : A -> E U A') (k2 : B -> E U B') K', rel (ebind m1 k1) w (ebind m2 k2) s K' T).
Proof.
  unfold rel, ebind. destruct (m1 w), (m2 s); try done; [left; eauto 10|right..]; done.
Qed.

Lemma COUNT_small max v n s :
  nread s = n -> 0 <= n -> 0 <= v -> n + v <= max -> max < 2 ^ 32 ->
  COUNT_HEADER_SIZE max v s = Value tt (with_nread (fun _ => n + v) s).
Proof.
  intros Hs Hn Hv Hmax Hu. unfold COUNT_HEADER_SIZE. rewrite ebind_upd, ebind_look.
  assert (Hc : u32 (nread s + u32 v) = n + v) by (rewrite Hs, (u32_small v), u32_small by lia; done).
  cbn [nread with_nread]. rewrite Hc. destruct (Z.gtb_spec (n + v) max); [lia|].
  unfold done, with_nread. by rewrite Hc.
Qed.

Lemma next_byte_eq max data c s :
  0 <= p s -> data !! Z.to_nat (p s) = Some c ->
  next_byte max data s = if PARSING_HEADER (p_state s) then COUNT_HEADER_SIZE max 1 (with_ch c s) else Value tt (with_ch c s).
Proof.
  intros Hp Hc. unfold next_byte. rewrite ebind_look, (ebind_char_at _ _ c), ebind_upd, ebind_look by done.
  cbn [p_state with_ch]. by destruct (PARSING_HEADER (p_state s)).
Qed.

Lemma take_body_eq data s :
  length_ok (parser s) -> fields_ok (parser s) -> 0 <= p s < data_len data ->
  let r := Z.min (content_length (parser s)) (data_len data - p s) in
  take_body data s = Value tt
    (with_p (fun z => z + (r - 1)) (with_parser (set_content_length (fun z => z - r))
      (match mark_of body s with None => with_mark body (Some (p s)) s | Some _ => s end))).
Proof.
  intros [Hnz Hm] [Hc _] Hp r. unfold take_body. rewrite !ebind_look. cbv zeta.
  rewrite ebind_assert; [|by rewrite !(proj2 (Z.eqb_neq _ _))].
  unfold MARK, change, add_p. rewrite !ebind_upd. done.
Qed.
End Equations.

Section Cross.
Context {U : Type} `{ReaderLaws U}.
Variable strict : bool.
Variable max_header_size : Z.
Variable lenient : bool.
(** The byte, and the rest *)
Variable c : Z.
Variable b : list Z.
Variable N l0 a0 : Z.
Hypothesis Hb : b <> [].
Hypothesis HN : N + Z.of_nat (length b) <= max_header_size.
Hypothesis HN1 : 1 <= N.
Hypothesis Hmax : max_header_size < 2 ^ 32.
Implicit Types (w s : exec U) (x : http_parser).

#[local] Abbreviation cb := (c :: b).
(** With the byte alone, and after it *)
#[local] Abbreviation tied0 := (tied cb [c] 0 c N l0 a0).
#[local] Abbreviation both0 := (both cb [c] 0 c N l0 a0).
#[local] Abbreviation tied1 := (tied cb b 1 c (2 ^ 32) l0 a0).
#[local] Abbreviation both1 := (both cb b 1 c (2 ^ 32) l0 a0).

Definition token_mark (m : part) (st : state) : option Z := if token_state m st then Some 0 else None.

(** How the next call enters the loop, after one that ended in state [st] with
    part [m] under way *)
Definition resumed (m : part) (st : state) (n : Z) (x : http_parser) (u : U) : exec U :=
  with_mark m (token_mark m st) (Exec (stale st n x) st n 0 0 None None None None None (given m [c] u)).

(** With the byte alone [mc] leaves [s] in state [st], ready for more of the
    part [m], and [mw] goes on from [w] as a call with the rest does. *)
Definition crosses (m : part) (st : state) (mw mc mb : E U unit) w s : Prop :=
  exists x ch',
    (lenient_http_headers x = l0 /\ allow_chunked_length x = a0) /\
    mc s = Break (with_mark m (Some 0) (Exec x st (nread s) 0 ch' None None None None None (user s))) /\
    rel mw w (next_byte max_header_size b;! mb) (resumed m st (nread s) x (user s)) (fun _ w' _ s' => tied1 w' s') both1.

Lemma byte_slice i n : 0 <= i -> 0 <= n -> i + n <= Z.of_nat (length [c]) -> slice cb (i + 0) n = slice [c] i n.
Proof. intros Hi Hn Hs. replace (i + 0) with i by lia. exact (slice_app_left [c] b i n Hi Hs). Qed.

Lemma rest_slice i n : 0 <= i -> 0 <= n -> i + n <= Z.of_nat (length b) -> slice cb (i + 1) n = slice b i n.
Proof. intros Hi _ _. by apply slice_cons_shift. Qed.

Lemma b_size : 1 <= Z.of_nat (length b).
Proof. destruct b; [done|simpl; lia]. Qed.

Lemma next_b st n x u m :
  0 <= n <= N -> exists d, next_byte max_header_size b (resumed m st n x u) =
    Value tt (with_ch d (with_nread (fun _ => if PARSING_HEADER st then n + 1 else n) (resumed m st n x u))).
Proof.
  intros Hn. pose proof b_size. destruct b as [|d b'] eqn:Hbd; [done|]. exists d.
  rewrite (next_byte_eq _ _ d); [|done|done]. change (p_state _) with st. destruct (PARSING_HEADER st); [|done].
  rewrite (COUNT_small _ 1 n) by (try done; lia). done.
Qed.

(** Only values are related. *)
Definition no_ties : ties U := Ties (fun _ _ => False) (fun _ _ => False) (fun _ _ => False) (fun _ _ _ _ => False).

(** ** Field names *)

(** The byte alone, when the name goes on *)
Lemma field_byte x n c1 u s' fuel :
  0 <= n <= N -> s' = Exec x s_header_field n 1 c1 (Some 0) None None None None u -> (0 < fuel)%nat ->
  (header_field_loop strict max_header_size [c] fuel;! after_field (reader [c]) max_header_size [c] 0) s'
  = Break (with_mark header_field (Some 0) (Exec x s_header_field n 0 c1 None None None None None u)).
Proof.
  intros Hn -> Hf. destruct fuel as [|fuel]; [lia|]. cbn [header_field_loop]. rewrite ebind_assoc, ebind_look.
  cbn [p]. change (1 =? data_end [c]) with true. cbv iota. rewrite ebind_done.
  unfold after_field. rewrite ebind_look. cbn [p]. change (1 =? data_end [c]) with true. cbv iota.
  unfold add_p. rewrite ebind_upd. unfold ebind at 1. rewrite (COUNT_small _ _ n) by (try done; cbn; lia).
  unfold break, with_nread, with_p, with_mark. cbn. by replace (n + (1 - 1 - 0)) with n by lia.
Qed.

(** The rest of the name, read on or in another call *)
Lemma field_rest t0 n0 n u w s fw fs ww ss :
  0 <= n <= N ->
  field_at 1 l0 a0 t0 n0 n (n + 1) 0 0 u (given header_field [c] u) w s -> 0 <= p s <= Z.of_nat (length b) ->
  Z.of_nat (length b) - p s < Z.of_nat fw -> Z.of_nat (length b) - p s < Z.of_nat fs ->
  (p ww = 0) -> (p ss = 0) ->
  header_field_loop strict max_header_size cb (S (length cb)) ww
    = header_field_loop strict max_header_size cb fw w ->
  header_field_loop strict max_header_size b (S (length b)) ss
    = header_field_loop strict max_header_size b fs s ->
  rel (do_header_field strict (reader cb) max_header_size cb) ww (do_header_field strict (reader b) max_header_size b) ss
    (fun _ w' _ s' => tied1 w' s') both1.
Proof.
  intros Hn Hws Hp Hfw Hfs Hpw Hps Hlw Hls. pose proof b_size.
  eapply rel_eq;
    [instantiate (1 := w); instantiate (1 := header_field_loop strict max_header_size cb fw;! after_field (reader cb) max_header_size cb 0)
    |instantiate (1 := s); instantiate (1 := header_field_loop strict max_header_size b fs;! after_field (reader b) max_header_size b 0)|].
  - unfold do_header_field. rewrite ebind_look, Hpw. unfold ebind. by rewrite Hlw.
  - unfold do_header_field. rewrite ebind_look, Hps. unfold ebind. by rewrite Hls.
  - apply rel_bind. apply (header_field_loop_tied strict max_header_size 1 l0 a0 t0 n0 n (n + 1) 0 0 u
      (given header_field [c] u) [c] b); [done|lia|exact Hws|lia|lia|lia|].
    intros w' s' Hws' Hp' Hch. eapply (after_field_tied max_header_size [c] b c);
      [lia|exact Hws'|exact Hch|instantiate (1 := 0); lia|lia| |cbn; lia].
    by apply part_behind.
Qed.

(** The loop at a byte of a name, and one that is not *)
Lemma field_turn data f s d :
  0 <= p s < Z.of_nat (length data) -> data !! Z.to_nat (p s) = Some d ->
  header_field_loop strict max_header_size data (S f) s =
  (if token strict d then
     header_field_char strict max_header_size data d (TOKEN strict d);! add_p 1;!
     header_field_loop strict max_header_size data f
   else done tt) (with_ch d s).
Proof.
  intros Hp Hd. cbn [header_field_loop]. rewrite ebind_look. unfold data_end at 1.
  destruct (Z.eqb_spec (p s) (Z.of_nat (length data))) as [|_]; [lia|].
  rewrite (ebind_char_at _ _ d), ebind_upd by (lia || done). unfold token. by destruct (TOKEN strict d =? 0).
Qed.

Lemma stop_one f : f c = true -> stop f [c] 0 = 1 /\ stop f cb 0 = stop f b 0 + 1.
Proof. intros Hf. unfold stop. change (Z.to_nat 0) with O. simpl. rewrite Hf, drop_0. lia. Qed.

Section Field_cross.
Variable t0 : state.
Variable n0 n cw : Z.
Variable u : U.
Variable x : http_parser.
Hypothesis Hn : 0 <= n <= N.
Hypothesis Hbits : lenient_http_headers x = l0 /\ allow_chunked_length x = a0.
Hypothesis He : errno_ x = HPE_OK.

Let w := Exec (stale t0 n0 x) s_header_field n 0 cw (Some 0) None None None None u.
Let s := Exec x s_header_field n 0 cw (Some 0) None None None None u.
#[local] Abbreviation do_field data := (do_header_field strict (reader data) max_header_size data).

Lemma field_over : token strict c = false -> rel (do_field cb) w (do_field [c]) s (fun _ w' _ s' => tied0 w' s') both0.
Proof.
  intros Ht. apply rel_bind, rel_look, rel_bind. cbn [p w s].
  eapply rel_eq; [rewrite (field_turn _ _ _ c), Ht; [reflexivity|cbn; lia|done]
    |rewrite (field_turn _ _ _ c), Ht; [reflexivity|cbn; lia|done]|].
  apply rel_done, rel_bind, rel_look. cbn [p with_ch].
  change (0 =? data_end cb) with false. change (0 =? data_end [c]) with false. cbv iota.
  apply (field_end_tied max_header_size cb [c] 0 c N l0 a0 byte_slice x t0 n0 n n (0 - 0) (0 - 0) 0 0 u u 0 0);
    [apply Hbits|apply Hbits|lia|cbn; lia|exact (part_step cb [c] 0 c header_field 0 0 u ltac:(lia))|done|]. rewrite u32_small by lia. lia.
Qed.

(** From where both have read the byte, with the parser at [y] *)
Lemma field_on y c1 :
  lenient_http_headers y = l0 /\ allow_chunked_length y = a0 ->
  do_field [c] s = Break (with_mark header_field (Some 0) (Exec y s_header_field n 0 c1 None None None None None u)) ->
  (forall d, exists w1 s1 fw fs,
    field_at 1 l0 a0 t0 n0 n (n + 1) 0 0 u (given header_field [c] u) w1 s1 /\ 0 <= p s1 <= Z.of_nat (length b) /\
    Z.of_nat (length b) - p s1 < Z.of_nat fw /\ Z.of_nat (length b) - p s1 < Z.of_nat fs /\
    header_field_loop strict max_header_size cb (S (length cb)) w
      = header_field_loop strict max_header_size cb fw w1 /\
    header_field_loop strict max_header_size b (S (length b))
      (with_ch d (with_nread (fun _ => n + 1) (resumed header_field s_header_field n y u)))
      = header_field_loop strict max_header_size b fs s1) ->
  crosses header_field s_header_field (do_field cb) (do_field [c]) (do_field b) w s.
Proof.
  intros Hby Hc Hrest. exists y, c1. split; [exact Hby|]. split; [exact Hc|].
  destruct (next_b s_header_field n y u header_field Hn) as [d Hd].
  destruct (Hrest d) as (w1 & s1 & fw & fs & Hat & Hp & Hfw & Hfs & Hw & Hs).
  eapply rel_eq; [reflexivity|unfold ebind; change (nread s) with n; change (user s) with u; rewrite Hd; reflexivity|].
  refine (field_rest t0 n0 n u w1 s1 fw fs w _ Hn Hat Hp Hfw Hfs eq_refl _ Hw Hs). reflexivity.
Qed.

(** A name that is none of those the parser looks for *)
Lemma field_general :
  token strict c = true -> header_state x = h_general ->
  crosses header_field s_header_field (do_field cb) (do_field [c]) (do_field b) w s.
Proof.
  intros Ht Hg. pose proof b_size. destruct (stop_one (token strict) Ht) as [Hone Hstop].
  destruct (header_field_loop_general strict max_header_size [c] ltac:(cbn; lia) 2 s) as [c1 Hs]; [done|cbn; lia|cbn; lia|].
  apply (field_on x c1 Hbits).
  - unfold do_header_field. rewrite ebind_look. unfold ebind at 1. change (S (length [c])) with 2%nat.
    rewrite (Hs O). change (p s) with 0. rewrite Hone.
    exact (field_byte x n c1 u _ 1 Hn eq_refl ltac:(lia)).
  - intros d.
    destruct (header_field_loop_general strict max_header_size cb ltac:(simpl; lia) (S (length cb)) w)
      as [c2 Hw]; [done|cbn; lia|cbn; lia|].
    destruct (header_field_loop_general strict max_header_size b ltac:(lia) (S (length b))
      (with_ch d (with_nread (fun _ => n + 1) (resumed header_field s_header_field n x u))))
      as [c3 Hs']; [done|cbn; lia|cbn; lia|].
    pose proof (stop_range (token strict) b 0) as Hr.
    eexists _, _, (S (length cb)), (S (length b)).
    refine (conj _ (conj _ (conj _ (conj _ (conj (Hw _) (Hs' _)))))).
    + change (p w) with 0. rewrite Hstop. exact (field_at_intro 1 l0 a0 t0 n0 n (n + 1) 0 0 u
        (given header_field [c] u) (stale s_header_field n x) _ _ _ Hbits He).
    + cbn. lia.
    + cbn. lia.
    + cbn. lia.
Qed.

(** A name the parser may be looking for *)
Lemma field_looking :
  (forall f, do_field [c] s <> Stuck f) -> token strict c = true -> header_state x <> h_general ->
  crosses header_field s_header_field (do_field cb) (do_field [c]) (do_field b) w s.
Proof.
  intros Hstuck Ht Hg.
  pose proof (header_field_char_tied strict max_header_size 0 l0 a0 t0 n0 n n 0 0 u u cb [c] c (TOKEN strict c)
    (with_ch c w) (with_ch c s)
    (fun _ w' _ s' => field_at 0 l0 a0 t0 n0 n n 0 0 u u w' s' /\ p s' = 0) no_ties
    (field_at_intro 0 l0 a0 t0 n0 n n 0 0 u u x 0 c c Hbits He) Hg) as Hchar.
  specialize (Hchar ltac:(intros w' s' Hws Hp _ _; by split)). unfold rel in Hchar.
  assert (Hloop : forall data f s, p s = 0 -> data !! 0%nat = Some c ->
    header_field_loop strict max_header_size data (S f) s =
    (header_field_char strict max_header_size data c (TOKEN strict c);! add_p 1;!
     header_field_loop strict max_header_size data f) (with_ch c s)).
  { intros data f s' Hp Hd. rewrite (field_turn _ _ _ c), Ht; [done| |by rewrite Hp].
    rewrite Hp. apply lookup_lt_Some in Hd. lia. }
  pose proof (Hloop [c] 1%nat s eq_refl eq_refl) as Hs. pose proof (Hloop cb (length cb) w eq_refl eq_refl) as Hw.
  destruct (header_field_char strict max_header_size cb c (TOKEN strict c) (with_ch c w)) as [[] w1| | | | |] eqn:Hcw,
    (header_field_char strict max_header_size [c] c (TOKEN strict c) (with_ch c s)) as [[] s1| | | | |] eqn:Hcs;
    try done.
  - destruct Hchar as [Hat Hp]. remember s1 as s1' eqn:Hs1. remember w1 as w1' eqn:Hw1.
    destruct Hat as [y i d1 d2 Hby Hey]. cbn [p] in Hp. subst i.
    unfold ebind, add_p, upd in Hs, Hw. rewrite Hcs in Hs. rewrite Hcw in Hw.
    apply (field_on y d2 Hby).
    + unfold do_header_field. rewrite ebind_look. unfold ebind at 1. change (S (length [c])) with 2%nat. rewrite Hs.
      exact (field_byte y n d2 u _ 1 Hn eq_refl ltac:(lia)).
    + intros d. eexists _, _, (length cb), (S (length b)). refine (conj _ (conj _ (conj _ (conj _ (conj Hw eq_refl))))).
      * exact (field_at_intro 1 l0 a0 t0 n0 n (n + 1) 0 0 u (given header_field [c] u) (stale s_header_field n y) 0 _ _ Hby Hey).
      * cbn. lia.
      * cbn. lia.
      * cbn. lia.
  - unfold ebind, add_p, upd in Hs. rewrite Hcs in Hs. exfalso. eapply Hstuck.
    unfold do_header_field. rewrite ebind_look. unfold ebind at 1. change (S (length [c])) with 2%nat. rewrite Hs. done.
Qed.


Lemma field_crosses :
  (forall f, do_field [c] s <> Stuck f) ->
  rel (do_field cb) w (do_field [c]) s (fun _ w' _ s' => tied0 w' s') both0 \/
  crosses header_field s_header_field (do_field cb) (do_field [c]) (do_field b) w s.
Proof.
  intros Hstuck. destruct (token strict c) eqn:Ht; [right|left; by apply field_over].
  destruct (decide (header_state x = h_general)) as [Hg|Hg]; [by apply field_general|by apply field_looking].
Qed.
End Field_cross.
(** ** The body *)

Section Body_cross.
Variable t0 : state.
Variable n0 n cw : Z.
Variable o : option Z.
Variable u : U.
Variable x : http_parser.
Hypothesis Hn : 0 <= n <= N.
Hypothesis Hbits : lenient_http_headers x = l0 /\ allow_chunked_length x = a0.
Hypothesis Ho : o = None \/ o = Some 0.

Let in_body (st : state) (y : http_parser) : exec U := with_mark body o (Exec y st n 0 cw None None None None None u).

Lemma body_part : part_tie cb [c] 0 c body 0 o o u u.
Proof. destruct Ho as [->| ->]; [constructor|]. exact (part_step cb [c] 0 c body 0 0 u ltac:(lia)). Qed.

(** What is taken with the byte alone, and with the rest *)
Lemma take_byte st : length_ok x -> fields_ok x ->
  take_body [c] (in_body st x) = Value tt (Exec (set_content_length (fun z => z - 1) x) st n 0 cw None None None (Some 0) None u).
Proof.
  intros Hl Hf. assert (Hr : Z.min (content_length x) (data_len [c] - 0) = 1).
  { change (data_len [c]) with 1. destruct Hl, Hf as [? _]. lia. }
  rewrite take_body_eq by (try done; cbn; lia).
  change (p (in_body st x)) with 0. change (parser (in_body st x)) with x. rewrite Hr.
  unfold in_body. by destruct Ho as [->| ->].
Qed.

Lemma take_both st : length_ok x -> fields_ok x -> content_length x <> 1 ->
  exists r, 1 <= r <= Z.of_nat (length b) /\
  take_body cb (in_body st (stale t0 n0 x)) =
    Value tt (Exec (set_content_length (fun z => z - 1 - r) (stale t0 n0 x)) st n (r - 1 + 1) cw None None None (Some 0) None u) /\
  forall d, take_body b (with_ch d (with_nread (fun _ => n) (resumed body st n (set_content_length (fun z => z - 1) x) u))) =
    Value tt (Exec (set_content_length (fun z => z - r) (stale st n (set_content_length (fun z => z - 1) x))) st n (r - 1) d
      None None None (Some 0) None (given body [c] u)).
Proof.
  intros Hl Hf Hne. pose proof b_size. destruct Hl as [Hnz Hm], Hf as [Hc Hi].
  assert (Hl' : length_ok (set_content_length (fun z => z - 1) x)) by (split; cbn; [|unfold ULLONG_MAX]; lia).
  assert (Hf' : fields_ok (set_content_length (fun z => z - 1) x)) by (split; cbn; [lia|done]).
  assert (Hcb : data_len cb = Z.of_nat (length b) + 1) by (unfold data_len; cbn [length]; lia).
  exists (Z.min (content_length x - 1) (Z.of_nat (length b))). split; [lia|]. split.
  - rewrite take_body_eq; [|done|done|rewrite Hcb; cbn; lia]. rewrite Hcb.
    change (p (in_body st _)) with 0. change (content_length (parser (in_body st _))) with (content_length x).
    replace (content_length x `min` (Z.of_nat (length b) + 1 - 0))
      with ((content_length x - 1) `min` Z.of_nat (length b) + 1) by lia.
    unfold with_p, with_parser, set_content_length, in_body. destruct Ho as [->| ->]; cbn; do 2 f_equal; try lia; f_equal; lia.
  - intros d. rewrite take_body_eq; [|done|done|unfold data_len; cbn; lia]. unfold data_len.
    change (p _) with 0. change (content_length (parser _)) with (content_length x - 1). rewrite Z.sub_0_r. done.
Qed.

Lemma identity_crosses :
  length_ok x -> fields_ok x ->
  let w := in_body s_body_identity (stale t0 n0 x) in let s := in_body s_body_identity x in
  rel (do_body_identity (reader cb) cb) w (do_body_identity (reader [c]) [c]) s (fun _ w' _ s' => tied0 w' s') both0 \/
  crosses body s_body_identity (do_body_identity (reader cb) cb) (do_body_identity (reader [c]) [c])
    (do_body_identity (reader b) b) w s.
Proof.
  intros Hl Hf w s. pose proof b_size. destruct (decide (content_length x = 1)) as [Hone|Hone].
  - left. apply (body_identity_left cb [c] 0 c byte_slice N l0 a0 x t0 n0 n 0 cw o o u u);
      [|lia|apply Hbits|apply Hbits|done|done|cbn; lia|apply body_part].
    rewrite Hone. change (data_len [c]) with 1. unfold data_len. cbn [length]. lia.
  - right. exists (set_content_length (fun z => z - 1) x), cw. split; [exact Hbits|]. split.
    + unfold do_body_identity. unfold ebind at 1. unfold s. rewrite take_byte by done. rewrite ebind_look.
      cbn [parser]. change (content_length (set_content_length _ x)) with (content_length x - 1).
      destruct (Z.eqb_spec (content_length x - 1) 0); [lia|]. done.
    + destruct (next_b s_body_identity n (set_content_length (fun z => z - 1) x) u body Hn) as [d Hd].
      destruct (take_both s_body_identity Hl Hf Hone) as (r & Hr & Hw & Hs).
      refine (rel_eq _ (identity_rest (reader cb)) _ (identity_rest (reader b)) _ _ _ _ _ _ _ _ _).
      * unfold do_body_identity, ebind at 1. unfold w. rewrite Hw. reflexivity.
      * unfold ebind at 1. change (nread s) with n. change (user s) with u. rewrite Hd.
        change (PARSING_HEADER s_body_identity) with false. cbv iota.
        unfold do_body_identity, ebind at 1. rewrite (Hs d). reflexivity.
      * apply (identity_rest_tied cb b 1 c rest_slice (2 ^ 32) l0 a0 _ _ n (r - 1) cw d 0 0 u (given body [c] u));
          [lia|apply Hbits|apply Hbits|lia|done|by apply part_behind].
Qed.

Lemma chunk_crosses :
  has_flag (flags x) F_CHUNKED = true -> length_ok x -> fields_ok x ->
  let w := in_body s_chunk_data (stale t0 n0 x) in let s := in_body s_chunk_data x in
  rel (do_chunk_data cb) w (do_chunk_data [c]) s (fun _ w' _ s' => tied0 w' s') both0 \/
  crosses body s_chunk_data (do_chunk_data cb) (do_chunk_data [c]) (do_chunk_data b) w s.
Proof.
  intros Hch Hl Hf w s. pose proof b_size.
  assert (Hgo : forall data (s : exec U), flags (parser s) = flags x -> do_chunk_data data s = (take_body data;! chunk_rest) s).
  { intros data s' Hs'. unfold do_chunk_data, assert_chunked. by rewrite ebind_assoc, ebind_look, ebind_assert by (by rewrite Hs'). }
  destruct (decide (content_length x = 1)) as [Hone|Hone].
  - left. apply (chunk_data_left cb [c] 0 c N l0 a0 x t0 n0 n 0 cw o o u u);
      [|lia|apply Hbits|apply Hbits|done|done|cbn; lia|apply body_part].
    rewrite Hone. change (data_len [c]) with 1. unfold data_len. cbn [length]. lia.
  - right. exists (set_content_length (fun z => z - 1) x), cw. split; [exact Hbits|]. split.
    + rewrite Hgo by done. unfold ebind at 1, s. rewrite take_byte by done.
      unfold chunk_rest. rewrite ebind_look.
      cbn [parser]. change (content_length (set_content_length _ x)) with (content_length x - 1).
      destruct (Z.eqb_spec (content_length x - 1) 0); [lia|]. done.
    + destruct (next_b s_chunk_data n (set_content_length (fun z => z - 1) x) u body Hn) as [d Hd].
      destruct (take_both s_chunk_data Hl Hf Hone) as (r & Hr & Hw & Hs).
      refine (rel_eq _ chunk_rest _ chunk_rest _ _ _ _ _ _ _ _ _).
      * rewrite Hgo by done. unfold ebind at 1, w. rewrite Hw. reflexivity.
      * unfold ebind at 1. change (nread s) with n. change (user s) with u. rewrite Hd.
        change (PARSING_HEADER s_chunk_data) with false. cbv iota.
        rewrite Hgo by done. unfold ebind at 1. rewrite (Hs d). reflexivity.
      * apply (chunk_rest_tied cb b 1 c (2 ^ 32) l0 a0 _ _ n (r - 1) cw d 0 0 u (given body [c] u));
          [lia|apply Hbits|apply Hbits|lia|done|by apply part_behind].
Qed.

(** A body that ends with the connection *)
Lemma eof_crosses :
  let w := in_body s_body_identity_eof (stale t0 n0 x) in let s := in_body s_body_identity_eof x in
  crosses body s_body_identity_eof (do_body_identity_eof cb) (do_body_identity_eof [c]) (do_body_identity_eof b) w s.
Proof.
  intros w s. pose proof b_size. exists x, cw. split; [exact Hbits|]. split.
  - unfold do_body_identity_eof, s, in_body. by destruct Ho as [->| ->].
  - destruct (next_b s_body_identity_eof n x u body Hn) as [d Hd].
    refine (rel_eq _ break _ break _ (Exec (stale t0 n0 x) s_body_identity_eof n (Z.of_nat (length b) - 1 + 1) cw
      None None None (Some 0) None u) _ (Exec (stale s_body_identity_eof n x) s_body_identity_eof n
      (Z.of_nat (length b) - 1) d None None None (Some 0) None (given body [c] u)) _ _ _ _ _).
    + unfold do_body_identity_eof, w, in_body, MARK. rewrite ebind_upd.
      replace (Z.of_nat (length b) - 1 + 1) with (data_len cb - 1) by (unfold data_len; cbn [length]; lia).
      by destruct Ho as [->| ->].
    + unfold ebind at 1. change (nread s) with n. change (user s) with u. rewrite Hd. done.
    + apply rel_break. assert (Hpart : part_tie cb b 1 c body (Z.of_nat (length b) - 1) (Some 0) (Some 0) u (given body [c] u))
        by (by apply part_behind).
      destruct Hbits as [Hl Ha]. cbn [both tie_break]. solve_part body Hpart.
Qed.
End Body_cross.
(** ** Values *)

#[local] Abbreviation value_loop data := (header_value_loop (reader data) max_header_size lenient data).
#[local] Abbreviation do_value data := (do_header_value (reader data) max_header_size lenient data).

Lemma do_value_eq data s :
  do_value data s = (let! h := value_loop data (S (length data)) (p s) (header_state (parser s)) in
                     after_value max_header_size data (p s) h) s.
Proof. done. Qed.

Lemma value_loop_turn data f start h s d :
  0 <= p s < Z.of_nat (length data) -> data !! Z.to_nat (p s) = Some d ->
  value_loop data (S f) start h s =
  value_turn (reader data) max_header_size lenient (p s - start) d h
    (let! h := header_value_char max_header_size lenient data d (LOWER d) h in add_p 1;! value_loop data f start h)
    (with_ch d s).
Proof.
  intros Hp Hd. cbn [header_value_loop]. rewrite ebind_look. unfold data_end at 1.
  destruct (Z.eqb_spec (p s) (Z.of_nat (length data))) as [|_]; [lia|].
  by rewrite (ebind_char_at _ _ d), ebind_upd by (lia || done).
Qed.

Lemma value_turn_byte (settings : http_parser_settings U) n d h rest :
  value_byte lenient d = true -> value_turn settings max_header_size lenient n d h rest = rest.
Proof.
  unfold value_byte, value_ends, value_bad, value_turn. intros Hd.
  apply andb_true_iff in Hd as [Hend Hbad]. apply negb_true_iff in Hend, Hbad. apply orb_false_iff in Hend as [-> ->].
  by rewrite Hbad.
Qed.

(** The byte alone, when the value goes on *)
Lemma value_byte_alone x n c1 u s' fuel h :
  0 <= n <= N -> s' = Exec x s_header_value n 1 c1 None (Some 0) None None None u -> (0 < fuel)%nat ->
  (let! h := value_loop [c] fuel 0 h in after_value max_header_size [c] 0 h) s'
  = Break (with_mark header_value (Some 0)
      (Exec (set_header_state (fun _ => h) x) s_header_value n 0 c1 None None None None None u)).
Proof.
  intros Hn -> Hf. destruct fuel as [|fuel]; [lia|]. cbn [header_value_loop]. rewrite ebind_assoc, ebind_look.
  cbn [p]. change (1 =? data_end [c]) with true. cbv iota. rewrite ebind_done.
  unfold after_value, set_hs. rewrite ebind_change, ebind_look. cbn [p with_parser].
  change (1 =? data_end [c]) with true. cbn [ewhen]. unfold add_p. rewrite ebind_upd, ebind_look. cbn [p with_p].
  unfold ebind at 1. rewrite (COUNT_small _ _ n) by (try done; cbn; lia).
  unfold break, with_nread, with_p, with_mark. cbn. by replace (n + (1 + -1 - 0)) with n by lia.
Qed.

(** The rest of the value, read on or in another call *)
Lemma value_rest t0 hw hs n0 n u w s fw fs ww ss h :
  0 <= n <= N ->
  value_at 1 l0 a0 t0 hw hs n0 n (n + 1) 0 0 u (given header_value [c] u) w s -> 0 <= p s <= Z.of_nat (length b) ->
  Z.of_nat (length b) - p s < Z.of_nat fw -> Z.of_nat (length b) - p s < Z.of_nat fs ->
  p ww = 0 -> p ss = 0 ->
  value_loop cb (S (length cb)) 0 (header_state (parser ww)) ww = value_loop cb fw 0 h w ->
  value_loop b (S (length b)) 0 (header_state (parser ss)) ss = value_loop b fs 0 h s ->
  rel (do_value cb) ww (do_value b) ss (fun _ w' _ s' => tied1 w' s') both1.
Proof.
  intros Hn Hws Hp Hfw Hfs Hpw Hps Hlw Hls. pose proof b_size.
  assert (Hpart : part_tie ([c] ++ b) b 1 c header_value 0 (Some 0) (Some 0) u (given header_value [c] u)) by
    (by apply part_behind).
  refine (rel_eq _ (let! h := value_loop cb fw 0 h in after_value max_header_size cb 0 h)
            _ (let! h := value_loop b fs 0 h in after_value max_header_size b 0 h) ww w ss s _ _ _ _ _).
  - rewrite do_value_eq, Hpw. unfold ebind. by rewrite Hlw.
  - rewrite do_value_eq, Hps. unfold ebind. by rewrite Hls.
  - apply rel_bind. eapply rel_mono.
    + apply (header_value_loop_tied max_header_size ltac:(lia) lenient [c] b c (2 ^ 32) l0 a0 ltac:(lia)
        t0 hw hs n0 n (n + 1) 0 0 u (given header_value [c] u) 0 0 0 ltac:(lia) Hpart ltac:(cbn; lia)); [exact Hws|lia|lia|lia].
    + intros h1 w' h2 s' [-> Hend].
      apply (after_value_tied max_header_size [c] b c (2 ^ 32) l0 a0 ltac:(lia)
        t0 hw hs n0 n (n + 1) 0 0 u (given header_value [c] u) 0 0 0 ltac:(lia) Hpart ltac:(cbn; lia)). exact Hend.
Qed.

Section Value_cross.
Variable t0 : state.
Variable n0 n cw : Z.
Variable u : U.
Variable x : http_parser.
Hypothesis Hn : 0 <= n <= N.
Hypothesis Hbits : lenient_http_headers x = l0 /\ allow_chunked_length x = a0.
Hypothesis He : errno_ x = HPE_OK.

Let w := Exec (stale t0 n0 x) s_header_value n 0 cw None (Some 0) None None None u.
Let s := Exec x s_header_value n 0 cw None (Some 0) None None None u.

Lemma set_hs_same y : y = set_header_state (fun _ => header_state y) y.
Proof. by destruct y. Qed.

#[local] Abbreviation rest_of data f :=
  (let! h := header_value_char max_header_size lenient data c (LOWER c) (header_state x) in
   add_p 1;! value_loop data f 0 h).
#[local] Abbreviation turn data f := (value_turn (reader data) max_header_size lenient (0 - 0) c (header_state x) (rest_of data f)).

Lemma loop_cb : value_loop cb (S (length cb)) 0 (header_state x) w = turn cb (length cb) (with_ch c w).
Proof. apply value_loop_turn; [cbn; lia|done]. Qed.
Lemma loop_c : value_loop [c] 2 0 (header_state x) s = turn [c] 1%nat (with_ch c s).
Proof. apply value_loop_turn; [cbn; lia|done]. Qed.

Lemma do_value_cb : do_value cb w = (let! h := turn cb (length cb) in after_value max_header_size cb 0 h) (with_ch c w).
Proof.
  rewrite do_value_eq. change (p w) with 0. change (header_state (parser w)) with (header_state x).
  unfold ebind at 1. by rewrite loop_cb.
Qed.
Lemma do_value_c : do_value [c] s = (let! h := turn [c] 1%nat in after_value max_header_size [c] 0 h) (with_ch c s).
Proof.
  rewrite do_value_eq. change (p s) with 0. change (header_state (parser s)) with (header_state x).
  unfold ebind at 1. change (S (length [c])) with 2%nat. by rewrite loop_c.
Qed.

Lemma value_over : value_byte lenient c = false -> rel (do_value cb) w (do_value [c]) s (fun _ w' _ s' => tied0 w' s') both0.
Proof.
  intros Hc. eapply rel_eq; [exact do_value_cb|exact do_value_c|]. apply rel_bind.
  assert (Hu : u32 (n + (0 - 0)) <= N) by (rewrite u32_small; lia).
  pose proof (value_turn_tied max_header_size lenient cb [c] 0 c N l0 a0 byte_slice (header_state x) c
    (rest_of cb (length cb)) (rest_of [c] 1%nat) t0 n0 n n (0 - 0) (0 - 0) (header_state x) (header_state x) 0 0 u u x 0 0) as Ht.
  rewrite <- (set_hs_same x) in Ht. apply Ht;
    [apply Hbits|apply Hbits|lia|cbn; lia|exact (part_step cb [c] 0 c header_value 0 0 u ltac:(lia))|done|exact Hu| |].
  - intros y x' u' Hpub [Hl Ha].
    apply (after_value_cr max_header_size cb [c] 0 c N l0 a0); [done|done|done|cbn; lia|done|done|exact Hu].
  - intros Hcr Hlf Hbad. exfalso. unfold value_byte, value_ends, value_bad in Hc. by rewrite Hcr, Hlf, Hbad in Hc.
Qed.

(** From where both have read the byte, with the parser at [y], and the header
    state [h] *)
Lemma value_on y h hw c1 :
  lenient_http_headers y = l0 /\ allow_chunked_length y = a0 -> errno_ y = HPE_OK ->
  do_value [c] s = Break (with_mark header_value (Some 0)
    (Exec (set_header_state (fun _ => h) y) s_header_value n 0 c1 None None None None None u)) ->
  (forall d, exists w1 s1 fw fs,
    value_at 1 l0 a0 t0 hw h n0 n (n + 1) 0 0 u (given header_value [c] u) w1 s1 /\ 0 <= p s1 <= Z.of_nat (length b) /\
    Z.of_nat (length b) - p s1 < Z.of_nat fw /\ Z.of_nat (length b) - p s1 < Z.of_nat fs /\
    value_loop cb (S (length cb)) 0 (header_state x) w = value_loop cb fw 0 h w1 /\
    value_loop b (S (length b)) 0 h
      (with_ch d (with_nread (fun _ => n + 1) (resumed header_value s_header_value n (set_header_state (fun _ => h) y) u)))
      = value_loop b fs 0 h s1) ->
  crosses header_value s_header_value (do_value cb) (do_value [c]) (do_value b) w s.
Proof.
  intros Hby Hey Hc Hrest. exists (set_header_state (fun _ => h) y), c1. split; [exact Hby|]. split; [exact Hc|].
  destruct (next_b s_header_value n (set_header_state (fun _ => h) y) u header_value Hn) as [d Hd].
  destruct (Hrest d) as (w1 & s1 & fw & fs & Hat & Hp & Hfw & Hfs & Hw & Hs).
  eapply rel_eq; [reflexivity|unfold ebind; change (nread s) with n; change (user s) with u; rewrite Hd; reflexivity|].
  refine (value_rest t0 hw h n0 n u w1 s1 fw fs w _ h Hn Hat Hp Hfw Hfs eq_refl _ Hw Hs). reflexivity.
Qed.

(** An ordinary value *)
Lemma value_general :
  value_byte lenient c = true -> header_state x = h_general ->
  crosses header_value s_header_value (do_value cb) (do_value [c]) (do_value b) w s.
Proof.
  intros Hc Hg. pose proof b_size. destruct (stop_one (value_byte lenient) Hc) as [Hone Hstop].
  destruct (header_value_loop_general (reader [c]) max_header_size lenient [c] ltac:(cbn; lia) 2 0 s) as [c1 Hs]; [cbn; lia..|].
  apply (value_on x h_general (header_state x) c1 Hbits He).
  - rewrite do_value_eq. change (p s) with 0. change (header_state (parser s)) with (header_state x). rewrite Hg.
    unfold ebind at 1. change (S (length [c])) with 2%nat. rewrite (Hs O). change (p s) with 0. rewrite Hone.
    exact (value_byte_alone x n c1 u _ 1 h_general Hn eq_refl ltac:(lia)).
  - intros d. rewrite Hg.
    destruct (header_value_loop_general (reader cb) max_header_size lenient cb ltac:(simpl; lia) (S (length cb)) 0 w)
      as [c2 Hw]; [cbn; lia|cbn; lia|].
    destruct (header_value_loop_general (reader b) max_header_size lenient b ltac:(lia) (S (length b)) 0
      (with_ch d (with_nread (fun _ => n + 1)
        (resumed header_value s_header_value n (set_header_state (fun _ => h_general) x) u))))
      as [c3 Hs']; [cbn; lia|cbn; lia|].
    pose proof (stop_range (value_byte lenient) b 0) as Hr.
    eexists _, _, (S (length cb)), (S (length b)).
    refine (conj _ (conj _ (conj _ (conj _ (conj (Hw _) (Hs' _)))))).
    + change (p w) with 0. rewrite Hstop, <- Hg. exact (value_at_intro 1 l0 a0 t0 (header_state x) (header_state x)
        n0 n (n + 1) 0 0 u (given header_value [c] u) (stale s_header_value n x) _ _ _ Hbits He).
    + cbn. lia.
    + cbn. lia.
    + cbn. lia.
Qed.

(** A value the parser looks into *)
Lemma value_looking :
  value_byte lenient c = true -> header_state x <> h_general ->
  rel (do_value cb) w (do_value [c]) s (fun _ w' _ s' => tied0 w' s') both0 \/
  crosses header_value s_header_value (do_value cb) (do_value [c]) (do_value b) w s.
Proof.
  intros Hc Hg.
  pose proof (value_at_intro 0 l0 a0 t0 (header_state x) (header_state x) n0 n n 0 0 u u x 0 c c Hbits He) as Hat.
  rewrite <- (set_hs_same x) in Hat.
  pose proof (header_value_char_tied max_header_size lenient 0 l0 a0 t0 (header_state x) (header_state x) n0 n n 0 0 u u
    both0 ltac:(intros; by split) cb [c] c (LOWER c) (header_state x) _ _
    (fun h w' h' s' => h = h' /\ value_at 0 l0 a0 t0 (header_state x) (header_state x) n0 n n 0 0 u u w' s' /\ p s' = 0)
    Hat Hg ltac:(intros h w' s' [Hn1 Hn2 _]; done)) as Hchar.
  destruct (rel_or _ _ _ _ _ _ Hchar) as [(h & w1 & h2 & s1 & Hw1 & Hs1 & -> & Hat1 & Hp1)|Hor]; clear Hchar Hat.
  - right. remember w1 as w2 eqn:Hw2. remember s1 as s2 eqn:Hs2.
    destruct Hat1 as [y i d1 d2 Hby Hey]. cbn [p] in Hp1. subst i.
    apply (value_on (set_header_state (fun _ => header_state x) y) h2 (header_state x) d2 Hby Hey).
    + rewrite do_value_c. rewrite value_turn_byte, ebind_assoc by done. unfold ebind at 1, add_p.
      change (with_ch c s) with (Exec x s_header_value n 0 c None (Some 0) None None None u). rewrite Hs1, ebind_assoc, ebind_upd.
      exact (value_byte_alone _ n d2 u _ 1 h2 Hn eq_refl ltac:(lia)).
    + intros d. eexists _, _, (length cb), (S (length b)). refine (conj _ (conj _ (conj _ (conj _ (conj _ eq_refl))))).
      2-4: cbn; lia.
      2: { rewrite loop_cb, value_turn_byte by done. unfold ebind at 1, add_p.
        change (with_ch c w) with (Exec (stale t0 n0 x) s_header_value n (0 + 0) c None (Some 0) None None None u).
        rewrite Hw1, ebind_upd. reflexivity. }
      exact (value_at_intro 1 l0 a0 t0 (header_state x) h2 n0 n (n + 1) 0 0 u (given header_value [c] u)
        (stale s_header_value n y) 0 _ _ Hby Hey).
  - left. eapply rel_eq; [exact do_value_cb|exact do_value_c|].
    rewrite !value_turn_byte by done. apply rel_bind. exact (Hor _ _ _ _ _).
Qed.

Lemma value_crosses :
  rel (do_value cb) w (do_value [c]) s (fun _ w' _ s' => tied0 w' s') both0 \/
  crosses header_value s_header_value (do_value cb) (do_value [c]) (do_value b) w s.
Proof.
  destruct (value_byte lenient c) eqn:Hc; [|left; by apply value_over].
  destruct (decide (header_state x = h_general)) as [Hg|Hg]; [right; by apply value_general|by apply value_looking].
Qed.
End Value_cross.
End Cross.
