(* ===== verification/HttpRuns.v ===== *)
(** The loop of [http_parser_execute] as a relation between the locals it starts
    from and how it ends, without fuel. *)
From S2P Require Import Prelude HttpTypes HttpUrl HttpExec HttpStates HttpHeaders HttpParser HttpLogic HttpSafe HttpTotal.

Local Open Scope Z_scope.
Local Open Scope exec_scope.
#[local] Arguments Z.add : simpl never.
#[local] Arguments Z.sub : simpl never.

(** The loop goes through the buffer, or a call returns from inside it. *)
Inductive ending (U : Type) := Through (s : exec U) | Stopped (v : Z) (s : exec U).
Arguments Through {U} s.
Arguments Stopped {U} v s.

Section Run.
Context {U : Type}.
Variable strict : bool.
Variable settings : http_parser_settings U.
Variable max_header_size : Z.
Variable lenient allow_chunked_length_ : bool.
Variable data : list Z.
Implicit Types (s : exec U) (e : ending U).

Let size := Z.of_nat (length data).

(** One turn of the loop *)
Definition turn (fresh : bool) : E U unit :=
  (if fresh then next_byte max_header_size data else done tt);!
  let! st := look p_state in
  dispatch strict settings max_header_size lenient allow_chunked_length_ data st.

Definition advance s : exec U := with_p (fun i => i + 1) s.

Definition more (fresh : bool) s : Prop := fresh = false \/ p s <> size.

Inductive run : bool -> exec U -> ending U -> Prop :=
| run_end s : p s = size -> run true s (Through s)
| run_next fresh s s' e :
    more fresh s -> turn fresh s = Value tt s' \/ turn fresh s = Break s' -> run true (advance s') e -> run fresh s e
| run_again fresh s s' e : more fresh s -> turn fresh s = Reexecute s' -> run false s' e -> run fresh s e
| run_error fresh s s' v s'' :
    more fresh s -> turn fresh s = GotoError s' -> error_label s' = Return v s'' -> run fresh s (Stopped v s'')
| run_return fresh s v s' : more fresh s -> turn fresh s = Return v s' -> run fresh s (Stopped v s').

(** What is returned after an ending *)
Definition outcome_of e : outcome (Z * exec U) :=
  match e with
  | Through s => returned (leftovers settings data s)
  | Stopped v s => Done (v, s)
  end.

Lemma error_label_eq s :
  exists s', error_label s = Return (p s) s' /\
    errno_ (parser s') = if decide (errno_ (parser s) = HPE_OK) then HPE_UNKNOWN else errno_ (parser s).
Proof.
  unfold error_label, ebind, look, ewhen. case_decide as He.
  - rewrite bool_decide_true by done. by eexists.
  - rewrite bool_decide_false by done. by eexists.
Qed.

Lemma more_dec fresh s : fresh && (p s =? size) = false -> more fresh s.
Proof. intros Hf. destruct fresh; [right|by left]. by apply Z.eqb_neq. Qed.

Lemma loop_run fuel fresh s v s' :
  loop strict settings max_header_size lenient allow_chunked_length_ data fuel fresh s = Done (v, s') ->
  exists e, run fresh s e /\ outcome_of e = Done (v, s').
Proof.
  revert fresh s. induction fuel as [|fuel IH]; intros fresh s; [done|]. cbn [loop]. fold size.
  destruct (fresh && (p s =? size)) eqn:Hend.
  - apply andb_true_iff in Hend as [-> Hend]. apply Z.eqb_eq in Hend. intros Hl. exists (Through s).
    split; [by constructor|done].
  - apply more_dec in Hend. fold (turn fresh). destruct (turn fresh s) as [[] s1|s1|s1|s1|v1 s1|f] eqn:Ht; intros Hl.
    + destruct (IH _ _ Hl) as (e & He & Ho). exists e. split; [|done]. eapply run_next; eauto.
    + destruct (IH _ _ Hl) as (e & He & Ho). exists e. split; [|done]. eapply run_next; eauto.
    + destruct (IH _ _ Hl) as (e & He & Ho). exists e. split; [|done]. eapply run_again; eauto.
    + destruct (error_label_eq s1) as (s2 & Herr & _). rewrite Herr in Hl. injection Hl as <- <-.
      eexists. split; [by eapply run_error|done].
    + injection Hl as <- <-. eexists. split; [by eapply run_return|done].
    + done.
Qed.

Lemma not_more s : p s = size -> ~ more true s.
Proof. intros Hp [Hf|Hne]; done. Qed.

Lemma run_det fresh s e1 e2 : run fresh s e1 -> run fresh s e2 -> e1 = e2.
Proof.
  intros Hr1. revert e2. induction Hr1 as [s Hp|fresh s s1 e Hm Ht _ IH|fresh s s1 e Hm Ht _ IH|fresh s s1 v s2 Hm Ht He
    |fresh s v s1 Hm Ht]; intros e2 Hr2; inversion Hr2 as [? Hq|? ? s3 ? Hm3 Ht3 Hr|? ? s3 ? Hm3 Ht3 Hr|? ? s3 v3 s4 Hm3 Ht3 He3
    |? ? ? s3 Hm3 Ht3]; subst; try (by destruct (not_more _ ltac:(eassumption))); try done;
    repeat match goal with H : _ \/ _ |- _ => destruct H end; try congruence;
    (assert (s1 = s3) by congruence); subst; first [by apply IH|congruence].
Qed.

(** A run depends only on what its first turn leads to. *)
Lemma run_first f1 s1 f2 s2 e :
  turn f1 s1 = turn f2 s2 -> more f1 s1 -> more f2 s2 -> run f1 s1 e -> run f2 s2 e.
Proof.
  intros Heq Hm1 Hm2 Hr. inversion Hr as [? Hp|? ? s3 ? _ Ht Hr'|? ? s3 ? _ Ht Hr'|? ? s3 v s4 _ Ht He|? ? v s3 _ Ht]; subst.
  - by apply not_more in Hm1.
  - rewrite Heq in Ht. by eapply run_next.
  - rewrite Heq in Ht. by eapply run_again.
  - rewrite Heq in Ht. by eapply run_error.
  - rewrite Heq in Ht. by eapply run_return.
Qed.
End Run.
