(* ===== verification/HttpSplit.v ===== *)
(** Two calls of [http_parser_execute], with the parts of a buffer, do what one
    call does with all of it. *)
From S2P Require Import Prelude HttpTypes HttpUrl HttpExec HttpStates HttpHeaders HttpParser HttpLogic HttpSafe HttpTotal HttpRuns HttpScan HttpRel HttpTied HttpTiedCases HttpTiedHeaders HttpTiedValues HttpCross.

Local Open Scope Z_scope.
Local Open Scope exec_scope.
#[local] Arguments Z.add : simpl never.
#[local] Arguments Z.sub : simpl never.

(** ** The dispatch *)

(** The states whose case reads on past the byte at [p] *)
Definition bulk (st : state) : bool :=
  match st with
  | s_header_field | s_header_value | s_chunk_data | s_body_identity | s_body_identity_eof => true
  | _ => false
  end.

Create HintDb http_tied discriminated.
#[export] Hint Resolve do_dead_tied do_start_req_or_res_tied do_res_or_resp_H_tied do_start_res_tied
  expect_tied do_http_major_tied do_http_dot_tied do_http_minor_tied do_res_http_end_tied
  do_res_first_status_code_tied do_res_status_code_tied do_res_status_start_tied do_start_req_tied
  do_req_method_tied do_req_http_start_tied do_req_http_end_tied do_req_line_almost_done_tied
  do_header_field_start_tied do_header_value_start_tied do_header_value_discard_ws_tied do_header_value_lws_tied
  do_header_almost_done_tied do_headers_almost_done_tied do_headers_done_tied do_message_done_tied
  do_chunk_size_start_tied do_chunk_size_tied do_chunk_parameters_tied do_chunk_size_almost_done_tied
  do_chunk_data_done_tied do_res_status_tied do_header_value_discard_lws_tied do_req_spaces_before_url_tied
  do_req_schema_tied do_req_url_tied do_chunk_data_almost_done_tied do_chunk_data_tied do_body_identity_tied
  do_body_identity_eof_tied do_header_field_tied do_header_value_tied : http_tied.
#[export] Hint Extern 1 (_ <> s_message_done) => discriminate : http_tied.
#[export] Hint Extern 1 (forall m, mark_state m _ = false) => (by intros []) : http_tied.
#[export] Hint Extern 1 (forall m, token_state m _ = false) => (by intros []) : http_tied.
#[export] Hint Extern 1 (mark_state _ _ = true) => reflexivity : http_tied.

Section Dispatch.
Context {U : Type} `{ReaderLaws U}.
Variable strict : bool.
Variable max_header_size : Z.
Variable lenient allow_chunked_length_ : bool.

Lemma dispatch_plain_tied dw ds k c0 N l0 a0 st :
  0 <= k -> 0 <= N ->
  (forall i n, 0 <= i -> 0 <= n -> i + n <= Z.of_nat (length ds) -> slice dw (i + k) n = slice ds i n) ->
  bulk st = false ->
  case_tied max_header_size dw ds k c0 N l0 a0 st
    (dispatch strict (reader dw) max_header_size lenient allow_chunked_length_ dw st)
    (dispatch strict (reader ds) max_header_size lenient allow_chunked_length_ ds st).
Proof. intros Hk HN Hslice Hb. destruct st; cbn [dispatch]; try discriminate; eauto with http_tied. Qed.

Lemma dispatch_tied pre ds c0 N l0 a0 st :
  0 < max_header_size -> 2 ^ 32 <= N ->
  case_tied max_header_size (pre ++ ds) ds (Z.of_nat (length pre)) c0 N l0 a0 st
    (dispatch strict (reader (pre ++ ds)) max_header_size lenient allow_chunked_length_ (pre ++ ds) st)
    (dispatch strict (reader ds) max_header_size lenient allow_chunked_length_ ds st).
Proof.
  intros Hmax HN. destruct (bulk st) eqn:Hb.
  - pose proof (suffix_slice pre ds) as Hslice. pose proof (suffix_length pre ds) as Hlen.
    destruct st; try discriminate; cbn [dispatch].
    + by apply do_header_field_tied.
    + by apply do_header_value_tied.
    + by apply do_chunk_data_tied.
    + by apply do_body_identity_tied.
    + by apply do_body_identity_eof_tied.
  - apply dispatch_plain_tied; [lia|lia|apply suffix_slice|done].
Qed.

(** With a byte alone and with more, in the cases that read on *)
Definition bulk_part (st : state) : part :=
  match st with s_header_field => header_field | s_header_value => header_value | _ => body end.

#[local] Abbreviation dispatch_on data := (dispatch strict (reader data) max_header_size lenient allow_chunked_length_ data).

Lemma dispatch_byte c b N l0 a0 w s :
  b <> [] -> N + Z.of_nat (length b) <= max_header_size -> 1 <= N -> max_header_size < 2 ^ 32 ->
  inv max_header_size (fun _ => True) w -> tied_again (c :: b) [c] 0 c N l0 a0 w s -> p s = 0 ->
  (forall f, dispatch_on [c] (p_state s) s <> Stuck f) ->
  rel (dispatch_on (c :: b) (p_state s)) w (dispatch_on [c] (p_state s)) s
    (fun _ w' _ s' => tied (c :: b) [c] 0 c N l0 a0 w' s') (both (c :: b) [c] 0 c N l0 a0) \/
  mark_state (bulk_part (p_state s)) (p_state s) = true /\
  crosses max_header_size c b l0 a0 (bulk_part (p_state s)) (p_state s) (dispatch_on (c :: b) (p_state s))
    (dispatch_on [c] (p_state s)) (dispatch_on b (p_state s)) w s.
Proof.
  intros Hb HN HN1 Hmax Hw Hws Hp Hstuck. destruct (bulk (p_state s)) eqn:Hbulk.
  - destruct (part_shape max_header_size (c :: b) [c] 0 c N l0 a0 (bulk_part (p_state s)) (p_state s) w s) as
      (x & t0 & n0 & n & cw & ow & os & uw & us & Hw' & Hs' & Hn & Hbits & He & Hok & Hf & Hpart & Htok & Hsome);
      [by intros Heq; rewrite Heq in Hbulk|by destruct (p_state s); try done; intros []|done|done|done|].
    remember (p_state s) as st eqn:Hst. clear Hst. rewrite Hp in Hw', Hs', Hpart.
    assert (Hsame : ow = os /\ uw = us /\ (os = None \/ os = Some 0)).
    { destruct Hpart as [u|j u Hj|u Hk|u Hk]; [| |lia|lia].
      - split_and!; [done|done|by left].
      - assert (j = 0) as -> by lia. split_and!; [done|done|by right]. }
    destruct Hsame as (-> & -> & Ho). subst w s.
    destruct st; try discriminate; cbn [dispatch bulk_part] in *;
      match goal with |- ?P \/ _ /\ ?Q => cut (P \/ Q); [by intros [?|?]; [left|right]|] end.
    + destruct Ho as [->| ->]; [by destruct Htok|]. by apply field_crosses with (N := N).
    + destruct Ho as [->| ->]; [by destruct Htok|]. by apply value_crosses with (N := N).
    + destruct Hok as [Hfl Hlok]. by apply chunk_crosses with (N := N).
    + by apply identity_crosses with (N := N).
    + right. by apply eof_crosses with (N := N).
  - left. apply dispatch_plain_tied; try done; [lia|apply byte_slice|cbn; lia].
Qed.
End Dispatch.

(** ** Runs *)

Section Runs.
Context {U : Type} `{ReaderLaws U}.
Variable strict : bool.
Variable max_header_size : Z.
Variable lenient allow_chunked_length_ : bool.
Implicit Types (w s : exec U) (e : ending U).

#[local] Abbreviation turn_on data := (turn strict (reader data) max_header_size lenient allow_chunked_length_ data).
#[local] Abbreviation run_on data := (run strict (reader data) max_header_size lenient allow_chunked_length_ data).
#[local] Abbreviation ok data := (loop_ok max_header_size (fun _ => True) data).

(** What a turn of a loop that may go on leads to *)
Lemma turn_ok data fresh s :
  ok data fresh s -> more data fresh s ->
  let rests s' := ok data true (advance s') /\ inv max_header_size (fun _ => True) s' /\ 0 <= p s' in
  spec (turn_on data fresh) s (fun _ s' => rests s')
    (Post rests (fun s' => ok data false s') (fun _ => True)
      (fun _ s' => errno_ (parser s') = HPE_OK -> upgrade (parser s') <> 0)).
Proof.
  intros Hs Hm rests. assert (Hi : 0 <= p s) by (destruct Hs as [_ Hs], fresh; lia).
  assert (Hlt : fresh = false \/ p s < Z.of_nat (length data)).
  { destruct Hm as [?|Hm]; [by left|]. destruct fresh; [right|by left]. destruct Hs as (_ & _ & ?). lia. }
  assert (Hmax : 0 <= max_header_size <= max_header_size) by (destruct Hs as [[[] _] _]; lia).
  pose proof (step_ok strict (reader data) max_header_size max_header_size Hmax (fun _ => True) lenient allow_chunked_length_ data
    (reader_ok data _) fresh s Hs Hlt) as Hstep.
  unfold spec in *. fold (turn strict (reader data) max_header_size lenient allow_chunked_length_ data fresh) in Hstep.
  destruct (turn_on data fresh s) as [[] s'|s'|s'|s'|v s'|f]; try done.
  - split; [by eapply next_ok|]. destruct Hstep as (Hinv & _ & ?). split; [done|lia].
  - split; [by eapply next_ok|]. destruct Hstep as (Hinv & _ & ?). split; [done|lia].
  - destruct Hstep as (Hinv & Hne & Hp & _). split; [done|]. split; [by intros|lia].
  - destruct Hstep as (_ & _ & Hx & _). exact Hx.
Qed.

Section Pair.
Variable dw ds : list Z.
Variable k c0 N l0 a0 : Z.
#[local] Abbreviation tied := (tied dw ds k c0 N l0 a0).
#[local] Abbreviation tied_again := (tied_again dw ds k c0 N l0 a0).
#[local] Abbreviation both := (both dw ds k c0 N l0 a0).

Lemma advance_tied w s : 0 <= p s -> tied w s -> tied (advance w) (advance s).
Proof.
  intros Hi [Hpub Hst Hn HnN Hp Hb Hin Hfull Hu]. split; [done|done|done|done|cbn; lia|done|..].
  - intros m j Hj. assert (Hj' : 0 <= j <= p s) by (apply (Hin m); by destruct m). cbn. lia.
  - intros m Hm. specialize (Hfull m Hm). by destruct m.
  - destruct Hu as [Hm Hu|m Hk Hdw Hw Hs Ho Hu].
    + apply in_step; [|done]. intros m. specialize (Hm m). by destruct m.
    + by apply (behind _ _ _ _ _ _ m).
Qed.

(** Two loops about to turn, or to end *)
Definition sim (fresh : bool) w s : Prop :=
  ok dw fresh w /\ ok ds fresh s /\ if fresh then tied w s else tied_again w s.

(** How two loops end *)
Definition ends_tied (ew e : ending U) : Prop :=
  match ew, e with
  | Through w, Through s => sim true w s /\ p s = Z.of_nat (length ds)
  | Stopped v' w, Stopped v s => tied_return k v' w v s
  | _, _ => False
  end.

(** After one turn of each that keeps them tied *)
Lemma turn_sim fw fs w s :
  ok dw fw w -> more dw fw w -> ok ds fs s -> more ds fs s ->
  rel (turn_on dw fw) w (turn_on ds fs) s (fun _ w' _ s' => tied w' s') both ->
  match turn_on ds fs s with
  | Value _ s' | Break s' => exists w', (turn_on dw fw w = Value tt w' \/ turn_on dw fw w = Break w') /\
                               sim true (advance w') (advance s')
  | Reexecute s' => exists w', turn_on dw fw w = Reexecute w' /\ sim false w' s'
  | GotoError s' => exists w', turn_on dw fw w = GotoError w' /\ tied_error k w' s'
  | Return v s' => exists v' w', turn_on dw fw w = Return v' w' /\ tied_return k v' w' v s'
  | Stuck _ => False
  end.
Proof.
  intros Hw Hmw Hs Hms Hrel. pose proof (turn_ok dw fw w Hw Hmw) as Ht. pose proof (turn_ok ds fs s Hs Hms) as Ht'.
  unfold rel, spec in *.
  destruct (turn_on dw fw w) as [[] w'|w'|w'|w'|v' w'|f], (turn_on ds fs s) as [[] s'|s'|s'|s'|v s'|f']; try done;
    cbn in Ht, Ht', Hrel.
  - exists w'. split; [by left|]. destruct Ht as [Ht _], Ht' as (Ht' & _ & ?). do 2 (split; [done|]). by apply advance_tied.
  - exists w'. split; [by right|]. destruct Ht as [Ht _], Ht' as (Ht' & _ & ?). do 2 (split; [done|]). by apply advance_tied.
  - exists w'. by split.
  - by exists w'.
  - by exists v', w'.
Qed.
End Pair.

(** *** In step *)

Section In_step.
Variable pre ds : list Z.
Variable c0 N l0 a0 : Z.
Hypothesis Hmax : 0 < max_header_size.
Hypothesis HN : 2 ^ 32 <= N.

Let dw := pre ++ ds.
Let k := Z.of_nat (length pre).
#[local] Abbreviation tied := (tied dw ds k c0 N l0 a0).
#[local] Abbreviation both := (both dw ds k c0 N l0 a0).
#[local] Abbreviation sim := (sim dw ds k c0 N l0 a0).

Lemma read_tied d f w s :
  (f = (fun n => n) \/ f = (fun n => u32 (n + u32 1))) -> tied w s ->
  tied (with_nread f (with_ch d w)) (with_nread f (with_ch d s)).
Proof.
  intros Hf [Hpub Hst Hn HnN Hp Hb Hin Hfull Hu]. split; [done|done|cbn; by rewrite Hn| |done|done|..].
  - cbn. destruct Hf as [->| ->]; [done|]. pose proof (u32_range (nread s + u32 1)). lia.
  - intros m j Hj. apply (Hin m). by destruct m.
  - intros m Hm. specialize (Hfull m Hm). by destruct m.
  - destruct Hu as [Hm Hu|m Hk Hdw Hw Hs Ho Hu]; [|by apply (behind _ _ _ _ _ _ m)].
    apply in_step; [|done]. intros m. specialize (Hm m). by destruct m.
Qed.

Lemma turn_tied fresh w s :
  sim fresh w s -> more ds fresh s ->
  rel (turn_on dw fresh) w (turn_on ds fresh) s (fun _ w' _ s' => tied w' s') both.
Proof.
  intros (Hw & Hs & Hws) Hm. unfold turn. apply rel_bind.
  assert (Hgo : forall w' s', inv max_header_size (fun _ => True) w' -> tied_again dw ds k c0 N l0 a0 w' s' ->
    0 <= p s' < Z.of_nat (length ds) ->
    rel (let! st := look p_state in dispatch strict (reader dw) max_header_size lenient allow_chunked_length_ dw st) w'
        (let! st := look p_state in dispatch strict (reader ds) max_header_size lenient allow_chunked_length_ ds st) s'
        (fun _ w' _ s' => tied w' s') both).
  { intros w' s' Hinv Ht Hp. apply rel_bind, rel_look. replace (p_state w') with (p_state s') by (symmetry; apply Ht).
    by apply (dispatch_tied strict max_header_size lenient allow_chunked_length_ pre ds c0 N l0 a0). }
  destruct fresh.
  - destruct Hw as (Hinv & Hc & _). destruct Hs as (_ & _ & Hps). destruct Hm as [|Hm]; [done|].
    assert (Hpw : p w = p s + k) by apply Hws. assert (Hlen : Z.of_nat (length dw) = Z.of_nat (length ds) + k) by apply suffix_length.
    assert (Hspec : spec (next_byte max_header_size dw) w (fun _ w' => inv max_header_size (fun _ => True) w')
      (ends max_header_size (fun _ => True) (Z.of_nat (length dw)) (p w) 0)).
    { apply spec_next_byte; [lia|done|done|lia|]. by intros s' Hs'. }
    eapply rel_mono; [apply (rel_spec _ _ _ _ (fun _ w' _ s' => tied_again dw ds k c0 N l0 a0 w' s' /\ p s' = p s) _ _ _ Hspec)|].
    + apply next_byte_tied; [apply Hws|apply Hws|done|lia|]. intros d f Hf. split.
      * split; [split; [by apply read_tied|by left]|done].
      * split; [reflexivity|]. exact Hpw.
    + intros _ w' _ s' [Hinv' [Ht Hp]]. apply Hgo; [done|done|lia].
  - apply rel_done. destruct Hw as (Hinv & _), Hs as (_ & _ & Hp). by apply Hgo.
Qed.

Lemma error_sim w' s' v s'' :
  tied_error k w' s' -> error_label s' = Return v s'' ->
  exists v' w'', error_label w' = Return v' w'' /\ tied_return k v' w'' v s''.
Proof.
  intros [He Hp] Hs. destruct (error_label_eq w') as (w2 & Hw2 & Hew). destruct (error_label_eq s') as (s2 & Hs2 & Hes).
  rewrite Hs2 in Hs. injection Hs as <- <-. exists (p w'), w2. split; [done|]. split; [done|].
  rewrite Hew, Hes, He. split; [done|]. case_decide; congruence.
Qed.

Lemma run_in_step fresh w s e :
  run_on ds fresh s e -> sim fresh w s -> exists ew, run_on dw fresh w ew /\ ends_tied dw ds k c0 N l0 a0 ew e.
Proof.
  intros Hrun. revert w. assert (Hlen : Z.of_nat (length dw) = Z.of_nat (length ds) + k) by apply suffix_length.
  assert (Hmore : forall fresh w s, sim fresh w s -> more ds fresh s -> more dw fresh w).
  { intros fr w s' (_ & _ & Hws) [->|Hm]; [by left|]. destruct fr; [right|by left].
    assert (p w = p s' + k) by apply Hws. lia. }
  assert (Hturn : forall fresh w s, sim fresh w s -> more ds fresh s -> _) by
    (intros fr w s' Hws Hm; exact (turn_sim dw ds k c0 N l0 a0 fr fr w s' (proj1 Hws) (Hmore _ _ _ Hws Hm)
       (proj1 (proj2 Hws)) Hm (turn_tied _ _ _ Hws Hm))).
  induction Hrun as [s Hp|fresh s s1 e Hm Ht _ IH|fresh s s1 e Hm Ht _ IH|fresh s s1 v s2 Hm Ht He
    |fresh s v s1 Hm Ht]; intros w Hws; try specialize (Hturn _ _ _ Hws Hm).
  - exists (Through w). split; [|done]. apply run_end. assert (p w = p s + k) by apply Hws. lia.
  - assert (Hcase : exists w', (turn_on dw fresh w = Value tt w' \/ turn_on dw fresh w = Break w') /\
      sim true (advance w') (advance s1)) by (destruct Ht as [Ht|Ht]; rewrite Ht in Hturn; exact Hturn).
    destruct Hcase as (w' & Hw' & Hws'). destruct (IH _ Hws') as (ew & Hew & Htied).
    exists ew. split; [|done]. eapply run_next; [by eapply Hmore|exact Hw'|exact Hew].
  - rewrite Ht in Hturn. destruct Hturn as (w' & Hw' & Hws'). destruct (IH _ Hws') as (ew & Hew & Htied).
    exists ew. split; [|done]. eapply run_again; [by eapply Hmore|exact Hw'|exact Hew].
  - rewrite Ht in Hturn. destruct Hturn as (w' & Hw' & Herr). destruct (error_sim _ _ _ _ Herr He) as (v' & w2 & Hl & Hret).
    exists (Stopped v' w2). split; [|done]. eapply run_error; [by eapply Hmore|exact Hw'|exact Hl].
  - rewrite Ht in Hturn. destruct Hturn as (v' & w' & Hw' & Hret).
    exists (Stopped v' w'). split; [|done]. eapply run_return; [by eapply Hmore|exact Hw'].
Qed.
End In_step.
End Runs.
