(* ===== verification/HttpHandover.v ===== *)
(** Between two calls: what a call gives its user at the end of its buffer, how
    the next one enters the loop, and that this makes no difference. *)
From S2P Require Import Prelude HttpTypes HttpUrl HttpExec HttpStates HttpHeaders HttpParser HttpLogic HttpSafe HttpTotal HttpRuns HttpScan HttpRel HttpTied HttpTiedCases HttpCross HttpSplit.

Local Open Scope Z_scope.
Local Open Scope exec_scope.
#[local] Arguments Z.add : simpl never.
#[local] Arguments Z.sub : simpl never.

(** ** The end of a buffer *)

Section Leftovers.
Context {U : Type} `{Reader U}.
Implicit Types (s : exec U).

Lemma data_eq data m fin er s :
  errno_ (parser s) = HPE_OK ->
  CALLBACK_DATA_ (reader data) m fin er s = Value tt
    match mark_of m s with
    | Some j => with_mark m None (called (p_state s) (given m (slice data j (fin - j)) (user s)) s)
    | None => s
    end.
Proof.
  intros He. unfold CALLBACK_DATA_, assert_no_errno.
  rewrite ebind_assoc, ebind_look, ebind_assert, ebind_look by (by apply bool_decide_eq_true).
  destruct (mark_of m s) as [j|]; [|done]. rewrite reader_data_cb, ebind_assoc, ebind_upd, ebind_assoc, ebind_look.
  unfold reader_data, after_callback, ebind, look, upd. cbn. rewrite He, decide_False by (by intros Hne). done.
Qed.

Lemma leftover_eq data m s :
  errno_ (parser s) = HPE_OK ->
  CALLBACK_DATA_NOADVANCE (reader data) m s = Value tt
    match mark_of m s with
    | Some j => with_mark m None (called (p_state s) (given m (slice data j (p s - j)) (user s)) s)
    | None => s
    end.
Proof. apply data_eq. Qed.

Lemma leftovers_one data m o x st n i cs (u : U) :
  errno_ x = HPE_OK ->
  exists s', leftovers (reader data) data (with_mark m o (Exec x st n i cs None None None None None u))
      = Return (Z.of_nat (length data)) s' /\
    parser s' = stale st n x /\
    user s' = match o with Some j => given m (slice data j (i - j)) u | None => u end.
Proof.
  intros He. unfold leftovers.
  destruct m, o; rewrite ebind_look; change (Nat.leb (count_marks (id _)) 1) with true;
    rewrite ebind_assert by done; do 5 (unfold ebind at 1; rewrite leftover_eq by done; cbn [mark_of header_field_mark
      header_value_mark url_mark body_mark status_mark with_mark called with_user with_parser]);
    eexists; (split; [reflexivity|]); by split.
Qed.

(** One byte, in a part that has begun *)
Lemma leftovers_part c m x st n cs (u : U) :
  errno_ x = HPE_OK -> mark_state m st = true ->
  exists s', leftovers (reader [c]) [c] (with_mark m (Some 0) (Exec x st n 1 cs None None None None None u)) = Return 1 s' /\
    parser s' = stale st n x /\ entry (parser s') (user s') = resumed c m st n x u.
Proof.
  intros He Hm. destruct (leftovers_one [c] m (Some 0) x st n 1 cs u He) as (s' & Hl & Hp & Hu).
  exists s'. split; [exact Hl|]. split; [done|]. rewrite Hp, Hu. by destruct m, st.
Qed.

(** One byte, in no part *)
Lemma leftovers_plain c x st n cs (u : U) :
  errno_ x = HPE_OK -> (forall m, token_state m st = false) ->
  exists s', leftovers (reader [c]) [c] (Exec x st n 1 cs None None None None None u) = Return 1 s' /\
    parser s' = stale st n x /\ entry (parser s') (user s') = Exec (stale st n x) st n 0 0 None None None None None u.
Proof.
  intros He Hm. destruct (leftovers_one [c] header_field None x st n 1 cs u He) as (s' & Hl & Hp & Hu).
  exists s'. split; [exact Hl|]. split; [done|]. rewrite Hp, Hu.
  pose proof (Hm header_field). pose proof (Hm header_value). pose proof (Hm url). pose proof (Hm status).
  by destruct st.
Qed.
End Leftovers.

(** ** From one call to the next *)

Lemma list_lookup_Z {A} (l : list A) i : 0 <= i < Z.of_nat (length l) -> exists x, l !! Z.to_nat i = Some x.
Proof. intros Hi. apply lookup_lt_is_Some_2. lia. Qed.

Section Handover.
Context {U : Type} `{ReaderLaws U}.
Variable strict : bool.
Variable max_header_size : Z.
Variable lenient allow_chunked_length_ : bool.
Variable c : Z.
Variable b : list Z.
Variable N l0 a0 : Z.
Hypothesis Hb : b <> [].
Hypothesis HN : N + Z.of_nat (length b) <= max_header_size.
Hypothesis HN1 : 1 <= N.
Hypothesis Hmax : max_header_size < 2 ^ 32.
Implicit Types (w s : exec U) (e : ending U).

#[local] Abbreviation cb := (c :: b).
#[local] Abbreviation tied0 := (tied cb [c] 0 c N l0 a0).
#[local] Abbreviation tied1 := (tied cb b 1 c (2 ^ 32) l0 a0).
#[local] Abbreviation both1 := (both cb b 1 c (2 ^ 32) l0 a0).
#[local] Abbreviation turn_on data := (turn strict (reader data) max_header_size lenient allow_chunked_length_ data).
#[local] Abbreviation run_on data := (run strict (reader data) max_header_size lenient allow_chunked_length_ data).
#[local] Abbreviation ok data := (loop_ok max_header_size (fun _ => True) data).

Lemma mark_state_one m m' st : mark_state m st = true -> mark_state m' st = true -> m = m'.
Proof. by destruct st, m, m'. Qed.

(** The locals after the byte alone, with a part under way or without *)
Lemma byte_shape w s :
  inv max_header_size (fun _ => True) w -> tied0 w s -> p s = 0 ->
  exists x t0 n0 n cw cs u st, 0 <= n <= N /\ (lenient_http_headers x = l0 /\ allow_chunked_length x = a0) /\
    errno_ x = HPE_OK /\ state_ok st (stale t0 n0 x) /\ fields_ok x /\
    ((exists m, mark_state m st = true /\
        w = with_mark m (Some 0) (Exec (stale t0 n0 x) st n 0 cw None None None None None u) /\
        s = with_mark m (Some 0) (Exec x st n 0 cs None None None None None u)) \/
     (forall m, token_state m st = false) /\
       w = Exec (stale t0 n0 x) st n 0 cw None None None None None u /\
       s = Exec x st n 0 cs None None None None None u).
Proof.
  intros [Hw Hmk] [Hpub Hst Hn HnN Hp Hbits Hin Hfull Hu] Hps.
  destruct Hu as [Hm Hu|]; [|lia].
  pose proof (co_errno _ _ _ Hw) as He. pose proof (co_nread _ _ _ Hw) as Hnr.
  pose proof (co_state _ _ _ Hw) as Hok. pose proof (co_fields _ _ _ Hw) as Hf.
  apply public_stale in Hpub as (t0 & n0 & Hy). rewrite Hst, Hy in Hok. rewrite Hy in Hf, He.
  exists (parser s), t0, n0, (nread s), (ch w), (ch s), (user s), (p_state s).
  split; [lia|]. do 4 (split; [done|]).
  assert (Hmarks : forall m, mark_of m w = mark_of m s).
  { intros m. rewrite Hm. destruct (mark_of m s); [|done]. cbn. f_equal. lia. }
  assert (Hs0 : forall m j, mark_of m s = Some j -> j = 0 /\ mark_state m (p_state s) = true).
  { intros m j Hj. split; [apply Hin in Hj; lia|]. rewrite <- Hst. apply (Hmk m j). by rewrite Hmarks. }
  replace (p s + 0) with 0 in Hp by lia.
  assert (Hshape : forall m, (forall m', m' <> m -> mark_of m' s = None) ->
    w = with_mark m (mark_of m s) (Exec (stale t0 n0 (parser s)) (p_state s) (nread s) 0 (ch w) None None None None None (user s)) /\
    s = with_mark m (mark_of m s) (Exec (parser s) (p_state s) (nread s) 0 (ch s) None None None None None (user s))).
  { intros m Ho. split.
    - rewrite (only_mark m w) at 1 by (intros m' Hne; rewrite Hmarks; by apply Ho). by rewrite Hmarks, Hy, Hst, Hn, Hp, Hu.
    - rewrite (only_mark m s Ho) at 1. by rewrite Hps. }
  destruct (some_mark s) as [(m & j & Hj)|Hno].
  - left. exists m. destruct (Hs0 m j Hj) as [-> Hstate]. split; [done|]. rewrite <- Hj. apply Hshape.
    intros m' Hne. destruct (mark_of m' s) as [j'|] eqn:Hj'; [|done]. destruct (Hs0 m' j' Hj') as [_ Hstate'].
    by destruct Hne; eapply mark_state_one.
  - right. split.
    + intros m. destruct (token_state m (p_state s)) eqn:Htok; [|done]. destruct (Hfull m Htok) as [j Hj]. by rewrite Hno in Hj.
    + destruct (Hshape header_field) as [Hw' Hs']; [done|]. rewrite (Hno header_field) in Hw', Hs'. by split.
Qed.

(** A part of the body may be under way with the next call not having marked
    any of it. *)
Lemma late_turn t0 n0 n x st u cw :
  mark_state body st = true -> 0 <= n <= N -> lenient_http_headers x = l0 /\ allow_chunked_length x = a0 ->
  errno_ x = HPE_OK -> state_ok st (stale t0 n0 x) -> fields_ok x ->
  rel (turn_on cb true) (with_mark body (Some 0) (Exec (stale t0 n0 x) st n 1 cw None None None None None u))
      (turn_on b true) (resumed c body st n x u) (fun _ w' _ s' => tied1 w' s') both1.
Proof.
  intros Hst Hn [Hl Ha] He Hok Hf. assert (Hsize : 1 <= Z.of_nat (length b)) by (destruct b; [done|cbn [length]; lia]). unfold turn. apply rel_bind.
  destruct (list_lookup_Z b 0) as [d Hd]; [lia|].
  assert (Hnum : PARSING_HEADER st = false) by (by destruct st).
  eapply rel_eq; [rewrite (next_byte_eq _ cb d); [change (p_state _) with st; rewrite Hnum; reflexivity|done|exact Hd]
    |rewrite (next_byte_eq _ b d); [change (p_state _) with st; rewrite Hnum; reflexivity|done|exact Hd]|].
  apply rel_done, rel_bind, rel_look. change (p_state _) with st. change (p_state (with_ch _ (resumed _ _ _ _ _ _))) with st.
  assert (Hpart : part_tie cb b 1 c body 0 (Some 0) None u (given body [c] u)) by (by apply part_late).
  assert (Hlen : Z.of_nat (length cb) = Z.of_nat (length b) + 1) by (cbn [length]; lia).
  pose proof (left_eq cb b 1 Hlen) as Hleft.
  destruct st; try discriminate; cbn [dispatch].
  - apply (chunk_data_left cb b 1 c (2 ^ 32) l0 a0 (stale s_chunk_data n x) t0 n0 n 0 d (Some 0) None u (given body [c] u));
      [apply Hleft|lia|done|done|apply Hok|done|lia|done].
  - apply (chunk_data_over strict cb b 1 c (rest_slice c b) (2 ^ 32) l0 a0 (stale s_chunk_data_almost_done n x) t0 n0 n 0 d
      (Some 0) None u (given body [c] u)); [lia|done|done|lia|done].
  - apply (body_identity_left cb b 1 c (rest_slice c b) (2 ^ 32) l0 a0 (stale s_body_identity n x) t0 n0 n 0 d (Some 0) None
      u (given body [c] u)); [apply Hleft|lia|done|done|apply Hok|done|lia|done].
  - apply (body_eof_left cb b 1 c (2 ^ 32) l0 a0 (stale s_body_identity_eof n x) t0 n0 n 0 d (Some 0) None u
      (given body [c] u)); [exact Hlen|lia|done|done|lia|done].
Qed.

(** What the next call relies on of the parser left by this one *)
Definition carries (x : http_parser) : Prop :=
  (lenient_http_headers x = l0 /\ allow_chunked_length x = a0) /\ nread_ x <= N.

(** After the byte alone, the next call takes up where the other goes on. *)
Lemma handover w s :
  inv max_header_size (fun _ => True) w -> tied0 w s -> p s = 0 ->
  exists s', leftovers (reader [c]) [c] (advance s) = Return 1 s' /\ carries (parser s') /\
    (tied1 (advance w) (entry (parser s') (user s')) \/
     rel (turn_on cb true) (advance w) (turn_on b true) (entry (parser s') (user s')) (fun _ w' _ s' => tied1 w' s') both1).
Proof.
  intros Hw Hws Hp.
  destruct (byte_shape w s Hw Hws Hp) as (x & t0 & n0 & n & cw & cs & u & st & Hn & Hbits & He & Hok & Hf &
    [(m & Hm & -> & ->)|(Hno & -> & ->)]).
  - destruct (leftovers_part c m x st n cs u He Hm) as (s' & Hs' & Hx' & Hent). exists s'.
    replace (advance _) with (with_mark m (Some 0) (Exec x st n 1 cs None None None None None u)) by done.
    split; [exact Hs'|]. split; [rewrite Hx'; split; [done|cbn; lia]|]. rewrite Hent. destruct (token_state m st) eqn:Htok.
    + left. unfold resumed, token_mark. rewrite Htok.
      assert (Hpart : part_tie cb b 1 c m 0 (Some 0) (Some 0) u (given m [c] u)) by (by apply part_behind).
      split; try done; [cbn; lia| | |].
      * intros m' j Hj. assert (j = 0) as -> by (by destruct m, m'; cbn in Hj; simplify_eq). cbn. lia.
      * intros m' Hm'. assert (m' = m) as ->; [|destruct m; by eexists].
        apply (mark_state_one _ _ st); [by destruct m'|done].
      * apply (part_user _ _ _ _ m); [by intros [] ?; destruct m|by destruct m; eexists|by destruct m].
    + right. assert (m = body) as -> by (unfold token_state in Htok; destruct m; congruence || done). by apply late_turn.
  - destruct (leftovers_plain c x st n cs u He Hno) as (s' & Hs' & Hx' & Hent). exists s'.
    split; [exact Hs'|]. split; [rewrite Hx'; split; [done|cbn; lia]|]. left. rewrite Hent. split; try done; [cbn; lia| | |].
    + intros m j Hj. by destruct m.
    + intros m Hm. change (p_state _) with st in Hm. by rewrite Hno in Hm.
    + apply in_step; [by intros []|done].
Qed.

(** From a turn that keeps the two tied, whatever came before *)
Lemma cross_run fw w s e :
  ok cb fw w -> more cb fw w -> ok b true s -> more b true s ->
  rel (turn_on cb fw) w (turn_on b true) s (fun _ w' _ s' => tied1 w' s') both1 -> run_on b true s e ->
  exists ew, run_on cb fw w ew /\ ends_tied max_header_size cb b 1 c (2 ^ 32) l0 a0 ew e.
Proof.
  intros Hw Hmw Hs Hms Hrel Hrun. assert (Hmax' : 0 < max_header_size) by lia.
  pose proof (turn_sim strict max_header_size lenient allow_chunked_length_ cb b 1 c (2 ^ 32) l0 a0 fw true w s
    Hw Hmw Hs Hms Hrel) as Ht.
  pose proof (fun fresh w s e => run_in_step strict max_header_size lenient allow_chunked_length_ [c] b c (2 ^ 32) l0 a0
    Hmax' ltac:(lia) fresh w s e) as Hgo.
  inversion Hrun as [? Hp|? ? s1 ? Hm1 Ht1 Hr|? ? s1 ? Hm1 Ht1 Hr|? ? s1 v s2 Hm1 Ht1 He|? ? v s1 Hm1 Ht1]; subst.
  - by apply not_more in Hms.
  - assert (Hcase : exists w', (turn_on cb fw w = Value tt w' \/ turn_on cb fw w = Break w') /\
      sim max_header_size cb b 1 c (2 ^ 32) l0 a0 true (advance w') (advance s1))
      by (destruct Ht1 as [Ht1|Ht1]; rewrite Ht1 in Ht; exact Ht).
    destruct Hcase as (w' & Hw' & Hws'). destruct (Hgo _ _ _ _ Hr Hws') as (ew & Hew & Htied).
    exists ew. split; [|done]. by eapply run_next.
  - rewrite Ht1 in Ht. destruct Ht as (w' & Hw' & Hws'). destruct (Hgo _ _ _ _ Hr Hws') as (ew & Hew & Htied).
    exists ew. split; [|done]. by eapply run_again.
  - rewrite Ht1 in Ht. destruct Ht as (w' & Hw' & Herr).
    destruct (error_sim [c] w' s1 v s2 Herr He) as (v' & w2 & Hl & Hret).
    exists (Stopped v' w2). split; [|done]. by eapply run_error.
  - rewrite Ht1 in Ht. destruct Ht as (v' & w' & Hw' & Hret).
    exists (Stopped v' w'). split; [|done]. by eapply run_return.
Qed.

(** Two loops that go through their buffers leave the same. *)
Lemma leftovers_tied dw ds k c0 N1 l1 a1 w s :
  (forall i n, 0 <= i -> 0 <= n -> i + n <= Z.of_nat (length ds) -> slice dw (i + k) n = slice ds i n) ->
  Z.of_nat (length dw) = Z.of_nat (length ds) + k ->
  inv max_header_size (fun _ => True) w -> tied dw ds k c0 N1 l1 a1 w s -> p s = Z.of_nat (length ds) ->
  exists w' s', leftovers (reader dw) dw w = Return (Z.of_nat (length dw)) w' /\
    leftovers (reader ds) ds s = Return (Z.of_nat (length ds)) s' /\ parser w' = parser s' /\ user w' = user s'.
Proof.
  intros Hslice Hlen [Hw Hmk] [Hpub Hst Hn _ Hp _ Hin _ Hu] Hps.
  pose proof (co_errno _ _ _ Hw) as He. apply public_stale in Hpub as (t & n & Hy). rewrite Hy in He.
  assert (Hm : exists m, forall m', m' <> m -> mark_of m' w = None).
  { destruct (some_mark w) as [(m & j & Hj)|Hno]; [|by exists header_field]. exists m. intros m' Hne.
    destruct (mark_of m' w) as [j'|] eqn:Hj'; [|done]. destruct Hne.
    eapply mark_state_one; [by eapply Hmk|by eapply Hmk]. }
  destruct Hm as [m Hm]. destruct (user_part dw ds k c0 m w s Hm Hu Hin) as [Hpart Hm'].
  rewrite (only_mark m w Hm), (only_mark m s Hm'). rewrite Hy, Hst, Hn, Hp.
  destruct (leftovers_one dw m (mark_of m w) (stale t n (parser s)) (p_state s) (nread s) (p s + k) (ch w) (user w))
    as (w' & Hw' & Hpw & Huw); [done|].
  destruct (leftovers_one ds m (mark_of m s) (parser s) (p_state s) (nread s) (p s) (ch s) (user s))
    as (s' & Hs' & Hps' & Hus); [done|].
  exists w', s'. split; [exact Hw'|]. split; [exact Hs'|]. split; [by rewrite Hpw, Hps'|]. rewrite Huw, Hus.
  eapply (part_given dw ds k c0 Hslice m (p s)); [exact Hpart|lia|by left|lia].
Qed.

(** How the byte alone ends, and how it goes on with the rest *)
Definition byte_ends w e : Prop :=
  match e with
  | Stopped v s => exists v' w', run_on cb false w (Stopped v' w') /\ tied_return 0 v' w' v s
  | Through s => exists s', leftovers (reader [c]) [c] s = Return 1 s' /\ carries (parser s') /\
      forall e2, ok b true (entry (parser s') (user s')) -> run_on b true (entry (parser s') (user s')) e2 ->
        exists ew, run_on cb false w ew /\ ends_tied max_header_size cb b 1 c (2 ^ 32) l0 a0 ew e2
  end.

Lemma entry_p x (u : U) : p (entry x u) = 0.
Proof. unfold entry. by destruct (entry_marks _) as [[[? ?] ?] ?]. Qed.

(** When the byte alone has been looked at *)
Lemma byte_last w w' s' e :
  ok cb true (advance w') -> inv max_header_size (fun _ => True) w' -> tied0 w' s' -> p s' = 0 ->
  more cb false w -> turn_on cb false w = Value tt w' \/ turn_on cb false w = Break w' ->
  run_on [c] true (advance s') e -> byte_ends w e.
Proof.
  intros Hw Hinv Hws Hp Hm Ht Hrun. assert (Hsize : 1 <= Z.of_nat (length b)) by (destruct b; [done|cbn [length]; lia]).
  assert (e = Through (advance s')) as ->.
  { eapply run_det; [exact Hrun|]. apply run_end. cbn. rewrite Hp. done. }
  assert (Hpw : p w' = p s' + 0) by apply Hws.
  destruct (handover w' s' Hinv Hws Hp) as (s2 & Hl & Hcar & Hcase). exists s2. split; [done|]. split; [done|]. intros e2 Hs2 Hrun2.
  assert (Hew : exists ew, run_on cb true (advance w') ew /\ ends_tied max_header_size cb b 1 c (2 ^ 32) l0 a0 ew e2).
  { destruct Hcase as [Htied|Hrel].
    - by apply (run_in_step strict max_header_size lenient allow_chunked_length_ [c] b c (2 ^ 32) l0 a0
        ltac:(lia) ltac:(lia) true _ (entry (parser s2) (user s2))).
    - eapply cross_run; [done| |done| |exact Hrel|done].
      + right. cbn. lia.
      + right. rewrite entry_p. lia. }
  destruct Hew as (ew & Hew & Htied). exists ew. split; [|done]. by eapply run_next.
Qed.

(** When the byte is read on from *)
Lemma byte_crosses m w s e :
  ok cb false w -> ok [c] false s -> tied_again cb [c] 0 c N l0 a0 w s -> mark_state m (p_state s) = true ->
  crosses max_header_size c b l0 a0 m (p_state s)
    (dispatch strict (reader cb) max_header_size lenient allow_chunked_length_ cb (p_state s))
    (dispatch strict (reader [c]) max_header_size lenient allow_chunked_length_ [c] (p_state s))
    (dispatch strict (reader b) max_header_size lenient allow_chunked_length_ b (p_state s)) w s ->
  exists s1, turn_on [c] false s = Break s1 /\ (run_on [c] true (advance s1) e -> byte_ends w e).
Proof.
  intros Hw Hs Hws Hm (x & ch' & Hbits & Hbreak & Hrel). assert (Hsize : 1 <= Z.of_nat (length b)) by (destruct b; [done|cbn [length]; lia]).
  assert (Hn : 0 <= nread s <= N).
  { split; [apply Hs|]. apply Hws. }
  pose proof (turn_ok strict max_header_size lenient allow_chunked_length_ [c] false s Hs ltac:(by left)) as Hok.
  assert (Hts : turn_on [c] false s = dispatch strict (reader [c]) max_header_size lenient allow_chunked_length_ [c] (p_state s) s)
    by done.
  unfold spec in Hok. rewrite Hts, Hbreak in Hok. destruct Hok as (_ & Hinv & _).
  eexists. split; [by rewrite Hts|]. intros Hrun.
  set (s1 := with_mark m _ _) in *. assert (Hp1 : p s1 = 0) by done.
  assert (e = Through (advance s1)) as -> by (eapply run_det; [exact Hrun|by apply run_end]).
  destruct (leftovers_part c m x (p_state s) (nread s) ch' (user s)) as (s3 & Hl & Hx3 & Hent);
    [exact (co_errno _ _ _ (proj1 Hinv))|done|].
  exists s3. split; [exact Hl|]. split; [rewrite Hx3; split; [exact Hbits|cbn; lia]|]. intros e2 Hok2 Hrun2.
  apply (cross_run false w (entry (parser s3) (user s3))); [done|by left|done|right; rewrite entry_p; lia| |done].
  rewrite Hent. destruct (next_b max_header_size c b N Hb HN Hmax (p_state s) (nread s) x (user s) m Hn) as [d Hd].
  assert (Hst : p_state w = p_state s) by apply Hws.
  eapply rel_eq; [| |exact Hrel].
  - unfold turn. rewrite ebind_done, ebind_look. by rewrite Hst.
  - unfold turn, ebind. rewrite Hd. reflexivity.
Qed.

Lemma byte_turn w s :
  ok cb false w -> ok [c] false s -> tied_again cb [c] 0 c N l0 a0 w s ->
  match turn_on [c] false s with
  | Value _ s' | Break s' => forall e, run_on [c] true (advance s') e -> byte_ends w e
  | Reexecute s' => exists w', turn_on cb false w = Reexecute w' /\ ok cb false w' /\ ok [c] false s' /\
                      tied_again cb [c] 0 c N l0 a0 w' s'
  | GotoError s' => exists w', turn_on cb false w = GotoError w' /\ tied_error 0 w' s'
  | Return v s' => exists v' w', turn_on cb false w = Return v' w' /\ tied_return 0 v' w' v s'
  | Stuck _ => False
  end.
Proof.
  intros Hw Hs Hws. assert (Hmw : more cb false w) by (by left).
  assert (Hps : p s = 0) by (destruct Hs as (_ & _ & Hs); cbn in Hs; lia).
  assert (Hst : p_state w = p_state s) by apply Hws.
  pose proof (turn_ok strict max_header_size lenient allow_chunked_length_ [c] false s Hs ltac:(by left)) as Hok.
  pose proof (turn_ok strict max_header_size lenient allow_chunked_length_ cb false w Hw Hmw) as Hokw.
  assert (Hts : turn_on [c] false s = dispatch strict (reader [c]) max_header_size lenient allow_chunked_length_ [c] (p_state s) s)
    by done.
  assert (Htw : turn_on cb false w = dispatch strict (reader cb) max_header_size lenient allow_chunked_length_ cb (p_state s) w)
    by (by rewrite <- Hst).
  destruct (dispatch_byte strict max_header_size lenient allow_chunked_length_ c b N l0 a0 w s Hb HN HN1 Hmax
    (proj1 Hw) Hws Hps) as [Hrel|Hcross].
  - intros f Hf. unfold spec in Hok. by rewrite Hts, Hf in Hok.
  - unfold rel in Hrel. unfold spec in Hok, Hokw. rewrite <- Hts, <- Htw in Hrel.
    destruct (turn_on cb false w) as [[] w'|w'|w'|w'|v' w'|f] eqn:Hw1, (turn_on [c] false s) as [[] s'|s'|s'|s'|v s'|f'] eqn:Hs1;
      try done; cbn in Hok, Hokw, Hrel.
    + intros e He. destruct Hokw as (? & ? & _), Hok as ((_ & _ & ?) & _ & ?). eapply byte_last; try done; [cbn in *; lia|by left].
    + intros e He. destruct Hokw as (? & ? & _), Hok as ((_ & _ & ?) & _ & ?). eapply byte_last; try done; [cbn in *; lia|by right].
    + by exists w'.
    + by exists w'.
    + by exists v', w'.
  - destruct Hcross as [Hm Hcross].
    destruct (byte_crosses _ w s (Through w) Hw Hs Hws Hm Hcross) as (s1 & Hs1 & _). rewrite Hs1. intros e He.
    destruct (byte_crosses _ w s e Hw Hs Hws Hm Hcross) as (s2 & Hs2 & Hgo).
    assert (s2 = s1) as -> by congruence. by apply Hgo.
Qed.

Lemma byte_run w s e :
  run_on [c] false s e -> ok cb false w -> ok [c] false s -> tied_again cb [c] 0 c N l0 a0 w s -> byte_ends w e.
Proof.
  intros Hrun. remember false as fresh eqn:Hf. revert w Hf.
  induction Hrun as [s Hp|fresh s s1 e Hm Ht Hr IH|fresh s s1 e Hm Ht Hr IH|fresh s s1 v s2 Hm Ht He
    |fresh s v s1 Hm Ht]; intros w Hf Hw Hs Hws; try done; subst fresh;
    pose proof (byte_turn w s Hw Hs Hws) as Hturn; (assert (Hmw : more cb false w) by (by left)).
  - destruct Ht as [Ht|Ht]; rewrite Ht in Hturn; by apply Hturn.
  - rewrite Ht in Hturn. destruct Hturn as (w1 & Hw1 & Hokw & Hoks & Htied).
    specialize (IH w1 eq_refl Hokw Hoks Htied). destruct e as [s2|v s2]; cbn in IH |- *.
    + destruct IH as (s3 & Hl & Hcar & Hgo). exists s3. split; [done|]. split; [done|]. intros e2 Hs2 Hr2.
      destruct (Hgo e2 Hs2 Hr2) as (ew & Hew & Hends). exists ew. split; [|done]. by eapply run_again.
    + destruct IH as (v' & w' & Hrw & Hret). exists v', w'. split; [|done]. by eapply run_again.
  - rewrite Ht in Hturn. destruct Hturn as (w1 & Hw1 & Herr).
    destruct (error_label_eq w1) as (w2 & Hw2 & Hew), (error_label_eq s1) as (s3 & Hs3 & Hes).
    rewrite Hs3 in He. injection He as <- <-. exists (p w1), w2. split; [by eapply run_error|].
    destruct Herr as [Hee Hp]. split; [done|]. rewrite Hew, Hes, Hee. split; [done|]. case_decide; congruence.
  - rewrite Ht in Hturn. destruct Hturn as (v' & w' & Hw' & Hret). exists v', w'. split; [by eapply run_return|done].
Qed.
End Handover.
