(* ===== verification/HttpPieces.v ===== *)
(** Calls of [http_parser_execute]: that with a whole buffer does what those
    with its pieces do. *)
From S2P Require Import Prelude HttpTypes HttpUrl HttpExec HttpStates HttpHeaders HttpParser HttpLogic HttpSafe HttpTotal HttpRuns HttpScan HttpRel HttpTied HttpCross HttpSplit HttpHandover.

Local Open Scope Z_scope.
Local Open Scope exec_scope.
#[local] Arguments Z.add : simpl never.
#[local] Arguments Z.sub : simpl never.

Section Calls.
Context {U : Type} `{ReaderLaws U}.
Variable strict : bool.
Variable max_header_size : Z.
Hypothesis Hmax : 0 <= max_header_size < 2 ^ 32.
Implicit Types (s : exec U) (x y : http_parser) (u : U) (e : ending U) (data : list Z).

#[local] Abbreviation run_for x data := (run strict (reader data) max_header_size
  (negb (lenient_http_headers x =? 0)) (negb (allow_chunked_length x =? 0)) data).
#[local] Abbreviation ok data := (loop_ok max_header_size (fun _ => True) data).
#[local] Abbreviation good := (parser_ok max_header_size).

(** A call that goes through its buffer ([thr]), or stops in it; what it
    returns, and leaves *)
Definition call data x u (thr : bool) (v : Z) y (u' : U) : Prop :=
  exists e s', run_for x data true (entry x u) e /\
    match e with
    | Through s => thr = true /\ leftovers (reader data) data s = Return v s'
    | Stopped v1 s => thr = false /\ v1 = v /\ s = s'
    end /\ parser s' = y /\ user s' = u'.

Lemma call_det data x u t1 v1 y1 u1 t2 v2 y2 u2 :
  call data x u t1 v1 y1 u1 -> call data x u t2 v2 y2 u2 -> t1 = t2 /\ v1 = v2 /\ y1 = y2 /\ u1 = u2.
Proof.
  intros (e1 & s1 & Hr1 & He1 & <- & <-) (e2 & s2 & Hr2 & He2 & <- & <-).
  rewrite (run_det _ _ _ _ _ _ _ _ _ _ Hr2 Hr1) in He2. destruct e1.
  - destruct He1 as [-> He1], He2 as [-> He2]. rewrite He1 in He2. by simplify_eq.
  - destruct He1 as (-> & -> & ->), He2 as (-> & -> & ->). done.
Qed.

Lemma entry_user x u : user (entry x u) = u.
Proof. unfold entry. by destruct (entry_marks _) as [[[? ?] ?] ?]. Qed.

(** What a run ends in *)
Lemma run_ends x data fresh s e :
  run_for x data fresh s e -> ok data fresh s ->
  match e with
  | Through s' => ok data true s' /\ p s' = Z.of_nat (length data)
  | Stopped _ s' => errno_ (parser s') = HPE_OK -> upgrade (parser s') <> 0
  end.
Proof.
  induction 1 as [s Hp|fresh s s1 e Hm Ht _ IH|fresh s s1 e Hm Ht _ IH|fresh s s1 v s2 Hm Ht He|fresh s v s1 Hm Ht];
    intros Hs; [done|..]; pose proof (turn_ok strict max_header_size (negb (lenient_http_headers x =? 0))
      (negb (allow_chunked_length x =? 0)) data _ _ Hs Hm) as Hok; unfold spec in Hok.
  - apply IH. destruct Ht as [Ht|Ht]; rewrite Ht in Hok; apply Hok.
  - apply IH. by rewrite Ht in Hok.
  - destruct (error_label_eq s1) as (s3 & Hs3 & Herr). rewrite Hs3 in He. injection He as <- <-.
    rewrite Herr. case_decide; by intros ?.
  - rewrite Ht in Hok. exact Hok.
Qed.

Lemma leftover_value data m s :
  errno_ (parser s) = HPE_OK ->
  exists s', CALLBACK_DATA_NOADVANCE (reader data) m s = Value tt s' /\ errno_ (parser s') = HPE_OK.
Proof. intros He. rewrite leftover_eq by done. eexists. split; [reflexivity|]. by destruct (mark_of m s). Qed.

Lemma leftovers_reader data s :
  errno_ (parser s) = HPE_OK -> (count_marks s <= 1)%nat ->
  exists s', leftovers (reader data) data s = Return (Z.of_nat (length data)) s' /\ errno_ (parser s') = HPE_OK.
Proof.
  intros He Hc. unfold leftovers. rewrite ebind_look, ebind_assert by (by apply Nat.leb_le).
  destruct (leftover_value data header_field s He) as (s1 & H1 & He1).
  destruct (leftover_value data header_value s1 He1) as (s2 & H2 & He2).
  destruct (leftover_value data url s2 He2) as (s3 & H3 & He3).
  destruct (leftover_value data body s3 He3) as (s4 & H4 & He4).
  destruct (leftover_value data status s4 He4) as (s5 & H5 & He5).
  unfold ebind. rewrite H1, H2, H3, H4, H5. by eexists.
Qed.

(** A call returns, and either stops in its buffer or can be followed by
    another. *)
Lemma call_exists data x u :
  data <> [] -> good x -> errno_ x = HPE_OK ->
  exists thr v y u', call data x u thr v y u' /\
    http_parser_execute strict (reader data) max_header_size data x u = Done (v, y, u') /\
    if thr then v = Z.of_nat (length data) /\ good y /\ errno_ y = HPE_OK
    else errno_ y = HPE_OK -> upgrade y <> 0.
Proof.
  intros Hd Hx He.
  destruct (execute_returns strict max_header_size max_header_size ltac:(lia) (fun _ => True) (reader data) data x u
    (reader_ok data _) Hx He I) as (v & y & u' & Hex & _ & Hres & _).
  pose proof Hex as Hloop. unfold http_parser_execute in Hloop. rewrite decide_False in Hloop by (by intros Hne).
  destruct (Z.eqb_spec (Z.of_nat (length data)) 0); [by destruct data|].
  destruct (loop _ _ _ _ _ _ _ _ _) as [[v1 s1]|] eqn:Hl; [|done]. injection Hloop as -> Hy Hu.
  destruct (loop_run _ _ _ _ _ _ _ _ _ _ _ Hl) as (e & Hr & Ho).
  destruct (entry_ok max_header_size (fun _ => True) x u Hx He I) as (Hinv & Hc & Hp & _).
  assert (Hok : ok data true (entry x u)) by (split; [done|]; split; [done|]; lia).
  pose proof (run_ends x data true _ e Hr Hok) as Hend.
  destruct e as [s|v2 s]; cbn [outcome_of] in Ho.
  - destruct Hend as [((Hcore & Hmk) & _) Hps].
    destruct (leftovers_reader data s (co_errno _ _ _ Hcore) (one_mark data s Hmk)) as (s' & Hleft & He').
    rewrite Hleft in Ho. injection Ho as Hv ->. exists true, v, y, u'. split; [|split; [done|]].
    + exists (Through s), s1. split; [done|]. rewrite Hleft, Hv. by split_and!.
    + subst y. split; [done|]. split; [|done]. rewrite <- (set_errno_id (parser s1)) by done. by apply Hres; left.
  - injection Ho as -> ->. exists false, v, y, u'. split; [|split; [done|by subst y]].
    exists (Stopped v s1), s1. by split_and!.
Qed.

(** ** A byte, and the rest *)

(** Two calls that end alike: the parser and the user need only agree if there
    was no error. *)
Definition agree (y : http_parser) (u1 : U) (y2 : http_parser) (u2 : U) : Prop :=
  errno_ y = errno_ y2 /\ (errno_ y2 = HPE_OK -> y = y2 /\ u1 = u2).

Lemma agree_trans y1 u1 y2 u2 y3 u3 : agree y1 u1 y2 u2 -> agree y2 u2 y3 u3 -> agree y1 u1 y3 u3.
Proof.
  intros [He1 Hs1] [He2 Hs2]. split; [congruence|]. intros He. destruct (Hs2 He) as [-> ->].
  by apply Hs1.
Qed.

Lemma agree_sym y1 u1 y2 u2 : agree y1 u1 y2 u2 -> agree y2 u2 y1 u1.
Proof. intros [He Hs]. split; [done|]. intros Hok. rewrite He in Hok. by destruct (Hs Hok) as [-> ->]. Qed.

(** The loop from its top, and from where it has read a byte *)
Lemma run_read x data s s' e :
  next_byte max_header_size data s = Value tt s' -> p s <> Z.of_nat (length data) ->
  run_for x data true s e <-> run_for x data false s' e.
Proof.
  intros Hn Hp. assert (Hm : more data true s) by (by right). assert (Hm' : more data false s') by (by left).
  assert (Ht : forall l a, turn strict (reader data) max_header_size l a data true s
    = turn strict (reader data) max_header_size l a data false s') by (intros; unfold turn, ebind at 1 3; by rewrite Hn).
  split; intros Hr; [exact (run_first _ _ _ _ _ _ _ _ _ _ _ (Ht _ _) Hm Hm' Hr)|
    exact (run_first _ _ _ _ _ _ _ _ _ _ _ (eq_sym (Ht _ _)) Hm' Hm Hr)].
Qed.

(** The first byte of a call *)
Lemma entry_read c x u :
  good x -> nread_ x + 1 <= max_header_size ->
  exists n, 0 <= n <= nread_ x + 1 /\ (state_ x = s_chunk_size_start -> n = 1) /\
    forall data, data !! 0%nat = Some c ->
      next_byte max_header_size data (entry x u) = Value tt (with_ch c (with_nread (fun _ => n) (entry x u))).
Proof.
  intros Hx Hn. pose proof (po_nread _ _ Hx) as Hn0.
  assert (Hent : p (entry x u) = 0 /\ p_state (entry x u) = state_ x /\ nread (entry x u) = nread_ x).
  { unfold entry. by destruct (entry_marks _) as [[[? ?] ?] ?]. }
  destruct Hent as (Hp & Hst & Hnr). exists (if PARSING_HEADER (state_ x) then nread_ x + 1 else nread_ x).
  split; [destruct (PARSING_HEADER _); lia|]. split.
  - intros Hs. rewrite Hs. cbn. rewrite (po_chunk _ _ Hx Hs). lia.
  - intros data Hd. rewrite (next_byte_eq _ _ c), Hst; [|lia|by rewrite Hp]. destruct (PARSING_HEADER _).
    + rewrite (COUNT_small _ 1 (nread_ x)); [done|done|lia|lia|lia|lia].
    + unfold with_ch, with_nread. by rewrite <- Hnr.
Qed.

Lemma read_ok c n x u data :
  data <> [] -> good x -> errno_ x = HPE_OK -> 0 <= n <= max_header_size -> (state_ x = s_chunk_size_start -> n = 1) ->
  ok data false (with_ch c (with_nread (fun _ => n) (entry x u))).
Proof.
  intros Hd Hx He Hn Hone.
  destruct (entry_ok max_header_size (fun _ => True) x u Hx He I) as ([[He' Hst' Hf Hn' Hsn Hin Hu] Hmk] & Hc & Hp & _ & Hst).
  split; [|split].
  - split; [|exact Hmk]. by split.
  - change (p_state _) with (p_state (entry x u)). by rewrite Hst.
  - change (p _) with (p (entry x u)). rewrite Hp. destruct data; [done|cbn [length]; lia].
Qed.

Lemma read_tied_self dw c n x u :
  good x -> errno_ x = HPE_OK -> n <= nread_ x + 1 ->
  let s := with_ch c (with_nread (fun _ => n) (entry x u)) in
  tied_again dw [c] 0 c (nread_ x + 1) (lenient_http_headers x) (allow_chunked_length x) s s.
Proof.
  intros Hx He Hn s.
  destruct (entry_ok max_header_size (fun _ => True) x u Hx He I) as ([[] _] & Hc & Hp & Hpx & Hst).
  assert (Hx' : parser s = x) by exact Hpx.
  split; [|by left]. split; [done|done|done|exact Hn|lia|by rewrite Hx'|done| |].
  - intros m Hm. change (p_state s) with (p_state (entry x u)) in Hm. rewrite Hst in Hm.
    change (mark_of m s) with (mark_of m (with_ch c (with_nread (fun _ => n) (entry x u)))).
    unfold entry. destruct (state_ x), m; try discriminate; by eexists.
  - apply in_step; [|done]. intros m. destruct (mark_of m s); [|done]. cbn. f_equal. lia.
Qed.

Lemma byte_call c b x u thr v x1 u1 :
  b <> [] -> good x -> errno_ x = HPE_OK -> nread_ x + 1 + Z.of_nat (length b) <= max_header_size ->
  call [c] x u thr v x1 u1 ->
  if thr then nread_ x1 <= nread_ x + 1 /\
    forall t2 v2 y2 u2, good x1 -> errno_ x1 = HPE_OK -> call b x1 u1 t2 v2 y2 u2 ->
      exists y u', call (c :: b) x u t2 (v2 + 1) y u' /\ agree y u' y2 u2
  else exists y u', call (c :: b) x u false v y u' /\ agree y u' x1 u1.
Proof.
  intros Hb Hx He Hn (e & s' & Hrun & Hend & <- & <-).
  set (lx := negb (lenient_http_headers x =? 0)) in *. set (ax := negb (allow_chunked_length x =? 0)) in *.
  assert (Hsize : 1 <= Z.of_nat (length b)) by (destruct b; [done|cbn [length]; lia]).
  pose proof (po_nread _ _ Hx) as Hn0.
  destruct (entry_ok max_header_size (fun _ => True) x u Hx He I) as (Hinv & Hc & Hp & Hpx & Hst).
  destruct (entry_read c x u Hx) as (n & Hn1 & Hone & Hread); [lia|].
  set (s0 := with_ch c (with_nread (fun _ => n) (entry x u))) in *.
  assert (Hok : forall data, data <> [] -> ok data false s0) by (intros data Hd; apply read_ok; done || lia).
  pose proof (read_tied_self (c :: b) c n x u Hx He) as Htied. fold s0 in Htied. specialize (Htied ltac:(lia)).
  apply (run_read x [c] _ s0) in Hrun; [|by apply Hread|by rewrite Hp].
  pose proof (byte_run strict max_header_size lx ax c b (nread_ x + 1) _ _ Hb ltac:(lia) ltac:(lia) ltac:(lia)
    s0 s0 e Hrun (Hok (c :: b) ltac:(done)) (Hok [c] ltac:(done)) Htied) as Hbyte.
  assert (Hback : forall e, run_for x (c :: b) false s0 e -> run_for x (c :: b) true (entry x u) e).
  { intros e' Hr. apply (run_read x (c :: b) _ s0); [by apply Hread|rewrite Hp; cbn [length]; lia|done]. }
  destruct e as [s1|v1 s1].
  - destruct Hend as [-> Hleft]. destruct Hbyte as (s2 & Hleft' & [[Hbl Hba] Hbn] & Hgo).
    rewrite Hleft' in Hleft. injection Hleft as <- <-. split; [done|].
    intros t2 v2 y2 u2 Hx1 He1 (e2 & s3 & Hr2 & Hend2 & <- & <-).
    rewrite Hbl, Hba in Hr2. fold lx ax in Hr2.
    destruct (entry_ok max_header_size (fun _ => True) (parser s2) (user s2) Hx1 He1 I) as (Hinv2 & Hc2 & Hp2 & _).
    destruct (Hgo e2 ltac:(split; [done|split; [done|lia]]) Hr2) as (ew & Hew & Htie).
    destruct ew as [w|v' w], e2 as [s4|v2' s4]; try done.
    + destruct Htie as ((Hokw & _ & Hws) & Hps), Hend2 as [-> Hl2]. destruct Hokw as (Hinvw & _).
      destruct (leftovers_tied max_header_size b (c :: b) b 1 c (2 ^ 32) (lenient_http_headers x) (allow_chunked_length x) w s4
        (rest_slice c b) ltac:(cbn [length]; lia) Hinvw Hws Hps) as (w' & s5 & Hlw & Hls & Hpar & Hus).
      rewrite Hls in Hl2. injection Hl2 as <- ->. exists (parser w'), (user w'). split.
      * exists (Through w), w'. split; [by apply Hback|]. split; [|done]. split; [done|]. rewrite Hlw. f_equal. cbn [length]. lia.
      * by rewrite Hpar, Hus.
    + destruct Htie as (Hv & Herr & Hsame), Hend2 as (-> & -> & ->). exists (parser w), (user w). split; [|by split].
      exists (Stopped v' w), w. split; [by apply Hback|]. by split.
  - destruct Hend as (-> & -> & ->). destruct Hbyte as (v' & w' & Hrw & Hv & Herr & Hsame).
    exists (parser w'), (user w'). split; [|by split].
    exists (Stopped v' w'), w'. split; [by apply Hback|]. split; [|done]. split; [done|]. split; [lia|done].
Qed.

(** ** A buffer in two pieces *)

Lemma pieces a b x u :
  a <> [] -> b <> [] -> good x -> errno_ x = HPE_OK ->
  nread_ x + Z.of_nat (length a) + Z.of_nat (length b) <= max_header_size ->
  forall thr v x1 u1, call a x u thr v x1 u1 ->
  if thr then nread_ x1 <= nread_ x + Z.of_nat (length a) /\
    forall t2 v2 y2 u2, call b x1 u1 t2 v2 y2 u2 ->
      exists y u', call (a ++ b) x u t2 (v2 + Z.of_nat (length a)) y u' /\ agree y u' y2 u2
  else exists y u', call (a ++ b) x u false v y u' /\ agree y u' x1 u1.
Proof.
  intros Ha Hb. revert x u. induction a as [|c a IH]; [done|]. intros x u Hx He Hn thr v x1 u1 Hcall.
  assert (Hab : a ++ b <> []) by (by destruct a, b).
  assert (Hlen : Z.of_nat (length (a ++ b)) = Z.of_nat (length a) + Z.of_nat (length b)) by (rewrite length_app; lia).
  cbn [length] in Hn |- *.
  destruct (call_exists [c] x u) as (t & vc & xc & uc & Hc & _ & Hcend); [done..|].
  destruct (decide (a = [])) as [->|Hne].
  { destruct (call_det _ _ _ _ _ _ _ _ _ _ _ Hc Hcall) as (-> & -> & -> & ->).
    pose proof (byte_call c b x u thr v x1 u1 Hb Hx He ltac:(lia) Hc) as Hall.
    destruct thr; [|done]. destruct Hall as [Hn1 Hall], Hcend as (_ & Hx1 & He1). split; [cbn; lia|].
    intros t2 v2 y2 u2. by apply Hall. }
  pose proof (byte_call c (a ++ b) x u t vc xc uc Hab Hx He ltac:(lia) Hc) as Hall.
  pose proof (byte_call c a x u t vc xc uc Hne Hx He ltac:(lia) Hc) as Hone. cbn [app]. destruct t.
  - destruct Hall as [Hn1 Hall], Hone as [_ Hone], Hcend as (_ & Hxc & Hec).
    destruct (call_exists a xc uc) as (t2 & v2 & y2 & u2 & Hc2 & _ & Hend2); [done..|].
    destruct (Hone _ _ _ _ Hxc Hec Hc2) as (y & u' & Hcall' & Hagree).
    destruct (call_det _ _ _ _ _ _ _ _ _ _ _ Hcall' Hcall) as (-> & <- & -> & ->).
    specialize (IH Hne xc uc Hxc Hec ltac:(lia) _ _ _ _ Hc2). destruct thr.
    + destruct Hend2 as (_ & Hy2 & Hey2), IH as [Hn2 IH]. destruct Hagree as [_ Hsame].
      destruct (Hsame Hey2) as [-> ->]. split; [lia|]. intros t3 v3 y3 u3 Hc3.
      destruct (IH _ _ _ _ Hc3) as (y4 & u4 & Hc4 & Hag4).
      destruct (Hall _ _ _ _ Hxc Hec Hc4) as (y5 & u5 & Hc5 & Hag5). exists y5, u5.
      split; [|by eapply agree_trans]. replace (v3 + Z.of_nat (S (length a))) with (v3 + Z.of_nat (length a) + 1) by lia. done.
    + destruct IH as (y4 & u4 & Hc4 & Hag4). destruct (Hall _ _ _ _ Hxc Hec Hc4) as (y5 & u5 & Hc5 & Hag5). exists y5, u5.
      split; [done|]. eapply agree_trans; [exact Hag5|]. eapply agree_trans; [exact Hag4|by apply agree_sym].
  - destruct Hone as (y & u' & Hcall' & Hagree), Hall as (y5 & u5 & Hc5 & Hag5).
    destruct (call_det _ _ _ _ _ _ _ _ _ _ _ Hcall' Hcall) as (<- & -> & -> & ->).
    exists y5, u5. split; [done|]. eapply agree_trans; [exact Hag5|by apply agree_sym].
Qed.

(** A caller that goes on to the next piece when all of one was parsed *)
Fixpoint feed (ps : list (list Z)) x u : option (http_parser * U) :=
  match ps with
  | [] => Some (x, u)
  | data :: ps =>
      match http_parser_execute strict (reader data) max_header_size data x u with
      | Done (v, y, u') =>
          if bool_decide (v = Z.of_nat (length data) /\ errno_ y = HPE_OK) then feed ps y u' else None
      | Faulted _ => None
      end
  end.

(** C10. A buffer within the maximal header size can be cut in two.  If a call parses the first piece without
    error and without an upgrade, then it parsed all of it, and the call with
    the whole buffer returns what the second call returns, counted from the
    start, with the same errno; without an error it leaves the same parser, and
    has told the user the same. *)
Theorem execute_split a b x u v1 x1 u1 :
  a <> [] -> b <> [] -> good x -> errno_ x = HPE_OK ->
  nread_ x + Z.of_nat (length a) + Z.of_nat (length b) <= max_header_size ->
  http_parser_execute strict (reader a) max_header_size a x u = Done (v1, x1, u1) -> errno_ x1 = HPE_OK -> upgrade x1 = 0 ->
  v1 = Z.of_nat (length a) /\ good x1 /\ nread_ x1 <= nread_ x + Z.of_nat (length a) /\
  exists v2 y2 u2, http_parser_execute strict (reader b) max_header_size b x1 u1 = Done (v2, y2, u2) /\
  exists y u', http_parser_execute strict (reader (a ++ b)) max_header_size (a ++ b) x u = Done (Z.of_nat (length a) + v2, y, u') /\
    agree y u' y2 u2.
Proof.
  intros Ha Hb Hx He Hn Hex1 He1 Hup. assert (Hab : a ++ b <> []) by (by destruct a, b).
  destruct (call_exists a x u Ha Hx He) as (t & v & xa & ua & Hca & Hexa & Hend). rewrite Hexa in Hex1. injection Hex1 as -> -> ->.
  destruct t; [|by apply Hend in He1]. destruct Hend as (Hv & Hx1 & _).
  destruct (pieces a b x u Ha Hb Hx He Hn _ _ _ _ Hca) as [Hn1 Hab2]. do 3 (split; [done|]).
  destruct (call_exists b x1 u1 Hb Hx1 He1) as (t2 & v2 & y2 & u2 & Hcb & Hexb & _). exists v2, y2, u2. split; [done|].
  destruct (Hab2 _ _ _ _ Hcb) as (y & u' & Hcab & Hag). exists y, u'. split; [|done].
  destruct (call_exists (a ++ b) x u Hab Hx He) as (t3 & v3 & y3 & u3 & Hcab' & Hexab & _).
  destruct (call_det _ _ _ _ _ _ _ _ _ _ _ Hcab' Hcab) as (-> & -> & -> & ->). rewrite Hexab. by rewrite Z.add_comm.
Qed.

(** A first piece that is not gone through stops the call with the whole. *)
Lemma execute_first a b x u v y u' :
  a <> [] -> b <> [] -> good x -> errno_ x = HPE_OK ->
  nread_ x + Z.of_nat (length a) + Z.of_nat (length b) <= max_header_size ->
  http_parser_execute strict (reader (a ++ b)) max_header_size (a ++ b) x u = Done (v, y, u') ->
  errno_ y = HPE_OK -> upgrade y = 0 ->
  exists x1 u1 v2, http_parser_execute strict (reader a) max_header_size a x u = Done (Z.of_nat (length a), x1, u1) /\
    errno_ x1 = HPE_OK /\ good x1 /\ nread_ x1 <= nread_ x + Z.of_nat (length a) /\
    http_parser_execute strict (reader b) max_header_size b x1 u1 = Done (v2, y, u').
Proof.
  intros Ha Hb Hx He Hn Hex Hey Hup. assert (Hab : a ++ b <> []) by (by destruct a, b).
  destruct (call_exists (a ++ b) x u Hab Hx He) as (t3 & v3 & y3 & u3 & Hcab & Hexab & _).
  rewrite Hexab in Hex. injection Hex as -> -> ->.
  destruct (call_exists a x u Ha Hx He) as (t & v1 & x1 & u1 & Hca & Hexa & Hend).
  pose proof (pieces a b x u Ha Hb Hx He Hn _ _ _ _ Hca) as Hp. destruct t.
  - destruct Hend as (-> & Hx1 & He1), Hp as [Hn1 Hp].
    destruct (call_exists b x1 u1 Hb Hx1 He1) as (t2 & v2 & y2 & u2 & Hcb & Hexb & _).
    destruct (Hp _ _ _ _ Hcb) as (y4 & u4 & Hc4 & [Herr Hsame]).
    destruct (call_det _ _ _ _ _ _ _ _ _ _ _ Hcab Hc4) as (-> & -> & -> & ->).
    rewrite Herr in Hey. destruct (Hsame Hey) as [-> ->]. by exists x1, u1, v2.
  - destruct Hp as (y4 & u4 & Hc4 & [Herr Hsame]). destruct (call_det _ _ _ _ _ _ _ _ _ _ _ Hcab Hc4) as (-> & -> & -> & ->).
    rewrite Herr in Hey. destruct (Hsame Hey) as [-> ->]. by apply Hend in Hey.
Qed.

(** C9. A message is parsed the same however the network cuts it up.  If one
    call parses a buffer within the maximal header size without error and without an upgrade, then so do calls
    with any pieces of it, one after the other; they leave the same parser, and
    have told the user the same. *)
Theorem execute_pieces ps x u v y u' :
  ps <> [] -> Forall (fun data => data <> []) ps -> good x -> errno_ x = HPE_OK ->
  nread_ x + Z.of_nat (length (concat ps)) <= max_header_size ->
  http_parser_execute strict (reader (concat ps)) max_header_size (concat ps) x u = Done (v, y, u') ->
  errno_ y = HPE_OK -> upgrade y = 0 -> feed ps x u = Some (y, u').
Proof.
  intros Hne Hps. revert x u v Hne. induction Hps as [|a ps Ha Hps IH]; intros x u v Hne Hx He Hn Hex Hey Hup; [done|].
  cbn [concat feed] in *. destruct (decide (ps = [])) as [->|Hne'].
  - cbn [concat] in Hex. rewrite app_nil_r in Hex.
    destruct (call_exists a x u Ha Hx He) as (t & v1 & x1 & u1 & _ & Hexa & Hend). rewrite Hexa in *. injection Hex as -> -> ->.
    destruct t; [|by apply Hend in Hey]. destruct Hend as (-> & _). by rewrite bool_decide_true.
  - assert (Hb : concat ps <> []) by (destruct Hps as [|b ps Hb]; [done|by destruct b]).
    rewrite length_app in Hn.
    destruct (execute_first a (concat ps) x u v y u' Ha Hb Hx He ltac:(lia) Hex Hey Hup)
      as (x1 & u1 & v2 & Hexa & He1 & Hx1 & Hn1 & Hexb).
    rewrite Hexa, bool_decide_true by done. by apply (IH x1 u1 v2); [..|lia| | |].
Qed.
End Calls.

(** ** A transcript of what a user is told *)

Inductive item := Told (n : notice) (x : http_parser) | Text (m : part) (bytes : list Z).

(** The latest item first; the pieces of a part are put together. *)
Definition add_text (m : part) (bytes : list Z) (l : list item) : list item :=
  match l with
  | Text m' bytes' :: l' => if decide (m' = m) then Text m (bytes' ++ bytes) :: l' else Text m bytes :: l
  | _ => Text m bytes :: l
  end.

#[export] Instance transcript : Reader (list item) :=
  { told n x l := Told n x :: l; given := add_text; skips _ _ := 0 }.

#[export] Instance transcript_laws : ReaderLaws (list item).
Proof.
  split. intros m a b l. cbn. unfold add_text.
  destruct l as [|[n x|m' bytes] l]; [by rewrite decide_True|by rewrite decide_True|].
  case_decide as Hm; [|by rewrite decide_True]. by rewrite decide_True, app_assoc.
Qed.

Definition short_request : list Z := chars (lines ["GET / HTTP/1.1"; "A: b"; ""]).

Lemma init_good t : parser_ok HTTP_MAX_HEADER_SIZE (http_parser_init t).
Proof. by apply init_ok. Qed.

(** Cut inside the name of the protocol *)
Lemma execute_split_witness :
  exists v1 x1 u1 v2 y2 u2 y u',
    http_parser_execute true (reader (take 8 short_request)) HTTP_MAX_HEADER_SIZE (take 8 short_request)
      (http_parser_init HTTP_REQUEST) [] = Done (v1, x1, u1) /\
    http_parser_execute true (reader (drop 8 short_request)) HTTP_MAX_HEADER_SIZE (drop 8 short_request) x1 u1
      = Done (v2, y2, u2) /\
    http_parser_execute true (reader (take 8 short_request ++ drop 8 short_request)) HTTP_MAX_HEADER_SIZE
      (take 8 short_request ++ drop 8 short_request) (http_parser_init HTTP_REQUEST) [] = Done (Z.of_nat (length (take 8 short_request)) + v2, y, u') /\
    agree y u' y2 u2.
Proof.
  assert (H1 : exists v1 x1 u1, http_parser_execute true (reader (take 8 short_request)) HTTP_MAX_HEADER_SIZE
    (take 8 short_request) (http_parser_init HTTP_REQUEST) [] = Done (v1, x1, u1) /\ errno_ x1 = HPE_OK /\ upgrade x1 = 0).
  { eexists _, _, _. split; [vm_compute; reflexivity|]. by split. }
  destruct H1 as (v1 & x1 & u1 & H1 & He & Hup). exists v1, x1, u1.
  destruct (execute_split true HTTP_MAX_HEADER_SIZE ltac:(done) (take 8 short_request) (drop 8 short_request)
    (http_parser_init HTTP_REQUEST) [] v1 x1 u1 ltac:(done) ltac:(done) (init_good _) eq_refl ltac:(done) H1 He Hup)
    as (_ & _ & _ & v2 & y2 & u2 & H2 & y & u' & H3 & Hag).
  exists v2, y2, u2, y, u'. exact (conj H1 (conj H2 (conj H3 Hag))).
Defined.

(** A byte at a time *)
Definition bytewise : list (list Z) := map (fun c => [c]) short_request.

Lemma bytewise_parses :
  exists v y u', http_parser_execute true (reader (concat bytewise)) HTTP_MAX_HEADER_SIZE (concat bytewise)
    (http_parser_init HTTP_REQUEST) [] = Done (v, y, u') /\ errno_ y = HPE_OK /\ upgrade y = 0.
Proof. eexists _, _, _. split; [vm_compute; reflexivity|]. by split. Qed.

Lemma bytewise_pieces : Forall (fun a => a <> []) bytewise.
Proof. apply Forall_fmap, Forall_forall. by intros c _. Qed.

Lemma execute_pieces_witness :
  exists v y u', http_parser_execute true (reader (concat bytewise)) HTTP_MAX_HEADER_SIZE (concat bytewise)
      (http_parser_init HTTP_REQUEST) [] = Done (v, y, u') /\
    feed true HTTP_MAX_HEADER_SIZE bytewise (http_parser_init HTTP_REQUEST) [] = Some (y, u').
Proof.
  destruct bytewise_parses as (v & y & u' & H1 & He & Hup). exists v, y, u'. split; [exact H1|].
  assert (Hmax : 0 <= HTTP_MAX_HEADER_SIZE < 2 ^ 32) by (vm_compute; split; congruence).
  assert (Hn : nread_ (http_parser_init HTTP_REQUEST) + Z.of_nat (length (concat bytewise)) <= HTTP_MAX_HEADER_SIZE)
    by (vm_compute; congruence).
  assert (Hne : bytewise <> []) by discriminate.
  exact (execute_pieces true HTTP_MAX_HEADER_SIZE Hmax bytewise (http_parser_init HTTP_REQUEST) [] v y u'
    Hne bytewise_pieces (init_good _) eq_refl Hn H1 He Hup).
Defined.
