(* ===== verification/HttpBytes.v ===== *)
(** [http_parser_execute] a byte at a time: rules for what each byte of a
    message does, from which longer parts of a message are put together. *)
From S2P Require Import Prelude HttpTypes HttpUrl HttpExec HttpStates HttpHeaders HttpParser HttpLogic HttpSafe HttpTotal HttpRuns HttpScan HttpRel HttpTied HttpCross HttpSplit HttpHandover HttpPieces.

Local Open Scope Z_scope.
Local Open Scope exec_scope.
#[local] Arguments Z.add : simpl never.
#[local] Arguments Z.sub : simpl never.

Section Bytes.
Context {U : Type} `{ReaderLaws U}.
Variable strict : bool.
Variable max_header_size : Z.
Hypothesis Hmax : 0 <= max_header_size < 2 ^ 32.
Implicit Types (x y : http_parser) (u : U) (data : list Z) (k : Z).

#[local] Abbreviation call := (call strict max_header_size).
#[local] Abbreviation run_for x data := (run strict (reader data) max_header_size
  (negb (lenient_http_headers x =? 0)) (negb (allow_chunked_length x =? 0)) data).
#[local] Abbreviation case x data := (dispatch strict (reader data) max_header_size
  (negb (lenient_http_headers x =? 0)) (negb (allow_chunked_length x =? 0)) data).

(** A parser without error, that may count [k] bytes more *)
Definition ready k x : Prop :=
  parser_ok max_header_size x /\ errno_ x = HPE_OK /\ nread_ x + k <= max_header_size.

(** Calls with the bytes of [data], one by one, go through all of them, and end
    as [K] says; [k] bytes are still to come after them. *)
Fixpoint eats data k x u (K : http_parser -> U -> Prop) : Prop :=
  match data with
  | [] => K x u
  | c :: data => ready (Z.of_nat (S (length data)) + k) x ->
      exists y u', call [c] x u true 1 y u' /\ eats data k y u' K
  end.

Lemma eats_mono data k x u (K K' : http_parser -> U -> Prop) :
  eats data k x u K -> (forall y u', K y u' -> K' y u') -> eats data k x u K'.
Proof.
  revert x u. induction data as [|c data IH]; intros x u He HK; [by apply HK|]. intros Hr.
  destruct (He Hr) as (y & u' & Hc & Hd). exists y, u'. split; [done|]. by apply IH.
Qed.

Lemma eats_app a b k x u K :
  eats a (Z.of_nat (length b) + k) x u (fun y u' => eats b k y u' K) -> eats (a ++ b) k x u K.
Proof.
  revert x u. induction a as [|c a IH]; intros x u He; [done|]. intros Hr.
  destruct He as (y & u' & Hc & Hd).
  { cbn [app length] in Hr. rewrite length_app in Hr. destruct Hr as (? & ? & Hr). split; [done|]. split; [done|]. lia. }
  exists y, u'. split; [done|]. by apply IH.
Qed.

Lemma eats_split a b k x u K :
  eats (a ++ b) k x u K -> eats a (Z.of_nat (length b) + k) x u (fun y u' => eats b k y u' K).
Proof.
  revert x u. induction a as [|c a IH]; intros x u He; [done|]. intros Hr.
  destruct He as (y & u' & Hc & Hd).
  { cbn [app length]. rewrite length_app. destruct Hr as (? & ? & Hr). split; [done|]. split; [done|]. lia. }
  exists y, u'. split; [done|]. by apply IH.
Qed.

(** ** From bytes to buffers *)

Lemma call_ready data k x u v y u' :
  data <> [] -> 0 <= k -> ready (Z.of_nat (length data) + k) x -> call data x u true v y u' ->
  v = Z.of_nat (length data) /\ ready k y.
Proof.
  intros Hd Hk (Hx & He & Hn) Hc.
  destruct (call_exists strict max_header_size Hmax data x u Hd Hx He) as (t & v1 & y1 & u1 & Hc1 & _ & Hend).
  destruct (call_det _ _ _ _ _ _ _ _ _ _ _ _ _ Hc Hc1) as (<- & -> & -> & ->).
  destruct Hend as (Hv & Hy & Hey). split; [done|]. split; [done|]. split; [done|].
  destruct (Z.eq_dec k 0) as [->|Hk0]; [pose proof (po_nread _ _ Hy); lia|].
  destruct (pieces strict max_header_size Hmax data [0] x u Hd ltac:(done) Hx He ltac:(cbn [length]; lia) _ _ _ _ Hc1) as [Hb _].
  lia.
Qed.

Lemma eats_call data k x u K :
  data <> [] -> 0 <= k -> ready (Z.of_nat (length data) + k) x -> eats data k x u K ->
  exists y u', call data x u true (Z.of_nat (length data)) y u' /\ ready k y /\ K y u'.
Proof.
  intros Hd Hk. revert x u. induction data as [|c data IH]; [done|]. intros x u Hr Heats.
  destruct (Heats Hr) as (y & u' & Hc & Hrest). clear Heats.
  destruct (call_ready [c] (Z.of_nat (length data) + k) x u 1 y u') as [_ Hry]; [done|lia| |done|].
  { destruct Hr as (? & ? & Hn). split; [done|]. split; [done|]. cbn [length] in *. lia. }
  destruct (decide (data = [])) as [->|Hne]; [by exists y, u'|].
  destruct (IH Hne y u' Hry Hrest) as (z & u2 & Hcd & Hrz & HK). exists z, u2. split; [|done].
  destruct Hr as (Hx & He & Hn). cbn [length] in Hn.
  pose proof (pieces strict max_header_size Hmax [c] data x u ltac:(done) Hne Hx He ltac:(cbn [length]; lia) _ _ _ _ Hc) as [_ Hp].
  destruct (Hp _ _ _ _ Hcd) as (z1 & u3 & Hcc & Herr & Hsame). destruct Hrz as (_ & Hez & _).
  destruct (Hsame Hez) as [-> ->]. cbn [app length] in *. by replace (Z.of_nat (S (length data))) with (Z.of_nat (length data) + Z.of_nat 1) by lia.
Qed.

(** However the bytes are cut into buffers *)
Lemma eats_feed ps k x u K :
  Forall (fun data => data <> []) ps -> 0 <= k -> ready (Z.of_nat (length (concat ps)) + k) x ->
  eats (concat ps) k x u K ->
  exists y u', feed strict max_header_size ps x u = Some (y, u') /\ ready k y /\ K y u'.
Proof.
  intros Hps Hk. revert x u. induction Hps as [|a ps Ha Hps IH]; intros x u Hr Heats; [by exists x, u|].
  cbn [concat feed] in *. rewrite length_app in Hr. apply eats_split in Heats.
  destruct (eats_call a (Z.of_nat (length (concat ps)) + k) x u _ Ha ltac:(lia)
    ltac:(destruct Hr as (? & ? & ?); split; [done|split; [done|lia]]) Heats) as (y & u' & Hc & Hry & Hrest).
  destruct Hr as (Hx & He & _).
  destruct (call_exists strict max_header_size Hmax a x u Ha Hx He) as (t & v1 & y1 & u1 & Hc1 & Hex & _).
  destruct (call_det _ _ _ _ _ _ _ _ _ _ _ _ _ Hc Hc1) as (<- & <- & <- & <-).
  rewrite Hex, bool_decide_true by (split; [done|apply Hry]). by apply IH.
Qed.

(** ** A byte *)

(** The locals when a call has read its first byte *)
Definition byte_in c x u : exec U :=
  with_ch c (with_nread (fun _ => if PARSING_HEADER (state_ x) then nread_ x + 1 else nread_ x) (entry x u)).

Lemma run_break x c s s' e :
  case x [c] (p_state s) s = Break s' -> p s' = 0 -> e = Through (advance s') -> run_for x [c] false s e.
Proof.
  intros Hd Hp ->. eapply run_next; [by left|right; exact Hd|]. apply run_end. cbn. by rewrite Hp.
Qed.

Lemma run_value x c s s' e :
  case x [c] (p_state s) s = Value tt s' -> p s' = 0 -> e = Through (advance s') -> run_for x [c] false s e.
Proof.
  intros Hd Hp ->. eapply run_next; [by left|left; exact Hd|]. apply run_end. cbn. by rewrite Hp.
Qed.

Lemma run_reexecute x c s s' e :
  case x [c] (p_state s) s = Reexecute s' -> run_for x [c] false s' e -> run_for x [c] false s e.
Proof. intros Hd Hr. eapply run_again; [by left|exact Hd|done]. Qed.

Lemma eat_byte m o x' st n cs u' c data k x u K :
  0 <= k ->
  (ready (Z.of_nat (S (length data)) + k) x -> errno_ x' = HPE_OK /\
    run_for x [c] false (byte_in c x u)
      (Through (with_mark m o (Exec x' st n 1 cs None None None None None u')))) ->
  eats data k (stale st n x') (match o with Some j => given m (slice [c] j (1 - j)) u' | None => u' end) K ->
  eats (c :: data) k x u K.
Proof.
  intros Hk Hrun HK Hr. pose proof Hr as (Hx & He & Hn). destruct (Hrun Hr) as (He' & Hgo).
  exists (stale st n x'), (match o with Some j => given m (slice [c] j (1 - j)) u' | None => u' end). split; [|done].
  destruct (leftovers_one [c] m o x' st n 1 cs u' He') as (s' & Hl & Hp & Hu).
  eexists (Through _), s'. split; [|split; [|split; [exact Hp|exact Hu]]]; [|split; [done|exact Hl]].
  assert (Hn1 : nread_ x + 1 <= max_header_size) by lia. pose proof (po_nread _ _ Hx) as Hn0.
  assert (Hent : p (entry x u) = 0 /\ p_state (entry x u) = state_ x /\ nread (entry x u) = nread_ x).
  { unfold entry. by destruct (entry_marks _) as [[[? ?] ?] ?]. }
  destruct Hent as (Hp0 & Hst & Hnr).
  apply (run_read strict max_header_size x [c] _ (byte_in c x u)); [|by rewrite Hp0|exact Hgo].
  unfold byte_in. rewrite (next_byte_eq _ _ c), Hst; [|lia|by rewrite Hp0]. destruct (PARSING_HEADER _).
  - rewrite (COUNT_small _ 1 (nread_ x)); [done|done|lia|lia|lia|lia].
  - unfold with_ch, with_nread. by rewrite <- Hnr.
Qed.

(** The locals at the first byte, in a part that goes on or in none *)
Lemma byte_in_part m st n c y u :
  token_state m st = true ->
  byte_in c (stale st n y) u = with_mark m (Some 0)
    (Exec (stale st n y) st (if PARSING_HEADER st then n + 1 else n) 0 c None None None None None u).
Proof. by destruct m, st. Qed.

Lemma byte_in_plain st n c y u :
  (forall m, token_state m st = false) ->
  byte_in c (stale st n y) u =
    Exec (stale st n y) st (if PARSING_HEADER st then n + 1 else n) 0 c None None None None None u.
Proof.
  intros Hm. pose proof (Hm header_field). pose proof (Hm header_value). pose proof (Hm url). pose proof (Hm status).
  by destruct st.
Qed.

Lemma run_last x c st0 s m o y st n cs u :
  p_state s = st0 -> case x [c] st0 s = Break (with_mark m o (Exec y st n 0 cs None None None None None u)) ->
  run_for x [c] false s (Through (with_mark m o (Exec y st n 1 cs None None None None None u))).
Proof. intros <- Hd. eapply run_break; [exact Hd|by destruct m|by destruct m]. Qed.

(** A byte that is looked at once *)
Lemma eat_once m o st n y st' n' x' cs u' c data k u K :
  0 <= k ->
  (parser_ok max_header_size (stale st n y) -> errno_ y = HPE_OK -> n + 1 <= max_header_size ->
    case y [c] st (byte_in c (stale st n y) u) = Break (with_mark m o (Exec x' st' n' 0 cs None None None None None u')) /\
    errno_ x' = HPE_OK) ->
  eats data k (stale st' n' x') (match o with Some j => given m (slice [c] j (1 - j)) u' | None => u' end) K ->
  eats (c :: data) k (stale st n y) u K.
Proof.
  intros Hk Hrun. apply (eat_byte m o x' st' n' cs u'); [done|]. intros (Hx & He & Hn). cbn [nread_ stale] in Hn.
  destruct (Hrun Hx He ltac:(lia)) as [Hc He']. split; [done|].
  eapply run_last; [|exact Hc]. unfold byte_in, entry. by destruct st.
Qed.
End Bytes.

(** ** Callbacks of a reader *)

Section Callbacks.
Context {U : Type} `{Reader U}.

Lemma bind_value {A B} (m : E U A) (k : A -> E U B) a s s' : m s = Value a s' -> ebind m k s = k a s'.
Proof. intros Hm. unfold ebind. by rewrite Hm. Qed.

Lemma bind_data {B} data m fin er (k : unit -> E U B) s :
  errno_ (parser s) = HPE_OK ->
  ebind (CALLBACK_DATA_ (reader data) m fin er) k s = k tt
    match mark_of m s with
    | Some j => with_mark m None (called (p_state s) (given m (slice data j (fin - j)) (user s)) s)
    | None => s
    end.
Proof. intros He. apply bind_value. by apply data_eq. Qed.

Lemma notify_eq n e er s :
  errno_ (parser s) = HPE_OK ->
  CALLBACK_NOTIFY_ (Some (reader_cb n)) e er s = Value tt (called (p_state s) (told n (public (parser s)) (user s)) s).
Proof.
  intros He. unfold CALLBACK_NOTIFY_, assert_no_errno.
  rewrite ebind_assoc, ebind_look, ebind_assert by (by apply bool_decide_eq_true).
  rewrite ebind_upd, ebind_look. unfold reader_cb, after_callback, ebind, look, upd. cbn.
  by rewrite He, decide_False by (by intros Hne).
Qed.

Lemma bind_notify {B} n e er (k : unit -> E U B) s :
  errno_ (parser s) = HPE_OK ->
  ebind (CALLBACK_NOTIFY_ (Some (reader_cb n)) e er) k s =
    k tt (called (p_state s) (told n (public (parser s)) (user s)) s).
Proof. intros He. apply bind_value. by apply notify_eq. Qed.
End Callbacks.

Lemma given_nil_r {U} `{ReaderLaws U} m a (u : U) : given m [] (given m a u) = given m a u.
Proof. by rewrite <- given_app, app_nil_r. Qed.

(** Runs a case on locals that are spelled out. *)
Ltac use_conditions := repeat match goal with H : _ = true |- _ => rewrite H | H : _ = false |- _ => rewrite H end.
Ltac decide_chars := match goal with |- context [?a =? ?b] =>
  let v := eval vm_compute in (a =? b) in
  match v with true => change (a =? b) with true | false => change (a =? b) with false end end.
Ltac step_case := repeat (first
  [ progress erun | progress norm
  | progress (use_conditions; cbn [orb andb negb])
  | progress (decide_chars; cbn [orb andb negb])
  | rewrite andb_false_r | rewrite decide_False by done | rewrite decide_True by done
  | progress cbn [reader on_message_begin on_headers_complete on_message_complete on_chunk_header on_chunk_complete]
  | rewrite bind_data by done | rewrite bind_notify by done
  | progress unfold CALLBACK_DATA, CALLBACK_DATA_NOADVANCE, CALLBACK_NOTIFY, CALLBACK_NOTIFY_NOADVANCE, ewhen, MARK,
      STRICT_CHECK, url_step, assert_chunked, clear_nread ]).
Ltac spell_out := cbv beta iota delta [called with_state with_nread with_p with_ch with_user with_parser with_mark
  parser p_state nread p ch user header_field_mark header_value_mark url_mark body_mark status_mark].
Ltac spell_state := match goal with |- context [with_ch ?c ?s] =>
  let v := eval cbv beta iota delta [with_ch with_mark parser p_state nread p ch header_field_mark header_value_mark
    url_mark body_mark status_mark user] in (with_ch c s) in change (with_ch c s) with v end.
Ltac byte_from m :=
  first [rewrite (byte_in_part m) by done | rewrite byte_in_plain by (by intros [])];
  try match goal with |- context [if PARSING_HEADER ?st then ?a else ?b] =>
    let v := eval vm_compute in (PARSING_HEADER st) in
    match v with
    | true => change (if PARSING_HEADER st then a else b) with a
    | false => change (if PARSING_HEADER st then a else b) with b
    end end.
Tactic Notation "byte_case" constr(Hmax) constr(m) constr(o) reference(d) :=
  eapply (eat_once _ _ Hmax m o);
  [done|intros Hx He Hn; byte_from m; split; [cbn [dispatch]; unfold d; step_case; spell_out; reflexivity|exact He]
  |repeat match goal with |- context [stale ?a ?b (stale ?c ?d ?y)] => change (stale a b (stale c d y)) with (stale a b y) end].
