(* ===== verification/HttpMethod.v ===== *)
(** The request method (the cases [s_start_req] and [s_req_method] of
    src/bazel/external/http_parser/http_parser.c): the parser guesses a method
    from its first letter and corrects the guess, and so reads exactly the
    names of [method_strings]. *)
From S2P Require Import Prelude HttpTypes HttpUrl HttpExec HttpStates HttpHeaders HttpParser HttpLogic HttpSafe.

Local Open Scope Z_scope.
Local Open Scope exec_scope.

(** The characters of the name of method [m] *)
Definition method_text (m : Z) : list Z := chars (default "" (method_strings !! Z.to_nat m)).
Definition method_names : list (list Z) := map chars method_strings.

(** The corrections at position [pos] of method [m]: a character, and the
    method it leads to *)
Definition corrections (m : Z) (pos : nat) : list (Z * Z) :=
  (fun e => (e.1.2, e.2)) <$>
    filter (fun e => (e.1.1.1 =? m) && (e.1.1.2 =? Z.of_nat pos) = true) method_switch.

(** What a character other than a space leads to *)
Definition options (m : Z) (pos : nat) : list (Z * Z) :=
  match method_text m !! pos with
  | Some c => (c, m) :: filter (fun e => negb (e.1 =? c) = true) (corrections m pos)
  | None => corrections m pos
  end.

(** The guess after a prefix of a name *)
Fixpoint guess_from (m : Z) (pos : nat) (l : list Z) : Z :=
  match l with
  | [] => m
  | c :: l =>
      match list_find (fun e => e.1 = c) (options m pos) with
      | Some (_, (_, m')) => guess_from m' (S pos) l
      | None => m
      end
  end.
Definition guess (l : list Z) : Z :=
  match l with
  | [] => 0
  | c :: l => guess_from (default 0 (first_letter_method c)) 1 l
  end.

(** The pairs of a guess and a position that occur *)
Definition reached : list (Z * nat) :=
  concat ((fun name => (fun n => (guess (take n name), n)) <$> seq 1 (length name)) <$> method_names).

Definition pair_ok (e : Z * nat) : bool :=
  let '(m, pos) := e in
  let w := take pos (method_text m) in
  let opts := options m pos in
  (Nat.leb pos (length (method_text m))) && (Nat.leb 1 pos) && (0 <=? m) && (m <? 34) &&
  forallb (fun '(c, m') => bool_decide ((m', S pos) ∈ reached)
                           && bool_decide (take (S pos) (method_text m') = w ++ [c])
                           && (negb (c =? 0)) && (((chr "A" <=? c) && (c <=? chr "Z")) || (c =? chr "-"))) opts &&
  forallb (fun name => if bool_decide (take pos name = w) then
                         match name !! pos with
                         | Some c => bool_decide (c ∈ opts.*1)
                         | None => bool_decide (w = method_text m)
                         end
                       else true) method_names.

Lemma reached_ok e : e ∈ reached -> pair_ok e = true.
Proof.
  revert e. rewrite <- Forall_forall. apply Forall_forall. intros e He.
  assert (Hall : forallb pair_ok reached = true) by (vm_compute; reflexivity).
  rewrite forallb_forall in Hall. apply Hall. by apply list_elem_of_In.
Qed.

(** What is known at a pair that occurs *)
Record pair_facts (m : Z) (pos : nat) : Prop := {
  pf_method : 0 <= m < 34;
  pf_pos : (1 <= pos <= length (method_text m))%nat;
  pf_option c m' : (c, m') ∈ options m pos ->
    (m', S pos) ∈ reached /\ take (S pos) (method_text m') = take pos (method_text m) ++ [c] /\ c <> 0 /\
    (((chr "A" <=? c) && (c <=? chr "Z")) || (c =? chr "-")) = true;
  pf_complete name : name ∈ method_names -> take pos name = take pos (method_text m) ->
    match name !! pos with
    | Some c => c ∈ (options m pos).*1
    | None => take pos (method_text m) = method_text m
    end
}.

Lemma reached_facts m pos : (m, pos) ∈ reached -> pair_facts m pos.
Proof.
  intros Hr. pose proof (reached_ok _ Hr) as Hok. unfold pair_ok in Hok.
  apply andb_true_iff in Hok as [Hok Hcomp]. apply andb_true_iff in Hok as [Hok Hopt].
  rewrite !andb_true_iff, !Nat.leb_le, Z.leb_le, Z.ltb_lt in Hok. destruct Hok as [[[H1 H2] H3] H4].
  rewrite forallb_forall in Hcomp, Hopt. split; [lia|lia| |].
  - intros c m' Hc. apply list_elem_of_In in Hc. specialize (Hopt _ Hc). cbv beta iota in Hopt.
    rewrite !andb_true_iff, !bool_decide_eq_true in Hopt. destruct Hopt as [[[? ?] Hz] ?].
    split_and!; try done. intros ->. done.
  - intros name Hn Heq. apply list_elem_of_In in Hn. specialize (Hcomp _ Hn). cbv beta in Hcomp.
    rewrite bool_decide_true in Hcomp by done.
    destruct (name !! pos); by apply bool_decide_eq_true in Hcomp.
Qed.

(** ** [switch_method] and the corrections *)

Lemma method_switch_ranges :
  Forall (fun e => 0 <= e.1.1.2 < 256 /\ 0 <= e.1.2 < 256) method_switch.
Proof. unfold method_switch. repeat (constructor; [cbn; lia|]). constructor. Qed.

Lemma method_code_inj m pos c m' pos' c' :
  0 <= pos < 256 -> 0 <= c < 256 -> 0 <= pos' < 256 -> 0 <= c' < 256 ->
  method_code m pos c = method_code m' pos' c' -> m = m' /\ pos = pos' /\ c = c'.
Proof. intros Hp Hc Hp' Hc'. rewrite !method_code_eq by done. lia. Qed.

Lemma switch_method_some m (pos : nat) c m' :
  (pos < 256)%nat -> 0 <= c < 256 -> switch_method m (Z.of_nat pos) c = Some m' -> (c, m') ∈ corrections m pos.
Proof.
  intros Hp Hc Hs. unfold switch_method in Hs. apply fmap_Some in Hs as ([j [[[a b] d] e]] & Hf & ->).
  apply list_find_Some in Hf as (Hj & Hcode & _). cbn [fst snd]. apply list_elem_of_lookup_2 in Hj.
  pose proof method_switch_ranges as Hr. rewrite Forall_forall in Hr. destruct (Hr _ Hj) as [Hb Hd]. cbn in Hb, Hd.
  destruct (method_code_inj a b d m (Z.of_nat pos) c) as (-> & -> & ->); [done|done|lia|done|exact Hcode|].
  unfold corrections. apply list_elem_of_fmap. exists (m, Z.of_nat pos, c, e). split; [done|].
  apply list_elem_of_filter. split; [|done]. cbn. by rewrite !Z.eqb_refl.
Qed.

Lemma switch_method_none m (pos : nat) c :
  switch_method m (Z.of_nat pos) c = None -> c ∉ (corrections m pos).*1.
Proof.
  intros Hs Hc. unfold switch_method in Hs. apply fmap_None, list_find_None in Hs. rewrite Forall_forall in Hs.
  unfold corrections in Hc. apply list_elem_of_fmap in Hc as ([c' m'] & -> & Hc).
  apply list_elem_of_fmap in Hc as ([[[a b] d] e] & [= -> ->] & He).
  apply list_elem_of_filter in He as [Hab He]. cbn in Hab.
  apply andb_true_iff in Hab as [->%Z.eqb_eq ->%Z.eqb_eq]. by apply (Hs _ He).
Qed.

(** ** One character *)

(** The parser has read [w], a prefix of the name of its guess. *)
Definition reads (x : http_parser) (w : list Z) : Prop :=
  index x = Z.of_nat (length w) /\ (method x, length w) ∈ reached /\ w = take (length w) (method_text (method x)).

Lemma method_string m : 0 <= m < 34 -> exists name, method_strings !! Z.to_nat m = Some name /\ method_text m = chars name.
Proof.
  intros Hm. destruct (lookup_lt_is_Some_2 method_strings (Z.to_nat m)) as [name Hn]; [cbn; lia|].
  exists name. split; [done|]. unfold method_text. by rewrite Hn.
Qed.

Lemma method_text_name m : 0 <= m < 34 -> method_text m ∈ method_names.
Proof.
  intros Hm. destruct (method_string m Hm) as (name & Hn & ->). apply list_elem_of_fmap_2.
  by eapply list_elem_of_lookup_2.
Qed.

Lemma name_method name : name ∈ method_names -> exists m, 0 <= m < 34 /\ name = method_text m.
Proof.
  intros Hn. apply list_elem_of_fmap in Hn as (s & -> & Hs). apply list_elem_of_lookup in Hs as [n Hn].
  pose proof (lookup_lt_Some _ _ _ Hn) as Hlt. cbn in Hlt. exists (Z.of_nat n). split; [lia|].
  unfold method_text. by rewrite Nat2Z.id, Hn.
Qed.

(** Names are letters and hyphens, shorter than 16 characters. *)
Definition name_char (c : Z) : bool := ((chr "A" <=? c) && (c <=? chr "Z")) || (c =? chr "-").

Lemma names_chars name : name ∈ method_names -> forallb name_char name = true /\ (length name < 16)%nat.
Proof.
  assert (Hall : forallb (fun name => forallb name_char name && Nat.ltb (length name) 16) method_names = true)
    by (vm_compute; reflexivity).
  rewrite forallb_forall in Hall. intros Hn. apply list_elem_of_In in Hn. specialize (Hall _ Hn).
  by rewrite andb_true_iff, Nat.ltb_lt in Hall.
Qed.

Lemma name_char_at name n c : name ∈ method_names -> name !! n = Some c -> name_char c = true.
Proof.
  intros Hn Hc. destruct (names_chars _ Hn) as [Hall _]. rewrite forallb_forall in Hall.
  apply Hall, list_elem_of_In. by eapply list_elem_of_lookup_2.
Qed.

Lemma reads_facts x w : reads x w -> pair_facts (method x) (length w).
Proof. intros (_ & Hr & _). by apply reached_facts. Qed.

(** The character the parser compares with, which is 0 at the end of a name *)
Lemma expected_char x w :
  reads x w ->
  exists s, method_strings !! Z.to_nat (method x) = Some s /\
    c_string_at s (index x) =
      Some (default 0 (method_text (method x) !! length w)).
Proof.
  intros Hx. pose proof (reads_facts _ _ Hx) as [Hm Hp _ _]. destruct Hx as (Hi & _ & _).
  destruct (method_string _ Hm) as (s & Hs & Htext). exists s. split; [done|].
  unfold c_string_at. rewrite Hi, Nat2Z.id, Htext. rewrite Htext in Hp.
  destruct (decide (length w < length (chars s))%nat) as [Hlt|Hge].
  - rewrite lookup_app_l by done. destruct (lookup_lt_is_Some_2 (chars s) (length w)) as [c Hc]; [done|].
    by rewrite Hc.
  - rewrite lookup_app_r by lia. replace (length w - length (chars s))%nat with O by lia.
    rewrite (lookup_ge_None_2 (chars s)) by lia. done.
Qed.

(** What one character does. *)
Inductive method_step {U} (s : exec U) (w : list Z) (c : Z) : flow U unit -> Prop :=
| step_end s' :
    c = chr " " -> w = method_text (method (parser s)) ->
    p_state s' = s_req_spaces_before_url -> method (parser s') = method (parser s) ->
    method_step s w c (Break s')
| step_on s' :
    p_state s' = p_state s -> reads (parser s') (w ++ [c]) -> method_step s w c (Break s')
| step_fail :
    c ∉ (options (method (parser s)) (length w)).*1 -> ~ (c = chr " " /\ w = method_text (method (parser s))) ->
    method_step s w c (GotoError (set_error HPE_INVALID_METHOD (with_ch c s))).

(** A character among the options leads on. *)
Lemma reads_option {U} (s s' : exec U) w c m' :
  reads (parser s) w -> (c, m') ∈ options (method (parser s)) (length w) ->
  p_state s' = p_state s -> index (parser s') = (index (parser s) + 1) mod 32 -> method (parser s') = m' ->
  method_step s w c (Break s').
Proof.
  intros Hx Hc Hst Hi Hm. pose proof (reads_facts _ _ Hx) as Hf.
  destruct (pf_option _ _ Hf c m' Hc) as (Hr & Htake & _). destruct Hx as (Hix & _ & Hw).
  apply step_on; [done|]. unfold reads. rewrite length_app, Hm. cbn [length].
  replace (length w + 1)%nat with (S (length w)) by lia. split_and!; [|done|by rewrite Htake, <- Hw].
  pose proof (pf_pos _ _ Hf). destruct (names_chars _ (method_text_name _ (pf_method _ _ Hf))) as [_ Hlt].
  rewrite Hi, Hix, Z.mod_small by lia. lia.
Qed.

Lemma in_options m pos c m' :
  (c, m') ∈ corrections m pos -> c <> default 0 (method_text m !! pos) -> (c, m') ∈ options m pos.
Proof.
  intros Hc Hne. unfold options. destruct (method_text m !! pos) as [d|]; [|done].
  right. apply list_elem_of_filter. split; [|done]. cbn [fst default from_option id] in *. by apply negb_true_iff, Z.eqb_neq.
Qed.

Lemma options_corrections m pos c :
  c ∈ (options m pos).*1 -> c <> default 0 (method_text m !! pos) -> c ∈ (corrections m pos).*1.
Proof.
  unfold options. destruct (method_text m !! pos) as [d|]; [|done]. intros Hc Hne.
  apply list_elem_of_fmap in Hc as ([c' m'] & Heq & Hin). cbn in Heq. subst c'.
  apply elem_of_cons in Hin as [[= -> ->]|Hin]; [done|]. apply list_elem_of_filter in Hin as [_ Hin].
  apply list_elem_of_fmap. by exists (c, m').
Qed.

(** A letter that the guess does not expect, and that is not the end of it *)
Lemma other_letter {U} (s : exec U) w c :
  reads (parser s) w -> 0 <= c < 256 ->
  c <> default 0 (method_text (method (parser s)) !! length w) ->
  ~ (c = chr " " /\ w = method_text (method (parser s))) ->
  method_step s w c
    (((if ((chr "A" <=? c) && (c <=? chr "Z")) || (c =? chr "-") then
         match switch_method (method (parser s)) (index (parser s)) c with
         | Some m => change (set_method (fun _ => m))
         | None => fail_with HPE_INVALID_METHOD
         end
       else fail_with HPE_INVALID_METHOD);!
      change (set_index (fun i => (i + 1) mod 32));!
      break) (with_ch c s)).
Proof.
  intros Hx Hc Hne Hend. pose proof (reads_facts _ _ Hx) as Hf. pose proof (pf_method _ _ Hf) as Hm.
  assert (Hpos : (length w < 256)%nat).
  { destruct (names_chars _ (method_text_name _ Hm)) as [_ Hlen]. pose proof (pf_pos _ _ Hf). lia. }
  destruct (_ || _) eqn:Hr.
  - rewrite (proj1 Hx). destruct (switch_method _ _ c) as [m'|] eqn:Hsw.
    + erun. eapply reads_option; [done| |done|done|done]. apply switch_method_some in Hsw; [|done|done].
      by apply in_options.
    + erun. apply step_fail; [|done]. apply switch_method_none in Hsw. intros Hin. apply Hsw.
      by apply options_corrections in Hin.
  - erun. apply step_fail; [|done]. intros Hin. apply list_elem_of_fmap in Hin as ([c' m'] & Heq & Hin). cbn in Heq. subst c'.
    destruct (pf_option _ _ Hf _ _ Hin) as (_ & _ & _ & ?). congruence.
Qed.

Lemma req_method_step {U} (s : exec U) w c :
  reads (parser s) w -> 0 <= c < 256 -> method_step s w c (do_req_method (with_ch c s)).
Proof.
  intros Hx Hc. pose proof (reads_facts _ _ Hx) as Hf. pose proof (pf_method _ _ Hf) as Hm.
  pose proof (method_text_name _ Hm) as Hname. destruct (names_chars _ Hname) as [_ Hlen].
  destruct (expected_char _ _ Hx) as (str & Hs & Hexp).
  unfold do_req_method. erun. destruct (Z.eqb_spec c 0) as [Hc0|Hc0].
  { erun. apply step_fail; [|intros [-> _]; discriminate]. intros Hin.
    apply list_elem_of_fmap in Hin as ([c' m'] & Heq & Hin). cbn in Heq. subst c'.
    by destruct (pf_option _ _ Hf _ _ Hin) as (_ & _ & ? & _). }
  erun. rewrite Hs. cbn [mbind option_bind]. rewrite Hexp.
  assert (Hnc : forall n d, method_text (method (parser s)) !! n = Some d -> name_char d = true)
    by (intros n d; by apply name_char_at).
  assert (Hpos : (length w < 256)%nat) by (pose proof (pf_pos _ _ Hf); lia).
  pose proof (other_letter s w c Hx Hc) as Hother.
  destruct (method_text (method (parser s)) !! length w) as [d|] eqn:Hd; cbn [default from_option id] in *.
  - assert (Hd0 : (d =? 0) = false).
    { apply Z.eqb_neq. intros ->. specialize (Hnc _ _ Hd). discriminate. }
    assert (Hnot : w <> method_text (method (parser s))).
    { intros Hw. apply lookup_lt_Some in Hd. rewrite <- Hw in Hd. lia. }
    rewrite Hd0, andb_false_r. destruct (Z.eqb_spec c d) as [->|Hne].
    + erun. eapply reads_option; [done| |done|done|done]. unfold options. rewrite Hd. by left.
    + apply Hother; [done|]. by intros [_ ?].
  - assert (Hw : w = method_text (method (parser s))).
    { destruct Hx as (_ & _ & Hw). apply lookup_ge_None in Hd. rewrite Hw. apply take_ge. lia. }
    rewrite Z.eqb_refl, andb_true_r. destruct (Z.eqb_spec c (chr " ")) as [->|Hne].
    + erun. by apply step_end.
    + destruct (Z.eqb_spec c 0); [done|]. apply Hother; [done|]. by intros [? _].
Qed.

(** ** The whole name *)

(** The characters after the first, up to the space: the method read *)
Fixpoint name_rest {U} (l : list Z) (s : exec U) : option Z :=
  match l with
  | [] => None
  | c :: l =>
      match do_req_method (with_ch c s) with
      | Break s' =>
          if decide (p_state s' = s_req_spaces_before_url)
          then match l with [] => Some (method (parser s')) | _ => None end
          else name_rest l s'
      | _ => None
      end
  end.

Definition read_method {U} (l : list Z) (s : exec U) : option Z :=
  match l with
  | [] => None
  | c :: l =>
      match do_start_req http_parser_settings_init (with_ch c s) with
      | Break s' => if decide (p_state s' = s_req_method) then name_rest l s' else None
      | _ => None
      end
  end.

Lemma name_no_space name n : name ∈ method_names -> name !! n <> Some (chr " ").
Proof. intros Hn Hc. by apply name_char_at in Hc. Qed.

Lemma names_inj m m' : 0 <= m < 34 -> 0 <= m' < 34 -> method_text m = method_text m' -> m = m'.
Proof.
  intros Hm Hm' Heq.
  assert (Hnd : NoDup method_names) by (apply (bool_decide_unpack _); vm_compute; exact I).
  destruct (method_string m Hm) as (s & Hs & Ht), (method_string m' Hm') as (s' & Hs' & Ht').
  assert (Z.to_nat m = Z.to_nat m'); [|lia].
  apply (NoDup_lookup method_names _ _ (chars s)); [done|..]; unfold method_names; rewrite list_lookup_fmap;
    [by rewrite Hs|rewrite Hs'; cbn; congruence].
Qed.

(** A prefix of a name and a space is the name. *)
Lemma split_at_space w l name name' :
  name ∈ method_names -> name' ∈ method_names -> w = take (length w) name' ->
  w ++ chr " " :: l = name ++ [chr " "] -> w = name /\ l = [].
Proof.
  intros Hn Hn' Hw Heq.
  assert (Hlen : length w = length name).
  { destruct (lt_eq_lt_dec (length w) (length name)) as [[Hlt|]|Hgt]; [|done|].
    - exfalso. apply (name_no_space name (length w) Hn).
      rewrite <- (lookup_app_l name [chr " "]) by done. by rewrite <- Heq, list_lookup_middle.
    - exfalso. apply (name_no_space name' (length name) Hn').
      assert (Hl : w !! length name = Some (chr " ")).
      { rewrite <- (lookup_app_l w (chr " " :: l)) by done. by rewrite Heq, list_lookup_middle. }
      rewrite Hw in Hl. by apply lookup_take_Some in Hl as [? _]. }
  apply app_inj_1 in Heq as [-> [= ->]]; done.
Qed.

Lemma name_rest_exact {U} l (s : exec U) w m :
  p_state s = s_req_method -> reads (parser s) w -> Forall (fun c => 0 <= c < 256) l ->
  name_rest l s = Some m <-> 0 <= m < 34 /\ w ++ l = method_text m ++ [chr " "].
Proof.
  intros Hst Hx Hl. revert s w Hst Hx. induction Hl as [|c l Hc Hl IH]; intros s w Hst Hx.
  { split; [done|]. intros [Hm Heq]. exfalso. rewrite app_nil_r in Heq. destruct Hx as (_ & Hr & Hw).
    pose proof (pf_method _ _ (reached_facts _ _ Hr)) as Hm'.
    apply (name_no_space _ (length (method_text m)) (method_text_name _ Hm')).
    assert (Hlk : w !! length (method_text m) = Some (chr " ")) by (by rewrite Heq, list_lookup_middle).
    rewrite Hw in Hlk. by apply lookup_take_Some in Hlk as [? _]. }
  pose proof (reads_facts _ _ Hx) as Hf. pose proof (method_text_name _ (pf_method _ _ Hf)) as Hname.
  pose proof (proj2 (proj2 Hx)) as Hw. cbn [name_rest].
  destruct (req_method_step s w c Hx Hc) as [s' -> Hend Hst' Hm'|s' Hst' Hx'|Hno Hnot].
  - rewrite decide_True by done. rewrite Hm'. split.
    + destruct l; [|done]. intros [= <-]. split; [by apply pf_method in Hf|]. by rewrite <- Hend.
    + intros [Hm Heq]. destruct (split_at_space w l (method_text m) (method_text (method (parser s)))) as [Hwm ->];
        [by apply method_text_name|done|done|done|].
      f_equal. apply names_inj; [by apply pf_method in Hf|done|congruence].
  - rewrite decide_False by (rewrite Hst', Hst; done). rewrite (IH s' (w ++ [c])) by (congruence || done).
    by rewrite <- app_assoc.
  - split; [done|]. intros [Hm Heq]. exfalso. pose proof (method_text_name m Hm) as Hnm.
    assert (Htake : take (length w) (method_text m) = w \/ (length (method_text m) < length w)%nat).
    { destruct (decide (length w <= length (method_text m))%nat) as [Hle|]; [left|right; lia].
      rewrite <- (take_app_le (method_text m) [chr " "]) by done. by rewrite <- Heq, take_app_length. }
    destruct Htake as [Htake|Hlt].
    + pose proof (pf_complete _ _ Hf _ Hnm) as Hcomp. rewrite Htake, <- Hw in Hcomp. specialize (Hcomp eq_refl).
      destruct (method_text m !! length w) as [d|] eqn:Hd.
      * assert (d = c) as ->; [|done]. rewrite <- (lookup_app_l _ [chr " "]) in Hd by (by eapply lookup_lt_Some).
        rewrite <- Heq, list_lookup_middle in Hd by done. congruence.
      * apply Hnot. split; [|done]. apply lookup_ge_None in Hd.
        assert (Hwm : w = method_text m) by (rewrite <- Htake; by apply take_ge).
        rewrite Hwm in Heq. apply app_inv_head in Heq. congruence.
    + apply (name_no_space _ (length (method_text m)) Hname).
      assert (Hlk : w !! length (method_text m) = Some (chr " ")).
      { rewrite <- (lookup_app_l w (c :: l)) by done. by rewrite Heq, list_lookup_middle. }
      rewrite Hw in Hlk. by apply lookup_take_Some in Hlk as [? _].
Qed.

(** ** The first letter *)

Lemma first_letter_reached c m :
  first_letter_method c = Some m -> (m, 1%nat) ∈ reached /\ [c] = take 1 (method_text m) /\ IS_ALPHA c = true.
Proof.
  unfold first_letter_method. repeat case_match; intros [= <-];
    (match goal with H : (_ =? _) = true |- _ => apply Z.eqb_eq in H; subst c end);
    (split; [apply (bool_decide_unpack _); vm_compute; exact I|by vm_compute]).
Qed.

Lemma first_letter_complete name c :
  name ∈ method_names -> name !! O = Some c -> is_Some (first_letter_method c).
Proof.
  assert (Hall : forallb (fun name => match name with c :: _ => bool_decide (is_Some (first_letter_method c)) | [] => true end)
    method_names = true) by (vm_compute; reflexivity).
  rewrite forallb_forall in Hall. intros Hn Hc. apply list_elem_of_In in Hn. specialize (Hall _ Hn).
  destruct name as [|d name]; [done|]. injection Hc as <-. by apply bool_decide_eq_true in Hall.
Qed.

(** What the first character does. *)
Lemma start_req_step {U} (s : exec U) c :
  errno_ (parser s) = HPE_OK -> (c =? CR) || (c =? LF) = false ->
  match first_letter_method c with
  | Some m => exists s', do_start_req http_parser_settings_init (with_ch c s) = Break s' /\
                p_state s' = s_req_method /\ reads (parser s') [c]
  | None => exists s', do_start_req http_parser_settings_init (with_ch c s) = GotoError s'
  end.
Proof.
  intros He Hbr. unfold do_start_req, clear_message. erun. rewrite Hbr. erun.
  destruct (first_letter_method c) as [m|] eqn:Hm.
  - destruct (first_letter_reached _ _ Hm) as (Hr & Hc & Ha). rewrite Ha. cbn [negb]. erun.
    unfold CALLBACK_NOTIFY, CALLBACK_NOTIFY_, assert_no_errno. erun. cbn [errno_ set_errno set_method set_index
      set_content_length set_uses_transfer_encoding set_flags]. rewrite ebind_assert by (by rewrite bool_decide_true).
    eexists. split; [reflexivity|]. split; [done|]. by split_and!.
  - destruct (negb (IS_ALPHA c)); erun; by eexists.
Qed.

(** C33. The parser reads the methods it knows, and nothing else: the characters
    from the start of a request up to the first space are accepted, with method
    [m], exactly when they are the name of [m], though the parser only guesses
    [m] from the first letter and corrects the guess on the way. *)
Theorem method_names_exact {U} (s : exec U) (l : list Z) (m : Z) :
  p_state s = s_start_req -> errno_ (parser s) = HPE_OK -> Forall (fun c => 0 <= c < 256) l ->
  read_method l s = Some m <-> 0 <= m < 34 /\ l = method_text m ++ [chr " "].
Proof.
  intros Hst He Hl. destruct Hl as [|c l Hc Hl].
  { split; [done|]. intros [_ Heq]. by apply app_cons_not_nil in Heq. }
  cbn [read_method]. assert (Hfirst : forall m, 0 <= m < 34 -> c :: l = method_text m ++ [chr " "] ->
    is_Some (first_letter_method c)).
  { intros m' Hm' Heq. pose proof (method_text_name _ Hm') as Hn.
    destruct (method_text m') as [|d name].
    - assert (Hne : [] ∉ method_names) by (apply (bool_decide_unpack _); vm_compute; exact I). done.
    - injection Heq as -> _. by apply (first_letter_complete _ _ Hn). }
  destruct ((c =? CR) || (c =? LF)) eqn:Hbr.
  - unfold do_start_req. erun. rewrite Hbr. cbn [break]. rewrite decide_False by (cbn; by rewrite Hst).
    split; [done|]. intros [Hm Heq]. destruct (Hfirst m Hm Heq) as [m' Hm'].
    destruct (first_letter_reached _ _ Hm') as (_ & _ & Ha). exfalso.
    apply orb_true_iff in Hbr as [Hcr%Z.eqb_eq|Hlf%Z.eqb_eq]; subst c; discriminate Ha.
  - pose proof (start_req_step s c He Hbr) as Hstep. destruct (first_letter_method c) as [m'|] eqn:Hm'.
    + destruct Hstep as (s' & -> & Hst' & Hx). rewrite decide_True by done. by apply (name_rest_exact l s' [c] m).
    + destruct Hstep as (s' & ->). split; [done|]. intros [Hm Heq]. by destruct (Hfirst m Hm Heq).
Qed.

Lemma method_names_exact_witness :
  read_method (chars "M-SEARCH ") (entry (http_parser_init HTTP_REQUEST) tt) = Some HTTP_MSEARCH.
Proof.
  apply (method_names_exact (entry (http_parser_init HTTP_REQUEST) tt) (chars "M-SEARCH ") HTTP_MSEARCH).
  - reflexivity.
  - reflexivity.
  - repeat constructor; discriminate.
  - split; [split; [discriminate|reflexivity]|reflexivity].
Defined.
