(* ===== verification/HttpLines.v ===== *)
(** What [http_parser_execute] makes of the first line of a request, byte by
    byte. *)
From S2P Require Import Prelude HttpTypes HttpUrl HttpExec HttpStates HttpHeaders HttpParser HttpLogic HttpSafe HttpTotal HttpRuns HttpScan HttpRel HttpTied HttpCross HttpSplit HttpHandover HttpPieces HttpBytes HttpMethod.

Local Open Scope Z_scope.
Local Open Scope exec_scope.
#[local] Arguments Z.add : simpl never.
#[local] Arguments Z.sub : simpl never.

(** ** The method *)

(** The method guessed after the byte [c] at position [i] of the name of [m],
    and whether the name is over *)
Definition next_method (m i c : Z) : option (Z * bool) :=
  expected ← (method_strings !! Z.to_nat m ≫= fun s => c_string_at s i);
  if c =? 0 then None
  else if (c =? chr " ") && (expected =? 0) then Some (m, true)
  else if c =? expected then Some (m, false)
  else if name_char c then (fun m' => (m', false)) <$> switch_method m i c
  else None.

(** The method that a name and a space are read as, from position [i] *)
Fixpoint spell (m i : Z) (l : list Z) : option Z :=
  match l with
  | [] => None
  | c :: l =>
      match next_method m i c with
      | Some (m', true) => match l with [] => Some m' | _ => None end
      | Some (m', false) => spell m' ((i + 1) mod 32) l
      | None => None
      end
  end.

Lemma names_spelt m :
  0 <= m < 34 ->
  exists c l m0, method_text m = c :: l /\ first_letter_method c = Some m0 /\ spell m0 1 (l ++ [chr " "]) = Some m.
Proof.
  intros Hm.
  set (spelt := fun m => match method_text m with
    | c :: l => match first_letter_method c with Some m0 => bool_decide (spell m0 1 (l ++ [chr " "]) = Some m) | None => false end
    | [] => false
    end).
  assert (Hall : forallb spelt (Z.of_nat <$> seq 0 34) = true) by (vm_compute; reflexivity).
  assert (Hm' : spelt m = true).
  { rewrite forallb_forall in Hall. apply Hall, list_elem_of_In, list_elem_of_fmap.
    exists (Z.to_nat m). rewrite elem_of_seq. lia. }
  unfold spelt in Hm'. destruct (method_text m) as [|c l]; [done|].
  destruct (first_letter_method c) as [m0|] eqn:Hm0; [|done]. apply bool_decide_eq_true in Hm'. by exists c, l, m0.
Qed.

Section Lines.
Context {U : Type} `{ReaderLaws U}.
Variable strict : bool.
Variable max_header_size : Z.
Hypothesis Hmax : 0 <= max_header_size < 2 ^ 32.
Implicit Types (y : http_parser) (u : U).
#[local] Abbreviation eats := (eats strict max_header_size).

(** The parser when a message has begun with method [m], in its [i]-th byte *)
Definition begun (m i : Z) y : http_parser :=
  set_method (fun _ => m) (set_index (fun _ => i)
    (set_content_length (fun _ => ULLONG_MAX) (set_uses_transfer_encoding (fun _ => 0) (set_flags (fun _ => 0) y)))).

Lemma eat_first_letter c m n y u data k K :
  0 <= k -> first_letter_method c = Some m ->
  eats data k (stale s_req_method (n + 1) (begun m 1 y)) (told message_begin (public (begun m 1 y)) u) K ->
  eats (c :: data) k (stale s_start_req n y) u K.
Proof.
  intros Hk Hm HK. destruct (first_letter_reached _ _ Hm) as (_ & _ & Ha).
  assert (Hcr : (c =? CR) = false /\ (c =? LF) = false).
  { split; apply Z.eqb_neq; intros ->; discriminate. }
  destruct Hcr as [Hcr Hlf].
  eapply (eat_once _ _ Hmax url (@None Z)); [done|intros Hx He Hn; byte_from url; split|].
  - cbn [dispatch]. unfold do_start_req, clear_message. step_case. rewrite Hm. step_case. spell_out. reflexivity.
  - exact He.
  - exact HK.
Qed.

(** A byte of the name: [m'] and [ended] are what [next_method] makes of it. *)
Lemma eat_method_char m' ended c n y u data k K :
  0 <= k -> next_method (method y) (index y) c = Some (m', ended) ->
  eats data k (stale (if ended then s_req_spaces_before_url else s_req_method) (n + 1)
    (set_method (fun _ => m') (set_index (fun i => (i + 1) mod 32) y))) u K ->
  eats (c :: data) k (stale s_req_method n y) u K.
Proof.
  intros Hk Hnext HK. unfold next_method in Hnext. apply bind_Some in Hnext as (w & Hw & Hnext).
  eapply (eat_once _ _ Hmax url (@None Z) _ _ _ (if ended then s_req_spaces_before_url else s_req_method) (n + 1)
    (set_method (fun _ => m') (set_index (fun i => (i + 1) mod 32) (stale s_req_method n y))) c u);
    [done|intros Hx He Hn; byte_from url; split|].
  - cbn [dispatch]. unfold do_req_method, name_char in *. step_case.
    destruct (c =? 0); [done|]. step_case. rewrite Hw.
    destruct (_ && _); [injection Hnext as <- <-; step_case; spell_out; reflexivity|].
    destruct (c =? w); [injection Hnext as <- <-; step_case; spell_out; reflexivity|].
    destruct (_ || _); [|done]. destruct (switch_method _ _ _); [|done]. injection Hnext as <- <-.
    step_case. spell_out. reflexivity.
  - exact He.
  - exact HK.
Qed.

Definition named (m i : Z) y : http_parser := set_method (fun _ => m) (set_index (fun _ => i) y).

Lemma eat_method_rest m l n y u data k K :
  0 <= k -> spell (method y) (index y) l = Some m ->
  (forall i, eats data k (stale s_req_spaces_before_url (n + Z.of_nat (length l)) (named m i y)) u K) ->
  eats (l ++ data) k (stale s_req_method n y) u K.
Proof.
  intros Hk Hl HK. revert n y Hl HK. induction l as [|c l IH]; intros n y Hl HK; [done|]. cbn [spell] in Hl.
  destruct (next_method (method y) (index y) c) as [[m' ended]|] eqn:Hnext; [|done].
  cbn [app]. apply (eat_method_char m' ended); [done|done|]. destruct ended.
  - destruct l; [|done]. injection Hl as ->. apply HK.
  - apply IH; [exact Hl|]. intros i. specialize (HK i). cbn [length] in HK.
    replace (n + 1 + Z.of_nat (length l)) with (n + Z.of_nat (S (length l))) by lia. exact HK.
Qed.

(** The name of a method and a space *)
Lemma eat_method m n y u data k K :
  0 <= k -> 0 <= m < 34 ->
  (forall m0 i n', n' <= n + Z.of_nat (length (method_text m)) + 1 ->
     eats data k (stale s_req_spaces_before_url n' (begun m i y)) (told message_begin (public (begun m0 1 y)) u) K) ->
  eats (method_text m ++ chr " " :: data) k (stale s_start_req n y) u K.
Proof.
  intros Hk Hm HK. destruct (names_spelt m Hm) as (c & l & m0 & Htext & Hc & Hl). rewrite Htext in *. cbn [app].
  apply (eat_first_letter c m0); [done|done|]. replace (l ++ chr " " :: data) with ((l ++ [chr " "]) ++ data) by (by rewrite <- app_assoc).
  apply (eat_method_rest m); [done|exact Hl|]. intros i. apply (HK m0). rewrite length_app. cbn [length]. lia.
Qed.

(** ** The target *)

(** The states that a URL can end in *)
Definition url_ends (st : state) : bool :=
  match st with
  | s_req_server | s_req_server_with_at | s_req_path | s_req_query_string_start | s_req_query_string
  | s_req_fragment_start | s_req_fragment => true
  | _ => false
  end.

(** The state before the target of a request *)
Definition target_start (m : Z) : state := if m =? HTTP_CONNECT then s_req_server_start else s_req_spaces_before_url.

(** What the parser takes for the target of a request *)
Definition target_ok (m : Z) (l : list Z) : bool := url_ends (foldl (parse_url_char strict) (target_start m) l).

Lemma dead_stays l : foldl (parse_url_char strict) s_dead l = s_dead.
Proof.
  induction l as [|c l IH]; [done|]. cbn [foldl].
  assert (Hc : parse_url_char strict s_dead c = s_dead) by (unfold parse_url_char; by repeat case_match). by rewrite Hc.
Qed.

Lemma url_char_cases st c :
  parse_url_char strict st c <> s_dead ->
  ((c =? chr " ") = false /\ (c =? CR) = false /\ (c =? LF) = false) /\
  token_state url (parse_url_char strict st c) = true.
Proof.
  unfold parse_url_char. destruct (c =? chr " "), (c =? CR), (c =? LF); try done. cbn [orb].
  destruct (strict && _); [done|]. intros Hd. split; [done|]. revert Hd. unfold server_char.
  destruct st; repeat case_match; done.
Qed.

Lemma eat_url_first c n y u data k K :
  0 <= k -> parse_url_char strict (target_start (method y)) c <> s_dead ->
  eats data k (stale (parse_url_char strict (target_start (method y)) c) (n + 1) y) (given url [c] u) K ->
  eats (c :: data) k (stale s_req_spaces_before_url n y) u K.
Proof.
  intros Hk Hc HK. destruct (url_char_cases _ _ Hc) as ((Hsp & _ & _) & _). unfold target_start in *.
  destruct (method y =? HTTP_CONNECT) eqn:Hconn; byte_case Hmax url (Some 0) do_req_spaces_before_url; exact HK.
Qed.

Lemma eat_url_char st c n y u data k K :
  0 <= k -> token_state url st = true -> parse_url_char strict st c <> s_dead ->
  eats data k (stale (parse_url_char strict st c) (n + 1) y) (given url [c] u) K ->
  eats (c :: data) k (stale st n y) u K.
Proof.
  intros Hk Hst Hc HK. destruct (url_char_cases _ _ Hc) as ((Hsp & Hcr & Hlf) & _).
  destruct st; try discriminate;
    first [byte_case Hmax url (Some 0) do_req_schema; exact HK|byte_case Hmax url (Some 0) do_req_url; exact HK].
Qed.

Lemma eat_url_end st n y u data k K :
  0 <= k -> url_ends st = true ->
  eats data k (stale s_req_http_start (n + 1) y) (given url [] u) K ->
  eats (chr " " :: data) k (stale st n y) u K.
Proof.
  intros Hk Hst HK. destruct st; try discriminate; byte_case Hmax url (@None Z) do_req_url; exact HK.
Qed.

Lemma eat_url_rest st l n y u a data k K :
  0 <= k -> token_state url st = true -> url_ends (foldl (parse_url_char strict) st l) = true ->
  (forall n', eats data k (stale s_req_http_start n' y) (given url (a ++ l) u) K) ->
  eats (l ++ chr " " :: data) k (stale st n y) (given url a u) K.
Proof.
  intros Hk. revert st n a. induction l as [|c l IH]; intros st n a Hst Hend HK; cbn [app foldl] in *.
  - apply eat_url_end; [done|done|]. rewrite given_nil_r. rewrite app_nil_r in HK. apply HK.
  - assert (Hc : parse_url_char strict st c <> s_dead) by (intros Hd; by rewrite Hd, dead_stays in Hend).
    apply eat_url_char; [done..|]. rewrite <- given_app. apply IH; [by apply url_char_cases|done|].
    by rewrite <- app_assoc.
Qed.

Lemma eat_target l n y u data k K :
  0 <= k -> target_ok (method y) l = true ->
  (forall n', eats data k (stale s_req_http_start n' y) (given url l u) K) ->
  eats (l ++ chr " " :: data) k (stale s_req_spaces_before_url n y) u K.
Proof.
  intros Hk Hl HK. destruct l as [|c l].
  { unfold target_ok, target_start in Hl. by destruct (method y =? HTTP_CONNECT). }
  unfold target_ok in Hl. cbn [foldl app] in *.
  assert (Hc : parse_url_char strict (target_start (method y)) c <> s_dead) by (intros Hd; by rewrite Hd, dead_stays in Hl).
  apply eat_url_first; [done..|]. apply eat_url_rest; [done|by apply url_char_cases|done|exact HK].
Qed.

(** ** The version *)

Definition version_text : list Z := chars "HTTP/1.1".
Definition versioned y : http_parser := set_http_minor (fun _ => 1) (set_http_major (fun _ => 1) y).

Lemma eat_version n y u data k K :
  0 <= k ->
  (forall n', eats data k (stale s_header_field_start n' (versioned y)) u K) ->
  eats (version_text ++ CR :: LF :: data) k (stale s_req_http_start n y) u K.
Proof.
  intros Hk HK. let l := eval vm_compute in version_text in change version_text with l. cbn [app].
  byte_case Hmax url (@None Z) do_req_http_start.
  do 4 (byte_case Hmax url (@None Z) expect).
  byte_case Hmax url (@None Z) do_http_major.
  byte_case Hmax url (@None Z) do_http_dot.
  byte_case Hmax url (@None Z) do_http_minor.
  byte_case Hmax url (@None Z) do_req_http_end.
  byte_case Hmax url (@None Z) do_req_line_almost_done. apply HK.
Qed.

(** ** The request line *)

Definition line_of (m : Z) (target : list Z) : list Z :=
  method_text m ++ chr " " :: target ++ chr " " :: version_text ++ [CR; LF].

Lemma eat_line m target n y u data k K :
  0 <= k -> 0 <= m < 34 -> target_ok m target = true ->
  (forall m0 i n', eats data k (stale s_header_field_start n' (versioned (begun m i y)))
     (given url target (told message_begin (public (begun m0 1 y)) u)) K) ->
  eats (line_of m target ++ data) k (stale s_start_req n y) u K.
Proof.
  intros Hk Hm Ht HK. unfold line_of. rewrite <- !app_assoc. cbn [app]. rewrite <- !app_assoc. cbn [app].
  rewrite <- !app_assoc. cbn [app].
  apply eat_method; [done|done|]. intros m0 i n' _. apply eat_target; [done|done|]. intros n2.
  apply eat_version; [done|]. intros n3. apply HK.
Qed.
End Lines.
