(* ===== verification/HttpNames.v ===== *)
(** What [http_parser_execute] makes of the name of a header, byte by byte: the
    names it looks for, and all others. *)
From S2P Require Import Prelude HttpTypes HttpUrl HttpExec HttpStates HttpHeaders HttpParser HttpLogic HttpSafe HttpTotal HttpRuns HttpScan HttpRel HttpTied HttpCross HttpSplit HttpHandover HttpPieces HttpBytes.

Local Open Scope Z_scope.
Local Open Scope exec_scope.
#[local] Arguments Z.add : simpl never.
#[local] Arguments Z.sub : simpl never.

(** ** One byte, without the machine *)

(** [match_word], for the index [i] after its increment *)
Definition match_or (word : string) (c i : Z) (old mismatch complete : header_states) : header_states :=
  let n := Z.of_nat (String.length word) in
  if i >? n then mismatch
  else if negb (c =? default 0 (c_string_at word i)) then mismatch
  else if i =? n - 1 then complete
  else old.
Definition match_step (word : string) (c i : Z) (old complete : header_states) : header_states :=
  match_or word c i old h_general complete.

(** After a part [w] of a word: whether [c] goes on with it *)
Lemma match_or_next word w c old mismatch complete :
  (0 < length w < String.length word)%nat -> w = take (length w) (chars word) ->
  match_or word c (Z.of_nat (length w)) old mismatch complete =
    if bool_decide (w ++ [c] = take (S (length w)) (chars word))
    then if bool_decide (S (length w) = String.length word) then complete else old
    else mismatch.
Proof.
  intros Hw Hpre. destruct (lookup_lt_is_Some_2 (chars word) (length w)) as [d Hd]; [rewrite chars_length; lia|].
  unfold match_or. destruct (Z.gtb_spec (Z.of_nat (length w)) (Z.of_nat (String.length word))) as [|_]; [lia|].
  assert (Hc : c_string_at word (Z.of_nat (length w)) = Some d).
  { unfold c_string_at. rewrite Nat2Z.id, lookup_app_l by (rewrite chars_length; lia). done. }
  rewrite Hc. cbn [default from_option id]. rewrite (take_S_r _ _ _ Hd), <- Hpre.
  destruct (Z.eqb_spec c d) as [->|Hne]; cbn [negb].
  - rewrite bool_decide_true by done. case_bool_decide; destruct (Z.eqb_spec (Z.of_nat (length w)) (Z.of_nat (String.length word) - 1)); done || lia.
  - rewrite bool_decide_false; [done|]. intros Heq. apply app_inj_2 in Heq as [_ Heq]; [|done]. congruence.
Qed.

(** [header_field_char]: the byte [c0] has token [c] *)
Definition name_step (c0 c : Z) (y : http_parser) : http_parser :=
  let i := (index y + 1) mod 32 in
  let to h := set_header_state (fun _ => h) (set_index (fun i => (i + 1) mod 32) y) in
  match header_state y with
  | h_C => to (if c =? chr "o" then h_CO else h_general)
  | h_CO => to (if c =? chr "n" then h_CON else h_general)
  | h_CON =>
      to (if c =? chr "n" then h_matching_connection
          else if c =? chr "t" then h_matching_content_length
          else h_general)
  | h_matching_connection => to (match_step "connection" c i h_matching_connection h_connection)
  | h_matching_proxy_connection =>
      to (match_step "proxy-connection" c i h_matching_proxy_connection h_connection)
  | h_matching_content_length =>
      to (match_step "content-length" c i h_matching_content_length h_content_length)
  | h_matching_transfer_encoding =>
      let h := match_step "transfer-encoding" c i h_matching_transfer_encoding h_transfer_encoding in
      if bool_decide (h = h_transfer_encoding) then set_uses_transfer_encoding (fun _ => 1) (to h) else to h
  | h_matching_upgrade => to (match_step "upgrade" c i h_matching_upgrade h_upgrade)
  | h_connection | h_content_length | h_transfer_encoding | h_upgrade =>
      if c0 =? chr " " then y else set_header_state (fun _ => h_general) y
  | _ => y
  end.

(** The state the first byte of a name leads to, by its token *)
Definition first_step (c : Z) : header_states :=
  if c =? chr "c" then h_C
  else if c =? chr "p" then h_matching_proxy_connection
  else if c =? chr "t" then h_matching_transfer_encoding
  else if c =? chr "u" then h_matching_upgrade
  else h_general.

Section Char.
Context {U : Type}.
Variable strict : bool.
Variable max_header_size : Z.
Implicit Types (y : http_parser) (u : U).

Lemma match_word_eq word c old mismatch complete (s : exec U) :
  match_word word c old mismatch complete s =
  Value (match_or word c ((index (parser s) + 1) mod 32) old mismatch complete)
    (with_parser (set_index (fun i => (i + 1) mod 32)) s).
Proof.
  unfold match_word, match_or, next_index. erun. cbn [index set_index].
  pose proof (Z.mod_pos_bound (index (parser s) + 1) 32 ltac:(lia)) as Hi.
  destruct (Z.gtb_spec ((index (parser s) + 1) mod 32) (Z.of_nat (String.length word))) as [|Hle]; [done|].
  destruct (c_string_at_some word ((index (parser s) + 1) mod 32)) as [w ->]; [lia|]. cbn [default from_option id].
  destruct (negb _); [done|]. by destruct (_ =? _).
Qed.

Lemma name_char_eq c0 c n u y :
  field_header_state (header_state y) = true ->
  header_field_char strict max_header_size [c0] c0 c (Exec y s_header_field n 0 c0 (Some 0) None None None None u)
  = Value tt (Exec (name_step c0 c y) s_header_field n 0 c0 (Some 0) None None None None u).
Proof.
  intros Hh. unfold header_field_char. rewrite ebind_look. cbn [parser]. unfold name_step.
  destruct (header_state y) eqn:Hy; try discriminate; unfold next_index, set_hs;
    try (unfold ebind at 1; rewrite match_word_eq); try reflexivity.
  - rewrite ebind_look. cbn [p]. cbv zeta. change (data_end [c0]) with 1. cbn [skip_tokens length].
    rewrite ebind_look. cbn [p]. destruct (Z.ltb_spec (0 + 1) (0 + (1 - 0) `min` max_header_size)); [lia|done].
  - rewrite ebind_change. cbn [index parser]. unfold ewhen. by destruct (bool_decide _).
  - unfold ewhen. by destruct (c0 =? chr " ").
  - unfold ewhen. by destruct (c0 =? chr " ").
  - unfold ewhen. by destruct (c0 =? chr " ").
  - unfold ewhen. by destruct (c0 =? chr " ").
Qed.
End Char.

Lemma name_step_stale t n c0 c y t' n' : stale t n (name_step c0 c (stale t' n' y)) = stale t n (name_step c0 c y).
Proof.
  unfold name_step. cbn [header_state index stale].
  destruct (header_state y); try reflexivity; cbv zeta; [by case_bool_decide|by destruct (c0 =? _)..].
Qed.

Section Names.
Context {U : Type} `{ReaderLaws U}.
Variable strict : bool.
Variable max_header_size : Z.
Hypothesis Hmax : 0 <= max_header_size < 2 ^ 32.
Implicit Types (y : http_parser) (u : U).
#[local] Abbreviation eats := (eats strict max_header_size).

Lemma eat_name_char c n y u data k K :
  0 <= k -> token strict c = true ->
  eats data k (stale s_header_field (n + 1) (name_step c (TOKEN strict c) y)) (given header_field [c] u) K ->
  eats (c :: data) k (stale s_header_field n y) u K.
Proof.
  intros Hk Ht HK.
  eapply (eat_once _ _ Hmax header_field (Some 0) _ _ _ s_header_field (n + 1) (name_step c (TOKEN strict c) (stale s_header_field n y)) c u);
    [done|intros Hx He Hn; byte_from header_field; split|].
  - cbn [dispatch]. unfold do_header_field. rewrite ebind_look. unfold ebind at 1.
    change (S (length [c])) with 2%nat. pose proof (po_nread _ _ Hx) as Hn0. cbn [nread_ stale] in Hn0.
    rewrite (field_turn _ _ [] _ _ _ c), Ht by (cbn; lia || done).
    cbv iota. spell_state. unfold ebind at 1.
    rewrite name_char_eq by exact (po_state _ _ Hx).
    exact (field_byte strict max_header_size c [] (n + 1) ltac:(cbn; lia) (proj2 Hmax) _ (n + 1) c u _ 1 ltac:(lia) eq_refl ltac:(lia)).
  - by destruct (header_state y) eqn:Hy; unfold name_step; cbn; rewrite Hy; cbv zeta; repeat case_match.
  - by rewrite name_step_stale.
Qed.

Lemma eat_colon n y u data k K :
  0 <= k ->
  eats data k (stale s_header_value_discard_ws (n + 1) y) (given header_field [] u) K ->
  eats (chr ":" :: data) k (stale s_header_field n y) u K.
Proof.
  intros Hk HK.
  eapply (eat_once _ _ Hmax header_field None); [done|intros Hx He Hn; byte_from header_field; split|].
  - cbn [dispatch]. unfold do_header_field. rewrite ebind_look. unfold ebind at 1.
    change (S (length [chr ":"])) with 2%nat. pose proof (po_nread _ _ Hx) as Hn0. cbn [nread_ stale] in Hn0.
    rewrite (field_turn _ _ [] _ _ _ (chr ":")) by (cbn; lia || done).
    replace (token strict (chr ":")) with false by (by destruct strict). cbn [done]. rewrite ebind_look.
    unfold ebind at 1. step_case. change (0 =? data_end [chr ":"]) with false. cbv iota.
    unfold ebind at 1. rewrite (COUNT_small _ _ (n + 1)) by (cbn; lia || done).
    replace (n + 1 + (0 - 0)) with (n + 1) by lia. step_case. spell_out. reflexivity.
  - exact He.
  - exact HK.
Qed.
End Names.

(** ** Whole names *)

(** The parser after the bytes [l] of a name, from a first state *)
Definition name_steps (strict : bool) (l : list Z) (y : http_parser) : http_parser :=
  foldl (fun y c => name_step c (TOKEN strict c) y) y l.

(** A parser in the first byte of a name *)
Definition name_first (strict : bool) (c : Z) (y : http_parser) : http_parser :=
  set_header_state (fun _ => first_step (TOKEN strict c)) (set_index (fun _ => 0) y).

Definition name_read (strict : bool) (name : list Z) (y : http_parser) : http_parser :=
  match name with
  | c :: l => name_steps strict l (name_first strict c y)
  | [] => y
  end.

(** The names that the parser looks for, the state while one of them is being
    read, and the state when it has been *)
Definition words : list (string * header_states * header_states) :=
  [("connection", h_matching_connection, h_connection);
   ("proxy-connection", h_matching_proxy_connection, h_connection);
   ("content-length", h_matching_content_length, h_content_length);
   ("transfer-encoding", h_matching_transfer_encoding, h_transfer_encoding);
   ("upgrade", h_matching_upgrade, h_upgrade)].

(** What is known when the bytes with tokens [w] have been read *)
Inductive tracks (w : list Z) : header_states -> Z -> Prop :=
| tracks_none i : tracks w h_general i
| tracks_start h i : w <> [] -> (h = h_C \/ h = h_CO \/ h = h_CON) ->
    w = take (length w) (chars "con") -> length w = (match h with h_C => 1 | h_CO => 2 | _ => 3 end)%nat ->
    i = Z.of_nat (length w) - 1 -> tracks w h i
| tracks_word word old complete i : (word, old, complete) ∈ words -> (0 < length w < String.length word)%nat ->
    w = take (length w) (chars word) -> i = Z.of_nat (length w) - 1 -> tracks w old i
| tracks_whole word old complete i : (word, old, complete) ∈ words -> w = chars word -> tracks w complete i.

Lemma words_facts word old complete :
  (word, old, complete) ∈ words -> (String.length word < 32)%nat /\ complete <> h_general /\ complete <> old.
Proof.
  assert (Hall : Forall (fun e => (String.length e.1.1 < 32)%nat /\ e.2 <> h_general /\ e.2 <> e.1.2) words)
    by (repeat (constructor; [split_and!; [cbn; lia|done|done]|]); constructor).
  rewrite Forall_forall in Hall. exact (Hall (word, old, complete)).
Qed.

Lemma words_cases word old complete (P : string -> header_states -> header_states -> Prop) :
  (word, old, complete) ∈ words ->
  P "connection" h_matching_connection h_connection ->
  P "proxy-connection" h_matching_proxy_connection h_connection ->
  P "content-length" h_matching_content_length h_content_length ->
  P "transfer-encoding" h_matching_transfer_encoding h_transfer_encoding ->
  P "upgrade" h_matching_upgrade h_upgrade ->
  P word old complete.
Proof.
  intros Hin H1 H2 H3 H4 H5.
  assert (Hall : Forall (fun e => P e.1.1 e.1.2 e.2) words) by (repeat (constructor; [assumption|]); constructor).
  rewrite Forall_forall in Hall. exact (Hall _ Hin).
Qed.

Lemma words_te word complete :
  (word, h_matching_transfer_encoding, complete) ∈ words -> word = "transfer-encoding" /\ complete = h_transfer_encoding.
Proof.
  intros Hin. revert Hin. generalize (eq_refl h_matching_transfer_encoding).
  generalize h_matching_transfer_encoding at 1 3 as old. intros old Hold Hin. revert Hold.
  pattern word, old, complete. by apply words_cases.
Qed.

Lemma match_step_tracks word old complete w c :
  (word, old, complete) ∈ words -> (0 < length w < String.length word)%nat -> w = take (length w) (chars word) ->
  let i := (Z.of_nat (length w) - 1 + 1) mod 32 in
  let h := match_step word c i old complete in
  tracks (w ++ [c]) h i /\ (h = complete -> w ++ [c] = chars word).
Proof.
  intros Hin Hw Hpre. cbv zeta. destruct (words_facts _ _ _ Hin) as (Hlen & Hgen & Hold).
  rewrite Z.mod_small by lia. replace (Z.of_nat (length w) - 1 + 1) with (Z.of_nat (length w)) by lia.
  unfold match_step. rewrite match_or_next by done. case_bool_decide as Hnext; [|split; [constructor|by intros <-]].
  case_bool_decide as Hall.
  - assert (Hw' : w ++ [c] = chars word) by (rewrite Hnext; apply take_ge; rewrite chars_length; lia).
    split; [|done]. by eapply tracks_whole.
  - split; [|by intros ->]. assert (Hl : length (w ++ [c]) = S (length w)) by (rewrite length_app; cbn; lia).
    eapply tracks_word; [exact Hin|lia|by rewrite Hl|lia].
Qed.

(** [y] inside a header *)
Definition put (h : header_states) (i t : Z) (y : http_parser) : http_parser :=
  set_header_state (fun _ => h) (set_index (fun _ => i) (set_uses_transfer_encoding (fun _ => t) y)).

Lemma put_same y : put (header_state y) (index y) (uses_transfer_encoding y) y = y.
Proof. by destruct y. Qed.

Definition te : list Z := chars "transfer-encoding".

Lemma tracks_start_next w h c :
  w <> [] -> h = h_C \/ h = h_CO \/ h = h_CON -> w = take (length w) (chars "con") ->
  length w = (match h with h_C => 1 | h_CO => 2 | _ => 3 end)%nat ->
  tracks (w ++ [c])
    (match h with
     | h_C => if c =? chr "o" then h_CO else h_general
     | h_CO => if c =? chr "n" then h_CON else h_general
     | _ => if c =? chr "n" then h_matching_connection else if c =? chr "t" then h_matching_content_length else h_general
     end) ((Z.of_nat (length w) - 1 + 1) mod 32).
Proof.
  intros Hne Hh Hw Hl. rewrite Hl in Hw.
  destruct Hh as [->|[->| ->]]; rewrite Hl; subst w; cbn [take chars app].
  - destruct (Z.eqb_spec c (chr "o")) as [->|]; [|constructor]. by apply (tracks_start _ h_CO); [|tauto|..].
  - destruct (Z.eqb_spec c (chr "n")) as [->|]; [|constructor]. by apply (tracks_start _ h_CON); [|tauto|..].
  - destruct (Z.eqb_spec c (chr "n")) as [->|].
    { eapply (tracks_word _ "connection"); [by left|cbn; lia|done|done]. }
    destruct (Z.eqb_spec c (chr "t")) as [->|]; [|constructor].
    eapply (tracks_word _ "content-length"); [by do 2 right; left|cbn; lia|done|done].
Qed.

Lemma tracks_step w c0 c y :
  (c0 =? chr " ") = false -> w <> [] -> tracks w (header_state y) (index y) ->
  exists h i t, name_step c0 c y = put h i t y /\ tracks (w ++ [c]) h i /\
    (t = uses_transfer_encoding y \/ t = 1 /\ w ++ [c] = te).
Proof.
  intros Hsp Hw Ht. remember (header_state y) as h0 eqn:Hh. remember (index y) as i0 eqn:Hi.
  destruct Ht as [i|h i Hne Hcases Hcon Hl Hix|word old complete i Hin Hlen Hpre Hix|word old complete i Hin Hall].
  - exists h_general, i, (uses_transfer_encoding y). unfold name_step. rewrite <- Hh.
    split_and!; [|constructor|by left]. rewrite Hh, Hi. by rewrite put_same.
  - pose proof (tracks_start_next w h c Hw Hcases Hcon Hl) as Hn.
    eexists _, _, (uses_transfer_encoding y). split_and!; [|exact Hn|by left].
    unfold name_step. rewrite <- Hh, <- Hix, Hi. by destruct Hcases as [->|[->| ->]].
  - destruct (match_step_tracks word old complete w c Hin Hlen Hpre) as [Hn Hte].
    eexists _, _, (if bool_decide (old = h_matching_transfer_encoding /\ match_step word c ((Z.of_nat (length w) - 1 + 1) mod 32) old complete
      = h_transfer_encoding) then 1 else uses_transfer_encoding y).
    split_and!; [|exact Hn|].
    + unfold name_step. rewrite <- Hh, <- Hix, Hi. clear -Hin. pattern word, old, complete. apply words_cases; [done..| |done].
      cbv zeta. case_bool_decide as Hb; [rewrite bool_decide_true by done|rewrite bool_decide_false by (by intros [_ ?])]; done.
    + case_bool_decide as Hb; [|by left]. right. split; [done|]. destruct Hb as [Ho Hm]. rewrite Ho in *.
      destruct (words_te _ _ Hin) as [-> ->].
      by apply Hte.
  - exists h_general, i, (uses_transfer_encoding y). unfold name_step. rewrite <- Hh.
    assert (Hput : set_header_state (fun _ => h_general) y = put h_general i (uses_transfer_encoding y) y)
      by (rewrite Hi; by destruct y).
    split_and!; [|constructor|by left]. clear Hh Hall. pattern word, old, complete.
    apply words_cases; [done|by rewrite Hsp..].
Qed.

Lemma tracks_first c : tracks [c] (first_step c) 0.
Proof.
  unfold first_step.
  destruct (Z.eqb_spec c (chr "c")) as [->|]; [by apply (tracks_start _ h_C); [|tauto|..]|].
  destruct (Z.eqb_spec c (chr "p")) as [->|].
  { eapply (tracks_word _ "proxy-connection"); [by do 1 right; left|cbn; lia|done|done]. }
  destruct (Z.eqb_spec c (chr "t")) as [->|].
  { eapply (tracks_word _ "transfer-encoding"); [by do 3 right; left|cbn; lia|done|done]. }
  destruct (Z.eqb_spec c (chr "u")) as [->|]; [|constructor].
  eapply (tracks_word _ "upgrade"); [by do 4 right; left|cbn; lia|done|done].
Qed.

Section Whole.
Variable strict : bool.

(** The bytes of a name, in either mode *)
Definition name_byte (c : Z) : bool := negb (STRICT_TOKEN c =? 0).

Lemma name_byte_token c :
  name_byte c = true -> TOKEN strict c = STRICT_TOKEN c /\ token strict c = true /\ (c =? chr " ") = false.
Proof.
  unfold name_byte, token, TOKEN, STRICT_TOKEN. intros Hc. destruct (c =? chr " "); [done|].
  by destruct strict.
Qed.

Lemma put_put h i t h' i' t' y : put h i t (put h' i' t' y) = put h i t y.
Proof. done. Qed.

Lemma name_steps_tracks l w h i t y :
  forallb name_byte l = true -> w <> [] -> tracks w h i ->
  (t = uses_transfer_encoding y \/ t = 1 /\ take (length te) w = te) ->
  exists h' i' t', name_steps strict l (put h i t y) = put h' i' t' y /\ tracks (w ++ map STRICT_TOKEN l) h' i' /\
    (t' = uses_transfer_encoding y \/ t' = 1 /\ take (length te) (w ++ map STRICT_TOKEN l) = te).
Proof.
  revert w h i t. induction l as [|c l IH]; intros w h i t Hl Hw Htr Ht.
  { exists h, i, t. by rewrite app_nil_r. }
  cbn [forallb] in Hl. apply andb_true_iff in Hl as [Hc Hl]. destruct (name_byte_token c Hc) as (Htok & _ & Hsp).
  destruct (tracks_step w c (STRICT_TOKEN c) (put h i t y) Hsp Hw Htr) as (h1 & i1 & t1 & Heq & Htr1 & Ht1).
  unfold name_steps. cbn [foldl map]. rewrite Htok, Heq, put_put.
  destruct (IH (w ++ [STRICT_TOKEN c]) h1 i1 t1 Hl) as (h' & i' & t' & Hs & Htr' & Ht'); [by destruct w|done| |].
  - destruct Ht1 as [->|[-> Hte]]; [|right; split; [done|by rewrite Hte]]. cbn [uses_transfer_encoding put set_index set_header_state
      set_uses_transfer_encoding]. destruct Ht as [->|[-> Hte]]; [by left|]. right. split; [done|].
    assert (Hlen : (length te <= length w)%nat) by (rewrite <- Hte, length_take; lia). by rewrite take_app_le.
  - rewrite <- app_assoc in Htr', Ht'. by exists h', i', t'.
Qed.

(** Names that the parser does not look for; one that only begins with
    transfer-encoding is taken for it in part. *)
Definition ordinary (w : list Z) : bool :=
  forallb (fun e => negb (bool_decide (w = chars e.1.1))) words && negb (bool_decide (take (length te) w = te)).

(** The header states after a name, before an ordinary value *)
Definition plain_state (h : header_states) : bool :=
  match h with
  | h_general | h_C | h_CO | h_CON | h_matching_connection | h_matching_proxy_connection
  | h_matching_content_length | h_matching_transfer_encoding | h_matching_upgrade => true
  | _ => false
  end.

Lemma tracks_plain w h i : tracks w h i -> ordinary w = true -> plain_state h = true.
Proof.
  intros Ht Ho. destruct Ht as [i|h i _ Hcases _ _ _|word old complete i Hin _ _ _|word old complete i Hin Hall]; [done|..].
  - by destruct Hcases as [->|[->| ->]].
  - clear -Hin. pattern word, old, complete. by apply words_cases.
  - exfalso. apply andb_true_iff in Ho as [Ho _]. rewrite forallb_forall in Ho.
    specialize (Ho _ (proj1 (list_elem_of_In _ _) Hin)). by rewrite bool_decide_true in Ho.
Qed.

(** An ordinary name leaves a plain state and nothing else behind. *)
Lemma name_read_plain name y :
  name <> [] -> forallb name_byte name = true -> ordinary (map STRICT_TOKEN name) = true ->
  exists h i, name_read strict name y = put h i (uses_transfer_encoding y) y /\ plain_state h = true.
Proof.
  intros Hne Hn Ho. destruct name as [|c l]; [done|]. cbn [forallb map] in *. apply andb_true_iff in Hn as [Hc Hl].
  destruct (name_byte_token c Hc) as (Htok & _). unfold name_read.
  assert (Hfirst : name_first strict c y = put (first_step (STRICT_TOKEN c)) 0 (uses_transfer_encoding y) y).
  { unfold name_first. rewrite Htok. by destruct y. }
  rewrite Hfirst.
  destruct (name_steps_tracks l [STRICT_TOKEN c] (first_step (STRICT_TOKEN c)) 0 (uses_transfer_encoding y) y Hl) as (h & i & t & Hs & Htr & Ht);
    [done|apply tracks_first|by left|]. exists h, i. split; [|by eapply tracks_plain].
  rewrite Hs. destruct Ht as [->|[_ Hte]]; [done|]. exfalso. apply andb_true_iff in Ho as [_ Ho].
  by rewrite bool_decide_true in Ho.
Qed.
(** Of a name only the tokens matter. *)
Lemma name_step_token c0 c y : (c0 =? chr " ") = false -> name_step c0 c y = name_step 0 c y.
Proof. intros Hc. unfold name_step. rewrite Hc. by destruct (header_state y). Qed.

Lemma name_read_tokens name y :
  forallb name_byte name = true ->
  name_read strict name y =
    match map STRICT_TOKEN name with
    | c :: l => foldl (fun y c => name_step 0 c y) (set_header_state (fun _ => first_step c) (set_index (fun _ => 0) y)) l
    | [] => y
    end.
Proof.
  destruct name as [|c l]; [done|]. cbn [forallb map name_read]. intros [Hc Hl]%andb_true_iff.
  unfold name_first. rewrite (proj1 (name_byte_token c Hc)). generalize (set_header_state (fun _ => first_step (STRICT_TOKEN c)) (set_index (fun _ => 0) y)).
  induction l as [|d l IH]; intros z; [done|]. cbn [forallb] in Hl. apply andb_true_iff in Hl as [Hd Hl].
  unfold name_steps in *. cbn [foldl map]. destruct (name_byte_token d Hd) as (-> & _ & Hsp). rewrite name_step_token by done. by apply IH.
Qed.

(** The names of the field with the options of a connection *)
Definition connection_name (name : list Z) : bool :=
  bool_decide (map STRICT_TOKEN name = chars "connection") || bool_decide (map STRICT_TOKEN name = chars "proxy-connection").

(** The name of the field that asks for another protocol *)
Definition upgrade_name (name : list Z) : bool := bool_decide (map STRICT_TOKEN name = chars "upgrade").

Lemma name_read_upgrade name y :
  forallb name_byte name = true -> upgrade_name name = true ->
  name_read strict name y = put h_upgrade 6 (uses_transfer_encoding y) y.
Proof.
  intros Hn Hc. rewrite name_read_tokens by done. unfold upgrade_name in Hc.
  apply bool_decide_eq_true in Hc. rewrite Hc. by destruct y.
Qed.

Lemma name_read_connection name y :
  forallb name_byte name = true -> connection_name name = true ->
  exists i, name_read strict name y = put h_connection i (uses_transfer_encoding y) y.
Proof.
  intros Hn Hc. rewrite name_read_tokens by done. unfold connection_name in Hc.
  apply orb_true_iff in Hc as [Hc|Hc]; apply bool_decide_eq_true in Hc; rewrite Hc; [exists 9|exists 15]; by destruct y.
Qed.
End Whole.
