(* ===== verification/HttpFields.v ===== *)
(** What [http_parser_execute] makes of the lines of the headers, byte by byte. *)
From S2P Require Import Prelude HttpTypes HttpUrl HttpExec HttpStates HttpHeaders HttpParser HttpLogic HttpSafe HttpTotal HttpRuns HttpScan HttpRel HttpTied HttpTiedValues HttpCross HttpSplit HttpHandover HttpPieces HttpBytes HttpNames.

Local Open Scope Z_scope.
Local Open Scope exec_scope.
#[local] Arguments Z.add : simpl never.
#[local] Arguments Z.sub : simpl never.

(** The parser when a value is over, and no continuation line follows *)
Definition finished (y : http_parser) : http_parser :=
  set_flags (with_flag (finished_flag (header_state y))) y.

Section Fields.
Context {U : Type} `{ReaderLaws U}.
Variable strict : bool.
Variable max_header_size : Z.
Hypothesis Hmax : 0 <= max_header_size < 2 ^ 32.
Implicit Types (y : http_parser) (u : U).
#[local] Abbreviation eats := (eats strict max_header_size).

(** ** The start of a line *)

(** In state [st], with the parser at [y] and the user at [u], a new line is
    parsed by a parser at [y'] and told to a user at [u']. *)
Inductive line_start : state -> http_parser -> U -> http_parser -> U -> Prop :=
| line_first y u : line_start s_header_field_start y u y u
| line_value y u : line_start s_header_value_lws y u (finished y) u
| line_empty y u : header_state y <> h_content_length ->
    line_start s_header_value_discard_lws y u (finished y) (given header_value [] u).

#[local] Abbreviation run_for x data := (run strict (reader data) max_header_size
  (negb (lenient_http_headers x =? 0)) (negb (allow_chunked_length x =? 0)) data).

Lemma line_start_run st y u y' u' c n :
  line_start st y u y' u' -> (c =? chr " ") || (c =? TAB) = false -> errno_ y = HPE_OK ->
  errno_ y' = HPE_OK /\ exists t, forall e,
    run_for y [c] false (Exec (stale t n y') s_header_field_start (n + 1) 0 c None None None None None u') e ->
    run_for (stale st n y) [c] false (byte_in c (stale st n y) u) e.
Proof.
  intros Hst Hc He. destruct Hst as [y u|y u|y u Hlen]; (split; [done|]); byte_from url.
  - by exists s_header_field_start.
  - exists s_header_value_lws. intros e Hrun. eapply run_reexecute; [|exact Hrun].
    cbn [dispatch p_state]. unfold do_header_value_lws, finish_header. step_case. reflexivity.
  - exists s_header_field_start. intros e Hrun. eapply run_reexecute; [|exact Hrun].
    cbn [dispatch p_state]. unfold do_header_value_discard_lws, finish_header. step_case. spell_out. reflexivity.
Qed.

Lemma name_byte_start c :
  name_byte c = true -> (c =? chr " ") || (c =? TAB) = false /\ (c =? CR) = false /\ (c =? LF) = false.
Proof.
  unfold name_byte, STRICT_TOKEN. intros Hc. destruct (c =? chr " "); [done|].
  split_and!; apply Z.eqb_neq; intros ->; discriminate.
Qed.

(** The first byte of a name *)
Lemma eat_name_first st y u y' u' c n data k K :
  0 <= k -> line_start st y u y' u' -> name_byte c = true ->
  eats data k (stale s_header_field (n + 1) (name_first strict c y')) (given header_field [c] u') K ->
  eats (c :: data) k (stale st n y) u K.
Proof.
  intros Hk Hst Hc HK Hr. pose proof Hr as (_ & He & _).
  destruct (name_byte_start c Hc) as (Hws & Hcr & Hlf). destruct (name_byte_token strict c Hc) as (_ & Ht & _).
  unfold token in Ht. apply negb_true_iff in Ht.
  destruct (line_start_run st y u y' u' c n Hst Hws He) as (He' & t & Hrun).
  refine (eat_byte _ _ Hmax header_field (Some 0) (name_first strict c (stale t n y')) s_header_field (n + 1) c u'
    _ _ _ _ _ _ Hk _ HK Hr).
  intros _. split; [done|]. apply Hrun. apply (run_last _ _ y _ s_header_field_start); [done|].
  cbn [dispatch]. unfold do_header_field_start, set_hs. step_case. spell_out. reflexivity.
Qed.

(** The end of the headers *)
Lemma eat_last_cr st y u y' u' n data k K :
  0 <= k -> line_start st y u y' u' ->
  eats data k (stale s_headers_almost_done (n + 1) y') u' K ->
  eats (CR :: data) k (stale st n y) u K.
Proof.
  intros Hk Hst HK Hr. pose proof Hr as (_ & He & _).
  destruct (line_start_run st y u y' u' CR n Hst eq_refl He) as (He' & t & Hrun).
  refine (eat_byte _ _ Hmax url None (stale t n y') s_headers_almost_done (n + 1) CR u' _ _ _ _ _ _ Hk _ HK Hr).
  intros _. split; [done|]. apply Hrun. apply (run_last _ _ y _ s_header_field_start); [done|].
  cbn [dispatch]. unfold do_header_field_start. step_case. reflexivity.
Qed.

(** ** Values *)

Lemma eat_space n y u data k K :
  0 <= k -> eats data k (stale s_header_value_discard_ws (n + 1) y) u K ->
  eats (chr " " :: data) k (stale s_header_value_discard_ws n y) u K.
Proof. intros Hk HK. byte_case Hmax url (@None Z) do_header_value_discard_ws. exact HK. Qed.

(** In a value *)
Definition in_value (h : header_states) (y : http_parser) : http_parser :=
  set_header_state (fun _ => h) (set_index (fun _ => 0) y).

(** The first byte of an ordinary value *)
Lemma eat_value_first c n y u data k K :
  0 <= k -> plain_state (header_state y) = true -> (c =? chr " ") || (c =? TAB) = false -> value_ends c = false ->
  eats data k (stale s_header_value (n + 1) (in_value h_general y)) (given header_value [c] u) K ->
  eats (c :: data) k (stale s_header_value_discard_ws n y) u K.
Proof.
  intros Hk Hplain Hws Hends HK. unfold value_ends in Hends. apply orb_false_iff in Hends as [Hcr Hlf].
  eapply (eat_once _ _ Hmax header_value (Some 0) _ _ _ s_header_value (n + 1) (in_value h_general (stale s_header_value_discard_ws n y)) c u);
    [done|intros Hx He Hn; byte_from url; split|exact HK]; [|exact He].
  cbn [dispatch]. unfold do_header_value_discard_ws, do_header_value_start, set_hs. step_case.
  destruct (header_state y); try discriminate Hplain; step_case; spell_out; reflexivity.
Qed.

(** The first byte of the value of an Upgrade field *)
Lemma eat_upgrade_first c n y u data k K :
  0 <= k -> header_state y = h_upgrade -> (c =? chr " ") || (c =? TAB) = false -> value_ends c = false ->
  eats data k (stale s_header_value (n + 1) (set_flags (with_flag F_UPGRADE) (in_value h_general y))) (given header_value [c] u) K ->
  eats (c :: data) k (stale s_header_value_discard_ws n y) u K.
Proof.
  intros Hk Hh Hws Hends HK. unfold value_ends in Hends. apply orb_false_iff in Hends as [Hcr Hlf].
  eapply (eat_once _ _ Hmax header_value (Some 0) _ _ _ s_header_value (n + 1)
    (set_flags (with_flag F_UPGRADE) (in_value h_general (stale s_header_value_discard_ws n y))) c u);
    [done|intros Hx He Hn; byte_from url; split|exact HK]; [|exact He].
  cbn [dispatch]. unfold do_header_value_discard_ws, do_header_value_start, set_hs. step_case. rewrite Hh. step_case.
  spell_out. reflexivity.
Qed.

(** The first digit of a Content-Length *)
Lemma eat_length_first c n y u data k K :
  0 <= k -> header_state y = h_content_length -> has_flag (flags y) F_CONTENTLENGTH = false -> IS_NUM c = true ->
  eats data k (stale s_header_value (n + 1) (set_content_length (fun _ => c - chr "0")
      (set_flags (with_flag F_CONTENTLENGTH) (in_value h_content_length_num y)))) (given header_value [c] u) K ->
  eats (c :: data) k (stale s_header_value_discard_ws n y) u K.
Proof.
  intros Hk Hh Hf Hc HK. pose proof Hc as Hrange. unfold IS_NUM in Hrange. apply andb_true_iff in Hrange as [H1%Z.leb_le H2%Z.leb_le].
  assert (Hws : (c =? chr " ") || (c =? TAB) = false /\ (c =? CR) = false /\ (c =? LF) = false).
  { rewrite orb_false_iff, !Z.eqb_neq. unfold TAB, CR, LF. lia. }
  destruct Hws as (Hws & Hcr & Hlf).
  eapply (eat_once _ _ Hmax header_value (Some 0) _ _ _ s_header_value (n + 1)
    (set_content_length (fun _ => c - chr "0") (set_flags (with_flag F_CONTENTLENGTH)
      (in_value h_content_length_num (stale s_header_value_discard_ws n y)))) c u);
    [done|intros Hx He Hn; byte_from url; split|exact HK]; [|exact He].
  cbn [dispatch]. unfold do_header_value_discard_ws, do_header_value_start, set_hs. step_case. rewrite Hh. step_case.
  rewrite u64_small by lia. spell_out. reflexivity.
Qed.

(** The first letter of [chunked] *)
Lemma eat_chunked_first n y u data k K :
  0 <= k -> header_state y = h_transfer_encoding ->
  eats data k (stale s_header_value (n + 1) (in_value h_matching_transfer_encoding_chunked y)) (given header_value [chr "c"] u) K ->
  eats (chr "c" :: data) k (stale s_header_value_discard_ws n y) u K.
Proof.
  intros Hk Hh HK.
  eapply (eat_once _ _ Hmax header_value (Some 0) _ _ _ s_header_value (n + 1)
    (in_value h_matching_transfer_encoding_chunked (stale s_header_value_discard_ws n y)) (chr "c") u);
    [done|intros Hx He Hn; byte_from url; split|exact HK]; [|exact He].
  cbn [dispatch]. unfold do_header_value_discard_ws, do_header_value_start, set_hs. step_case. rewrite Hh. step_case.
  spell_out. reflexivity.
Qed.

(** A byte in the middle of a value: what the switch on the state makes of the
    parser and of the state *)
Lemma eat_value_byte h' y' c n y u data k K :
  0 <= k -> value_byte (negb (lenient_http_headers y =? 0)) c = true ->
  (forall lenient t, value_byte lenient c = true -> 1 <= max_header_size ->
     header_value_char max_header_size lenient [c] c (LOWER c) (header_state y)
     (Exec (stale t n y) s_header_value (n + 1) 0 c None (Some 0) None None None u)
   = Value h' (Exec (stale t n y') s_header_value (n + 1) 0 c None (Some 0) None None None u)) ->
  errno_ y' = errno_ y ->
  eats data k (stale s_header_value (n + 1) (set_header_state (fun _ => h') y')) (given header_value [c] u) K ->
  eats (c :: data) k (stale s_header_value n y) u K.
Proof.
  intros Hk Hb Hchar Herr HK.
  eapply (eat_once _ _ Hmax header_value (Some 0) _ _ _ s_header_value (n + 1) (set_header_state (fun _ => h') (stale s_header_value n y')) c u);
    [done|intros Hx He Hn; byte_from header_value; split|exact HK]; [|by rewrite <- He].
  cbn [dispatch]. rewrite do_value_eq. unfold ebind at 1. change (S (length [c])) with 2%nat.
  pose proof (po_nread _ _ Hx) as Hn0. cbn [nread_ stale] in Hn0.
  set (l := negb (lenient_http_headers y =? 0)) in *.
  rewrite (value_loop_turn max_header_size l [] _ _ _ _ _ c) by (cbn; lia || done). rewrite value_turn_byte by done.
  spell_state. cbn [parser with_mark header_state stale]. unfold ebind at 1. rewrite Hchar by (done || lia).
  exact (value_byte_alone max_header_size l c [] (n + 1) ltac:(cbn; lia) (proj2 Hmax) _ (n + 1) c u _ 1 h' ltac:(lia) eq_refl ltac:(lia)).
Qed.

(** Ordinary values *)
Lemma general_value_byte c lenient t n y u :
  value_byte lenient c = true -> 1 <= max_header_size ->
  header_value_char max_header_size lenient [c] c (LOWER c) h_general
    (Exec (stale t n y) s_header_value (n + 1) 0 c None (Some 0) None None None u)
  = Value h_general (Exec (stale t n y) s_header_value (n + 1) 0 c None (Some 0) None None None u).
Proof.
  intros Hb Hm. unfold value_byte, value_ends, value_bad in Hb. apply andb_true_iff in Hb as [Hends Hbad].
  apply negb_true_iff in Hends, Hbad. unfold header_value_char, do_general_value. rewrite ebind_assoc, ebind_look. cbn [p].
  cbv zeta. change (data_end [c]) with 1. replace (0 + (1 - 0) `min` max_header_size) with 1 by lia.
  change (S (length [c])) with 2%nat. cbn [skip_value]. rewrite !ebind_assoc, ebind_look. cbn [p]. change (0 =? 1) with false. cbv iota.
  rewrite ebind_assoc, (ebind_char_at _ _ c) by done. rewrite ebind_assoc, ebind_upd, Hends, Hbad. reflexivity.
Qed.

Lemma eat_value_char c n y u data k K :
  0 <= k -> header_state y = h_general -> value_byte (negb (lenient_http_headers y =? 0)) c = true ->
  eats data k (stale s_header_value (n + 1) y) (given header_value [c] u) K ->
  eats (c :: data) k (stale s_header_value n y) u K.
Proof.
  intros Hk Hh Hb HK. apply (eat_value_byte h_general y); [done|done| |done|].
  - intros lenient t Hbyte Hm. rewrite Hh. by apply general_value_byte.
  - rewrite <- Hh. exact HK.
Qed.

(** Digits of a Content-Length *)
Lemma eat_length_char c n y u data k K :
  0 <= k -> header_state y = h_content_length_num -> IS_NUM c = true ->
  0 <= content_length y <= (ULLONG_MAX - 10) / 10 ->
  eats data k (stale s_header_value (n + 1) (set_content_length (fun _ => content_length y * 10 + (c - chr "0")) y))
    (given header_value [c] u) K ->
  eats (c :: data) k (stale s_header_value n y) u K.
Proof.
  intros Hk Hh Hc Hlen HK. pose proof Hc as Hrange. unfold IS_NUM in Hrange.
  apply andb_true_iff in Hrange as [H1%Z.leb_le H2%Z.leb_le].
  change ((ULLONG_MAX - 10) / 10) with 1844674407370955160 in Hlen.
  apply (eat_value_byte h_content_length_num (set_content_length (fun _ => content_length y * 10 + (c - chr "0")) y)); [done| | |done|].
  - unfold value_byte, value_ends, value_bad, IS_HEADER_CHAR.
    assert (Hcr : (c =? CR) = false /\ (c =? LF) = false /\ (31 <? c) = true /\ (c =? 127) = false).
    { rewrite !Z.eqb_neq, Z.ltb_lt. unfold CR, LF. lia. }
    destruct Hcr as (-> & -> & -> & ->). by rewrite !orb_true_r, andb_false_r.
  - intros lenient t _ _. rewrite Hh. unfold header_value_char, content_length_char.
    assert (Hsp : (c =? chr " ") = false) by (rewrite Z.eqb_neq; lia). rewrite Hsp, Hc. cbn [negb]. rewrite ebind_look. cbn [parser].
    change (content_length (stale t n y)) with (content_length y). cbv zeta.
    change ((ULLONG_MAX - 10) / 10) with 1844674407370955160. rewrite (proj2 (Z.ltb_ge _ _)) by lia.
    rewrite (u64_small (content_length y * 10)), u64_small by lia. reflexivity.
  - rewrite <- Hh. exact HK.
Qed.

(** The end of a value *)
Lemma eat_value_cr n y u data k K :
  0 <= k -> eats data k (stale s_header_almost_done (n + 1) y) (given header_value [] u) K ->
  eats (CR :: data) k (stale s_header_value n y) u K.
Proof.
  intros Hk HK. eapply (eat_once _ _ Hmax header_value None);
    [done|intros Hx He Hn; byte_from header_value; split|].
  - cbn [dispatch]. rewrite do_value_eq. change (S (length [CR])) with 2%nat.
    pose proof (po_nread _ _ Hx) as Hn0. cbn [nread_ stale] in Hn0. set (l := negb _). erewrite bind_value.
    2: { rewrite (value_loop_turn max_header_size l [] _ _ _ _ _ CR) by (cbn; lia || done). unfold value_turn, set_hs.
      step_case. reflexivity. }
    unfold after_value, set_hs. step_case. change (0 =? data_end [CR]) with false. unfold ewhen. step_case.
    erewrite bind_value.
    2: { apply (COUNT_small _ _ (n + 1)); cbn; lia || done. }
    replace (n + 1 + (0 - 0)) with (n + 1) by lia. spell_out. reflexivity.
  - exact He.
  - exact HK.
Qed.

Lemma eat_value_lf n y u data k K :
  0 <= k -> eats data k (stale s_header_value_lws (n + 1) y) u K ->
  eats (LF :: data) k (stale s_header_almost_done n y) u K.
Proof. intros Hk HK. byte_case Hmax url (@None Z) do_header_almost_done. exact HK. Qed.

(** The line of an empty value *)
Lemma eat_empty_value n y u data k K :
  0 <= k -> (forall n', eats data k (stale s_header_value_discard_lws n' y) u K) ->
  eats (CR :: LF :: data) k (stale s_header_value_discard_ws n y) u K.
Proof.
  intros Hk HK. byte_case Hmax url (@None Z) do_header_value_discard_ws.
  byte_case Hmax url (@None Z) expect. apply HK.
Qed.
End Fields.
