(* ===== verification/HttpOptions.v ===== *)
(** The options of a connection: what the value of a Connection field asks for,
    and what [http_parser_execute] makes of its bytes. *)
From S2P Require Import Prelude HttpTypes HttpUrl HttpExec HttpStates HttpHeaders HttpParser HttpLogic HttpSafe HttpTotal HttpRuns HttpScan HttpRel HttpTied HttpTiedValues HttpCross HttpSplit HttpHandover HttpPieces HttpBytes HttpNames HttpFields.

Local Open Scope Z_scope.
Local Open Scope exec_scope.
#[local] Arguments Z.add : simpl never.
#[local] Arguments Z.sub : simpl never.

(** ** What a value asks for *)

(** The elements of a list, of whose first one [a] was read *)
Fixpoint elements (a v : list Z) : list (list Z) :=
  match v with
  | [] => [a]
  | c :: v => if c =? chr "," then a :: elements [] v else elements (a ++ [c]) v
  end.

(** An element without the blanks before it *)
Fixpoint strip (e : list Z) : list Z :=
  match e with
  | c :: l => if c =? chr " " then strip l else e
  | [] => []
  end.

(** The options the parser looks for, the state while one of them is being
    read, and the state when it has been *)
Definition option_words : list (string * header_states * header_states) :=
  [("keep-alive", h_matching_connection_keep_alive, h_connection_keep_alive);
   ("close", h_matching_connection_close, h_connection_close);
   ("upgrade", h_matching_connection_upgrade, h_connection_upgrade)].

(** [t] is the word, in either case, and maybe spaces. *)
Definition is_option (word : string) (t : list Z) : bool :=
  bool_decide (map LOWER (take (String.length word) t) = chars word) &&
  forallb (fun c => c =? chr " ") (drop (String.length word) t).

(** The flags of an element *)
Definition option_flag (t : list Z) : Z :=
  foldr (fun e fl => if is_option e.1.1 t then connection_flag e.2 else fl) 0 option_words.

Definition options_flag (es : list (list Z)) : Z := foldr (fun e => Z.lor (option_flag (strip e))) 0 es.

(** [t] is a beginning of a word, but not all of it. *)
Definition partial (t : list Z) : bool :=
  existsb (fun e => bool_decide (map LOWER t = take (length t) (chars e.1.1)) &&
                    (Z.of_nat (length t) <? Z.of_nat (String.length e.1.1))) option_words.

(** The elements that the parser reads as such: a comma after an empty element,
    or after a part of a word, is lost on it. *)
Definition element_ok (last : bool) (e : list Z) : bool :=
  match strip e with
  | [] => last
  | c :: l => negb (STRICT_TOKEN (LOWER c) =? 0) && (last || negb (partial (c :: l)))
  end.
Fixpoint elements_ok (es : list (list Z)) : bool :=
  match es with
  | [] => true
  | [e] => element_ok true e
  | e :: es => element_ok false e && elements_ok es
  end.

(** What the value of a Connection field may be *)
Definition options_ok (v : list Z) : bool :=
  match v with [] => true | c :: _ => negb (c =? chr " ") && elements_ok (elements [] v) end.

Lemma elements_ok_cons e es : es <> [] -> elements_ok (e :: es) = element_ok false e && elements_ok es.
Proof. by destruct es. Qed.

Lemma elements_some a v : elements a v <> [].
Proof. revert a. induction v as [|c v IH]; intros a; cbn; [done|]. by destruct (c =? _). Qed.

(** An element without the blanks before it, with one byte more *)
Definition grow (t : list Z) (c : Z) : list Z := match t with [] => strip [c] | _ => t ++ [c] end.

Lemma strip_snoc e c : strip (e ++ [c]) = grow (strip e) c.
Proof. induction e as [|d e IH]; [done|]. cbn [app strip]. by destruct (d =? chr " "). Qed.

(** ** Words *)

Lemma option_words_cases word old complete (P : string -> header_states -> header_states -> Prop) :
  (word, old, complete) ∈ option_words ->
  P "keep-alive" h_matching_connection_keep_alive h_connection_keep_alive ->
  P "close" h_matching_connection_close h_connection_close ->
  P "upgrade" h_matching_connection_upgrade h_connection_upgrade ->
  P word old complete.
Proof.
  intros Hin H1 H2 H3.
  assert (Hall : Forall (fun e => P e.1.1 e.1.2 e.2) option_words) by (repeat (constructor; [assumption|]); constructor).
  rewrite Forall_forall in Hall. exact (Hall _ Hin).
Qed.

Lemma option_words_facts word old complete :
  (word, old, complete) ∈ option_words -> (1 < String.length word < 32)%nat.
Proof. intros Hin. pattern word, old, complete. apply (option_words_cases _ _ _ _ Hin); cbn; lia. Qed.

Definition begins (word : string) (t : list Z) : Prop := map LOWER t = take (length t) (chars word).

Lemma begins_prefix word a b : begins word (a ++ b) -> begins word a.
Proof.
  unfold begins. rewrite map_app, length_app. intros Hb. apply (f_equal (take (length a))) in Hb.
  rewrite take_app_length' in Hb by (by rewrite length_map). by rewrite take_take, Nat.min_l in Hb by lia.
Qed.

(** A part of a word is a part of no other. *)
Lemma heads_differ :
  Forall (fun e1 => Forall (fun e2 => head (chars e1.1.1) = head (chars e2.1.1) -> e1 = e2) option_words) option_words.
Proof. repeat constructor; done. Qed.

Lemma begins_head word old complete c l :
  (word, old, complete) ∈ option_words -> begins word (c :: l) -> head (chars word) = Some (LOWER c).
Proof.
  intros Hin. pattern word, old, complete. apply (option_words_cases _ _ _ _ Hin); unfold begins; cbn [map length];
    intros Hb; by injection Hb as -> _.
Qed.

Lemma begins_one w1 o1 c1 w2 o2 c2 t :
  (w1, o1, c1) ∈ option_words -> (w2, o2, c2) ∈ option_words -> t <> [] -> begins w1 t -> begins w2 t ->
  (w1, o1, c1) = (w2, o2, c2).
Proof.
  intros Hin1 Hin2 Ht Hb1 Hb2. destruct t as [|c l]; [done|].
  pose proof heads_differ as Hall. rewrite Forall_forall in Hall. specialize (Hall _ Hin1). rewrite Forall_forall in Hall.
  apply (Hall _ Hin2). cbn [fst]. by rewrite (begins_head _ _ _ _ _ Hin1 Hb1), (begins_head _ _ _ _ _ Hin2 Hb2).
Qed.

Lemma is_option_begins word t :
  is_option word t = true ->
  begins word (take (String.length word) t) /\ length (take (String.length word) t) = String.length word.
Proof.
  unfold is_option, begins. rewrite andb_true_iff, bool_decide_eq_true. intros [Heq _].
  pose proof (f_equal length Heq) as Hl. rewrite length_map, chars_length in Hl.
  rewrite Heq, Hl, take_ge by (rewrite chars_length; lia). done.
Qed.

(** ** The state in an element *)

(** The parser has read the element [t] up to here. *)
Inductive reading (t : list Z) : header_states -> Z -> Prop :=
| reading_start : t = [] -> reading t h_matching_connection_token_start 0
| reading_word word old complete i :
    (word, old, complete) ∈ option_words -> (0 < length t < String.length word)%nat -> begins word t ->
    i = Z.of_nat (length t) - 1 -> reading t old i
| reading_whole word old complete i :
    (word, old, complete) ∈ option_words -> is_option word t = true -> reading t complete i
| reading_other i :
    t <> [] -> Forall (fun e => ~ begins e.1.1 t /\ is_option e.1.1 t = false) option_words ->
    reading t h_matching_connection_token i.

Lemma option_flag_none t : Forall (fun e => is_option e.1.1 t = false) option_words -> option_flag t = 0.
Proof. unfold option_flag. intros Hall. induction Hall as [|e l He Hall IH]; [done|]. cbn [foldr]. by rewrite He. Qed.

Lemma is_option_cons word old complete t : (word, old, complete) ∈ option_words -> is_option word t = true -> t <> [].
Proof. intros Hin. pattern word, old, complete. apply (option_words_cases _ _ _ _ Hin); by destruct t. Qed.

Lemma is_option_one w1 o1 c1 w2 o2 c2 t :
  (w1, o1, c1) ∈ option_words -> (w2, o2, c2) ∈ option_words -> is_option w1 t = true -> begins w2 (take (String.length w2) t) ->
  (w1, o1, c1) = (w2, o2, c2).
Proof.
  intros Hin1 Hin2 H1 H2. pose proof (is_option_cons _ _ _ _ Hin1 H1) as Ht. apply is_option_begins in H1 as [H1 _].
  destruct t as [|c t]; [done|].
  assert (Hb : forall w o cm, (w, o, cm) ∈ option_words -> begins w (take (String.length w) (c :: t)) -> begins w [c]).
  { intros w o cm Hin. pattern w, o, cm. apply (option_words_cases _ _ _ _ Hin); intros Hb; exact (begins_prefix _ [c] _ Hb). }
  apply (begins_one w1 o1 c1 w2 o2 c2 [c]); [done|done|done|by eapply Hb|by eapply Hb].
Qed.

(** A part of a word is none. *)
Lemma begins_no_option word old complete t w o cm :
  (word, old, complete) ∈ option_words -> (length t < String.length word)%nat -> begins word t ->
  (w, o, cm) ∈ option_words -> is_option w t = false.
Proof.
  intros Hin Hl Hb Hin2. destruct (is_option w t) eqn:Ho; [|done]. exfalso.
  assert (Heq : (w, o, cm) = (word, old, complete)).
  { eapply is_option_one; [done|done|exact Ho|]. by rewrite take_ge by lia. }
  injection Heq as -> -> ->. apply is_option_begins in Ho as [_ Ho]. rewrite length_take in Ho. lia.
Qed.

(** What has been read of the element says what it asks for. *)
Lemma reading_flag t h i : reading t h i -> option_flag t = finished_flag h.
Proof.
  intros Hr. destruct Hr as [->|word old complete i Hin Hl Hb _|word old complete i Hin Ho|i Hne Hall].
  - reflexivity.
  - transitivity 0; [|pattern word, old, complete; by apply (option_words_cases _ _ _ _ Hin)].
    apply option_flag_none. rewrite Forall_forall. intros [[w o] cm] Hin2. cbn [fst].
    by eapply begins_no_option; [exact Hin|lia|..].
  - assert (Hall : forall w o cm, (w, o, cm) ∈ option_words -> is_option w t = bool_decide (w = word)).
    { intros w o cm Hin2. case_bool_decide as Hw; [by subst w|]. destruct (is_option w t) eqn:Hw2; [|done].
      apply is_option_begins in Hw2 as [Hw2 _]. pose proof (is_option_one _ _ _ _ _ _ _ Hin Hin2 Ho Hw2) as Heq. congruence. }
    unfold option_flag. cbn [option_words foldr fst snd].
    rewrite (Hall "keep-alive" h_matching_connection_keep_alive h_connection_keep_alive) by (by left).
    rewrite (Hall "close" h_matching_connection_close h_connection_close) by (by do 1 right; left).
    rewrite (Hall "upgrade" h_matching_connection_upgrade h_connection_upgrade) by (by do 2 right; left).
    clear Ho Hall. pattern word, old, complete. by apply (option_words_cases _ _ _ _ Hin).
  - rewrite option_flag_none; [done|]. eapply Forall_impl; [exact Hall|]. by intros e [_ ?].
Qed.

Lemma is_option_snoc word t c :
  is_option word (t ++ [c]) = true <->
  (is_option word t = true /\ c = chr " ") \/ (begins word (t ++ [c]) /\ S (length t) = String.length word).
Proof.
  unfold is_option. rewrite !andb_true_iff, !bool_decide_eq_true.
  destruct (decide (String.length word <= length t)%nat) as [Hle|Hgt].
  - rewrite take_app_le, drop_app_le, forallb_app by done. cbn [forallb].
    rewrite !andb_true_iff, Z.eqb_eq. split; [tauto|]. intros [?|[_ Hl]]; [tauto|lia].
  - split.
    + intros [Heq _]. right. pose proof (f_equal length Heq) as Hl.
      rewrite length_map, chars_length, length_take, length_app in Hl. cbn [length] in Hl.
      rewrite take_ge in Heq by (rewrite length_app; cbn [length]; lia). unfold begins.
      rewrite Heq, take_ge; [split; [done|lia]|]. rewrite chars_length, length_app. cbn [length]. lia.
    + intros [[[Heq _] _]|[Hb Hl]].
      * apply (f_equal length) in Heq. rewrite length_map, chars_length, length_take in Heq. lia.
      * unfold begins in Hb. rewrite length_app in Hb. cbn [length] in Hb.
        rewrite take_ge, Hb, drop_ge by (rewrite length_app; cbn [length]; lia).
        rewrite take_ge by (rewrite chars_length; lia). done.
Qed.

(** One byte of an element, without the machine *)
Definition option_step (c : Z) (h : header_states) (i : Z) : header_states * Z :=
  let i' := (i + 1) mod 32 in
  let within word complete := (match_or word (LOWER c) i' h h_matching_connection_token complete, i') in
  match h with
  | h_matching_connection_token_start =>
      (token_start (LOWER c) [(chr "k", h_matching_connection_keep_alive); (chr "c", h_matching_connection_close);
         (chr "u", h_matching_connection_upgrade)] h h_matching_connection_token, i)
  | h_matching_connection_keep_alive => within "keep-alive" h_connection_keep_alive
  | h_matching_connection_close => within "close" h_connection_close
  | h_matching_connection_upgrade => within "upgrade" h_connection_upgrade
  | h_connection_keep_alive | h_connection_close | h_connection_upgrade =>
      (if negb (c =? chr " ") then h_matching_connection_token else h, i)
  | _ => (h, i)
  end.

Lemma reading_snoc_other t c i :
  (forall w o cm, (w, o, cm) ∈ option_words -> ~ begins w (t ++ [c]) /\ (is_option w t = true -> c <> chr " ")) ->
  reading (t ++ [c]) h_matching_connection_token i.
Proof.
  intros Hall. apply reading_other; [by destruct t|]. rewrite Forall_forall. intros [[w o] cm] Hin. cbn [fst].
  destruct (Hall _ _ _ Hin) as [Hb Ho]. split; [done|]. destruct (is_option w (t ++ [c])) eqn:Hc; [|done].
  apply is_option_snoc in Hc as [[H1 H2]|[H1 _]]; [by apply Ho in H1|done].
Qed.

Lemma reading_first c :
  (STRICT_TOKEN (LOWER c) =? 0) = false ->
  reading [c] (token_start (LOWER c) [(chr "k", h_matching_connection_keep_alive); (chr "c", h_matching_connection_close);
         (chr "u", h_matching_connection_upgrade)] h_matching_connection_token_start h_matching_connection_token) 0.
Proof.
  intros Hc. unfold token_start. cbn [list_find fst].
  assert (Hone : forall word old complete, (word, old, complete) ∈ option_words -> head (chars word) = Some (LOWER c) -> reading [c] old 0).
  { intros word old complete Hin Hh. pose proof (option_words_facts _ _ _ Hin) as Hl.
    eapply reading_word; [exact Hin|cbn [length]; lia| |done]. unfold begins.
    destruct (chars word); [done|]. injection Hh as ->. done. }
  case_decide as Hk; [eapply (Hone "keep-alive"); [by left|by rewrite <- Hk]|].
  case_decide as Hcl; [eapply (Hone "close"); [by do 1 right; left|by rewrite <- Hcl]|].
  case_decide as Hu; [eapply (Hone "upgrade"); [by do 2 right; left|by rewrite <- Hu]|].
  cbn. rewrite Hc. cbn [negb]. apply (reading_snoc_other [] c). intros w o cm Hin. split.
  - intros Hb. apply (begins_head _ _ _ _ _ Hin) in Hb. revert Hb. pattern w, o, cm.
    apply (option_words_cases _ _ _ _ Hin); intros Hb; injection Hb as Hb; by (apply Hk || apply Hcl || apply Hu).
  - intros Ho. by apply (is_option_cons _ _ _ _ Hin) in Ho.
Qed.

(** A byte after a part of a word, and one after all of it *)
Lemma reading_step_word word old complete t c :
  (word, old, complete) ∈ option_words -> (0 < length t < String.length word)%nat -> begins word t ->
  reading (t ++ [c]) (option_step c old (Z.of_nat (length t) - 1)).1 (option_step c old (Z.of_nat (length t) - 1)).2.
Proof.
  intros Hin Hl Hb.
  pose proof (option_words_facts _ _ _ Hin) as Hw.
  assert (Hstep : option_step c old (Z.of_nat (length t) - 1) =
    (match_or word (LOWER c) (Z.of_nat (length t)) old h_matching_connection_token complete, Z.of_nat (length t))).
  { replace (Z.of_nat (length t)) with ((Z.of_nat (length t) - 1 + 1) mod 32) at 2 3
      by (rewrite Z.mod_small by lia; lia).
    clear Hl Hb Hw. pattern word, old, complete. by apply (option_words_cases _ _ _ _ Hin). }
  rewrite Hstep. cbn [fst snd]. rewrite <- (length_map LOWER t).
  rewrite match_or_next by (rewrite length_map; done). rewrite length_map.
  assert (Hsnoc : begins word (t ++ [c]) <-> map LOWER t ++ [LOWER c] = take (S (length t)) (chars word)).
  { unfold begins. rewrite map_app, length_app. cbn [length]. by rewrite Nat.add_1_r. }
  case_bool_decide as Hnext.
  + apply Hsnoc in Hnext. case_bool_decide as Hall.
    * eapply reading_whole; [exact Hin|]. apply is_option_snoc. by right.
    * eapply reading_word; [exact Hin| |exact Hnext|]; rewrite length_app; cbn [length]; lia.
  + apply reading_snoc_other. intros w o cm Hin2. split.
    * intros Hbw. apply Hnext, Hsnoc. apply begins_prefix in Hbw as Hbt.
      assert (Heq : (w, o, cm) = (word, old, complete)) by (by eapply begins_one; [..|exact Hbt|exact Hb]; [..|destruct t; [cbn in Hl; lia|done]]).
      by injection Heq as -> -> ->.
    * rewrite (begins_no_option word old complete t w o cm) by (done || lia). done.
Qed.

Lemma reading_step_whole word old complete t c i :
  (word, old, complete) ∈ option_words -> is_option word t = true ->
  reading (t ++ [c]) (option_step c complete i).1 (option_step c complete i).2.
Proof.
  intros Hin Ho. pose proof (is_option_cons _ _ _ _ Hin Ho) as Hne.
  assert (Hstep : option_step c complete i = (if negb (c =? chr " ") then h_matching_connection_token else complete, i)).
  { pattern word, old, complete. by apply (option_words_cases _ _ _ _ Hin). }
  rewrite Hstep. cbn [fst snd]. destruct (Z.eqb_spec c (chr " ")) as [->|Hsp]; cbn [negb].
  + eapply reading_whole; [exact Hin|]. apply is_option_snoc. by left.
  + apply reading_snoc_other. intros w o cm Hin2. split; [|done]. intros Hbw.
    apply is_option_begins in Ho as [Hbt Hlt]. rewrite length_take in Hlt.
    assert (Hbw' : begins w (take (String.length word) t)).
    { apply begins_prefix in Hbw. apply (begins_prefix _ _ (drop (String.length word) t)). by rewrite take_drop. }
    pose proof (option_words_facts _ _ _ Hin) as Hw.
    assert (Heq : (w, o, cm) = (word, old, complete)).
    { eapply begins_one; [exact Hin2|exact Hin| |exact Hbw'|exact Hbt]. destruct t; [done|].
      destruct (String.length word); [lia|done]. }
    injection Heq as -> -> ->. apply (f_equal length) in Hbw.
    rewrite length_map, length_take, chars_length, length_app in Hbw. cbn [length] in Hbw. lia.
Qed.

Lemma reading_step t c h i :
  reading t h i -> (c =? chr ",") = false -> (t = [] -> c = chr " " \/ (STRICT_TOKEN (LOWER c) =? 0) = false) ->
  reading (grow t c) (option_step c h i).1 (option_step c h i).2.
Proof.
  intros Hr Hcomma Hstart. destruct Hr as [->|word old complete i Hin Hl Hb ->|word old complete i Hin Ho|i Hne Hall].
  - cbn [grow strip option_step fst snd]. destruct (Z.eqb_spec c (chr " ")) as [->|Hsp]; [by constructor|].
    apply reading_first. destruct (Hstart eq_refl) as [Hsp'|]; done.
  - replace (grow t c) with (t ++ [c]) by (destruct t; [cbn in Hl; lia|done]).
    by apply (reading_step_word word old complete).
  - pose proof (is_option_cons _ _ _ _ Hin Ho) as Hne.
    replace (grow t c) with (t ++ [c]) by (by destruct t).
    by apply (reading_step_whole word old complete).
  - replace (grow t c) with (t ++ [c]) by (by destruct t).
    cbn [option_step fst snd]. apply reading_snoc_other. intros w o cm Hin. rewrite Forall_forall in Hall.
    destruct (Hall _ Hin) as [Hb Ho]. cbn [fst] in Hb, Ho. split; [|by rewrite Ho].
    intros Hbw. by apply Hb, (begins_prefix _ _ _ Hbw).
Qed.

(** ** The bytes of a value *)

(** The parser with the flags [g] too *)
Definition flagged (g : Z) (y : http_parser) : http_parser := set_flags (with_flag g) y.

Lemma flagged_0 y : flagged 0 y = y.
Proof. unfold flagged, set_flags, with_flag. rewrite Z.lor_0_r. by destruct y. Qed.

Lemma flagged_flagged a b y : flagged b (flagged a y) = flagged (Z.lor a b) y.
Proof. unfold flagged, set_flags, with_flag. cbn. by rewrite Z.lor_assoc. Qed.

(** [y] with other traces of the header before *)
Definition aside (h : header_states) (i : Z) (y : http_parser) : http_parser :=
  set_header_state (fun _ => h) (set_index (fun _ => i) y).

Lemma aside_same y : aside (header_state y) (index y) y = y.
Proof. by destruct y. Qed.

(** The header states inside the value of a Connection field *)
Definition option_state (h : header_states) : bool :=
  match h with
  | h_matching_connection_token_start | h_matching_connection_keep_alive | h_matching_connection_close
  | h_matching_connection_upgrade | h_matching_connection_token | h_connection_keep_alive | h_connection_close
  | h_connection_upgrade => true
  | _ => false
  end.

Lemma reading_state t h i : reading t h i -> option_state h = true.
Proof.
  intros [->|word old complete j Hin _ _ _|word old complete j Hin _|j _ _]; [done| | |done];
    pattern word, old, complete; by apply (option_words_cases _ _ _ _ Hin).
Qed.

Lemma strip_app e l : strip e = [] -> strip (e ++ l) = strip l.
Proof. induction e as [|c e IH]; [done|]. cbn [app strip]. by destruct (c =? chr " "). Qed.

Lemma elements_head a v : exists l es, elements a v = (a ++ l) :: es.
Proof.
  revert a. induction v as [|c v IH]; intros a; cbn [elements]; [by exists [], []; rewrite app_nil_r|].
  destruct (c =? chr ","); [by exists [], (elements [] v); rewrite app_nil_r|].
  destruct (IH (a ++ [c])) as (l & es & ->). exists (c :: l), es. by rewrite <- app_assoc.
Qed.

(** An element begins with a token. *)
Lemma elements_ok_start e c v :
  elements_ok (elements (e ++ [c]) v) = true -> strip e = [] -> c = chr " " \/ (STRICT_TOKEN (LOWER c) =? 0) = false.
Proof.
  intros Hok He. destruct (elements_head (e ++ [c]) v) as (l & es & Heq). rewrite Heq in Hok.
  assert (Hone : exists last, element_ok last ((e ++ [c]) ++ l) = true).
  { destruct es as [|e2 es]; [by exists true|]. cbn [elements_ok] in Hok. apply andb_true_iff in Hok as [Hok _]. by exists false. }
  destruct Hone as [last Hone]. unfold element_ok in Hone. rewrite <- app_assoc, strip_app in Hone by done. cbn [app strip] in Hone.
  destruct (Z.eqb_spec c (chr " ")); [by left|right]. apply andb_true_iff in Hone as [Hone _]. by apply negb_true_iff in Hone.
Qed.

(** After a whole element, a comma ends it. *)
Lemma reading_ended e h i :
  reading (strip e) h i -> element_ok false e = true ->
  h = h_matching_connection_token \/ (h = h_connection_keep_alive \/ h = h_connection_close \/ h = h_connection_upgrade).
Proof.
  intros Hr Hok. unfold element_ok in Hok. destruct Hr as [Ht|word old complete j Hin Hl Hb _|word old complete j Hin _|j _ _].
  - by rewrite Ht in Hok.
  - exfalso. destruct (strip e) as [|c l] eqn:Ht; [done|]. apply andb_true_iff in Hok as [_ Hp]. apply negb_true_iff in Hp.
    assert (Hpartial : partial (c :: l) = true).
    { unfold partial. apply existsb_exists. exists (word, old, complete). split; [by apply list_elem_of_In|].
      cbn [fst]. rewrite andb_true_iff, bool_decide_eq_true, Z.ltb_lt. split; [exact Hb|lia]. }
    congruence.
  - right. pattern word, old, complete. apply (option_words_cases _ _ _ _ Hin); auto.
  - by left.
Qed.

Section OptionBytes.
Context {U : Type} `{ReaderLaws U}.
Variable strict : bool.
Variable max_header_size : Z.
Hypothesis Hmax : 0 <= max_header_size < 2 ^ 32.
Implicit Types (y : http_parser) (u : U).
#[local] Abbreviation eats := (eats strict max_header_size).

Lemma eat_option_first c n y u data k K :
  0 <= k -> header_state y = h_connection -> value_ends c = false -> (STRICT_TOKEN (LOWER c) =? 0) = false ->
  (forall h, reading [c] h 0 -> eats data k (stale s_header_value (n + 1) (aside h 0 y)) (given header_value [c] u) K) ->
  eats (c :: data) k (stale s_header_value_discard_ws n y) u K.
Proof.
  intros Hk Hh Hends Hc HK. apply orb_false_iff in Hends as [Hcr Hlf].
  assert (Hws : (c =? chr " ") || (c =? TAB) = false).
  { apply orb_false_iff; split; apply Z.eqb_neq; intros ->; discriminate. }
  pose proof (reading_first c Hc) as Hr. unfold token_start in Hr. cbn [list_find fst] in Hr.
  set (h := if LOWER c =? chr "k" then h_matching_connection_keep_alive else if LOWER c =? chr "c" then h_matching_connection_close
    else if LOWER c =? chr "u" then h_matching_connection_upgrade else h_matching_connection_token).
  eapply (eat_once _ _ Hmax header_value (Some 0) _ _ _ s_header_value (n + 1) (aside h 0 (stale s_header_value_discard_ws n y)) c u);
    [done|intros Hx He Hn; byte_from url; split; [|exact He]|apply (HK h)].
  - cbn [dispatch]. unfold do_header_value_discard_ws, do_header_value_start, set_hs. step_case. rewrite Hh. step_case.
    spell_out. reflexivity.
  - unfold h. destruct (Z.eqb_spec (LOWER c) (chr "k")) as [Hk1|Hk1]; [by rewrite decide_True in Hr|].
    rewrite decide_False in Hr by congruence. cbn in Hr.
    destruct (Z.eqb_spec (LOWER c) (chr "c")) as [Hk2|Hk2]; [by rewrite decide_True in Hr|].
    rewrite decide_False in Hr by (intros Heq; by apply Hk2). cbn in Hr.
    destruct (Z.eqb_spec (LOWER c) (chr "u")) as [Hk3|Hk3]; [by rewrite decide_True in Hr|].
    rewrite decide_False in Hr by (intros Heq; by apply Hk3). cbn in Hr. by rewrite Hc in Hr.
Qed.

(** A byte of an element, and the comma after one *)
Lemma eat_option_char e c n y u data k K :
  0 <= k -> reading (strip e) (header_state y) (index y) -> value_byte (negb (lenient_http_headers y =? 0)) c = true ->
  (c =? chr ",") = false -> (strip e = [] -> c = chr " " \/ (STRICT_TOKEN (LOWER c) =? 0) = false) ->
  (forall h i, reading (strip (e ++ [c])) h i ->
     eats data k (stale s_header_value (n + 1) (aside h i y)) (given header_value [c] u) K) ->
  eats (c :: data) k (stale s_header_value n y) u K.
Proof.
  intros Hk Hr Hb Hcomma Hstart HK. pose proof (reading_step _ _ _ _ Hr Hcomma Hstart) as Hr'.
  apply (eat_value_byte _ _ Hmax (option_step c (header_state y) (index y)).1
    (set_index (fun _ => (option_step c (header_state y) (index y)).2) y)); [done|done| |done|].
  - intros lenient t _ _. pose proof (reading_state _ _ _ Hr) as Hs. unfold header_value_char, option_step.
    destruct (header_state y) eqn:Hh; try discriminate Hs; rewrite ?Hcomma, ?match_word_eq; by destruct y.
  - apply HK. rewrite strip_snoc. exact Hr'.
Qed.
Lemma eat_option_comma e n y u data k K :
  0 <= k -> reading (strip e) (header_state y) (index y) -> element_ok false e = true ->
  eats data k (stale s_header_value (n + 1) (aside h_matching_connection_token_start 0 (flagged (option_flag (strip e)) y)))
    (given header_value [chr ","] u) K ->
  eats (chr "," :: data) k (stale s_header_value n y) u K.
Proof.
  intros Hk Hr Hok HK.
  apply (eat_value_byte _ _ Hmax h_matching_connection_token_start (set_index (fun _ => 0) (flagged (option_flag (strip e)) y)));
    [done|unfold value_byte, value_bad; cbn; by rewrite andb_false_r| |done|exact HK].
  intros lenient t _ _. rewrite (reading_flag _ _ _ Hr).
  destruct (reading_ended _ _ _ Hr Hok) as [Hh|[Hh|[Hh|Hh]]]; rewrite Hh; [|reflexivity..].
  cbn [finished_flag]. rewrite flagged_0. reflexivity.
Qed.

Lemma eat_options_rest v e n y u a data k K :
  0 <= k -> reading (strip e) (header_state y) (index y) -> elements_ok (elements e v) = true ->
  forallb (value_byte (negb (lenient_http_headers y =? 0))) v = true ->
  (forall n' y' h i, finished y' = aside h i (flagged (options_flag (elements e v)) y) ->
     eats data k (stale s_header_value_lws n' y') (given header_value (a ++ v) u) K) ->
  eats (v ++ CR :: LF :: data) k (stale s_header_value n y) (given header_value a u) K.
Proof.
  intros Hk. revert e n y a. induction v as [|c v IH]; intros e n y a Hr Hok Hv HK; cbn [app forallb elements] in *.
  - rewrite app_nil_r in HK. apply eat_value_cr; [done|done|]. rewrite given_nil_r. apply eat_value_lf; [done|done|].
    apply (HK _ _ (header_state y) (index y)). cbn [options_flag foldr]. rewrite Z.lor_0_r, (reading_flag _ _ _ Hr).
    by destruct y.
  - apply andb_true_iff in Hv as [Hc Hv]. destruct (Z.eqb_spec c (chr ",")) as [->|Hne].
    + rewrite elements_ok_cons in Hok by apply elements_some. apply andb_true_iff in Hok as [He Hok].
      apply (eat_option_comma e); [done|done|done|]. rewrite <- given_app. apply (IH []); [by constructor|done|exact Hv|].
      intros n' y' h i Hy. rewrite <- app_assoc. apply (HK n' y' h i). rewrite Hy.
      cbn [options_flag foldr]. by rewrite <- flagged_flagged.
    + apply Z.eqb_neq in Hne. apply (eat_option_char e); [done|done|exact Hc|exact Hne|by eapply elements_ok_start|].
      intros h i Hr'. rewrite <- given_app. apply (IH (e ++ [c])); [exact Hr'|exact Hok|exact Hv|].
      intros n' y' h' i' Hy. rewrite <- app_assoc. apply (HK n' y' h' i'). rewrite Hy. by destruct y.
Qed.

(** A whole value *)
Lemma eat_options v n y u data k K :
  0 <= k -> header_state y = h_connection -> v <> [] -> options_ok v = true ->
  forallb (value_byte (negb (lenient_http_headers y =? 0))) v = true ->
  (forall n' y' h i, finished y' = aside h i (flagged (options_flag (elements [] v)) y) ->
     eats data k (stale s_header_value_lws n' y') (given header_value v u) K) ->
  eats (v ++ CR :: LF :: data) k (stale s_header_value_discard_ws n y) u K.
Proof.
  intros Hk Hh Hne Hok Hv HK. destruct v as [|c v]; [done|]. clear Hne. cbn [options_ok forallb app] in *.
  apply andb_true_iff in Hok as [Hsp Hok]. apply negb_true_iff in Hsp. apply andb_true_iff in Hv as [Hc Hv].
  assert (Hcomma : (c =? chr ",") = false).
  { apply Z.eqb_neq. intros ->. cbn [elements] in Hok. rewrite Z.eqb_refl, elements_ok_cons in Hok by apply elements_some. done. }
  cbn [elements] in Hok, HK. rewrite Hcomma in Hok, HK. cbn [app] in Hok, HK.
  assert (Hstart : (STRICT_TOKEN (LOWER c) =? 0) = false).
  { destruct (elements_ok_start [] c v Hok eq_refl) as [->|]; done. }
  apply (eat_option_first c); [done|done| |done|].
  { unfold value_byte in Hc. apply andb_true_iff in Hc as [Hc _]. by apply negb_true_iff in Hc. }
  intros h Hr. apply (eat_options_rest v [c]); [done| |exact Hok|exact Hv|].
  { cbn [strip]. by rewrite Hsp. }
  intros n' y' h' i' Hy. apply (HK n' y' h' i'). rewrite Hy. by destruct y.
Qed.
End OptionBytes.
