(* ===== verification/HttpBodies.v ===== *)
(** What [http_parser_execute] makes of the end of the headers of a message, and
    of its body, byte by byte. *)
From S2P Require Import Prelude HttpTypes HttpUrl HttpExec HttpStates HttpHeaders HttpParser HttpLogic HttpSafe HttpTotal HttpRuns HttpScan HttpRel HttpTied HttpCross HttpSplit HttpHandover HttpPieces HttpBytes.

Local Open Scope Z_scope.
Local Open Scope exec_scope.
#[local] Arguments Z.add : simpl never.
#[local] Arguments Z.sub : simpl never.

(** The parser from the end of the headers on *)
Definition headed (y : http_parser) : http_parser := set_upgrade (fun _ => 0) y.
(** The same, where it may be left to another protocol *)
Definition turned (up : bool) (y : http_parser) : http_parser := set_upgrade (fun _ => if up then 1 else 0) y.

(** Headers that are neither refused nor lead out of HTTP *)
Record plain_headers (y : http_parser) : Prop := {
  ph_trailing : has_flag (flags y) F_TRAILING = false;
  ph_skip : has_flag (flags y) F_SKIPBODY = false;
  ph_upgrade : upgrade_of y = false;
  ph_framing : (uses_transfer_encoding y =? 1) && has_flag (flags y) F_CONTENTLENGTH = false;
  ph_version : (http_major y >? 0) && (http_minor y >? 0) = true
}.

(** Runs [do_headers_done] on the parser [y] with its headers read. *)
Ltac headers_done y :=
  change (flags y) with (flags (headed y)) in *;
  change (uses_transfer_encoding y) with (uses_transfer_encoding (headed y)) in *;
  change (content_length y) with (content_length (headed y)) in *;
  cbn [dispatch]; unfold do_headers_done, clear_nread; step_case.

Section Bodies.
Context {U : Type} `{ReaderLaws U}.
Variable strict : bool.
Variable max_header_size : Z.
Hypothesis Hmax : 0 <= max_header_size < 2 ^ 32.
(** The user does not ask for bodies to be skipped. *)
Hypothesis Hskips : forall x u, skips x u = 0.
Implicit Types (y : http_parser) (u : U).
#[local] Abbreviation eats := (eats strict max_header_size).
#[local] Abbreviation run_for x data := (run strict (reader data) max_header_size
  (negb (lenient_http_headers x =? 0)) (negb (allow_chunked_length x =? 0)) data).

(** The state after a message that ends before its connection: in strict mode
    nothing follows one that closes it. *)
Definition next_state y : state :=
  if strict && has_flag (flags y) F_CONNECTION_CLOSE then s_dead else start_state y.

Lemma next_message y :
  http_message_needs_eof y = false -> (http_major y >? 0) && (http_minor y >? 0) = true ->
  NEW_MESSAGE strict y = next_state y.
Proof.
  intros Heof Hv. unfold NEW_MESSAGE, http_should_keep_alive, next_state. rewrite Hv, Heof.
  by destruct strict, (has_flag _ _).
Qed.

(** The line feed that ends the headers: the parser tells of them, and goes on
    with the same byte. *)
Lemma headers_over up n y u e :
  upgrade_of y = up -> has_flag (flags y) F_TRAILING = false ->
  (uses_transfer_encoding y =? 1) && has_flag (flags y) F_CONTENTLENGTH = false -> errno_ y = HPE_OK ->
  run_for y [LF] false (Exec (stale s_headers_almost_done n (turned up y)) s_headers_done (n + 1) 0 LF None None None None None
    (told headers_complete (public (turned up y)) u)) e ->
  run_for (stale s_headers_almost_done n y) [LF] false (byte_in LF (stale s_headers_almost_done n y) u) e.
Proof.
  intros <- Htr Hfr He Hrun. byte_from url. eapply run_reexecute; [|exact Hrun].
  cbn [dispatch p_state]. unfold do_headers_almost_done. step_case. unfold check_framing. step_case.
  unfold do_headers_complete. step_case. unfold reader_headers. rewrite Hskips. step_case.
  rewrite decide_False by (by intros Hne). reflexivity.
Qed.

(** No body *)
Lemma eat_headers_alone st n y u data k K :
  0 <= k -> plain_headers y -> has_flag (flags y) F_CHUNKED = false -> (uses_transfer_encoding y =? 1) = false ->
  (content_length y =? 0) || (content_length y =? ULLONG_MAX) = true ->
  http_message_needs_eof (headed y) = false -> next_state y = st ->
  eats data k (stale st 0 (headed y))
    (told message_complete (public (headed y)) (told headers_complete (public (headed y)) u)) K ->
  eats (LF :: data) k (stale s_headers_almost_done n y) u K.
Proof.
  intros Hk Hy Hch Hte Hlen Heof Hst HK. pose proof (next_message (headed y) Heof (ph_version y Hy)) as Hnew.
  change (next_state (headed y)) with (next_state y) in Hnew. rewrite Hst in Hnew.
  apply (eat_byte _ _ Hmax url None (stale st 0 (headed y)) st 0 LF
    (told message_complete (public (headed y)) (told headers_complete (public (headed y)) u))); [done| |exact HK].
  intros (_ & He & _). split; [done|]. destruct Hy as [Htr Hsk Hup Hfr Hv].
  apply (headers_over false); [done|done|done|done|change (turned false y) with (headed y)].
  apply (run_last _ _ y _ s_headers_done); [done|].
  headers_done y.
  change (http_message_needs_eof (set_nread (fun _ => 0) (stale s_headers_almost_done n (headed y))))
    with (http_message_needs_eof (headed y)). rewrite Heof. cbn [negb].
  destruct (content_length (headed y) =? 0); [|cbn [orb] in Hlen; rewrite Hlen; cbn [negb]]; step_case;
    unfold message_over; step_case; change (NEW_MESSAGE strict _) with (NEW_MESSAGE strict (headed y)); rewrite Hnew;
    step_case; spell_out; reflexivity.
Qed.

(** A body of a known length *)
Lemma eat_headers_length n y u data k K :
  0 <= k -> plain_headers y -> has_flag (flags y) F_CHUNKED = false -> (uses_transfer_encoding y =? 1) = false ->
  (content_length y =? 0) = false -> (content_length y =? ULLONG_MAX) = false ->
  eats data k (stale s_body_identity 0 (headed y)) (told headers_complete (public (headed y)) u) K ->
  eats (LF :: data) k (stale s_headers_almost_done n y) u K.
Proof.
  intros Hk Hy Hch Hte Hnz Hmx HK.
  apply (eat_byte _ _ Hmax url None (stale s_headers_almost_done 0 (headed y)) s_body_identity 0 LF
    (told headers_complete (public (headed y)) u)); [done| |exact HK].
  intros (_ & He & _). split; [done|]. destruct Hy as [Htr Hsk Hup Hfr Hv].
  apply (headers_over false); [done|done|done|done|change (turned false y) with (headed y)].
  apply (run_last _ _ y _ s_headers_done); [done|]. headers_done y. spell_out. reflexivity.
Qed.

(** A body that goes on until the connection ends *)
Lemma eat_headers_lasting n y u data k K :
  0 <= k -> plain_headers y -> has_flag (flags y) F_CHUNKED = false -> (uses_transfer_encoding y =? 1) = false ->
  content_length y = ULLONG_MAX -> http_message_needs_eof (headed y) = true ->
  eats data k (stale s_body_identity_eof 0 (headed y)) (told headers_complete (public (headed y)) u) K ->
  eats (LF :: data) k (stale s_headers_almost_done n y) u K.
Proof.
  intros Hk Hy Hch Hte Hlen Heof HK.
  apply (eat_byte _ _ Hmax url None (stale s_headers_almost_done 0 (headed y)) s_body_identity_eof 0 LF
    (told headers_complete (public (headed y)) u)); [done| |exact HK].
  intros (_ & He & _). split; [done|]. destruct Hy as [Htr Hsk Hup Hfr Hv].
  apply (headers_over false); [done|done|done|done|change (turned false y) with (headed y)].
  apply (run_last _ _ y _ s_headers_done); [done|].
  assert (Hnone : (content_length y =? 0) = false) by (by rewrite Hlen).
  assert (Hall : (content_length y =? ULLONG_MAX) = true) by (by rewrite Hlen).
  headers_done y.
  change (http_message_needs_eof (set_nread (fun _ => 0) (stale s_headers_almost_done n (headed y))))
    with (http_message_needs_eof (headed y)). rewrite Heof. cbn [negb]. step_case. spell_out. reflexivity.
Qed.

Lemma eat_lasting_byte c n y u data k K :
  0 <= k -> eats data k (stale s_body_identity_eof n y) (given body [c] u) K ->
  eats (c :: data) k (stale s_body_identity_eof n y) u K.
Proof. intros Hk HK. byte_case Hmax body (Some 0) do_body_identity_eof. exact HK. Qed.

(** A chunked body *)
Lemma eat_headers_chunked n y u data k K :
  0 <= k -> plain_headers y -> has_flag (flags y) F_CHUNKED = true ->
  eats data k (stale s_chunk_size_start 0 (headed y)) (told headers_complete (public (headed y)) u) K ->
  eats (LF :: data) k (stale s_headers_almost_done n y) u K.
Proof.
  intros Hk Hy Hch HK.
  apply (eat_byte _ _ Hmax url None (stale s_headers_almost_done 0 (headed y)) s_chunk_size_start 0 LF
    (told headers_complete (public (headed y)) u)); [done| |exact HK].
  intros (_ & He & _). split; [done|]. destruct Hy as [Htr Hsk Hup Hfr Hv].
  apply (headers_over false); [done|done|done|done|change (turned false y) with (headed y)].
  apply (run_last _ _ y _ s_headers_done); [done|]. headers_done y. spell_out. reflexivity.
Qed.

(** ** A body of a known length *)

Definition counted (y : http_parser) : http_parser := set_content_length (fun z => z - 1) y.

Lemma take_one c st n y u :
  length_ok y -> fields_ok y ->
  take_body [c] (Exec y st n 0 c None None None None None u) =
  Value tt (Exec (counted y) st n 0 c None None None (Some 0) None u).
Proof.
  intros Hl Hf. rewrite take_body_eq by (try done; cbn; lia). cbn [parser p].
  assert (Hr : Z.min (content_length y) (data_len [c] - 0) = 1).
  { change (data_len [c]) with 1. destruct Hl, Hf as [? _]. lia. }
  rewrite Hr. reflexivity.
Qed.

Lemma eat_body_byte c n y u data k K :
  0 <= k -> content_length y <> 1 ->
  eats data k (stale s_body_identity n (counted y)) (given body [c] u) K ->
  eats (c :: data) k (stale s_body_identity n y) u K.
Proof.
  intros Hk Hlen HK.
  eapply (eat_once _ _ Hmax body (Some 0) _ _ _ s_body_identity n (counted (stale s_body_identity n y)) c u);
    [done|intros Hx He Hn; byte_from url; split|exact HK]; [|exact He].
  cbn [dispatch]. unfold do_body_identity. erewrite bind_value by (apply take_one; apply Hx).
  step_case. rewrite (proj2 (Z.eqb_neq _ _)) by (cbn; lia). reflexivity.
Qed.

Lemma message_over_eq st data s :
  NEW_MESSAGE strict (parser s) = st -> errno_ (parser s) = HPE_OK ->
  message_over strict (reader data) s = Value tt
    (called st (told message_complete (public (parser s)) (user s)) (with_state st s)).
Proof.
  intros Hnew He. unfold message_over. rewrite ebind_look, ebind_UPDATE_STATE, Hnew.
  unfold CALLBACK_NOTIFY. rewrite ebind_look.
  exact (notify_eq message_complete HPE_CB_message_complete _ (with_state st s) He).
Qed.

(** The end of a message, at a byte looked at again *)
Lemma message_done_run st c t n0 y n u e :
  NEW_MESSAGE strict y = st -> errno_ y = HPE_OK -> upgrade y = 0 ->
  e = Through (with_mark url None (Exec (stale st n0 y) st n 1 c None None None None None (told message_complete (public y) u))) ->
  run_for y [c] false (Exec (stale t n0 y) s_message_done n 0 c None None None None None u) e.
Proof.
  intros Hnew He Hup ->. apply (run_last _ _ y _ s_message_done); [done|]. cbn [dispatch]. unfold do_message_done.
  erewrite bind_value by (by apply message_over_eq). rewrite ebind_look. cbn [parser called with_user with_parser with_state].
  change (upgrade _) with (upgrade y). rewrite Hup. reflexivity.
Qed.

Lemma eat_body_last st c n y u data k K :
  0 <= k -> content_length y = 1 -> upgrade y = 0 -> NEW_MESSAGE strict (counted y) = st ->
  eats data k (stale st n (counted y))
    (told message_complete (public (counted y)) (given body [c] u)) K ->
  eats (c :: data) k (stale s_body_identity n y) u K.
Proof.
  intros Hk Hlen Hup Hnew HK.
  refine (eat_byte _ _ Hmax url None (stale st n (counted y)) st n c
    (told message_complete (public (counted y)) (given body [c] u)) _ _ _ _ _ _ Hk _ HK).
  intros (Hx & He & _). split; [done|]. byte_from url. eapply run_reexecute.
  - cbn [dispatch p_state]. unfold do_body_identity. erewrite bind_value by (apply take_one; apply Hx).
    step_case. rewrite (proj2 (Z.eqb_eq _ _)) by (cbn; lia). step_case. reflexivity.
  - spell_out. apply (message_done_run st c s_message_done n (counted y)); [exact Hnew|exact He|exact Hup|]. reflexivity.
Qed.

(** ** Chunks *)

(** The first digit of a chunk size *)
Lemma eat_size_first v c n y u data k K :
  0 <= k -> has_flag (flags y) F_CHUNKED = true -> unhex_at c = v -> 0 <= v < 16 ->
  eats data k (stale s_chunk_size (n + 1) (set_content_length (fun _ => v) y)) u K ->
  eats (c :: data) k (stale s_chunk_size_start n y) u K.
Proof.
  intros Hk Hch Hv Hr HK.
  eapply (eat_once _ _ Hmax url None _ _ _ s_chunk_size (n + 1) (set_content_length (fun _ => v) (stale s_chunk_size_start n y)) c u);
    [done|intros Hx He Hn; byte_from url; split|exact HK]; [|exact He].
  pose proof (po_chunk _ _ Hx eq_refl) as Hn0. cbn [nread_ stale] in Hn0. subst n.
  cbn [dispatch]. unfold do_chunk_size_start, assert_chunked. step_case. rewrite Hv.
  rewrite (proj2 (Z.eqb_neq v (-1))) by lia. rewrite u64_small by lia. step_case. reflexivity.
Qed.

Lemma eat_size_digit v c n y u data k K :
  0 <= k -> has_flag (flags y) F_CHUNKED = true -> unhex_at c = v -> 0 <= v < 16 ->
  0 <= content_length y <= (ULLONG_MAX - 16) / 16 -> (c =? CR) = false ->
  eats data k (stale s_chunk_size (n + 1) (set_content_length (fun _ => content_length y * 16 + v) y)) u K ->
  eats (c :: data) k (stale s_chunk_size n y) u K.
Proof.
  intros Hk Hch Hv Hr Hl Hcr HK.
  eapply (eat_once _ _ Hmax url None _ _ _ s_chunk_size (n + 1)
    (set_content_length (fun _ => content_length y * 16 + v) (stale s_chunk_size n y)) c u);
    [done|intros Hx He Hn; byte_from url; split|exact HK]; [|exact He].
  cbn [dispatch]. unfold do_chunk_size, assert_chunked. step_case. rewrite Hv.
  change ((ULLONG_MAX - 16) / 16) with 1152921504606846974 in Hl |- *.
  rewrite (proj2 (Z.eqb_neq v (-1))) by lia. step_case.
  rewrite (proj2 (Z.ltb_ge _ _)) by lia.
  rewrite (u64_small (content_length y * 16)), u64_small by lia. step_case. reflexivity.
Qed.

Lemma eat_size_cr n y u data k K :
  0 <= k -> has_flag (flags y) F_CHUNKED = true ->
  eats data k (stale s_chunk_size_almost_done (n + 1) y) u K ->
  eats (CR :: data) k (stale s_chunk_size n y) u K.
Proof.
  intros Hk Hch HK. byte_case Hmax url (@None Z) do_chunk_size. exact HK.
Qed.

(** The parser after the size of the last chunk *)
Definition trailing (y : http_parser) : http_parser := set_flags (with_flag F_TRAILING) y.

Lemma eat_size_lf n y u data k K :
  0 <= k -> has_flag (flags y) F_CHUNKED = true -> (content_length y =? 0) = false ->
  eats data k (stale s_chunk_data 0 y) (told chunk_header (public y) u) K ->
  eats (LF :: data) k (stale s_chunk_size_almost_done n y) u K.
Proof.
  intros Hk Hch Hl HK.
  eapply (eat_once _ _ Hmax url None _ _ _ s_chunk_data 0 (stale s_chunk_data 0 y));
    [done|intros Hx He Hn; byte_from url; split|exact HK]; [|exact He].
  cbn [dispatch]. unfold do_chunk_size_almost_done, assert_chunked, clear_nread. step_case. spell_out. reflexivity.
Qed.

Lemma eat_size_last n y u data k K :
  0 <= k -> has_flag (flags y) F_CHUNKED = true -> (content_length y =? 0) = true ->
  eats data k (stale s_header_field_start 0 (trailing y)) (told chunk_header (public (trailing y)) u) K ->
  eats (LF :: data) k (stale s_chunk_size_almost_done n y) u K.
Proof.
  intros Hk Hch Hl HK.
  eapply (eat_once _ _ Hmax url None _ _ _ s_header_field_start 0 (stale s_header_field_start 0 (trailing y)));
    [done|intros Hx He Hn; byte_from url; split|exact HK]; [|exact He].
  cbn [dispatch]. unfold do_chunk_size_almost_done, assert_chunked, clear_nread. step_case. spell_out. reflexivity.
Qed.

Lemma eat_chunk_byte c n y u data k K :
  0 <= k ->
  eats data k (stale (if content_length y =? 1 then s_chunk_data_almost_done else s_chunk_data) n (counted y)) (given body [c] u) K ->
  eats (c :: data) k (stale s_chunk_data n y) u K.
Proof.
  intros Hk HK.
  eapply (eat_once _ _ Hmax body (Some 0) _ _ _ (if content_length y =? 1 then s_chunk_data_almost_done else s_chunk_data) n
    (counted (stale s_chunk_data n y)) c u);
    [done|intros Hx He Hn; byte_from url; split|exact HK]; [|exact He].
  cbn [dispatch]. pose proof (po_state _ _ Hx) as [Hch Hl]. unfold do_chunk_data, assert_chunked.
  rewrite ebind_assoc, ebind_look, ebind_assert by done. erewrite bind_value by (apply take_one; [done|apply Hx]).
  step_case. cbn [content_length counted set_content_length stale].
  destruct (Z.eqb_spec (content_length y) 1) as [Hone|Hone].
  - rewrite Hone. step_case. reflexivity.
  - rewrite (proj2 (Z.eqb_neq _ _)) by lia. step_case. reflexivity.
Qed.

Lemma eat_chunk_cr n y u data k K :
  0 <= k -> eats data k (stale s_chunk_data_done n y) u K ->
  eats (CR :: data) k (stale s_chunk_data_almost_done n y) u K.
Proof.
  intros Hk HK.
  eapply (eat_once _ _ Hmax url None); [done|intros Hx He Hn; byte_from url; split|].
  - pose proof (po_state _ _ Hx) as [Hch Hl]. cbn [flags content_length stale state_] in Hch, Hl.
    cbn [dispatch]. unfold do_chunk_data_almost_done. step_case. rewrite Hl. step_case. spell_out. reflexivity.
  - exact He.
  - exact HK.
Qed.

Lemma eat_chunk_lf n y u data k K :
  0 <= k -> eats data k (stale s_chunk_size_start 0 y) (told chunk_complete (public y) u) K ->
  eats (LF :: data) k (stale s_chunk_data_done n y) u K.
Proof.
  intros Hk HK.
  eapply (eat_once _ _ Hmax url None _ _ _ s_chunk_size_start 0 (stale s_chunk_size_start 0 y));
    [done|intros Hx He Hn; byte_from url; split|exact HK]; [|exact He].
  pose proof (po_state _ _ Hx) as Hch. cbn [flags stale state_] in Hch.
  cbn [dispatch]. unfold do_chunk_data_done, assert_chunked, clear_nread. step_case. spell_out. reflexivity.
Qed.

(** The line feed that ends a chunked message *)
Lemma eat_trailer_end st n y u data k K :
  0 <= k -> has_flag (flags y) F_TRAILING = true -> upgrade y = 0 -> NEW_MESSAGE strict y = st ->
  eats data k (stale st (n + 1) y)
    (told message_complete (public y) (told chunk_complete (public y) u)) K ->
  eats (LF :: data) k (stale s_headers_almost_done n y) u K.
Proof.
  intros Hk Htr Hup Hnew HK.
  refine (eat_byte _ _ Hmax url None (stale st n y) st (n + 1) LF
    (told message_complete (public y) (told chunk_complete (public y) u)) _ _ _ _ _ _ Hk _ HK).
  intros (Hx & He & _). split; [done|]. byte_from url. eapply run_reexecute.
  - cbn [dispatch p_state]. unfold do_headers_almost_done. step_case. reflexivity.
  - spell_out. apply (message_done_run st LF s_message_done n y); [exact Hnew|exact He|exact Hup|]. reflexivity.
Qed.
End Bodies.
