(* ===== verification/HttpMessages.v ===== *)
(** Requests and responses as they are written, what a user is told of them, and
    what [http_parser_execute] makes of their fields, bodies and chunks. *)
From S2P Require Import Prelude HttpTypes HttpUrl HttpExec HttpStates HttpHeaders HttpParser HttpLogic HttpSafe HttpTotal HttpRuns HttpScan HttpRel HttpTied HttpCross HttpSplit HttpHandover HttpPieces HttpBytes HttpMethod HttpLines HttpNames HttpFields HttpOptions HttpBodies.

Local Open Scope Z_scope.
#[local] Arguments Z.add : simpl never.
#[local] Arguments Z.sub : simpl never.

(** ** Numbers *)

(** The digits of a number, the highest first *)
Fixpoint digits_from (fuel : nat) (base n : Z) (l : list Z) : list Z :=
  match fuel with
  | O => n :: l
  | S fuel => if n <? base then n :: l else digits_from fuel base (n / base) (n mod base :: l)
  end.
Definition digits (base n : Z) : list Z := digits_from (Z.to_nat n) base n [].

Definition value_from (base a : Z) (l : list Z) : Z := foldl (fun a d => a * base + d) a l.

Lemma value_from_app base a l m : value_from base a (l ++ m) = value_from base (value_from base a l) m.
Proof. apply foldl_app. Qed.

Lemma digits_from_ok fuel base n l :
  2 <= base -> 0 <= n -> n <= Z.of_nat fuel -> Forall (fun d => 0 <= d < base) l ->
  exists h, digits_from fuel base n l = h ++ l /\ h <> [] /\ Forall (fun d => 0 <= d < base) h /\ value_from base 0 h = n.
Proof.
  intros Hb. revert n l. induction fuel as [|fuel IH]; intros n l Hn Hf Hl.
  { assert (n = 0) as -> by lia. exists [0]. split_and!; [done|done| |cbn; lia]. constructor; [lia|done]. }
  cbn [digits_from]. destruct (Z.ltb_spec n base).
  { exists [n]. split_and!; [done|done| |cbn; lia]. constructor; [lia|done]. }
  pose proof (Z.mod_pos_bound n base ltac:(lia)) as Hm. pose proof (Z.div_mod n base ltac:(lia)) as Hd.
  assert (Hq : 0 <= n / base < n) by (split; [apply Z.div_pos; lia|apply Z.div_lt; lia]).
  destruct (IH (n / base) (n mod base :: l)) as (h & Heq & Hne & Hh & Hv); [lia|lia|by constructor|].
  exists (h ++ [n mod base]). rewrite Heq, <- app_assoc. split_and!; [done|by destruct h| |].
  - apply Forall_app. split; [done|]. by constructor.
  - rewrite value_from_app, Hv. cbn. lia.
Qed.

(** Digits read back are the number. *)
Lemma digits_ok base n :
  2 <= base -> 0 <= n ->
  digits base n <> [] /\ Forall (fun d => 0 <= d < base) (digits base n) /\ value_from base 0 (digits base n) = n.
Proof.
  intros Hb Hn. destruct (digits_from_ok (Z.to_nat n) base n []) as (h & Heq & Hne & Hh & Hv); [done|done|lia|done|].
  unfold digits. rewrite Heq, app_nil_r. done.
Qed.

Lemma value_from_le base a l :
  1 <= base -> 0 <= a -> Forall (fun d => 0 <= d < base) l -> a <= value_from base a l.
Proof.
  intros Hb Ha Hl. revert a Ha. induction Hl as [|d l Hd Hl IH]; intros a Ha; [done|].
  cbn [value_from foldl]. specialize (IH (a * base + d)). unfold value_from in IH. nia.
Qed.

Definition hex_digit (d : Z) : Z := if d <? 10 then d + chr "0" else d - 10 + chr "a".
Definition decimal_text (n : Z) : list Z := map (fun d => d + chr "0") (digits 10 n).
Definition hex_text (n : Z) : list Z := map hex_digit (digits 16 n).

Lemma unhex_hex_digit d : 0 <= d < 16 -> unhex_at (hex_digit d) = d /\ (hex_digit d =? CR) = false.
Proof.
  intros Hd. assert (Hall : forallb (fun d => (unhex_at (hex_digit d) =? d) && negb (hex_digit d =? CR)) (Z.of_nat <$> seq 0 16) = true)
    by (vm_compute; reflexivity).
  rewrite forallb_forall in Hall. specialize (Hall d).
  rewrite andb_true_iff, Z.eqb_eq, negb_true_iff in Hall. apply Hall, list_elem_of_In, list_elem_of_fmap.
  exists (Z.to_nat d). rewrite elem_of_seq. lia.
Qed.

(** ** Fields and bodies as they are written *)

Inductive payload := Bodiless | Sized (b : list Z) | Chunked (chunks : list (list Z)).

Definition field_line (f : list Z * list Z) : list Z := f.1 ++ chr ":" :: chr " " :: f.2 ++ [CR; LF].

(** The field that announces a body *)
Definition framing_fields (b : payload) : list (list Z * list Z) :=
  match b with
  | Bodiless => []
  | Sized b => [(chars "Content-Length", decimal_text (Z.of_nat (length b)))]
  | Chunked _ => [(chars "Transfer-Encoding", chars "chunked")]
  end.

Definition chunk_text (b : list Z) : list Z := hex_text (Z.of_nat (length b)) ++ CR :: LF :: b ++ [CR; LF].

Definition payload_text (b : payload) : list Z :=
  match b with
  | Bodiless => []
  | Sized b => b
  | Chunked l => concat (map chunk_text l) ++ [chr "0"; CR; LF; CR; LF]
  end.

(** What a value may be: the parser drops blanks before it, and looks at no
    more than that of its first byte. *)
Definition value_ok (lenient : bool) (v : list Z) : bool :=
  match v with
  | [] => true
  | c :: l => negb ((c =? chr " ") || (c =? TAB)) && negb (value_ends c) && forallb (value_byte lenient) l
  end.

(** A field the parser gives no meaning to, the options of a connection, or
    another protocol to go on with *)
Definition field_ok (lenient : bool) (f : list Z * list Z) : bool :=
  negb (bool_decide (f.1 = [])) && forallb name_byte f.1 &&
  if connection_name f.1 then options_ok f.2 && forallb (value_byte lenient) f.2
  else (ordinary (map STRICT_TOKEN f.1) || upgrade_name f.1) && value_ok lenient f.2.

(** The flags that fields ask for *)
Definition field_flag (f : list Z * list Z) : Z :=
  if connection_name f.1 then options_flag (elements [] f.2)
  else if upgrade_name f.1 && negb (bool_decide (f.2 = [])) then F_UPGRADE else 0.
Definition fields_flag (fs : list (list Z * list Z)) : Z := foldr (fun f => Z.lor (field_flag f)) 0 fs.

(** Whether the connection is to be closed, and whether it is to go on with
    another protocol *)
Definition closes (fs : list (list Z * list Z)) : bool := has_flag (fields_flag fs) F_CONNECTION_CLOSE.
Definition asks_upgrade (fs : list (list Z * list Z)) : bool :=
  has_flag (fields_flag fs) F_UPGRADE && has_flag (fields_flag fs) F_CONNECTION_UPGRADE.

Definition chunk_ok (b : list Z) : bool := negb (bool_decide (b = [])).

Definition payload_ok (b : payload) : bool := match b with Chunked l => forallb chunk_ok l | _ => true end.

(** ** What a user is told *)

Inductive news :=
| Began
| Is (m : part) (bytes : list Z)
| Headers (code major minor : Z) (keep_alive : bool)
| Chunk (n : Z)
| ChunkEnded
| Ended.

(** The method of a request, the status of a response *)
Definition code_of (x : http_parser) : Z := if decide (type x = HTTP_RESPONSE) then status_code x else method x.

(** The latest first; the pieces of a part are put together. *)
Definition add_piece (m : part) (bytes : list Z) (l : list news) : list news :=
  match l with
  | Is m' bytes' :: l' => if decide (m' = m) then Is m (bytes' ++ bytes) :: l' else Is m bytes :: l
  | _ => Is m bytes :: l
  end.

#[export] Instance newsroom : Reader (list news) := {
  told n x l :=
    (match n with
     | message_begin => Began
     | headers_complete => Headers (code_of x) (http_major x) (http_minor x) (http_should_keep_alive x)
     | message_complete => Ended
     | chunk_header => Chunk (content_length x)
     | chunk_complete => ChunkEnded
     end) :: l;
  given := add_piece;
  skips _ _ := 0
}.

#[export] Instance newsroom_laws : ReaderLaws (list news).
Proof.
  split. intros m a b l. cbn. unfold add_piece.
  destruct l as [|[|m' bytes|? ? ? ?|?| |] l]; try by rewrite decide_True.
  case_decide as Hm; [|by rewrite decide_True]. by rewrite decide_True, app_assoc.
Qed.

Definition field_news (f : list Z * list Z) : list news := [Is header_field f.1; Is header_value f.2].
Definition chunk_news (b : list Z) : list news := [Chunk (Z.of_nat (length b)); Is body b; ChunkEnded].

Definition payload_news (b : payload) : list news :=
  match b with
  | Bodiless => []
  | Sized b => if bool_decide (b = []) then [] else [Is body b]
  | Chunked l => concat (map chunk_news l) ++ [Chunk 0; ChunkEnded]
  end.

(** ** Fields *)

Lemma aside_finished h i y : finished_flag h = 0 -> finished (aside h i y) = aside h i y.
Proof. intros Hf. unfold finished, with_flag, aside, set_flags. cbn. by rewrite Hf, Z.lor_0_r. Qed.

Lemma put_aside h i y : put h i (uses_transfer_encoding y) y = aside h i y.
Proof. by destruct y. Qed.

Section Parts.
Context {U : Type} `{ReaderLaws U}.
Variable strict : bool.
Variable max_header_size : Z.
Hypothesis Hmax : 0 <= max_header_size < 2 ^ 32.
Implicit Types (y : http_parser) (u : U).
#[local] Abbreviation eats := (eats strict max_header_size).

Lemma eat_name_rest l n y u a data k K :
  0 <= k -> forallb name_byte l = true ->
  (forall n', eats data k (stale s_header_field n' (name_steps strict l y)) (given header_field (a ++ l) u) K) ->
  eats (l ++ data) k (stale s_header_field n y) (given header_field a u) K.
Proof.
  intros Hk. revert n y a. induction l as [|c l IH]; intros n y a Hl HK; cbn [app forallb] in *.
  - rewrite app_nil_r in HK. apply HK.
  - apply andb_true_iff in Hl as [Hc Hl]. apply eat_name_char; [done|done|by apply name_byte_token|].
    rewrite <- given_app. apply IH; [done|]. by rewrite <- app_assoc.
Qed.

(** A name, the colon and a blank *)
Lemma eat_name name st y u y' u' n data k K :
  0 <= k -> line_start st y u y' u' -> name <> [] -> forallb name_byte name = true ->
  (forall n', eats data k (stale s_header_value_discard_ws n' (name_read strict name y')) (given header_field name u') K) ->
  eats (name ++ chr ":" :: chr " " :: data) k (stale st n y) u K.
Proof.
  intros Hk Hst Hne Hn HK. destruct name as [|c l]; [done|]. cbn [forallb app] in *. apply andb_true_iff in Hn as [Hc Hl].
  eapply eat_name_first; [done|done|exact Hst|exact Hc|]. apply eat_name_rest; [done|done|]. intros n'.
  apply eat_colon; [done|done|]. rewrite given_nil_r. apply eat_space; [done|done|]. apply HK.
Qed.

Lemma eat_value_rest l n y u a data k K :
  0 <= k -> header_state y = h_general -> forallb (value_byte (negb (lenient_http_headers y =? 0))) l = true ->
  (forall n', eats data k (stale s_header_value_lws n' y) (given header_value (a ++ l) u) K) ->
  eats (l ++ CR :: LF :: data) k (stale s_header_value n y) (given header_value a u) K.
Proof.
  intros Hk Hh. revert n a. induction l as [|c l IH]; intros n a Hl HK; cbn [app forallb] in *.
  - rewrite app_nil_r in HK. apply eat_value_cr; [done|done|]. rewrite given_nil_r. apply eat_value_lf; [done|done|]. apply HK.
  - apply andb_true_iff in Hl as [Hc Hl]. apply eat_value_char; [done..|]. rewrite <- given_app.
    apply IH; [done|]. by rewrite <- app_assoc.
Qed.

(** An ordinary field leaves no more than traces. *)
Lemma eat_plain_field f st y u y' u' n data k K :
  0 <= k -> line_start st y u y' u' -> f.1 <> [] -> forallb name_byte f.1 = true ->
  ordinary (map STRICT_TOKEN f.1) = true -> value_ok (negb (lenient_http_headers y' =? 0)) f.2 = true ->
  (forall st2 y2 u2 n2 h i, line_start st2 y2 u2 (aside h i y') (given header_value f.2 (given header_field f.1 u')) ->
     eats data k (stale st2 n2 y2) u2 K) ->
  eats (field_line f ++ data) k (stale st n y) u K.
Proof.
  intros Hk Hst Hne Hn Ho Hv HK. unfold field_line. rewrite <- app_assoc. cbn [app]. rewrite <- app_assoc. cbn [app].
  eapply eat_name; [done|exact Hst|exact Hne|exact Hn|]. intros n1.
  destruct (name_read_plain strict f.1 y' Hne Hn Ho) as (h & i & Hread & Hplain). rewrite Hread, put_aside.
  destruct f.2 as [|c v] eqn:Hfv; cbn [app].
  - apply eat_empty_value; [done|done|]. intros n2. eapply (HK _ _ _ _ h i).
    rewrite <- (aside_finished h i y') at 2 by (by destruct h). constructor. intros Hh. cbn in Hh. by rewrite Hh in Hplain.
  - cbn [value_ok] in Hv. rewrite !andb_true_iff, !negb_true_iff in Hv. destruct Hv as [[Hws Hends] Hv].
    eapply eat_value_first; [done|done|exact Hplain|exact Hws|exact Hends|].
    apply eat_value_rest; [done|done|exact Hv|]. intros n2. apply (HK _ _ _ _ h_general 0).
    rewrite <- (aside_finished h_general 0 y') by done. exact (line_value (aside h_general 0 y') _).
Qed.

(** The options of a connection set their flags. *)
Lemma eat_options_field f st y u y' u' n data k K :
  0 <= k -> line_start st y u y' u' -> f.1 <> [] -> forallb name_byte f.1 = true ->
  connection_name f.1 = true -> options_ok f.2 = true -> forallb (value_byte (negb (lenient_http_headers y' =? 0))) f.2 = true ->
  (forall st2 y2 u2 n2 h i, line_start st2 y2 u2 (aside h i (flagged (options_flag (elements [] f.2)) y'))
       (given header_value f.2 (given header_field f.1 u')) ->
     eats data k (stale st2 n2 y2) u2 K) ->
  eats (field_line f ++ data) k (stale st n y) u K.
Proof.
  intros Hk Hst Hne Hn Hname Hok Hv HK. unfold field_line. rewrite <- app_assoc. cbn [app]. rewrite <- app_assoc. cbn [app].
  eapply eat_name; [done|exact Hst|exact Hne|exact Hn|]. intros n1.
  destruct (name_read_connection strict f.1 y' Hn Hname) as (i & Hread). rewrite Hread, put_aside.
  destruct f.2 as [|c v] eqn:Hfv; [cbn [app]|rewrite <- Hfv in *].
  - apply eat_empty_value; [done|done|]. intros n2. eapply (HK _ _ _ _ h_connection i).
    change (options_flag (elements [] [])) with 0. rewrite flagged_0.
    rewrite <- (aside_finished h_connection i y') at 2 by done. by constructor.
  - apply (eat_options _ _ Hmax f.2); [done|done|by rewrite Hfv|exact Hok|exact Hv|]. intros n2 y2 h j Hy2.
    apply (HK _ _ _ _ h j).
    replace (aside h j (flagged (options_flag (elements [] f.2)) y')) with (finished y2) by (by rewrite Hy2).
    constructor.
Qed.

(** The name of another protocol sets a flag. *)
Lemma eat_upgrade_field f st y u y' u' n data k K :
  0 <= k -> line_start st y u y' u' -> f.1 <> [] -> forallb name_byte f.1 = true ->
  upgrade_name f.1 = true -> value_ok (negb (lenient_http_headers y' =? 0)) f.2 = true ->
  (forall st2 y2 u2 n2 h i, line_start st2 y2 u2 (aside h i (flagged (if bool_decide (f.2 = []) then 0 else F_UPGRADE) y'))
       (given header_value f.2 (given header_field f.1 u')) ->
     eats data k (stale st2 n2 y2) u2 K) ->
  eats (field_line f ++ data) k (stale st n y) u K.
Proof.
  intros Hk Hst Hne Hn Hname Hv HK. unfold field_line. rewrite <- app_assoc. cbn [app]. rewrite <- app_assoc. cbn [app].
  eapply eat_name; [done|exact Hst|exact Hne|exact Hn|]. intros n1.
  rewrite (name_read_upgrade strict f.1 y' Hn Hname), put_aside.
  destruct f.2 as [|c v] eqn:Hfv; cbn [app].
  - apply eat_empty_value; [done|done|]. intros n2. eapply (HK _ _ _ _ h_upgrade 6).
    rewrite bool_decide_true, flagged_0 by done. rewrite <- (aside_finished h_upgrade 6 y') at 2 by done. by constructor.
  - cbn [value_ok] in Hv. rewrite !andb_true_iff, !negb_true_iff in Hv. destruct Hv as [[Hws Hends] Hv].
    eapply eat_upgrade_first; [done|done|done|exact Hws|exact Hends|].
    apply eat_value_rest; [done|done|exact Hv|]. intros n2. apply (HK _ _ _ _ h_general 0). rewrite bool_decide_false by done.
    rewrite <- (aside_finished h_general 0 (flagged F_UPGRADE y')) by done. exact (line_value (aside h_general 0 (flagged F_UPGRADE y')) _).
Qed.

Lemma eat_field f st y u y' u' n data k K :
  0 <= k -> line_start st y u y' u' -> field_ok (negb (lenient_http_headers y' =? 0)) f = true ->
  (forall st2 y2 u2 n2 h i, line_start st2 y2 u2 (aside h i (flagged (field_flag f) y')) (given header_value f.2 (given header_field f.1 u')) ->
     eats data k (stale st2 n2 y2) u2 K) ->
  eats (field_line f ++ data) k (stale st n y) u K.
Proof.
  intros Hk Hst Hf HK. unfold field_ok in Hf. rewrite !andb_true_iff, negb_true_iff, bool_decide_eq_false in Hf.
  destruct Hf as [[Hne Hn] Hf]. unfold field_flag in HK.
  destruct (connection_name f.1) eqn:Hname; apply andb_true_iff in Hf as [Ho Hv].
  - by eapply eat_options_field.
  - destruct (upgrade_name f.1) eqn:Hup.
    + eapply eat_upgrade_field; [done|exact Hst|exact Hne|exact Hn|exact Hup|exact Hv|]. cbn [andb] in HK.
      by destruct (bool_decide (f.2 = [])).
    + cbn [andb] in HK. rewrite flagged_0 in HK. rewrite orb_false_r in Ho. by eapply eat_plain_field.
Qed.

(** ** The fields that announce a body *)

Lemma read_content_length y : name_read strict (chars "Content-Length") y = aside h_content_length 13 y.
Proof. by destruct strict. Qed.

Lemma read_transfer_encoding y :
  name_read strict (chars "Transfer-Encoding") y = aside h_transfer_encoding 16 (set_uses_transfer_encoding (fun _ => 1) y).
Proof. by destruct strict. Qed.

(** The parser with a length announced, and with chunks announced *)
Definition sized (n : Z) y : http_parser := set_content_length (fun _ => n) (set_flags (with_flag F_CONTENTLENGTH) y).
Definition chunked y : http_parser := set_flags (with_flag F_CHUNKED) (set_uses_transfer_encoding (fun _ => 1) y).

Lemma eat_digits l a n y u w data k K :
  0 <= k -> header_state y = h_content_length_num -> 0 <= a -> Forall (fun d => 0 <= d < 10) l ->
  content_length y = a -> value_from 10 a l < 2 ^ 32 ->
  (forall n', eats data k (stale s_header_value_lws n' (set_content_length (fun _ => value_from 10 a l) y))
     (given header_value (w ++ map (fun d => d + chr "0") l) u) K) ->
  eats (map (fun d => d + chr "0") l ++ CR :: LF :: data) k (stale s_header_value n y) (given header_value w u) K.
Proof.
  intros Hk Hh Ha Hl. revert a n y w Hh Ha. induction Hl as [|d l Hd Hl IH]; intros a n y w Hh Ha Hy Hv HK; cbn [map app] in *.
  - rewrite app_nil_r in HK. apply eat_value_cr; [done|done|]. rewrite given_nil_r. apply eat_value_lf; [done|done|].
    specialize (HK (n + 1 + 1)). cbn [value_from foldl] in HK. subst a. destruct y. exact HK.
  - change (value_from 10 a (d :: l)) with (value_from 10 (a * 10 + d) l) in *.
    pose proof (value_from_le 10 (a * 10 + d) l ltac:(lia) ltac:(lia) Hl) as Hle.
    apply eat_length_char; [done|done|done| | |].
    + unfold IS_NUM. rewrite andb_true_iff, !Z.leb_le. lia.
    + rewrite Hy. change ((ULLONG_MAX - 10) / 10) with 1844674407370955160. lia.
    + rewrite <- given_app, Hy. replace (d + chr "0" - chr "0") with d by lia.
      apply (IH (a * 10 + d)); [done|lia|done|done|]. intros n'. rewrite <- app_assoc. exact (HK n').
Qed.

Lemma eat_length_field len st y u y' u' n data k K :
  0 <= k -> line_start st y u y' u' -> 0 <= len < 2 ^ 32 -> has_flag (flags y') F_CONTENTLENGTH = false ->
  (forall st2 y2 u2 n2 h i, line_start st2 y2 u2 (aside h i (sized len y'))
       (given header_value (decimal_text len) (given header_field (chars "Content-Length") u')) ->
     eats data k (stale st2 n2 y2) u2 K) ->
  eats (field_line (chars "Content-Length", decimal_text len) ++ data) k (stale st n y) u K.
Proof.
  intros Hk Hst Hlen Hf HK. unfold field_line. cbn [fst snd]. rewrite <- app_assoc. cbn [app]. rewrite <- app_assoc. cbn [app].
  eapply eat_name; [done|exact Hst|done|done|]. intros n1. rewrite read_content_length.
  destruct (digits_ok 10 len) as (Hne & Hds & Hv); [lia|lia|]. unfold decimal_text in *.
  destruct (digits 10 len) as [|d l]; [done|]. cbn [map app] in *. apply Forall_cons in Hds as [Hd Hl].
  change (value_from 10 0 (d :: l)) with (value_from 10 (0 * 10 + d) l) in Hv. replace (0 * 10 + d) with d in Hv by lia.
  apply eat_length_first; [done|done|done|done| |].
  { unfold IS_NUM. rewrite andb_true_iff, !Z.leb_le. lia. }
  apply (eat_digits l d); [done|done|lia|done|cbn; lia|lia|]. intros n2. apply (HK _ _ _ _ h_content_length_num 0).
  rewrite <- (aside_finished h_content_length_num 0 (sized len y')) by done. rewrite Hv.
  exact (line_value (aside h_content_length_num 0 (sized len y')) _).
Qed.

(** A letter of [chunked] at position [i] *)
Lemma eat_chunked_letter i c h y n u w data k K :
  0 <= k -> header_state y = h_matching_transfer_encoding_chunked -> index y = i - 1 ->
  value_byte false c = true -> 0 < i < 32 ->
  match_step "chunked" (LOWER c) i h_matching_transfer_encoding_chunked h_transfer_encoding_chunked = h ->
  h <> h_general ->
  eats data k (stale s_header_value (n + 1) (aside h i y)) (given header_value (w ++ [c]) u) K ->
  eats (c :: data) k (stale s_header_value n y) (given header_value w u) K.
Proof.
  intros Hk Hh Hi Hb Hr Hm Hg HK.
  apply (eat_value_byte _ _ Hmax h (set_index (fun _ => i) y)); [done| | |done|].
  - unfold value_byte, value_bad in *. by destruct (value_ends c), (negb (lenient_http_headers y =? 0)), (IS_HEADER_CHAR c).
  - intros lenient t _ _. rewrite Hh. unfold header_value_char, match_word, next_index.
    rewrite ebind_change, ebind_look. cbn [parser with_parser].
    change (index (set_index (fun i => (i + 1) mod 32) (stale t n y))) with ((index y + 1) mod 32).
    assert (Hix : (index y + 1) mod 32 = i) by (rewrite Hi, Z.mod_small; lia). rewrite Hix. unfold match_step, match_or in Hm.
    destruct (Z.gtb_spec i (Z.of_nat (String.length "chunked"))) as [|Hle]; [done|].
    destruct (c_string_at_some "chunked" i) as [d Hd]; [lia|]. rewrite Hd in *. cbn [default from_option id] in Hm.
    unfold done, with_parser, set_index, stale. cbn [parser p_state nread p ch header_field_mark header_value_mark
      url_mark body_mark status_mark user type flags state_ header_state index uses_transfer_encoding allow_chunked_length
      lenient_http_headers nread_ content_length http_major http_minor status_code method errno_ upgrade]. rewrite Hix.
    destruct (negb _); [by destruct Hg|]. destruct (_ =? _); by rewrite Hm.
  - rewrite <- given_app. exact HK.
Qed.

Lemma eat_chunked_field st y u y' u' n data k K :
  0 <= k -> line_start st y u y' u' ->
  (forall st2 y2 u2 n2 h i, line_start st2 y2 u2 (aside h i (chunked y'))
       (given header_value (chars "chunked") (given header_field (chars "Transfer-Encoding") u')) ->
     eats data k (stale st2 n2 y2) u2 K) ->
  eats (field_line (chars "Transfer-Encoding", chars "chunked") ++ data) k (stale st n y) u K.
Proof.
  intros Hk Hst HK. unfold field_line. cbn [fst snd]. rewrite <- app_assoc. cbn [app]. rewrite <- app_assoc. cbn [app].
  eapply eat_name; [done|exact Hst|done|done|]. intros n1. rewrite read_transfer_encoding.
  let l := eval vm_compute in (chars "chunked") in change (chars "chunked") with l in *. cbn [app].
  apply eat_chunked_first; [done..|].
  apply (eat_chunked_letter 1 (chr "h") h_matching_transfer_encoding_chunked); [done..|].
  apply (eat_chunked_letter 2 (chr "u") h_matching_transfer_encoding_chunked); [done..|].
  apply (eat_chunked_letter 3 (chr "n") h_matching_transfer_encoding_chunked); [done..|].
  apply (eat_chunked_letter 4 (chr "k") h_matching_transfer_encoding_chunked); [done..|].
  apply (eat_chunked_letter 5 (chr "e") h_matching_transfer_encoding_chunked); [done..|].
  apply (eat_chunked_letter 6 (chr "d") h_transfer_encoding_chunked); [done..|].
  cbn [app]. apply eat_value_cr; [done|done|]. rewrite given_nil_r. apply eat_value_lf; [done|done|].
  apply (HK _ _ _ _ h_transfer_encoding_chunked 6).
  exact (line_value (aside h_transfer_encoding_chunked 6 (set_uses_transfer_encoding (fun _ => 1) y')) _).
Qed.

(** ** Bodies *)

(** [y] with [n] bytes to come *)
Definition left (n : Z) y : http_parser := set_content_length (fun _ => n) y.

Lemma eat_body st b n y u data k K :
  0 <= k -> b <> [] -> upgrade y = 0 -> NEW_MESSAGE strict (left 0 y) = st ->
  eats data k (stale st n (left 0 y)) (told message_complete (public (left 0 y)) (given body b u)) K ->
  eats (b ++ data) k (stale s_body_identity n (left (Z.of_nat (length b)) y)) u K.
Proof.
  intros Hk Hb Hup Hnew. destruct b as [|c b]; [done|]. clear Hb. revert c u.
  induction b as [|d b IH]; intros c u HK; cbn [app length] in *.
  - apply (eat_body_last _ _ Hmax st); [done|done|done|exact Hnew|exact HK].
  - apply (eat_body_byte _ _ Hmax); [done|cbn; lia|].
    change (counted (left (Z.of_nat (S (S (length b)))) y)) with (left (Z.of_nat (S (S (length b))) - 1) y).
    replace (Z.of_nat (S (S (length b))) - 1) with (Z.of_nat (S (length b))) by lia. apply IH. by rewrite <- given_app.
Qed.

Lemma eat_chunk_data b n y u data k K :
  0 <= k -> b <> [] ->
  eats data k (stale s_chunk_data_almost_done n (left 0 y)) (given body b u) K ->
  eats (b ++ data) k (stale s_chunk_data n (left (Z.of_nat (length b)) y)) u K.
Proof.
  intros Hk Hb. destruct b as [|c b]; [done|]. clear Hb. revert c u.
  induction b as [|d b IH]; intros c u HK; cbn [app length] in *; (apply eat_chunk_byte; [done|done|]).
  - exact HK.
  - change (content_length (left (Z.of_nat (S (S (length b)))) y)) with (Z.of_nat (S (S (length b)))).
    destruct (Z.eqb_spec (Z.of_nat (S (S (length b)))) 1); [lia|].
    change (counted (left (Z.of_nat (S (S (length b)))) y)) with (left (Z.of_nat (S (S (length b))) - 1) y).
    replace (Z.of_nat (S (S (length b))) - 1) with (Z.of_nat (S (length b))) by lia. apply IH. by rewrite <- given_app.
Qed.

Lemma eat_hex_digits l a n y u data k K :
  0 <= k -> has_flag (flags y) F_CHUNKED = true -> 0 <= a -> Forall (fun d => 0 <= d < 16) l -> value_from 16 a l < 2 ^ 32 ->
  (forall n', eats data k (stale s_chunk_size_almost_done n' (left (value_from 16 a l) y)) u K) ->
  eats (map hex_digit l ++ CR :: data) k (stale s_chunk_size n (left a y)) u K.
Proof.
  intros Hk Hch Ha Hl. revert a n Ha. induction Hl as [|d l Hd Hl IH]; intros a n Ha Hv HK; cbn [map app] in *.
  - apply eat_size_cr; [done|done|done|]. apply HK.
  - change (value_from 16 a (d :: l)) with (value_from 16 (a * 16 + d) l) in *.
    pose proof (value_from_le 16 (a * 16 + d) l ltac:(lia) ltac:(lia) Hl) as Hle.
    destruct (unhex_hex_digit d Hd) as [Hx Hcr]. apply (eat_size_digit _ _ Hmax d); [done|done|done|lia| |done|].
    + change ((ULLONG_MAX - 16) / 16) with 1152921504606846974. cbn [content_length left set_content_length]. lia.
    + apply IH; [cbn; lia|done|exact HK].
Qed.

Lemma eat_chunk b n y u data k K :
  0 <= k -> b <> [] -> has_flag (flags y) F_CHUNKED = true -> Z.of_nat (length b) < 2 ^ 32 ->
  eats data k (stale s_chunk_size_start 0 (left 0 y)) (told chunk_complete (public (left 0 y))
    (given body b (told chunk_header (public (left (Z.of_nat (length b)) y)) u))) K ->
  eats (chunk_text b ++ data) k (stale s_chunk_size_start n y) u K.
Proof.
  intros Hk Hb Hch Hlen HK. unfold chunk_text, hex_text. rewrite <- app_assoc. cbn [app]. rewrite <- app_assoc. cbn [app].
  destruct (digits_ok 16 (Z.of_nat (length b))) as (Hne & Hds & Hv); [lia|lia|].
  destruct (digits 16 (Z.of_nat (length b))) as [|d l]; [done|]. cbn [map app]. apply Forall_cons in Hds as [Hd Hl].
  change (value_from 16 0 (d :: l)) with (value_from 16 (0 * 16 + d) l) in Hv. replace (0 * 16 + d) with d in Hv by lia.
  destruct (unhex_hex_digit d Hd) as [Hx _]. apply (eat_size_first _ _ Hmax d); [done..|].
  apply (eat_hex_digits l d _ y); [done|done|lia|done|lia|]. intros n'. rewrite Hv.
  assert (Hpos : (content_length (left (Z.of_nat (length b)) y) =? 0) = false).
  { apply Z.eqb_neq. cbn. destruct b; [done|cbn; lia]. }
  apply eat_size_lf; [done|done|done|done|]. apply eat_chunk_data; [done|done|].
  apply eat_chunk_cr; [done|done|]. apply eat_chunk_lf; [done|done|]. exact HK.
Qed.

Lemma trailing_flag y : has_flag (flags (trailing y)) F_TRAILING = true.
Proof.
  cbn. unfold has_flag, with_flag, F_TRAILING. rewrite Z.land_lor_distr_l. apply negb_true_iff, Z.eqb_neq. intros Hz.
  apply Z.lor_eq_0_iff in Hz as [_ Hz]. discriminate.
Qed.

Lemma eat_last_chunk st n y u data k K :
  0 <= k -> has_flag (flags y) F_CHUNKED = true -> upgrade y = 0 -> NEW_MESSAGE strict (left 0 (trailing y)) = st ->
  (forall n', let z := left 0 (trailing y) in eats data k (stale st n' z)
    (told message_complete (public z) (told chunk_complete (public z) (told chunk_header (public z) u))) K) ->
  eats (chr "0" :: CR :: LF :: CR :: LF :: data) k (stale s_chunk_size_start n y) u K.
Proof.
  intros Hk Hch Hup Hnew HK. apply (eat_size_first _ _ Hmax 0); [done|done|done|lia|].
  apply eat_size_cr; [done|done|done|]. apply eat_size_last; [done..|].
  eapply eat_last_cr; [done|done|constructor|].
  apply (eat_trailer_end _ _ Hmax st); [done|apply (trailing_flag (left 0 y))|done|exact Hnew|apply HK].
Qed.
End Parts.
