(* ===== verification/HttpPayloads.v ===== *)
(** What [http_parser_execute] makes of a message after its first line: the
    fields, the end of the headers, and the body. *)
From S2P Require Import Prelude HttpTypes HttpUrl HttpExec HttpStates HttpHeaders HttpParser HttpLogic HttpSafe HttpTotal HttpRuns HttpScan HttpRel HttpTied HttpCross HttpSplit HttpHandover HttpPieces HttpBytes HttpMethod HttpLines HttpNames HttpFields HttpOptions HttpBodies HttpMessages.

Local Open Scope Z_scope.
#[local] Arguments Z.add : simpl never.
#[local] Arguments Z.sub : simpl never.

(** ** The news of a message *)

(** The latest news is not a piece of the part [m]. *)
Definition elsewhere (m : part) (l : list news) : bool :=
  match l with Is m' _ :: _ => negb (bool_decide (m' = m)) | _ => true end.

Lemma given_elsewhere m b (l : list news) : elsewhere m l = true -> given m b l = Is m b :: l.
Proof.
  cbn. unfold elsewhere, add_piece. destruct l as [|[|m' b'|? ? ? ?|?| |] l]; try done.
  rewrite negb_true_iff, bool_decide_eq_false. intros Hm. by rewrite decide_False.
Qed.

Definition give_field {U} `{Reader U} (u : U) (f : list Z * list Z) : U :=
  given header_value f.2 (given header_field f.1 u).

Lemma give_field_news f (l : list news) :
  elsewhere header_field l = true -> give_field l f = Is header_value f.2 :: Is header_field f.1 :: l.
Proof. intros Hl. unfold give_field. rewrite (given_elsewhere header_field) by done. by rewrite given_elsewhere. Qed.

Lemma give_fields_news fs (l : list news) :
  elsewhere header_field l = true -> foldl give_field l fs = rev (concat (map field_news fs)) ++ l.
Proof.
  revert l. induction fs as [|f fs IH]; intros l Hl; [done|]. cbn [foldl map concat].
  rewrite give_field_news by done. rewrite IH by done. rewrite rev_app_distr, <- app_assoc. done.
Qed.

Definition give_chunk {U} `{Reader U} (x : http_parser) (u : U) (b : list Z) : U :=
  told chunk_complete (public (left 0 x))
    (given body b (told chunk_header (public (left (Z.of_nat (length b)) x)) u)).

Lemma give_chunk_news x (l : list news) b : give_chunk x l b = rev (chunk_news b) ++ l.
Proof. done. Qed.

Lemma give_chunks_news x bs (l : list news) :
  foldl (give_chunk x) l bs = rev (concat (map chunk_news bs)) ++ l.
Proof.
  revert l. induction bs as [|b bs IH]; intros l; [done|]. cbn [foldl map concat].
  rewrite IH, give_chunk_news, rev_app_distr, <- app_assoc. done.
Qed.

Section Groups.
Context {U : Type} `{ReaderLaws U}.
Variable strict : bool.
Variable max_header_size : Z.
Hypothesis Hmax : 0 <= max_header_size < 2 ^ 32.
Implicit Types (y : http_parser) (u : U).
#[local] Abbreviation eats := (eats strict max_header_size).

(** What is still to come is shorter than [max_header_size]. *)
Lemma eats_short data k x u K :
  data <> [] -> 0 <= k -> (Z.of_nat (length data) < 2 ^ 32 -> eats data k x u K) -> eats data k x u K.
Proof.
  intros Hd Hk He. destruct data as [|c data]; [done|]. intros Hr. apply He; [|done].
  destruct Hr as (Hx & _ & Hn). pose proof (po_nread _ _ Hx). cbn [length] in *. lia.
Qed.

Lemma eat_fields fs st y u y' u' n data k K :
  0 <= k -> line_start st y u y' u' -> forallb (field_ok (negb (lenient_http_headers y' =? 0))) fs = true ->
  (forall st2 y2 u2 n2 h i, line_start st2 y2 u2 (aside h i (flagged (fields_flag fs) y')) (foldl give_field u' fs) ->
     eats data k (stale st2 n2 y2) u2 K) ->
  eats (concat (map field_line fs) ++ data) k (stale st n y) u K.
Proof.
  intros Hk. revert st y u y' u' n. induction fs as [|f fs IH]; intros st y u y' u' n Hst Hfs HK;
    cbn [map concat forallb foldl fields_flag foldr] in *.
  - apply (HK _ _ _ _ (header_state y') (index y')). by rewrite flagged_0, aside_same.
  - apply andb_true_iff in Hfs as [Hf Hfs]. rewrite <- app_assoc.
    eapply eat_field; [done|done|exact Hst|exact Hf|]. intros st2 y2 u2 n2 h i Hst2.
    eapply IH; [exact Hst2|exact Hfs|]. intros st3 y3 u3 n3 h3 i3 Hst3. apply (HK _ _ _ _ h3 i3).
    by rewrite <- flagged_flagged.
Qed.

(** The parser with the payload announced *)
Definition framed (b : payload) y : http_parser :=
  match b with
  | Bodiless => y
  | Sized b => sized (Z.of_nat (length b)) y
  | Chunked _ => chunked y
  end.

Lemma eat_framing b st y u y' u' n data k K :
  0 <= k -> line_start st y u y' u' -> has_flag (flags y') F_CONTENTLENGTH = false -> match b with Sized b => Z.of_nat (length b) < 2 ^ 32 | _ => True end ->
  (forall st2 y2 u2 n2 h i, line_start st2 y2 u2 (aside h i (framed b y')) (foldl give_field u' (framing_fields b)) ->
     eats data k (stale st2 n2 y2) u2 K) ->
  eats (concat (map field_line (framing_fields b)) ++ data) k (stale st n y) u K.
Proof.
  intros Hk Hst Hf Hb HK. destruct b as [|b|l]; cbn [framing_fields map concat app].
  - apply (HK _ _ _ _ (header_state y') (index y')). cbn [framed]. by rewrite aside_same.
  - rewrite app_nil_r. eapply eat_length_field; [done|done|exact Hst|lia|exact Hf|exact HK].
  - rewrite app_nil_r. eapply eat_chunked_field; [done|done|exact Hst|exact HK].
Qed.

Lemma eat_chunks l c n y u data k K :
  0 <= k -> has_flag (flags y) F_CHUNKED = true -> forallb chunk_ok l = true ->
  (forall n' c', eats data k (stale s_chunk_size_start n' (left c' y)) (foldl (give_chunk y) u l) K) ->
  eats (concat (map chunk_text l) ++ data) k (stale s_chunk_size_start n (left c y)) u K.
Proof.
  intros Hk Hch. revert c n u.
  induction l as [|b l IH]; intros c n u Hl HK; cbn [map concat forallb foldl] in *; [apply HK|].
  apply andb_true_iff in Hl as [Hb Hl]. unfold chunk_ok in Hb. rewrite negb_true_iff, bool_decide_eq_false in Hb.
  rewrite <- app_assoc. apply eats_short; [|done|].
  { unfold chunk_text. destruct (hex_text _); by destruct b. }
  intros Hlen. unfold chunk_text in Hlen. rewrite !length_app in Hlen. cbn [length] in Hlen. rewrite !length_app in Hlen.
  apply (eat_chunk _ _ Hmax b n (left c y)); [done|done|done|lia|]. apply (IH 0); [done|exact HK].
Qed.
End Groups.

(** ** Flags *)

(** Those that fields may ask for *)
Definition connection_flags : Z :=
  Z.lor F_UPGRADE (Z.lor F_CONNECTION_KEEP_ALIVE (Z.lor F_CONNECTION_CLOSE F_CONNECTION_UPGRADE)).

Lemma has_flag_lor a b f : has_flag (Z.lor a b) f = has_flag a f || has_flag b f.
Proof.
  unfold has_flag. rewrite Z.land_lor_distr_l, <- negb_andb. f_equal. apply eq_true_iff_eq.
  rewrite andb_true_iff, !Z.eqb_eq. apply Z.lor_eq_0_iff.
Qed.

Lemma has_with_flag a g f : has_flag (with_flag g a) f = has_flag a f || has_flag g f.
Proof. apply has_flag_lor. Qed.

Lemma option_flag_connection t : Z.land (option_flag t) connection_flags = option_flag t.
Proof. unfold option_flag. cbn [option_words foldr fst snd]. by repeat case_match. Qed.

Lemma options_flag_connection es : Z.land (options_flag es) connection_flags = options_flag es.
Proof.
  induction es as [|e es IH]; [done|]. cbn [options_flag foldr].
  rewrite Z.land_lor_distr_l, option_flag_connection. by f_equal.
Qed.

Lemma fields_flag_connection fs : Z.land (fields_flag fs) connection_flags = fields_flag fs.
Proof.
  induction fs as [|f fs IH]; [done|]. cbn [fields_flag foldr]. rewrite Z.land_lor_distr_l. f_equal; [|exact IH].
  unfold field_flag. destruct (connection_name f.1); [apply options_flag_connection|by destruct (_ && _)].
Qed.

(** ** The rest of a message *)

Section Messages.
Variable strict : bool.
Variable max_header_size : Z.
Hypothesis Hmax : 0 <= max_header_size < 2 ^ 32.
Implicit Types (y : http_parser) (u : list news).
#[local] Abbreviation eats := (eats strict max_header_size (U := list news)).

(** A parser whose fields are read, but for one that announces a body: of the
    flags only those that other fields ask for may be set. *)
Record blank (y : http_parser) : Prop := {
  bl_flags : Z.land (flags y) connection_flags = flags y;
  bl_coding : uses_transfer_encoding y = 0;
  bl_length : content_length y = ULLONG_MAX;
  bl_major : http_major y = 1;
  bl_minor : http_minor y = 1
}.

Lemma blank_flag y f : blank y -> Z.land connection_flags f = 0 -> has_flag (flags y) f = false.
Proof. intros Hy Hf. unfold has_flag. by rewrite <- (bl_flags y Hy), <- Z.land_assoc, Hf, Z.land_0_r. Qed.

Lemma blank_coding y : blank y -> (uses_transfer_encoding y =? 1) = false.
Proof. intros Hy. by rewrite (bl_coding y Hy). Qed.

Lemma blank_flagged fs y : blank y -> blank (flagged (fields_flag fs) y).
Proof.
  intros [Hf Hte Hl Hma Hmi]. split; try done. cbn. unfold with_flag.
  by rewrite Z.land_lor_distr_l, Hf, fields_flag_connection.
Qed.

(** What the parsers of one kind of message have in common *)
Record kin (y z : http_parser) : Prop := {
  kin_type : type z = type y;
  kin_method : method z = method y;
  kin_lenient : lenient_http_headers z = lenient_http_headers y
}.

Lemma kin_trans x y z : kin x y -> kin y z -> kin x z.
Proof. intros [] []. split; congruence. Qed.

(** Nobody skips a body. *)
Lemma told_skips (x : http_parser) (u : list news) : skips x u = 0.
Proof. reflexivity. Qed.

(** A message that ends before its connection does: a response without a body
    has a status that says so. *)
Definition ends (b : payload) y : Prop :=
  match b with Bodiless => http_message_needs_eof y = false | _ => True end.

Definition short (b : payload) : Prop :=
  match b with Sized b => Z.of_nat (length b) < 2 ^ 32 | _ => True end.

Lemma length_ends y :
  uses_transfer_encoding y = 0 -> content_length y <> ULLONG_MAX -> http_message_needs_eof y = false.
Proof.
  intros Hte Hl. unfold http_message_needs_eof. rewrite Hte, (proj2 (Z.eqb_neq _ _) Hl), orb_true_r.
  by repeat case_match.
Qed.

Lemma chunks_end y : has_flag (flags y) F_CHUNKED = true -> http_message_needs_eof y = false.
Proof. intros Hf. unfold http_message_needs_eof. rewrite Hf, andb_false_r. by repeat case_match. Qed.

Lemma needs_eof_flagged fs y :
  blank y -> http_message_needs_eof (flagged (fields_flag fs) y) = http_message_needs_eof y.
Proof.
  intros Hy. pose proof (blank_flagged fs y Hy) as Hy'. unfold http_message_needs_eof.
  by rewrite !(blank_flag _ F_SKIPBODY Hy), !(blank_flag _ F_SKIPBODY Hy'), !(blank_flag _ F_CHUNKED Hy), !(blank_flag _ F_CHUNKED Hy').
Qed.

Lemma ends_flagged b fs y : blank y -> ends b y -> ends b (flagged (fields_flag fs) y).
Proof. intros Hy. destruct b; [|done..]. cbn [ends]. by rewrite needs_eof_flagged. Qed.

Lemma framed_flag h i b y f :
  blank y -> Z.land connection_flags f = 0 ->
  has_flag (flags (headed (aside h i (framed b y)))) f =
    match b with Bodiless => false | Sized _ => has_flag F_CONTENTLENGTH f | Chunked _ => has_flag F_CHUNKED f end.
Proof.
  intros Hy Hf. destruct b; cbn; unfold with_flag; rewrite ?has_flag_lor; by rewrite (blank_flag y f Hy Hf).
Qed.

Lemma framed_close h i b y :
  has_flag (flags (headed (aside h i (framed b y)))) F_CONNECTION_CLOSE = has_flag (flags y) F_CONNECTION_CLOSE.
Proof. destruct b; cbn; unfold with_flag; rewrite ?has_flag_lor; by rewrite ?orb_false_r. Qed.

Lemma framed_upgrade h i b y : upgrade_of (aside h i (framed b y)) = upgrade_of y.
Proof. unfold upgrade_of. destruct b; cbn; unfold with_flag; rewrite ?has_flag_lor; by rewrite ?orb_false_r. Qed.

Lemma framed_headers h i b y : blank y -> upgrade_of y = false -> plain_headers (aside h i (framed b y)).
Proof.
  intros Hy Hup. pose proof Hy as [_ Hte _ Hma Hmi].
  assert (Hflag : forall f, Z.land connection_flags f = 0 -> has_flag (flags (aside h i (framed b y))) f =
    match b with Bodiless => false | Sized _ => has_flag F_CONTENTLENGTH f | Chunked _ => has_flag F_CHUNKED f end)
    by exact (fun f => framed_flag h i b y f Hy).
  split; try (rewrite Hflag by done; by destruct b); [by rewrite framed_upgrade| |destruct b; cbn; by rewrite Hma, Hmi].
  rewrite Hflag by done. destruct b; cbn; by rewrite ?Hte.
Qed.

Lemma framed_ends h i b y :
  blank y -> ends b y -> short b -> http_message_needs_eof (headed (aside h i (framed b y))) = false.
Proof.
  intros Hy He Hs. pose proof Hy as [_ Hte _ Hma Hmi]. destruct b as [|b|l]; [exact He| |].
  - apply length_ends; [exact Hte|]. cbn in *. unfold ULLONG_MAX. lia.
  - apply chunks_end. by rewrite framed_flag.
Qed.

Lemma told_headers y u :
  http_message_needs_eof (headed y) = false -> http_major y = 1 -> http_minor y = 1 ->
  told headers_complete (public (headed y)) u =
    Headers (code_of y) 1 1 (negb (has_flag (flags (headed y)) F_CONNECTION_CLOSE)) :: u.
Proof.
  intros He Hma Hmi. unfold told, newsroom. f_equal. unfold http_should_keep_alive, http_message_needs_eof in *. cbn in *.
  rewrite He, Hma, Hmi. by destruct (has_flag _ _).
Qed.

Lemma told_framed h i b y u :
  blank y -> ends b y -> short b ->
  told headers_complete (public (headed (aside h i (framed b y)))) u =
    Headers (code_of y) 1 1 (negb (has_flag (flags y) F_CONNECTION_CLOSE)) :: u.
Proof.
  intros Hy He Hs. pose proof Hy as [_ _ _ Hma Hmi].
  rewrite told_headers; [|by apply framed_ends|by destruct b..]. rewrite framed_close. by destruct b.
Qed.

Lemma next_framed h i b y z :
  flags z = flags (headed (aside h i (framed b y))) \/ flags z = with_flag F_TRAILING (flags (headed (aside h i (framed b y)))) ->
  type z = type y -> next_state strict z = next_state strict y.
Proof.
  intros Hz Hty. unfold next_state, start_state. rewrite Hty.
  assert (Hc : has_flag (flags z) F_CONNECTION_CLOSE = has_flag (flags y) F_CONNECTION_CLOSE).
  { destruct Hz as [-> | ->]; rewrite <- (framed_close h i b y); [done|]. rewrite has_with_flag. by rewrite orb_false_r. }
  by rewrite Hc.
Qed.

(** What is to be shown of the end of the headers and the body [b] *)
Definition eats_payload (b : payload) y : Prop :=
  forall h i n u data k (K : http_parser -> list news -> Prop),
    0 <= k ->
    (forall n' z, kin y z ->
       eats data k (stale (next_state strict y) n' z)
         (Ended :: rev (payload_news b) ++ Headers (code_of y) 1 1 (negb (has_flag (flags y) F_CONNECTION_CLOSE)) :: u) K) ->
    eats (LF :: payload_text b ++ data) k (stale s_headers_almost_done n (aside h i (framed b y))) u K.

Lemma eat_no_body b y :
  blank y -> upgrade_of y = false -> ends b y -> b = Bodiless \/ b = Sized [] -> eats_payload b y.
Proof.
  intros Hy Hup Hends Hb h i n u data k K Hk HK. assert (Hs : short b) by (by destruct Hb as [-> | ->]).
  assert (Ht : payload_text b = [] /\ payload_news b = []) by (by destruct Hb as [-> | ->]). destruct Ht as [-> Hnews].
  rewrite Hnews in HK. cbn [app rev] in *.
  apply (eat_headers_alone _ _ Hmax told_skips (next_state strict y)); [done|by apply framed_headers| | | |by apply framed_ends| |].
  - etransitivity; [apply (framed_flag h i b y F_CHUNKED Hy eq_refl)|]. by destruct Hb as [-> | ->].
  - destruct Hb as [-> | ->]; exact (blank_coding y Hy).
  - destruct Hb as [-> | ->]; [|done]. cbn. by rewrite (bl_length y Hy).
  - apply (next_framed h i b y); [by left|]. by destruct Hb as [-> | ->].
  - rewrite told_framed by done. apply HK. by destruct Hb as [-> | ->].
Qed.

Lemma eat_sized b y :
  blank y -> upgrade_of y = false -> b <> [] -> short (Sized b) -> eats_payload (Sized b) y.
Proof.
  intros Hy Hup Hne Hs h i n u data k K Hk HK. cbn [payload_text payload_news short] in *. rewrite bool_decide_false in HK by done.
  assert (Hpos : 0 < Z.of_nat (length b)) by (destruct b; [done|cbn; lia]).
  apply (eat_headers_length _ _ Hmax told_skips); [done|by apply framed_headers| |exact (blank_coding y Hy)| | |].
  - etransitivity; [apply (framed_flag h i (Sized b) y F_CHUNKED Hy eq_refl)|done].
  - apply Z.eqb_neq. cbn. lia.
  - apply Z.eqb_neq. cbn. unfold ULLONG_MAX. lia.
  - rewrite told_framed by done. set (z := headed (aside h i (framed (Sized b) y))).
    change z with (left (Z.of_nat (length b)) z). apply (eat_body _ _ Hmax (next_state strict y)); [done|done|done| |].
    { rewrite (next_message strict (left 0 z)); [apply (next_framed h i (Sized b)); [by left|done]| |].
      - by apply length_ends; [apply (bl_coding y Hy)|].
      - cbn. by rewrite (bl_major y Hy), (bl_minor y Hy). }
    exact (HK 0 (left 0 z) ltac:(by split)).
Qed.

Lemma eat_chunked l y :
  blank y -> upgrade_of y = false -> forallb chunk_ok l = true -> eats_payload (Chunked l) y.
Proof.
  intros Hy Hup Hl h i n u data k K Hk HK. cbn [payload_text payload_news] in *. set (z := headed (aside h i (framed (Chunked l) y))).
  assert (Hch : has_flag (flags z) F_CHUNKED = true).
  { etransitivity; [apply (framed_flag h i (Chunked l) y F_CHUNKED Hy eq_refl)|done]. }
  apply (eat_headers_chunked _ _ Hmax told_skips); [done|by apply framed_headers|exact Hch|].
  rewrite told_framed by done. fold z. rewrite <- (app_assoc (concat (map chunk_text l))).
  change z with (left (content_length z) z) at 1. apply (eat_chunks _ _ Hmax); [done|done|done|]. intros n2 c.
  rewrite give_chunks_news. cbn [app]. apply (eat_last_chunk _ _ Hmax (next_state strict y)); [done|done|done| |].
  { rewrite (next_message strict (left 0 (trailing (left c z)))); [apply (next_framed h i (Chunked l)); [by right|done]| |].
    - apply chunks_end. cbn [flags left trailing set_flags set_content_length]. rewrite has_with_flag, Hch. done.
    - cbn. by rewrite (bl_major y Hy), (bl_minor y Hy). }
  intros n3. cbv zeta. specialize (HK n3 (left 0 (trailing (left c z))) ltac:(by split)).
  rewrite rev_app_distr, <- app_assoc in HK. exact HK.
Qed.

Lemma eat_payload b y :
  blank y -> upgrade_of y = false -> ends b y -> payload_ok b = true -> short b -> eats_payload b y.
Proof.
  intros Hy Hup He Hb Hs. destruct b as [|b|l]; [apply eat_no_body; auto| |by apply eat_chunked].
  destruct (decide (b = [])) as [->|Hne]; [apply eat_no_body; auto|by apply eat_sized].
Qed.

(** The fields, and the carriage return that ends the headers *)
Lemma eat_lines fs b n y u data k K :
  0 <= k -> blank y -> forallb (field_ok (negb (lenient_http_headers y =? 0))) fs = true ->
  short b -> elsewhere header_field u = true ->
  (forall h i n', eats data k (stale s_headers_almost_done n' (aside h i (framed b (flagged (fields_flag fs) y))))
     (rev (concat (map field_news (fs ++ framing_fields b))) ++ u) K) ->
  eats (concat (map field_line (fs ++ framing_fields b)) ++ CR :: data) k (stale s_header_field_start n y) u K.
Proof.
  intros Hk Hy Hfs Hs Hu HK. rewrite map_app, concat_app, <- !app_assoc.
  apply (eat_fields _ _ Hmax _ _ _ _ y u); [done|constructor|exact Hfs|]. intros st2 y2 u2 n2 h2 i2 Hst2.
  set (y' := flagged (fields_flag fs) y) in *. assert (Hy' : blank y') by (by apply blank_flagged).
  apply (eat_framing _ _ Hmax _ _ _ _ _ _ _ _ _ _ Hk Hst2); [exact (blank_flag y' F_CONTENTLENGTH Hy' eq_refl)|exact Hs|].
  intros st3 y3 u3 n3 h3 i3 Hst3. eapply eat_last_cr; [done|done|exact Hst3|].
  replace (aside h3 i3 (framed b (aside h2 i2 y'))) with (aside h3 i3 (framed b y')) by (by destruct b).
  rewrite <- foldl_app, give_fields_news by done. apply HK.
Qed.

(** A message after its first line *)
Definition rest_text (fs : list (list Z * list Z)) (b : payload) : list Z :=
  concat (map field_line (fs ++ framing_fields b)) ++ CR :: LF :: payload_text b.

(** What its user is told, in order *)
Definition rest_news (code : Z) (fs : list (list Z * list Z)) (b : payload) : list news :=
  concat (map field_news (fs ++ framing_fields b)) ++ [Headers code 1 1 (negb (closes fs))] ++ payload_news b ++ [Ended].

Lemma eat_rest fs b n y u data k K :
  0 <= k -> blank y -> ends b y -> forallb (field_ok (negb (lenient_http_headers y =? 0))) fs = true ->
  payload_ok b = true -> short b -> elsewhere header_field u = true -> flags y = 0 ->
  upgrade_of (flagged (fields_flag fs) y) = false ->
  (forall n' z, kin y z -> eats data k (stale (if strict && closes fs then s_dead else start_state y) n' z) (rev (rest_news (code_of y) fs b) ++ u) K) ->
  eats (rest_text fs b ++ data) k (stale s_header_field_start n y) u K.
Proof.
  intros Hk Hy Hends Hfs Hb Hs Hu Hf Hup HK. unfold rest_text. rewrite <- app_assoc. cbn [app].
  apply eat_lines; [done..|]. intros h i n1. set (y' := flagged (fields_flag fs) y).
  assert (Hflags : flags y' = fields_flag fs) by (cbn; unfold with_flag; by rewrite Hf).
  apply (eat_payload b y'); [by apply blank_flagged|exact Hup|by apply ends_flagged|done|done|done|].
  intros n2 z Hz. unfold next_state. rewrite Hflags.
  specialize (HK n2 z ltac:(by destruct Hz)). unfold rest_news in HK. rewrite !rev_app_distr in HK. cbn [rev app] in HK.
  rewrite <- !app_assoc in HK. exact HK.
Qed.

(** ** A body that the end of the connection ends *)

Definition lasting_text (fs : list (list Z * list Z)) (b : list Z) : list Z :=
  concat (map field_line fs) ++ CR :: LF :: b.

Definition lasting_news (code : Z) (fs : list (list Z * list Z)) (b : list Z) : list news :=
  concat (map field_news fs) ++ [Headers code 1 1 false] ++ if bool_decide (b = []) then [] else [Is body b].

Lemma eat_lasting_body b n y u K :
  K (stale s_body_identity_eof n y) (if bool_decide (b = []) then u else given body b u) ->
  eats b 0 (stale s_body_identity_eof n y) u K.
Proof.
  intros HK. destruct b as [|c b]; [exact HK|]. rewrite bool_decide_false in HK by done.
  revert c u HK. induction b as [|d b IH]; intros c u HK; (apply (eat_lasting_byte _ _ Hmax); [done|]); [exact HK|].
  apply IH. rewrite <- given_app. exact HK.
Qed.

Lemma eat_lasting fs b n y u K :
  blank y -> http_message_needs_eof y = true -> forallb (field_ok (negb (lenient_http_headers y =? 0))) fs = true ->
  elsewhere header_field u = true -> upgrade_of (flagged (fields_flag fs) y) = false ->
  (forall n' z, kin y z -> K (stale s_body_identity_eof n' z) (rev (lasting_news (code_of y) fs b) ++ u)) ->
  eats (lasting_text fs b) 0 (stale s_header_field_start n y) u K.
Proof.
  intros Hy Heof Hfs Hu Hup HK. pose proof (eat_lines fs Bodiless n y u (LF :: b) 0 K ltac:(done) Hy Hfs I Hu) as Hlines.
  cbn [framing_fields] in Hlines. rewrite app_nil_r in Hlines. apply Hlines. clear Hlines. intros h i n1. cbn [framed].
  pose proof (needs_eof_flagged fs y Hy) as Heof'. rewrite Heof in Heof'.
  set (y' := flagged (fields_flag fs) y) in *. assert (Hy' : blank y') by (by apply blank_flagged).
  pose proof (framed_headers h i Bodiless y' Hy' Hup) as Hh. pose proof Hy as [_ Hte Hl Hma Hmi].
  apply (eat_headers_lasting _ _ Hmax told_skips); [done|exact Hh|exact (blank_flag y' F_CHUNKED Hy' eq_refl)|exact (blank_coding y' Hy')|exact Hl|exact Heof'|].
  apply eat_lasting_body. specialize (HK 0 (headed (aside h i y')) ltac:(by split)).
  unfold lasting_news in HK. rewrite !rev_app_distr in HK. cbn [rev app] in HK. rewrite <- !app_assoc in HK.
  assert (Ht : forall l, told headers_complete (public (headed (aside h i y'))) l = Headers (code_of y) 1 1 false :: l).
  { intros l. cbn [told newsroom]. unfold http_should_keep_alive.
    change (http_message_needs_eof _) with (http_message_needs_eof y'). rewrite Heof'. cbn. rewrite Hma, Hmi.
    by destruct (has_flag _ _). }
  rewrite Ht. case_bool_decide; exact HK.
Qed.

(** The body of a message is shorter than the message. *)
Lemma eat_rest_short first fs b n st y u data k K :
  0 <= k -> first <> [] ->
  (short b -> eats (first ++ rest_text fs b ++ data) k (stale st n y) u K) ->
  eats (first ++ rest_text fs b ++ data) k (stale st n y) u K.
Proof.
  intros Hk Hne He. apply (eats_short _ _ Hmax); [by destruct first|done|]. intros Hlen. apply He.
  destruct b as [|b|l]; [done| |done]. cbn [short]. unfold rest_text in Hlen.
  rewrite !length_app in Hlen. cbn [length payload_text] in Hlen. lia.
Qed.
End Messages.
