(* ===== verification/HttpRequests.v ===== *)
(** [http_parser_execute] reads back the requests that [request_text] writes:
    however a connection is cut into buffers, its user is told exactly the
    requests that were written to it. *)
From S2P Require Import Prelude HttpTypes HttpUrl HttpExec HttpStates HttpHeaders HttpParser HttpLogic HttpSafe HttpTotal HttpRuns HttpScan HttpRel HttpTied HttpCross HttpSplit HttpHandover HttpPieces HttpBytes HttpMethod HttpLines HttpNames HttpFields HttpOptions HttpBodies HttpMessages HttpPayloads.

Local Open Scope Z_scope.
#[local] Arguments Z.add : simpl never.
#[local] Arguments Z.sub : simpl never.

(** ** A request *)

Record request := Request {
  req_method : Z;
  req_target : list Z;
  req_fields : list (list Z * list Z);
  req_payload : payload
}.

Definition request_text (r : request) : list Z :=
  line_of (req_method r) (req_target r) ++ rest_text (req_fields r) (req_payload r).

Definition line_and_fields_ok (strict lenient : bool) (r : request) : bool :=
  (0 <=? req_method r) && (req_method r <? 34) &&
  target_ok strict (req_method r) (req_target r) && forallb (field_ok lenient) (req_fields r).

(** Whether what follows a request is left to another protocol *)
Definition leaves (r : request) : bool := asks_upgrade (req_fields r) || (req_method r =? HTTP_CONNECT).

Definition request_ok (strict lenient : bool) (r : request) : bool :=
  line_and_fields_ok strict lenient r && negb (leaves r) && payload_ok (req_payload r).

Definition request_news (r : request) : list news :=
  [Began; Is url (req_target r)] ++ rest_news (req_method r) (req_fields r) (req_payload r).

(** A sequence of requests: only the last may close the connection. *)
Definition ends_connection (r : request) : bool := closes (req_fields r).
Definition requests_ok (strict lenient : bool) (rs : list request) : bool :=
  forallb (request_ok strict lenient) rs && forallb (fun r => negb (ends_connection r)) (removelast rs).
Definition last_ends (rs : list request) : bool := from_option ends_connection false (last rs).

Section Requests.
Variable strict : bool.
Variable max_header_size : Z.
Hypothesis Hmax : 0 <= max_header_size < 2 ^ 32.
Implicit Types (y : http_parser) (u : list news).
#[local] Abbreviation eats := (eats strict max_header_size (U := list news)).

Lemma line_and_fields lenient r :
  line_and_fields_ok strict lenient r = true ->
  0 <= req_method r < 34 /\ target_ok strict (req_method r) (req_target r) = true /\
  forallb (field_ok lenient) (req_fields r) = true.
Proof. unfold line_and_fields_ok. rewrite !andb_true_iff, Z.leb_le, Z.ltb_lt. by intros [[[? ?] ?] ?]. Qed.

Lemma leaves_upgrade r i y :
  type y = HTTP_REQUEST -> upgrade_of (flagged (fields_flag (req_fields r)) (versioned (begun (req_method r) i y))) = leaves r.
Proof.
  intros Hty. unfold upgrade_of, leaves, asks_upgrade. cbn. unfold with_flag. rewrite Z.lor_0_l, Hty.
  by destruct (_ && _).
Qed.

Lemma eat_request r n y u data k K :
  0 <= k -> request_ok strict (negb (lenient_http_headers y =? 0)) r = true -> type y = HTTP_REQUEST ->
  (forall n' z, type z = HTTP_REQUEST -> lenient_http_headers z = lenient_http_headers y ->
     eats data k (stale (if strict && ends_connection r then s_dead else s_start_req) n' z) (rev (request_news r) ++ u) K) ->
  eats (request_text r ++ data) k (stale s_start_req n y) u K.
Proof.
  intros Hk Hr Hty HK. unfold request_ok in Hr. rewrite !andb_true_iff in Hr.
  destruct Hr as [[Hline Hleave%negb_true_iff] Hp]. apply line_and_fields in Hline as (Hm & Ht & Hfs).
  unfold request_text. rewrite <- app_assoc. apply (eat_rest_short _ _ Hmax); [done| |].
  { unfold line_of. by destruct (method_text _). }
  intros Hs. apply (eat_line _ _ Hmax); [done|done|done|]. intros m0 i n1.
  set (y1 := versioned (begun (req_method r) i y)).
  apply (eat_rest _ _ Hmax); [done|by split| |done|done|done|done|done|exact (eq_trans (leaves_upgrade r i y Hty) Hleave)|].
  { destruct (req_payload r); [|done..]. cbn [ends]. unfold http_message_needs_eof. cbn. by rewrite Hty. }
  intros n2 z [Hz _ Hzl].
  assert (Hstart : start_state y1 = s_start_req) by (unfold start_state; cbn; by rewrite Hty).
  assert (Hcode : code_of y1 = req_method r) by (unfold code_of; cbn; by rewrite Hty).
  rewrite Hstart, Hcode, given_elsewhere by done. unfold request_news in HK.
  specialize (HK n2 z ltac:(by rewrite Hz) Hzl). rewrite rev_app_distr, <- app_assoc in HK. exact HK.
Qed.

Lemma eat_requests rs n y u K :
  requests_ok strict (negb (lenient_http_headers y =? 0)) rs = true -> type y = HTTP_REQUEST ->
  (forall n' z, type z = HTTP_REQUEST ->
     K (stale (if strict && last_ends rs then s_dead else s_start_req) n' z) (rev (concat (map request_news rs)) ++ u)) ->
  eats (concat (map request_text rs)) 0 (stale s_start_req n y) u K.
Proof.
  intros [Hrs Hopen]%andb_true_iff. revert n y u Hrs.
  induction rs as [|r rs IH]; intros n y u Hrs Hty HK; cbn [map concat forallb] in *.
  - specialize (HK n y Hty). unfold last_ends in HK. cbn in HK. by rewrite andb_false_r in HK.
  - apply andb_true_iff in Hrs as [Hr Hrs]. apply eat_request; [done|done|done|]. intros n' z Hz Hl.
    destruct rs as [|r2 rs].
    + cbn [map concat eats]. apply (HK n' z) in Hz. by rewrite app_nil_r in Hz.
    + cbn [removelast forallb] in Hopen. apply andb_true_iff in Hopen as [Hr1%negb_true_iff Hopen].
      rewrite Hr1, andb_false_r. apply IH; [exact Hopen|by rewrite Hl|done|]. intros n2 z2 Hz2.
      rewrite app_assoc, <- rev_app_distr. by apply HK.
Qed.

(** A parser of requests that no error was made before, and one that waits for
    a request *)
Definition sound (x : http_parser) : Prop :=
  parser_ok max_header_size x /\ errno_ x = HPE_OK /\ type x = HTTP_REQUEST.
Definition between (x : http_parser) : Prop := sound x /\ state_ x = s_start_req.

(** C4. What is written as requests is read back as the same requests.  If the
    bytes, in all no more than the maximal header size, of any sequence of
    requests that do not leave HTTP (a request line;
    fields, ordinary ones or such with the options of the connection; and no
    body, a body of the announced length, or chunks) reach a parser that waits for a request, cut
    into buffers in any way, then every call takes its buffer without error,
    the user is told of each request what it holds - its target, the names and
    values of its fields in order, its method, the version, that the connection
    goes on unless an option is to close it, the bytes of its body or chunks,
    and its end - and nothing more; and the parser waits for the next request,
    or, in strict mode after a request to close, for nothing. *)
Theorem requests_roundtrip rs ps x u :
  between x -> requests_ok strict (negb (lenient_http_headers x =? 0)) rs = true ->
  Forall (fun data => data <> []) ps -> concat ps = concat (map request_text rs) ->
  nread_ x + Z.of_nat (length (concat ps)) <= max_header_size ->
  exists y, feed strict max_header_size ps x u = Some (y, rev (concat (map request_news rs)) ++ u) /\
    sound y /\ state_ y = (if strict && last_ends rs then s_dead else s_start_req).
Proof.
  intros ((Hx & He & Hty) & Hst) Hrs Hps Heq Hn.
  assert (Hs : x = stale s_start_req (nread_ x) x) by (rewrite <- Hst; by destruct x).
  destruct (eats_feed strict max_header_size Hmax ps 0 x u
    (fun y u' => type y = HTTP_REQUEST /\ state_ y = (if strict && last_ends rs then s_dead else s_start_req) /\
       u' = rev (concat (map request_news rs)) ++ u))
    as (y & u' & Hf & (Hy & Hey & _) & Hyt & Hys & ->); [done|done| | |by exists y].
  - split; [done|]. split; [done|]. lia.
  - rewrite Heq, Hs. apply eat_requests; [exact Hrs|done|]. by intros n' z Hz.
Qed.
End Requests.

(** ** Three requests, a byte at a time *)

Definition get_request : request :=
  Request HTTP_GET (chars "/a?b") [(chars "Host", chars "c d"); (chars "X", [])] Bodiless.
Definition put_request : request := Request HTTP_PUT (chars "/") [] (Sized (chars "xy")).
Definition post_request : request :=
  Request HTTP_POST (chars "/") [(chars "connection", chars "TE, Close")] (Chunked [chars "hi"]).

Example get_text : request_text get_request = chars (lines ["GET /a?b HTTP/1.1"; "Host: c d"; "X: "; ""]).
Proof. vm_compute. reflexivity. Qed.

Example put_text : request_text put_request = chars (lines ["PUT / HTTP/1.1"; "Content-Length: 2"; ""]) ++ chars "xy".
Proof. vm_compute. reflexivity. Qed.

Example post_text :
  request_text post_request = chars (lines ["POST / HTTP/1.1"; "connection: TE, Close"; "Transfer-Encoding: chunked"; ""; "2"; "hi"; "0"; ""]).
Proof. vm_compute. reflexivity. Qed.

Definition three_requests : list request := [get_request; put_request; post_request].
Definition three_pieces : list (list Z) := map (fun c => [c]) (concat (map request_text three_requests)).

Lemma requests_roundtrip_witness :
  exists y, feed true HTTP_MAX_HEADER_SIZE three_pieces (http_parser_init HTTP_REQUEST) [] =
    Some (y, rev [
      Began; Is url (chars "/a?b"); Is header_field (chars "Host"); Is header_value (chars "c d");
      Is header_field (chars "X"); Is header_value []; Headers HTTP_GET 1 1 true; Ended;
      Began; Is url (chars "/"); Is header_field (chars "Content-Length"); Is header_value (chars "2");
      Headers HTTP_PUT 1 1 true; Is body (chars "xy"); Ended;
      Began; Is url (chars "/"); Is header_field (chars "connection"); Is header_value (chars "TE, Close");
      Is header_field (chars "Transfer-Encoding"); Is header_value (chars "chunked"); Headers HTTP_POST 1 1 false; Chunk 2; Is body (chars "hi"); ChunkEnded; Chunk 0; ChunkEnded; Ended]) /\
    sound HTTP_MAX_HEADER_SIZE y /\ state_ y = s_dead.
Proof.
  assert (Hmax : 0 <= HTTP_MAX_HEADER_SIZE < 2 ^ 32) by (vm_compute; split; congruence).
  assert (Hx : between HTTP_MAX_HEADER_SIZE (http_parser_init HTTP_REQUEST)).
  { split; [split; [apply init_good|split; reflexivity]|reflexivity]. }
  assert (Hok : requests_ok true false three_requests = true) by (vm_compute; reflexivity).
  assert (Hps : Forall (fun data => data <> []) three_pieces) by (apply Forall_fmap, Forall_forall; by intros c _).
  assert (Hcat : concat three_pieces = concat (map request_text three_requests)) by (vm_compute; reflexivity).
  assert (Hn : nread_ (http_parser_init HTTP_REQUEST) + Z.of_nat (length (concat three_pieces)) <= HTTP_MAX_HEADER_SIZE)
    by (vm_compute; congruence).
  exact (requests_roundtrip true HTTP_MAX_HEADER_SIZE Hmax three_requests three_pieces (http_parser_init HTTP_REQUEST) []
    Hx Hok Hps Hcat Hn).
Defined.

(** ** What the fields of [request_ok] leave out, and the checks miss *)

(** A field whose name only begins like [Transfer-Encoding] counts as one that
    announces an unknown coding, and the request is refused. *)
Example coding_prefix_refused :
  run_string HTTP_REQUEST (lines ["GET / HTTP/1.1"; "Transfer-Encoding-Note: x"; ""])
  = Some (44, HPE_INVALID_TRANSFER_ENCODING, s_headers_done,
      [MessageBegin; Data url 4 1; Data header_field 16 22; Data header_value 40 1; HeadersComplete]).
Proof. vm_compute. reflexivity. Qed.

(** The options of a connection after a comma that follows a part of an option,
    or no element, or that a tab follows, are not seen, nor is one that a tab
    follows. *)
Definition tab : string := String (Ascii.ascii_of_nat 9) "".
Definition keeps_alive (options : string) : option bool :=
  match http_parser_execute true recorder HTTP_MAX_HEADER_SIZE
    (chars (lines ["GET / HTTP/1.1"; "Connection: " +:+ options; ""])) (http_parser_init HTTP_REQUEST) [] with
  | Done (_, x, _) => Some (http_should_keep_alive x)
  | Faulted _ => None
  end.

Example options_seen : map keeps_alive ["close"; "TE, Close"; "close , TE"; "TE"] = [Some false; Some false; Some false; Some true].
Proof. vm_compute. reflexivity. Qed.

Example options_lost :
  map keeps_alive ["clos, close"; "TE,,close"; ",close"; "TE," +:+ tab +:+ "close"; "close" +:+ tab] = replicate 5 (Some true).
Proof. vm_compute. reflexivity. Qed.

(** A control character is refused in a value, but not as its first byte. *)
Definition control : string := String (Ascii.ascii_of_nat 1) "".

Example control_refused_inside :
  run_string HTTP_REQUEST (lines ["GET / HTTP/1.1"; "A: b" +:+ control; ""])
  = Some (20, HPE_INVALID_HEADER_TOKEN, s_header_value, [MessageBegin; Data url 4 1; Data header_field 16 1]).
Proof. vm_compute. reflexivity. Qed.

Example control_accepted_first :
  run_string HTTP_REQUEST (lines ["GET / HTTP/1.1"; "A: " +:+ control +:+ "b"; ""])
  = Some (25, HPE_OK, s_start_req,
      [MessageBegin; Data url 4 1; Data header_field 16 1; Data header_value 19 2; HeadersComplete; MessageComplete]).
Proof. vm_compute. reflexivity. Qed.
