(* ===== verification/HttpResponses.v ===== *)
(** [http_parser_execute] reads back the responses that [response_text]
    writes. *)
From S2P Require Import Prelude HttpTypes HttpUrl HttpExec HttpStates HttpHeaders HttpParser HttpLogic HttpSafe HttpTotal HttpRuns HttpScan HttpRel HttpTied HttpCross HttpSplit HttpHandover HttpPieces HttpBytes HttpMethod HttpLines HttpNames HttpFields HttpOptions HttpBodies HttpMessages HttpPayloads.

Local Open Scope Z_scope.
Local Open Scope exec_scope.
#[local] Arguments Z.add : simpl never.
#[local] Arguments Z.sub : simpl never.

(** ** The status line *)

Definition status_line (code : Z) (phrase : list Z) : list Z :=
  version_text ++ chr " " :: code / 100 + chr "0" :: code / 10 mod 10 + chr "0" :: code mod 10 + chr "0" ::
  chr " " :: phrase ++ [CR; LF].

(** What a status line may hold after the status *)
Definition phrase_ok (l : list Z) : bool := forallb (fun c => negb ((c =? CR) || (c =? LF))) l.

Section StatusLines.
Context {U : Type} `{ReaderLaws U}.
Variable strict : bool.
Variable max_header_size : Z.
Hypothesis Hmax : 0 <= max_header_size < 2 ^ 32.
Implicit Types (y : http_parser) (u : U).
#[local] Abbreviation eats := (eats strict max_header_size).

(** The parser when a response has begun *)
Definition opened y : http_parser :=
  set_content_length (fun _ => ULLONG_MAX) (set_uses_transfer_encoding (fun _ => 0) (set_flags (fun _ => 0) y)).
(** The parser when a response with status [code] has begun *)
Definition answered (code : Z) y : http_parser :=
  set_index (fun _ => 0) (set_status_code (fun _ => code) (versioned (opened y))).

Lemma eat_res_version n y u data k K :
  0 <= k ->
  (forall n', eats data k (stale s_res_first_status_code n' (versioned (opened y))) (told message_begin (public (opened y)) u) K) ->
  eats (version_text ++ chr " " :: data) k (stale s_start_res n y) u K.
Proof.
  intros Hk HK. let l := eval vm_compute in version_text in change version_text with l. cbn [app].
  eapply (eat_once _ _ Hmax url (@None Z)); [done|intros Hx He Hn; byte_from url; split|].
  { cbn [dispatch]. unfold do_start_res, clear_message. step_case. spell_out. reflexivity. }
  { exact He. }
  change (eats (chars "TTP/1.1 " ++ data) k (stale s_res_H (n + 1) (opened y)) (told message_begin (public (opened y)) u) K).
  let l := eval vm_compute in (chars "TTP/1.1 ") in change (chars "TTP/1.1 ") with l. cbn [app].
  do 4 (byte_case Hmax url (@None Z) expect).
  byte_case Hmax url (@None Z) do_http_major.
  byte_case Hmax url (@None Z) do_http_dot.
  byte_case Hmax url (@None Z) do_http_minor.
  byte_case Hmax url (@None Z) do_res_http_end. apply HK.
Qed.
(** The first digit of the status, and the others *)
Lemma eat_first_digit d n y u data k K :
  0 <= k -> 0 <= d < 10 ->
  eats data k (stale s_res_status_code (n + 1) (set_status_code (fun _ => d) y)) u K ->
  eats (d + chr "0" :: data) k (stale s_res_first_status_code n y) u K.
Proof.
  intros Hk Hd HK. assert (Hnum : IS_NUM (d + chr "0") = true) by (unfold IS_NUM; rewrite andb_true_iff, !Z.leb_le; lia).
  eapply (eat_once _ _ Hmax url (@None Z) _ _ _ s_res_status_code (n + 1) (set_status_code (fun _ => d) (stale s_res_first_status_code n y)));
    [done|intros Hx He Hn; byte_from url; split; [|exact He]|exact HK].
  cbn [dispatch]. unfold do_res_first_status_code. step_case.
  replace (d + chr "0" - chr "0") with d by lia. unfold u16. rewrite Z.mod_small by lia. spell_out. reflexivity.
Qed.

Lemma eat_status_digit d a n y u data k K :
  0 <= k -> 0 <= d < 10 -> 0 <= a < 100 ->
  eats data k (stale s_res_status_code (n + 1) (set_status_code (fun _ => a * 10 + d) y)) u K ->
  eats (d + chr "0" :: data) k (stale s_res_status_code n (set_status_code (fun _ => a) y)) u K.
Proof.
  intros Hk Hd Ha HK. assert (Hnum : IS_NUM (d + chr "0") = true) by (unfold IS_NUM; rewrite andb_true_iff, !Z.leb_le; lia).
  eapply (eat_once _ _ Hmax url (@None Z) _ _ _ s_res_status_code (n + 1)
      (set_status_code (fun _ => a * 10 + d) (stale s_res_status_code n y)));
    [done|intros Hx He Hn; byte_from url; split; [|exact He]|exact HK].
  assert (Hu : u16 (u16 (a * 10) + d) = a * 10 + d) by (unfold u16; rewrite (Z.mod_small (a * 10)), Z.mod_small; lia).
  assert (Hbig : (u16 (u16 (a * 10) + d) >? 999) = false) by (rewrite Hu, Z.gtb_ltb; apply Z.ltb_ge; lia).
  cbn [dispatch]. unfold do_res_status_code. step_case. replace (d + chr "0" - chr "0") with d by lia. step_case.
  spell_out. unfold set_status_code, stale. cbn. rewrite Hu. reflexivity.
Qed.

Lemma eat_code code n y u data k K :
  0 <= k -> 0 <= code <= 999 ->
  (forall n', eats data k (stale s_res_status_start n' (set_status_code (fun _ => code) y)) u K) ->
  eats (code / 100 + chr "0" :: code / 10 mod 10 + chr "0" :: code mod 10 + chr "0" :: chr " " :: data) k
    (stale s_res_first_status_code n y) u K.
Proof.
  intros Hk Hc HK.
  assert (Hdigits : 0 <= code / 100 < 10 /\ 0 <= code / 10 mod 10 < 10 /\ 0 <= code mod 10 < 10 /\
    code / 100 * 10 + code / 10 mod 10 = code / 10 /\ code / 10 * 10 + code mod 10 = code)
    by (Z.div_mod_to_equations; lia).
  destruct Hdigits as (H1 & H2 & H3 & H12 & H123).
  apply eat_first_digit; [done|done|]. apply eat_status_digit; [done|done|lia|]. rewrite H12.
  apply eat_status_digit; [done|done|lia|]. rewrite H123.
  byte_case Hmax url (@None Z) do_res_status_code. apply HK.
Qed.

Lemma eat_phrase_char c n y u data k K :
  0 <= k -> (c =? CR) || (c =? LF) = false ->
  eats data k (stale s_res_status (n + 1) y) (given status [c] u) K ->
  eats (c :: data) k (stale s_res_status n y) u K.
Proof.
  intros Hk Hc HK. apply orb_false_iff in Hc as [Hcr Hlf]. byte_case Hmax status (Some 0) do_res_status. exact HK.
Qed.

Lemma eat_phrase_cr n y u data k K :
  0 <= k -> eats data k (stale s_res_line_almost_done (n + 1) y) (given status [] u) K ->
  eats (CR :: data) k (stale s_res_status n y) u K.
Proof. intros Hk HK. byte_case Hmax status (@None Z) do_res_status. exact HK. Qed.

(** A line that ends where the phrase would start: the carriage return is
    looked at twice. *)
Lemma eat_no_phrase n y u data k K :
  0 <= k -> eats data k (stale s_res_line_almost_done (n + 1) (set_index (fun _ => 0) y)) (given status [] u) K ->
  eats (CR :: data) k (stale s_res_status_start n y) u K.
Proof.
  intros Hk HK.
  refine (eat_byte _ _ Hmax url None (set_index (fun _ => 0) (stale s_res_line_almost_done n y)) s_res_line_almost_done (n + 1) CR (given status [] u) _ _ _ _ _ _ Hk _ HK).
  intros (Hx & He & _). split; [exact He|]. byte_from url. eapply run_reexecute.
  - cbn [dispatch p_state]. unfold do_res_status_start. step_case. reflexivity.
  - spell_out. apply (run_last _ _ y _ s_res_status _ url None); [done|]. cbn [dispatch]. unfold do_res_status. step_case. spell_out. reflexivity.
Qed.

Lemma eat_phrase_end n y u data k K :
  0 <= k -> (forall n', eats data k (stale s_header_field_start n' y) (given status [] u) K) ->
  eats (CR :: LF :: data) k (stale s_res_status n y) u K.
Proof.
  intros Hk HK. apply (eat_phrase_cr n y u (LF :: data)); [done|]. byte_case Hmax url (@None Z) expect. apply HK.
Qed.

Lemma eat_phrase_rest l n y u a data k K :
  0 <= k -> phrase_ok l = true ->
  (forall n', eats data k (stale s_header_field_start n' y) (given status (a ++ l) u) K) ->
  eats (l ++ CR :: LF :: data) k (stale s_res_status n y) (given status a u) K.
Proof.
  intros Hk. revert n a. induction l as [|c l IH]; intros n a Hl HK; cbn [app phrase_ok forallb] in *.
  - rewrite app_nil_r in HK. apply eat_phrase_end; [done|]. intros n'. rewrite given_nil_r. apply HK.
  - apply andb_true_iff in Hl as [Hc Hl]. apply negb_true_iff in Hc. apply eat_phrase_char; [done|done|].
    rewrite <- given_app. apply IH; [done|]. intros n'. rewrite <- app_assoc. apply HK.
Qed.

(** The phrase of the status, and the end of the line *)
Lemma eat_phrase l n y u data k K :
  0 <= k -> phrase_ok l = true ->
  (forall n', eats data k (stale s_header_field_start n' (set_index (fun _ => 0) y)) (given status l u) K) ->
  eats (l ++ CR :: LF :: data) k (stale s_res_status_start n y) u K.
Proof.
  intros Hk Hl HK. destruct l as [|c l]; cbn [app].
  - apply eat_no_phrase; [done|]. byte_case Hmax url (@None Z) expect. apply HK.
  - cbn [phrase_ok forallb] in Hl. apply andb_true_iff in Hl as [Hc Hl]. apply negb_true_iff, orb_false_iff in Hc as [Hcr Hlf].
    byte_case Hmax status (Some 0) do_res_status_start. apply eat_phrase_rest; [done|done|exact HK].
Qed.

Lemma eat_status_line code l n y u data k K :
  0 <= k -> 0 <= code <= 999 -> phrase_ok l = true ->
  (forall n', eats data k (stale s_header_field_start n' (answered code y))
     (given status l (told message_begin (public (opened y)) u)) K) ->
  eats (status_line code l ++ data) k (stale s_start_res n y) u K.
Proof.
  intros Hk Hc Hl HK. unfold status_line. rewrite <- app_assoc. cbn [app]. rewrite <- app_assoc. cbn [app].
  apply eat_res_version; [done|]. intros n1. apply eat_code; [done|done|]. intros n2.
  apply eat_phrase; [done|done|exact HK].
Qed.
End StatusLines.

(** ** A response *)

Record response := Response {
  res_code : Z;
  res_phrase : list Z;
  res_fields : list (list Z * list Z);
  res_payload : payload
}.

(** The statuses of responses without a body *)
Definition bodiless (code : Z) : bool := (code / 100 =? 1) || (code =? 204) || (code =? 304).

Definition response_text (r : response) : list Z :=
  status_line (res_code r) (res_phrase r) ++ rest_text (res_fields r) (res_payload r).

(** A head that does not leave the connection to another protocol *)
Definition head_ok (lenient : bool) (code : Z) (phrase : list Z) (fs : list (list Z * list Z)) : bool :=
  (0 <=? code) && (code <=? 999) && phrase_ok phrase && forallb (field_ok lenient) fs && negb (asks_upgrade fs && (code =? 101)).

Definition response_ok (lenient : bool) (r : response) : bool :=
  head_ok lenient (res_code r) (res_phrase r) (res_fields r) && payload_ok (res_payload r) &&
  match res_payload r with Bodiless => bodiless (res_code r) | _ => true end.

Definition response_news (r : response) : list news :=
  [Began; Is status (res_phrase r)] ++ rest_news (res_code r) (res_fields r) (res_payload r).

(** A response whose body goes on until the connection ends *)
Record closing := Closing {
  cl_code : Z;
  cl_phrase : list Z;
  cl_fields : list (list Z * list Z);
  cl_body : list Z
}.

Definition closing_text (c : closing) : list Z :=
  status_line (cl_code c) (cl_phrase c) ++ lasting_text (cl_fields c) (cl_body c).
Definition closing_ok (lenient : bool) (c : closing) : bool :=
  head_ok lenient (cl_code c) (cl_phrase c) (cl_fields c) && negb (bodiless (cl_code c)).
Definition closing_news (c : closing) : list news :=
  [Began; Is status (cl_phrase c)] ++ lasting_news (cl_code c) (cl_fields c) (cl_body c).

(** What a connection carries: responses, and maybe one that ends with it *)
Definition answers_text (rs : list response) (final : option closing) : list Z :=
  concat (map response_text rs) ++ from_option closing_text [] final.
Definition answers_news (rs : list response) (final : option closing) : list news :=
  concat (map response_news rs) ++ from_option closing_news [] final.
(** Only the last one may close the connection. *)
Definition ends_connection (r : response) : bool := closes (res_fields r).
Definition last_ends (rs : list response) : bool := from_option ends_connection false (last rs).
Definition answers_ok (lenient : bool) (rs : list response) (final : option closing) : bool :=
  forallb (response_ok lenient) rs &&
  forallb (fun r => negb (ends_connection r)) (if final then rs else removelast rs) &&
  from_option (closing_ok lenient) true final.

(** The state after them *)
Definition final_state (strict : bool) (rs : list response) (final : option closing) : state :=
  if final then s_body_identity_eof else if strict && last_ends rs then s_dead else s_start_res.

Section Responses.
Variable strict : bool.
Variable max_header_size : Z.
Hypothesis Hmax : 0 <= max_header_size < 2 ^ 32.
Implicit Types (y : http_parser) (u : list news).
#[local] Abbreviation eats := (eats strict max_header_size (U := list news)).

(** A parser of responses *)
Record responding (y : http_parser) : Prop := {
  rp_type : type y = HTTP_RESPONSE;
  rp_method : (method y =? HTTP_CONNECT) = false
}.

Lemma responding_kin y z : responding y -> kin y z -> responding z.
Proof. intros [] []. split; congruence. Qed.

Lemma answered_blank code y : responding y -> blank (answered code y).
Proof. by intros []. Qed.

Lemma answered_code code y : responding y -> code_of (answered code y) = code.
Proof. intros [Hty _]. unfold code_of. cbn. by rewrite Hty. Qed.

Lemma answered_eof code y : responding y -> http_message_needs_eof (answered code y) = negb (bodiless code).
Proof.
  intros [Hty _]. unfold http_message_needs_eof, bodiless. cbn. rewrite Hty, decide_False by done. rewrite orb_false_r.
  by destruct (_ || _).
Qed.

Lemma answered_start code y : responding y -> start_state (answered code y) = s_start_res.
Proof. intros [Hty _]. unfold start_state. cbn. by rewrite Hty. Qed.

Lemma head_ok_parts lenient code phrase fs :
  head_ok lenient code phrase fs = true ->
  0 <= code <= 999 /\ phrase_ok phrase = true /\ forallb (field_ok lenient) fs = true /\ asks_upgrade fs && (code =? 101) = false.
Proof. unfold head_ok. rewrite !andb_true_iff, !Z.leb_le, negb_true_iff. by intros [[[[? ?] ?] ?] ?]. Qed.

Lemma answered_upgrade code fs y :
  responding y -> upgrade_of (flagged (fields_flag fs) (answered code y)) = asks_upgrade fs && (code =? 101).
Proof.
  intros [Hty Hm]. unfold upgrade_of, asks_upgrade. cbn. unfold with_flag. rewrite Z.lor_0_l, Hty, Hm.
  rewrite bool_decide_false by done. by destruct (_ && _).
Qed.

Lemma eat_response r n y u data k K :
  0 <= k -> response_ok (negb (lenient_http_headers y =? 0)) r = true -> responding y ->
  (forall n' z, kin y z ->
     eats data k (stale (if strict && ends_connection r then s_dead else s_start_res) n' z) (rev (response_news r) ++ u) K) ->
  eats (response_text r ++ data) k (stale s_start_res n y) u K.
Proof.
  intros Hk Hr Hy HK. unfold response_ok in Hr. rewrite !andb_true_iff in Hr. destruct Hr as [[Hh Hp] Hb].
  apply head_ok_parts in Hh as (Hcode & Hphrase & Hfs & Hup).
  unfold response_text. rewrite <- app_assoc. apply (eat_rest_short _ _ Hmax); [done|done|]. intros Hs.
  apply (eat_status_line _ _ Hmax); [done..|]. intros n1.
  apply (eat_rest _ _ Hmax); [done|by apply answered_blank| |done|done|done|done|done|by rewrite answered_upgrade|].
  { destruct (res_payload r); [|done..]. cbn [ends]. rewrite answered_eof by done. by rewrite Hb. }
  intros n2 z Hz. rewrite answered_start, answered_code, given_elsewhere by done.
  assert (Hkin : kin y z) by (destruct Hz; by split).
  specialize (HK n2 z Hkin). unfold response_news in HK. rewrite rev_app_distr, <- app_assoc in HK. exact HK.
Qed.

(** Responses after which the connection goes on, and any *)
Lemma eat_open_responses rs n y u data K :
  forallb (response_ok (negb (lenient_http_headers y =? 0))) rs = true ->
  forallb (fun r => negb (ends_connection r)) rs = true -> responding y ->
  (forall n' z, kin y z -> eats data 0 (stale s_start_res n' z) (rev (concat (map response_news rs)) ++ u) K) ->
  eats (concat (map response_text rs) ++ data) 0 (stale s_start_res n y) u K.
Proof.
  revert n y u. induction rs as [|r rs IH]; intros n y u Hrs Hopen Hy HK; cbn [map concat forallb app] in *; [by apply HK|].
  apply andb_true_iff in Hrs as [Hr Hrs]. apply andb_true_iff in Hopen as [Hone%negb_true_iff Hopen].
  rewrite <- app_assoc. apply eat_response; [done|done|done|]. intros n' z Hz. rewrite Hone, andb_false_r.
  apply IH; [by rewrite (kin_lenient _ _ Hz)|done|by eapply responding_kin|]. intros n2 z2 Hz2.
  rewrite app_assoc, <- rev_app_distr. apply HK. by eapply kin_trans.
Qed.

Lemma eat_responses rs n y u K :
  answers_ok (negb (lenient_http_headers y =? 0)) rs None = true -> responding y ->
  (forall n' z, kin y z ->
     K (stale (if strict && last_ends rs then s_dead else s_start_res) n' z) (rev (concat (map response_news rs)) ++ u)) ->
  eats (concat (map response_text rs)) 0 (stale s_start_res n y) u K.
Proof.
  intros [[Hrs Hopen]%andb_true_iff _]%andb_true_iff Hy HK.
  destruct rs as [|r rs' _] using rev_ind; unfold last_ends in HK.
  - specialize (HK n y). rewrite andb_false_r in HK. by apply HK.
  - rewrite removelast_last in Hopen. rewrite last_snoc in HK. cbn [from_option] in HK.
    rewrite forallb_app in Hrs. apply andb_true_iff in Hrs as [Hrs Hr]. cbn [forallb] in Hr. rewrite andb_true_r in Hr.
    rewrite map_app, concat_app. apply eat_open_responses; [done..|]. intros n' z Hz. cbn [map concat].
    apply eat_response; [done|by rewrite (kin_lenient _ _ Hz)|by eapply responding_kin|]. intros n2 z2 Hz2. cbn [eats].
    rewrite app_assoc, <- rev_app_distr. specialize (HK n2 z2 (kin_trans _ _ _ Hz Hz2)).
    rewrite map_app, concat_app in HK. cbn [map concat] in HK. by rewrite app_nil_r in HK.
Qed.

Lemma eat_closing c n y u K :
  closing_ok (negb (lenient_http_headers y =? 0)) c = true -> responding y ->
  (forall n' z, kin y z -> K (stale s_body_identity_eof n' z) (rev (closing_news c) ++ u)) ->
  eats (closing_text c) 0 (stale s_start_res n y) u K.
Proof.
  intros Hc Hy HK. apply andb_true_iff in Hc as [Hh Hb]. apply head_ok_parts in Hh as (Hcode & Hphrase & Hfs & Hup).
  unfold closing_text. apply (eat_status_line _ _ Hmax); [lia|done|done|]. intros n1.
  apply (eat_lasting _ _ Hmax); [by apply answered_blank|by rewrite answered_eof|done|done|by rewrite answered_upgrade|]. intros n2 z Hz.
  rewrite answered_code, given_elsewhere by done. assert (Hkin : kin y z) by (destruct Hz; by split).
  specialize (HK n2 z Hkin). unfold closing_news in HK. rewrite rev_app_distr, <- app_assoc in HK. exact HK.
Qed.

Lemma eat_answers rs final n y u K :
  answers_ok (negb (lenient_http_headers y =? 0)) rs final = true -> responding y ->
  (forall n' z, kin y z -> K (stale (final_state strict rs final) n' z) (rev (answers_news rs final) ++ u)) ->
  eats (answers_text rs final) 0 (stale s_start_res n y) u K.
Proof.
  intros Hok Hy HK. unfold answers_text, answers_news in *. destruct final as [c|]; cbn [from_option final_state] in *.
  - apply andb_true_iff in Hok as [[Hrs Hopen]%andb_true_iff Hc]. apply eat_open_responses; [done..|]. intros n' z Hz.
    apply eat_closing; [by rewrite (kin_lenient _ _ Hz)|by eapply responding_kin|]. intros n2 z2 Hz2.
    rewrite app_assoc, <- rev_app_distr. apply HK. by eapply kin_trans.
  - rewrite !app_nil_r in *. by apply eat_responses.
Qed.

(** A parser of responses that no error was made before, and one that waits for
    a response *)
Definition sound_responding (x : http_parser) : Prop :=
  parser_ok max_header_size x /\ errno_ x = HPE_OK /\ responding x.
Definition waiting (x : http_parser) : Prop := sound_responding x /\ state_ x = s_start_res.

(** What a call that only tells of the end of the connection makes of a parser
    in one of the states that a connection may end in *)
Lemma execute_end rs final y u :
  errno_ y = HPE_OK -> state_ y = final_state strict rs final ->
  exists z, http_parser_execute strict (reader []) max_header_size [] y u =
    Done (0, z, (if final then [Ended] else []) ++ u) /\ errno_ z = HPE_OK.
Proof.
  intros He Hst. unfold http_parser_execute. rewrite decide_False by (by intros Hne).
  change (Z.of_nat (length []) =? 0) with true. cbv iota. unfold entry, at_eof. rewrite Hst.
  destruct final as [c|]; cbn [final_state].
  - cbn [entry_marks]. rewrite ebind_look. cbn [p_state]. unfold CALLBACK_NOTIFY_NOADVANCE.
    rewrite ebind_assoc, ebind_look. erewrite bind_value by (apply notify_eq; exact He). by eexists.
  - exists y. by destruct (_ && _).
Qed.

(** C5. What is written as responses is read back as the same responses.  If
    the bytes of any sequence of responses (a status line; fields, ordinary
    ones or such with the options of the connection; and a body of the
    announced length, chunks, or no body where the status says so), and maybe
    of a last one whose body ends with the connection, in all no more bytes
    than the maximal header size, reach a parser that
    waits for a response, cut into buffers in any way, then every call takes its
    buffer without error, the user is told of each response what it holds - the
    phrase, the names and values of its fields in order, its status, the
    version, whether the connection goes on, the bytes of its body or chunks,
    and its end - and nothing more, where the end of the last body is told when
    the end of the connection is; and without such a body the parser waits for
    the next response, or, in strict mode after a response to close, for
    nothing. *)
Theorem responses_roundtrip rs final ps x u :
  waiting x -> answers_ok (negb (lenient_http_headers x =? 0)) rs final = true ->
  Forall (fun data => data <> []) ps -> concat ps = answers_text rs final ->
  nread_ x + Z.of_nat (length (concat ps)) <= max_header_size ->
  exists y z, feed strict max_header_size ps x u = Some (y, rev (answers_news rs final) ++ u) /\
    sound_responding y /\ state_ y = final_state strict rs final /\
    http_parser_execute strict (reader []) max_header_size [] y (rev (answers_news rs final) ++ u) =
      Done (0, z, (if final then [Ended] else []) ++ rev (answers_news rs final) ++ u) /\ errno_ z = HPE_OK.
Proof.
  intros ((Hx & He & Hr) & Hst) Hok Hps Heq Hn.
  assert (Hs : x = stale s_start_res (nread_ x) x) by (rewrite <- Hst; by destruct x).
  destruct (eats_feed strict max_header_size Hmax ps 0 x u
    (fun y u' => responding y /\ state_ y = final_state strict rs final /\ u' = rev (answers_news rs final) ++ u))
    as (y & u' & Hf & (Hy & Hey & _) & Hyr & Hys & ->); [done|done| | |].
  - split; [done|]. split; [done|]. lia.
  - rewrite Heq, Hs. apply eat_answers; [exact Hok|exact Hr|]. intros n z Hz. split; [|done].
    by apply (responding_kin x); [|destruct Hz].
  - destruct (execute_end rs final y (rev (answers_news rs final) ++ u) Hey Hys) as (z & Hend & Hez). by exists y, z.
Qed.
End Responses.

(** ** Three responses, a byte at a time, and one that the connection ends *)

Definition hello : response := Response 200 (chars "OK") [(chars "Server", chars "x")] (Sized (chars "hi")).
Definition unchanged : response := Response 304 (chars "Not Modified") [] Bodiless.
Definition streamed : response := Response 404 [] [] (Chunked [chars "abc"]).
Definition farewell : closing := Closing 200 (chars "OK") [(chars "Connection", chars "close")] (chars "bye").

Example hello_text :
  response_text hello = chars (lines ["HTTP/1.1 200 OK"; "Server: x"; "Content-Length: 2"; ""]) ++ chars "hi".
Proof. vm_compute. reflexivity. Qed.

Example farewell_text : closing_text farewell = chars (lines ["HTTP/1.1 200 OK"; "Connection: close"; ""]) ++ chars "bye".
Proof. vm_compute. reflexivity. Qed.

Definition four_pieces : list (list Z) :=
  map (fun c => [c]) (answers_text [hello; unchanged; streamed] (Some farewell)).

Definition four_news : list news :=
  [Began; Is status (chars "OK"); Is header_field (chars "Server"); Is header_value (chars "x");
   Is header_field (chars "Content-Length"); Is header_value (chars "2"); Headers 200 1 1 true; Is body (chars "hi"); Ended;
   Began; Is status (chars "Not Modified"); Headers 304 1 1 true; Ended;
   Began; Is status []; Is header_field (chars "Transfer-Encoding"); Is header_value (chars "chunked");
   Headers 404 1 1 true; Chunk 3; Is body (chars "abc"); ChunkEnded; Chunk 0; ChunkEnded; Ended;
   Began; Is status (chars "OK"); Is header_field (chars "Connection"); Is header_value (chars "close");
   Headers 200 1 1 false; Is body (chars "bye")].

Lemma responses_roundtrip_witness :
  exists y z, feed true HTTP_MAX_HEADER_SIZE four_pieces (http_parser_init HTTP_RESPONSE) [] = Some (y, rev four_news) /\
    http_parser_execute true (reader []) HTTP_MAX_HEADER_SIZE [] y (rev four_news) = Done (0, z, Ended :: rev four_news) /\
    errno_ z = HPE_OK.
Proof.
  assert (Hmax : 0 <= HTTP_MAX_HEADER_SIZE < 2 ^ 32) by (vm_compute; split; congruence).
  assert (Hx : waiting HTTP_MAX_HEADER_SIZE (http_parser_init HTTP_RESPONSE)).
  { split; [split; [apply init_good|split; [reflexivity|split; reflexivity]]|reflexivity]. }
  assert (Hok : answers_ok false [hello; unchanged; streamed] (Some farewell) = true) by (vm_compute; reflexivity).
  assert (Hps : Forall (fun data => data <> []) four_pieces) by (apply Forall_fmap, Forall_forall; by intros c _).
  assert (Hcat : concat four_pieces = answers_text [hello; unchanged; streamed] (Some farewell)) by (vm_compute; reflexivity).
  assert (Hn : nread_ (http_parser_init HTTP_RESPONSE) + Z.of_nat (length (concat four_pieces)) <= HTTP_MAX_HEADER_SIZE)
    by (vm_compute; congruence).
  destruct (responses_roundtrip true HTTP_MAX_HEADER_SIZE Hmax [hello; unchanged; streamed] (Some farewell) four_pieces
    (http_parser_init HTTP_RESPONSE) [] Hx Hok Hps Hcat Hn) as (y & z & Hf & _ & _ & Hend & Hez).
  exists y, z. split; [exact Hf|]. split; [exact Hend|exact Hez].
Defined.
