(* ===== verification/HttpUpgrade.v ===== *)
(** Requests after which a connection goes on with another protocol: the parser
    stops at their last byte, and says so. *)
From S2P Require Import Prelude HttpTypes HttpUrl HttpExec HttpStates HttpHeaders HttpParser HttpLogic HttpSafe HttpTotal HttpRuns HttpScan HttpRel HttpTied HttpCross HttpSplit HttpHandover HttpPieces HttpBytes HttpMethod HttpLines HttpNames HttpFields HttpOptions HttpBodies HttpMessages HttpPayloads HttpRequests.

Local Open Scope Z_scope.
Local Open Scope exec_scope.
#[local] Arguments Z.add : simpl never.
#[local] Arguments Z.sub : simpl never.

Section Stops.
Context {U : Type} `{ReaderLaws U}.
Variable strict : bool.
Variable max_header_size : Z.
Hypothesis Hmax : 0 <= max_header_size < 2 ^ 32.
Implicit Types (y : http_parser) (u : U).
#[local] Abbreviation eats := (eats strict max_header_size).
#[local] Abbreviation ready := (ready max_header_size).
#[local] Abbreviation call := (call strict max_header_size).
#[local] Abbreviation run_for x data := (run strict (reader data) max_header_size
  (negb (lenient_http_headers x =? 0)) (negb (allow_chunked_length x =? 0)) data).

(** A call that a byte stops returns there, whatever follows the byte. *)
Lemma stops_before c rest x u z u' :
  ready (Z.of_nat (S (length rest))) x -> call [c] x u false 1 z u' -> errno_ z = HPE_OK ->
  call (c :: rest) x u false 1 z u'.
Proof.
  intros (Hx & He & Hn) Hcall Hez. destruct (decide (rest = [])) as [->|Hne]; [done|].
  destruct (pieces strict max_header_size Hmax [c] rest x u ltac:(done) Hne Hx He ltac:(cbn [length] in *; lia) _ _ _ _ Hcall)
    as (y & u2 & Hc & Herr & Hsame).
  by destruct (Hsame Hez) as [-> ->].
Qed.

(** After bytes that are gone through, a call stops where its end does. *)
Lemma eats_stop data c rest x u K (Q : http_parser -> U -> Prop) :
  ready (Z.of_nat (length data) + Z.of_nat (S (length rest))) x ->
  eats data (Z.of_nat (S (length rest))) x u K ->
  (forall y u', ready 1 y -> K y u' -> exists z u2, call [c] y u' false 1 z u2 /\ errno_ z = HPE_OK /\ Q z u2) ->
  exists z u2, Q z u2 /\ errno_ z = HPE_OK /\
    http_parser_execute strict (reader (data ++ c :: rest)) max_header_size (data ++ c :: rest) x u =
      Done (Z.of_nat (length data) + 1, z, u2).
Proof.
  intros Hr Heats Hstop. pose proof Hr as (Hx & He & Hn).
  assert (Hone : forall y, ready (Z.of_nat (S (length rest))) y -> ready 1 y)
    by (intros y (? & ? & ?); split; [done|split; [done|lia]]).
  assert (Hcall : exists z u2, Q z u2 /\ errno_ z = HPE_OK /\ call (data ++ c :: rest) x u false (Z.of_nat (length data) + 1) z u2).
  { destruct (decide (data = [])) as [->|Hne].
    - destruct (Hstop x u (Hone x Hr) Heats) as (z & u2 & Hc & Hez & HQ). exists z, u2. split; [done|]. split; [done|].
      by apply stops_before.
    - destruct (eats_call strict max_header_size Hmax data (Z.of_nat (S (length rest))) x u K Hne ltac:(lia) Hr Heats)
        as (y & u' & Hc & Hry & HK).
      destruct (Hstop y u' (Hone y Hry) HK) as (z & u2 & Hcz & Hez & HQ).
      pose proof (stops_before c rest y u' z u2 Hry Hcz Hez) as Hrest.
      destruct (pieces strict max_header_size Hmax data (c :: rest) x u Hne ltac:(done) Hx He ltac:(cbn [length] in *; lia) _ _ _ _ Hc)
        as [_ Hp]. destruct (Hp _ _ _ _ Hrest) as (z1 & u3 & Hcc & Herr & Hsame).
      destruct (Hsame Hez) as [-> ->]. exists z, u2. rewrite Z.add_comm. by split_and!. }
  destruct Hcall as (z & u2 & HQ & Hez & Hall). exists z, u2. split; [done|]. split; [done|].
  destruct (call_exists strict max_header_size Hmax (data ++ c :: rest) x u) as (t & v & y1 & u1 & Hc1 & -> & _);
    [by destruct data|done|done|].
  by destruct (call_det _ _ _ _ _ _ _ _ _ _ _ _ _ Hc1 Hall) as (_ & -> & -> & ->).
Qed.

(** The user skips no body. *)
Hypothesis Hskips : forall x u, skips x u = 0.

(** The line feed that ends the headers *)
Lemma call_upgrade n y u :
  ready 1 (stale s_headers_almost_done n y) -> upgrade_of y = true -> has_flag (flags y) F_TRAILING = false ->
  (uses_transfer_encoding y =? 1) = false -> has_flag (flags y) F_CHUNKED = false -> content_length y = ULLONG_MAX ->
  exists z, call [LF] (stale s_headers_almost_done n y) u false 1 z
      (told message_complete (public (turned true y)) (told headers_complete (public (turned true y)) u)) /\
    errno_ z = HPE_OK /\ upgrade z = 1.
Proof.
  intros (Hx & He & Hn) Hup Htr Hte Hch Hlen.
  set (x := stale s_headers_almost_done n y) in *.
  assert (Hbody : (method (turned true y) =? HTTP_CONNECT) || has_flag (flags (turned true y)) F_SKIPBODY
    || negb (has_flag (flags (turned true y)) F_CHUNKED
        || (content_length (turned true y) >? 0) && negb (content_length (turned true y) =? ULLONG_MAX)) = true).
  { change (flags (turned true y)) with (flags y). change (content_length (turned true y)) with (content_length y).
    rewrite Hch, Hlen. by rewrite !orb_true_r. }
  assert (Hrun : exists s', run_for y [LF] false (byte_in LF x u) (Stopped 1 s') /\ errno_ (parser s') = HPE_OK /\
    upgrade (parser s') = 1 /\
    user s' = told message_complete (public (turned true y)) (told headers_complete (public (turned true y)) u)).
  { eexists. split.
    - apply (headers_over strict max_header_size Hskips true); [done|done|by rewrite Hte|done|].
      eapply run_return; [by left|]. unfold turn. rewrite ebind_done, ebind_look. cbn [p_state dispatch].
      unfold do_headers_done, clear_nread. step_case. erewrite bind_value by (apply message_over_eq; done).
      rewrite ebind_look. unfold RETURN. rewrite ebind_upd. reflexivity.
    - split_and!; [exact He|done|reflexivity]. }
  destruct Hrun as (s' & Hrun & Hes & Hus & <-). exists (parser s'). split; [|done].
  exists (Stopped 1 s'), s'. split; [|done].
  apply (run_read strict max_header_size x [LF] _ (byte_in LF x u)); [|done|exact Hrun].
  unfold byte_in. rewrite (next_byte_eq _ _ LF) by done.
  pose proof (po_nread _ _ Hx) as Hn0. cbn [nread_ stale x] in *. change (PARSING_HEADER (p_state (entry x u))) with true.
  change (PARSING_HEADER (state_ x)) with true. cbv iota.
  rewrite (COUNT_small _ 1 n); [done|done|cbn; lia|lia|lia|lia].
Qed.
End Stops.

(** ** A request that leaves HTTP *)

(** Its bytes but for the last line feed, and what its user is told *)
Definition upgrade_lines (r : request) : list Z :=
  line_of (req_method r) (req_target r) ++ concat (map field_line (req_fields r)) ++ [CR].
Definition upgrade_text (r : request) : list Z := upgrade_lines r ++ [LF].
Definition upgrade_news (r : request) : list news :=
  [Began; Is url (req_target r)] ++ concat (map field_news (req_fields r)) ++
  [Headers (req_method r) 1 1 (negb (closes (req_fields r))); Ended].

Section Upgrades.
Variable strict : bool.
Variable max_header_size : Z.
Hypothesis Hmax : 0 <= max_header_size < 2 ^ 32.
Implicit Types (y : http_parser) (u : list news).
#[local] Abbreviation eats := (eats strict max_header_size (U := list news)).

(** The parser before the last line feed of [r] *)
Definition at_end (r : request) u0 y u : Prop :=
  exists n z h i, y = stale s_headers_almost_done n (aside h i (flagged (fields_flag (req_fields r)) z)) /\
    type z = HTTP_REQUEST /\ method z = req_method r /\ flags z = 0 /\ blank z /\
    u = rev (concat (map field_news (req_fields r))) ++ Is url (req_target r) :: Began :: u0.

Lemma eat_upgrade_lines r k n y u :
  0 <= k -> line_and_fields_ok strict (negb (lenient_http_headers y =? 0)) r = true -> type y = HTTP_REQUEST ->
  eats (upgrade_lines r) k (stale s_start_req n y) u (at_end r u).
Proof.
  intros Hk Hr Hty. apply line_and_fields in Hr as (Hm & Ht & Hfs). unfold upgrade_lines.
  apply (eat_line _ _ Hmax); [done|done|done|]. intros m0 i n1. set (z := versioned (begun (req_method r) i y)).
  assert (Hz : blank z) by (by split).
  pose proof (eat_lines strict max_header_size Hmax (req_fields r) Bodiless n1 z
    (given url (req_target r) (told message_begin (public (begun m0 1 y)) u)) [] k (at_end r u) Hk Hz Hfs I eq_refl) as Hlines.
  cbn [framing_fields] in Hlines. rewrite app_nil_r in Hlines. apply Hlines. clear Hlines. intros h j n2.
  cbn [eats]. exists n2, z, h, j. split_and!; done.
Qed.

Lemma upgrade_stops r u0 y u :
  leaves r = true -> ready max_header_size 1 y -> at_end r u0 y u ->
  exists z, call strict max_header_size [LF] y u false 1 z (rev (upgrade_news r) ++ u0) /\ errno_ z = HPE_OK /\ upgrade z = 1.
Proof.
  intros Hleave Hr (n & z & h & i & -> & Hty & Hm & Hf & Hz & ->).
  set (y := flagged (fields_flag (req_fields r)) z) in *. assert (Hy : blank y) by (by apply blank_flagged).
  destruct (call_upgrade strict max_header_size Hmax told_skips n (aside h i y)
    (rev (concat (map field_news (req_fields r))) ++ Is url (req_target r) :: Began :: u0)) as (w & Hcall & Hew & Hup); [done| | | | | |].
  - change (upgrade_of (aside h i y)) with (upgrade_of y). unfold upgrade_of, leaves, asks_upgrade in *. cbn. unfold with_flag.
    rewrite Hf, Z.lor_0_l, Hty, Hm. by destruct (_ && _).
  - exact (blank_flag y F_TRAILING Hy eq_refl).
  - exact (blank_coding y Hy).
  - exact (blank_flag y F_CHUNKED Hy eq_refl).
  - exact (bl_length y Hy).
  - exists w. split; [|done]. replace (rev (upgrade_news r) ++ u0) with
      (told message_complete (public (turned true (aside h i y))) (told headers_complete (public (turned true (aside h i y)))
        (rev (concat (map field_news (req_fields r))) ++ Is url (req_target r) :: Began :: u0))); [exact Hcall|].
    unfold upgrade_news. rewrite !rev_app_distr. cbn [rev app told newsroom]. rewrite <- !app_assoc. cbn [app]. f_equal.
    f_equal. unfold http_should_keep_alive, http_message_needs_eof, code_of, closes. cbn. unfold with_flag.
    rewrite Hf, Z.lor_0_l, Hty, Hm, (bl_major z Hz), (bl_minor z Hz). cbn. by destruct (has_flag _ _).
Qed.

(** C6. What follows a request to go on with another protocol is left to it.
    Let a request that leaves HTTP (CONNECT, or an Upgrade field with the option
    upgrade; a request line, fields, no body) and any bytes after it, together
    no more than the maximal header size, reach a
    parser that waits for a request, cut into buffers in any way.  Then the
    calls with the buffers before the end of the request take them, the call
    with the buffer that holds that end returns the offset of the first byte
    after it, without an error and with [upgrade] set, and the user has been
    told of the request and nothing more. *)
Theorem upgrade_handed_over r ps a rest x u :
  between max_header_size x -> line_and_fields_ok strict (negb (lenient_http_headers x =? 0)) r = true -> leaves r = true ->
  Forall (fun data => data <> []) ps -> a <> [] -> concat ps ++ a = upgrade_text r ->
  nread_ x + Z.of_nat (length (concat ps)) + Z.of_nat (length (a ++ rest)) <= max_header_size ->
  exists y u1 z, feed strict max_header_size ps x u = Some (y, u1) /\
    http_parser_execute strict (reader (a ++ rest)) max_header_size (a ++ rest) y u1 =
      Done (Z.of_nat (length a), z, rev (upgrade_news r) ++ u) /\
    errno_ z = HPE_OK /\ upgrade z = 1.
Proof.
  intros ((Hx & He & Hty) & Hst) Hr Hleave Hps Ha Heq Hn.
  destruct (List.exists_last Ha) as (a' & c & ->). unfold upgrade_text in Heq. rewrite app_assoc in Heq.
  apply app_inj_2 in Heq as [Hlines Hc]; [|done]. injection Hc as ->. rewrite <- app_assoc in *. cbn [app] in *.
  rewrite !length_app in *. cbn [length] in *. set (k := Z.of_nat (S (length rest))) in *.
  assert (Hs : x = stale s_start_req (nread_ x) x) by (rewrite <- Hst; by destruct x).
  assert (Heats : eats (concat ps ++ a') k x u (at_end r u)).
  { rewrite Hlines, Hs. apply eat_upgrade_lines; [lia|done|done]. }
  apply eats_split in Heats.
  destruct (eats_feed strict max_header_size Hmax ps (Z.of_nat (length a') + k) x u _ Hps ltac:(lia)
    ltac:(split; [done|split; [done|lia]]) Heats) as (y & u1 & Hf & Hry & Hrest).
  destruct (eats_stop strict max_header_size Hmax a' LF rest y u1 (at_end r u)
    (fun z u2 => upgrade z = 1 /\ u2 = rev (upgrade_news r) ++ u) Hry Hrest) as (z & u2 & [Hup ->] & Hez & Hex).
  { intros y2 u2 Hr2 HK. destruct (upgrade_stops r u y2 u2 Hleave Hr2 HK) as (z & Hc & Hez & Hup). by eexists z, _. }
  exists y, u1, z. split; [done|]. rewrite Hex. by rewrite Nat2Z.inj_add.
Qed.
End Upgrades.

(** ** Two of them, with what follows in the buffer that ends them *)

Definition websocket : request :=
  Request HTTP_GET (chars "/") [(chars "Upgrade", chars "websocket"); (chars "Connection", chars "keep-alive, Upgrade")] Bodiless.
Definition tunnel : request := Request HTTP_CONNECT (chars "h:443") [] Bodiless.

Example tunnel_text : upgrade_text tunnel = chars (lines ["CONNECT h:443 HTTP/1.1"; ""]).
Proof. vm_compute. reflexivity. Qed.

Example tunnel_leaves : line_and_fields_ok true false tunnel && leaves tunnel = true.
Proof. vm_compute. reflexivity. Qed.

Definition websocket_first : list Z := take 30 (upgrade_text websocket).
Definition websocket_last : list Z := drop 30 (upgrade_text websocket).

Lemma upgrade_handed_over_witness :
  exists y u1 z, feed true HTTP_MAX_HEADER_SIZE [websocket_first] (http_parser_init HTTP_REQUEST) [] = Some (y, u1) /\
    http_parser_execute true (reader (websocket_last ++ chars "frames")) HTTP_MAX_HEADER_SIZE (websocket_last ++ chars "frames") y u1 =
    Done (Z.of_nat (length websocket_last), z, rev [
      Began; Is url (chars "/"); Is header_field (chars "Upgrade"); Is header_value (chars "websocket");
      Is header_field (chars "Connection"); Is header_value (chars "keep-alive, Upgrade"); Headers HTTP_GET 1 1 true; Ended]) /\
    errno_ z = HPE_OK /\ upgrade z = 1.
Proof.
  assert (Hmax : 0 <= HTTP_MAX_HEADER_SIZE < 2 ^ 32) by (vm_compute; split; congruence).
  assert (Hx : between HTTP_MAX_HEADER_SIZE (http_parser_init HTTP_REQUEST)).
  { split; [split; [apply init_good|split; reflexivity]|reflexivity]. }
  assert (Hok : line_and_fields_ok true false websocket = true) by (vm_compute; reflexivity).
  assert (Hleave : leaves websocket = true) by (vm_compute; reflexivity).
  assert (Hps : Forall (fun data => data <> []) [websocket_first]) by (repeat constructor; vm_compute; congruence).
  assert (Ha : websocket_last <> []) by (vm_compute; congruence).
  assert (Hcat : concat [websocket_first] ++ websocket_last = upgrade_text websocket) by (vm_compute; reflexivity).
  assert (Hn : nread_ (http_parser_init HTTP_REQUEST) + Z.of_nat (length (concat [websocket_first])) +
    Z.of_nat (length (websocket_last ++ chars "frames")) <= HTTP_MAX_HEADER_SIZE) by (vm_compute; congruence).
  exact (upgrade_handed_over true HTTP_MAX_HEADER_SIZE Hmax websocket [websocket_first] websocket_last (chars "frames")
    (http_parser_init HTTP_REQUEST) [] Hx Hok Hleave Hps Ha Hcat Hn).
Defined.
