(* ===== verification/HttpUrlProps.v ===== *)
(** [http_parser_parse_url] returns, and the parts it finds are in the buffer. *)
From S2P Require Import Prelude HttpTypes HttpUrl.

Local Open Scope Z_scope.
Local Open Scope cpp_scope.
#[local] Arguments Z.add : simpl never.
#[local] Arguments Z.sub : simpl never.

(** ** The fields of a URL *)

Definition alter_field (f : nat) (g : url_field -> url_field) (u : http_parser_url) : http_parser_url :=
  Url (field_set u) (port u) (alter g f (field_data u)).

Lemma field_alter_eq f g u :
  (f < length (field_data u))%nat -> field f (alter_field f g u) = g (field f u).
Proof.
  intros Hf. unfold field, alter_field. simpl. rewrite list_lookup_alter_eq.
  by destruct (lookup_lt_is_Some_2 (field_data u) f Hf) as [x ->].
Qed.

Lemma field_alter_ne f f' g u : f <> f' -> field f' (alter_field f g u) = field f' u.
Proof. intros Hne. unfold field, alter_field. simpl. by rewrite list_lookup_alter_ne. Qed.

Lemma field_add f f' u : field f (Url (Z.lor (field_set u) (uf_bit f')) (port u) (field_data u)) = field f u.
Proof. done. Qed.

Lemma has_field_testbit f u : has_field f u = Z.testbit (field_set u) (Z.of_nat f).
Proof.
  unfold has_field, uf_bit. destruct (Z.testbit (field_set u) (Z.of_nat f)) eqn:Hb.
  - apply negb_true_iff, Z.eqb_neq. intros Hz.
    assert (Ht : Z.testbit (Z.land (field_set u) (Z.shiftl 1 (Z.of_nat f))) (Z.of_nat f) = false) by (by rewrite Hz, Z.bits_0).
    rewrite Z.land_spec, Hb, Z.shiftl_spec, Z.sub_diag in Ht by lia. done.
  - apply negb_false_iff, Z.eqb_eq, Z.bits_inj'. intros n Hn.
    rewrite Z.land_spec, Z.bits_0, Z.shiftl_spec by lia. destruct (decide (n = Z.of_nat f)) as [->|Hne]; [by rewrite Hb|].
    assert (Z.testbit 1 (n - Z.of_nat f) = false) as ->; [|by rewrite andb_false_r].
    destruct (Z.lt_ge_cases n (Z.of_nat f)); [apply Z.testbit_neg_r; lia|]. apply Z.bits_above_log2; cbn; lia.
Qed.

Lemma has_field_add f f' u :
  has_field f (Url (Z.lor (field_set u) (uf_bit f')) (port u) (field_data u)) = has_field f u || bool_decide (f = f').
Proof.
  rewrite !has_field_testbit. simpl. rewrite Z.lor_spec. f_equal. unfold uf_bit. rewrite Z.shiftl_spec by lia.
  case_bool_decide as Hf; [subst; by rewrite Z.sub_diag|].
  destruct (Z.lt_ge_cases (Z.of_nat f) (Z.of_nat f')); [apply Z.testbit_neg_r; lia|]. apply Z.bits_above_log2; cbn; lia.
Qed.

Lemma has_field_alter f f' g u : has_field f (alter_field f' g u) = has_field f u.
Proof. done. Qed.

(** A range of characters before [i] *)
Definition within (i : Z) (x : url_field) : Prop := 0 <= off x /\ 0 <= len x /\ off x + len x <= i.

Lemma within_mono i j x : within i x -> i <= j -> within j x.
Proof. unfold within. lia. Qed.

Lemma u16_le z : 0 <= z -> 0 <= u16 z <= z.
Proof. intros Hz. unfold u16. pose proof (Z.mod_pos_bound z (2 ^ 16)). pose proof (Z.mod_le z (2 ^ 16)). lia. Qed.

Lemma within_grow i x : within i x -> within (i + 1) (Field (off x) (u16 (len x + 1))).
Proof. intros (? & ? & ?). pose proof (u16_le (len x + 1)). unfold within. cbn. lia. Qed.

Lemma within_start i x : 0 <= i -> len x = 0 -> within (i + 1) (Field (u16 i) (u16 (len x + 1))).
Proof. intros Hi ->. pose proof (u16_le i Hi). unfold within. cbn. change (u16 (0 + 1)) with 1. lia. Qed.

(** ** Decimal numbers *)

Lemma digit_value c : IS_NUM c = true -> 0 <= c - chr "0" <= 9.
Proof. unfold IS_NUM. rewrite andb_true_iff, !Z.leb_le. cbn. lia. Qed.

(** The number digits make, after [v] *)
Definition decimal_from (v : Z) (l : list Z) : Z := foldl (fun v c => v * 10 + (c - chr "0")) v l.
Definition decimal : list Z -> Z := decimal_from 0.

Lemma decimal_from_le v l :
  0 <= v -> Forall (fun c => IS_NUM c = true) l -> v <= decimal_from v l.
Proof.
  intros Hv Hl. revert v Hv. induction Hl as [|c l Hc Hl IH]; intros v Hv; cbn; [lia|].
  pose proof (digit_value c Hc) as Hd. specialize (IH (v * 10 + (c - chr "0"))). unfold decimal_from in IH. cbn in *. lia.
Qed.

(** ** The loops *)

Section Loops.
Variable strict : bool.
Variable buf : list Z.
Let size := Z.of_nat (length buf).

Lemma wp_and {S A} (m : M S A) (P Q : A -> S -> Prop) s :
  wp m P s -> wp m Q s -> wp m (fun a s' => P a s' /\ Q a s') s.
Proof. unfold wp. by destruct (m s) as [[a s']|]. Qed.

Lemma wp_url_char_at i (Q : Z -> http_parser_url -> Prop) u :
  0 <= i < size -> (forall c, buf !! Z.to_nat i = Some c -> Q c u) -> wp (url_char_at buf i) Q u.
Proof.
  intros Hi HQ. unfold url_char_at. destruct (lookup_lt_is_Some_2 buf (Z.to_nat i)) as [c Hc]; [subst size; lia|].
  apply (wp_or_fault _ _ c); auto.
Qed.

(** The fields in the set are before [i]. *)
Definition fields_before (i : Z) (u : http_parser_url) : Prop :=
  length (field_data u) = UF_MAX /\
  forall f, has_field f u = true -> (f < UF_MAX)%nat /\ within i (field f u).

Lemma fields_before_mono i j u : fields_before i u -> i <= j -> fields_before j u.
Proof.
  intros [Hl Hu] Hij. split; [done|]. intros f Hf. destruct (Hu f Hf). split; [done|]. by eapply within_mono.
Qed.

Lemma fields_before_grow uf i u :
  fields_before i u -> has_field uf u = true ->
  fields_before (i + 1) (alter_field uf (fun x => Field (off x) (u16 (len x + 1))) u).
Proof.
  intros [Hl Hu] Huf. split; [by cbn; rewrite length_alter|]. intros f Hf.
  destruct (Hu f Hf) as [Hlt Hw]. split; [done|]. destruct (decide (uf = f)) as [->|Hne].
  - rewrite field_alter_eq by lia. by apply within_grow.
  - rewrite field_alter_ne by done. eapply within_mono; [exact Hw|lia].
Qed.

(** A field that starts at [i] *)
Definition start_field (uf : nat) (i n : Z) (u : http_parser_url) : http_parser_url :=
  let v := alter_field uf (fun x => Field (off x) (u16 n)) (alter_field uf (fun x => Field (u16 i) (len x)) u) in
  Url (Z.lor (field_set v) (uf_bit uf)) (port v) (field_data v).

Lemma start_field_eq uf i n u :
  length (field_data u) = UF_MAX -> (uf < UF_MAX)%nat -> field uf (start_field uf i n u) = Field (u16 i) (u16 n).
Proof.
  intros Hl Hlt. unfold start_field. rewrite field_add, !field_alter_eq; [done|lia|].
  cbn. rewrite length_alter. lia.
Qed.

Lemma start_field_ne uf i n u f : uf <> f -> field f (start_field uf i n u) = field f u.
Proof. intros Hne. unfold start_field. by rewrite field_add, !field_alter_ne. Qed.

Lemma start_field_has uf i n u f :
  has_field f (start_field uf i n u) = has_field f u || bool_decide (f = uf).
Proof. unfold start_field. by rewrite has_field_add, !has_field_alter. Qed.

Lemma fields_before_start uf i u :
  fields_before i u -> (uf < UF_MAX)%nat -> 0 <= i -> fields_before (i + 1) (start_field uf i 1 u).
Proof.
  intros [Hl Hu] Hlt Hi. split; [by cbn; rewrite !length_alter|]. intros f. rewrite start_field_has, orb_true_iff.
  intros Hf. destruct (decide (uf = f)) as [->|Hne].
  - rewrite start_field_eq by done. split; [done|]. pose proof (u16_le i Hi). unfold within. cbn.
    change (u16 1) with 1. lia.
  - rewrite start_field_ne by done. rewrite bool_decide_eq_true in Hf. destruct Hf as [Hf|]; [|congruence].
    destruct (Hu f Hf). split; [done|]. eapply within_mono; [done|lia].
Qed.

Lemma classify_parse s c :
  match classify (parse_url_char strict s c) with
  | Unexpected => False
  | InField uf => (uf < UF_MAX)%nat /\ UF_PORT <> uf
  | _ => True
  end.
Proof. unfold parse_url_char, server_char. repeat case_match; simplify_eq/=; try done;
  (split; [apply Nat.ltb_lt; reflexivity|done]). Qed.

Lemma wp_url_loop n i s old found u :
  0 <= i -> i + Z.of_nat n <= size -> fields_before i u -> (old <> UF_MAX -> has_field old u = true) ->
  has_field UF_PORT u = false ->
  wp (url_loop strict buf n i s old found)
    (fun r v => r = None \/ fields_before (i + Z.of_nat n) v /\ has_field UF_PORT v = false) u.
Proof.
  revert i s old found u. induction n as [|n IH]; intros i s old found u Hi Hn Hu Hold Hport; simpl.
  { apply wp_ret. right. split; [|done]. eapply fields_before_mono; [done|lia]. }
  assert (Heq : i + Z.of_nat (S n) = i + 1 + Z.of_nat n) by lia. rewrite Heq.
  apply wp_bind, wp_url_char_at; [lia|]. intros c _.
  generalize (classify_parse s c). destruct (classify _) as [| |uf|]; intros Hc; [|..|done].
  - apply wp_ret. by left.
  - apply IH; [lia|lia| |done|done]. eapply fields_before_mono; [done|lia].
  - destruct Hc as [Hlt Hne]. case_decide as Huf.
    + subst uf. apply wp_bind, wp_modify, IH; [lia|lia| |done|done].
      apply fields_before_grow; [done|]. apply Hold. lia.
    + apply wp_bind, wp_modify, wp_bind, wp_modify, wp_bind, wp_modify.
      change (wp (url_loop strict buf n (i + 1) (parse_url_char strict s c) uf
        (found || bool_decide (parse_url_char strict s c = s_req_server_with_at)))
        (fun r v => r = None \/ fields_before (i + 1 + Z.of_nat n) v /\ has_field UF_PORT v = false)
        (start_field uf i 1 u)).
      apply IH; [lia|lia|by apply fields_before_start|intros _|]; rewrite start_field_has.
      * by rewrite bool_decide_true, orb_true_r.
      * by rewrite Hport, bool_decide_false.
Qed.

(** The states before the first character of the host *)
Definition before_host (s : http_host_state) : bool :=
  match s with
  | s_http_userinfo_start | s_http_userinfo | s_http_host_start | s_http_host_v6_start => true
  | _ => false
  end.

(** What holds at offset [i] of the host parser, in state [s] *)
Record host_ok (s : http_host_state) (i : Z) (u : http_parser_url) : Prop := {
  ho_fields : fields_before size u;
  ho_host : within i (field UF_HOST u);
  ho_empty : before_host s = true -> len (field UF_HOST u) = 0;
  ho_port : s = s_http_host_port -> within i (field UF_PORT u) /\ has_field UF_PORT u = true;
  ho_userinfo : s = s_http_userinfo -> within i (field UF_USERINFO u) /\ has_field UF_USERINFO u = true
}.

Lemma fields_before_alter uf g u :
  fields_before size u -> within size (g (field uf u)) -> fields_before size (alter_field uf g u).
Proof.
  intros [Hl Hu] Hw. split; [by cbn; rewrite length_alter|]. intros f Hf. rewrite has_field_alter in Hf.
  destruct (Hu f Hf) as [Hlt Hf']. split; [done|]. destruct (decide (uf = f)) as [->|Hne].
  - by rewrite field_alter_eq by lia.
  - by rewrite field_alter_ne.
Qed.

Definition grown (uf : nat) : http_parser_url -> http_parser_url :=
  alter_field uf (fun x => Field (off x) (u16 (len x + 1))).
Definition at_offset (uf : nat) (i : Z) : http_parser_url -> http_parser_url :=
  alter_field uf (fun x => Field (u16 i) (len x)).

Lemma fields_length u i uf : fields_before i u -> (uf < UF_MAX)%nat -> (uf < length (field_data u))%nat.
Proof. intros [Hl _]. lia. Qed.

(** The host goes on, or starts. *)
Lemma host_grown i u s :
  0 <= i < size -> fields_before size u -> before_host s = false -> s <> s_http_host_port -> s <> s_http_userinfo ->
  within i (field UF_HOST u) -> host_ok s (i + 1) (grown UF_HOST u).
Proof.
  intros Hi Hu Hs Hp Hus Hw. assert (Hlt : (UF_HOST < length (field_data u))%nat) by (by eapply fields_length, Nat.ltb_lt).
  pose proof (within_grow _ _ Hw) as Hw'. split; try done.
  - apply fields_before_alter; [done|]. eapply within_mono; [exact Hw'|lia].
  - unfold grown. by rewrite field_alter_eq.
  - by rewrite Hs.
Qed.

Lemma host_started i u s :
  0 <= i < size -> fields_before size u -> before_host s = false -> s <> s_http_host_port -> s <> s_http_userinfo ->
  len (field UF_HOST u) = 0 -> host_ok s (i + 1) (grown UF_HOST (at_offset UF_HOST i u)).
Proof.
  intros Hi Hu Hs Hp Hus Hz. assert (Hlt : (UF_HOST < length (field_data u))%nat) by (by eapply fields_length, Nat.ltb_lt).
  pose proof (u16_le i (proj1 Hi)) as Hi'.
  assert (Hw : within i (field UF_HOST (at_offset UF_HOST i u))).
  { unfold at_offset. rewrite field_alter_eq by done. unfold within. cbn. lia. }
  apply host_grown; try done. apply fields_before_alter; [done|]. unfold within. cbn. lia.
Qed.

Lemma part_grown i u uf :
  0 <= i < size -> fields_before size u -> (uf < UF_MAX)%nat -> within i (field uf u) -> has_field uf u = true ->
  fields_before size (grown uf u) /\ within (i + 1) (field uf (grown uf u)) /\ has_field uf (grown uf u) = true.
Proof.
  intros Hi Hu Hlt Hw Hh. pose proof (within_grow _ _ Hw) as Hw'. split; [|split; [|done]].
  - apply fields_before_alter; [done|]. eapply within_mono; [exact Hw'|lia].
  - unfold grown. rewrite field_alter_eq; [done|]. by eapply fields_length.
Qed.

Lemma part_started i u uf :
  0 <= i < size -> fields_before size u -> (uf < UF_MAX)%nat ->
  let v := grown uf (start_field uf i 0 u) in
  fields_before size v /\ within (i + 1) (field uf v) /\ has_field uf v = true.
Proof.
  intros Hi [Hl Hu] Hlt. pose proof (u16_le i (proj1 Hi)) as Hi'.
  assert (Hw : within i (field uf (start_field uf i 0 u))).
  { rewrite start_field_eq by done. unfold within. cbn. change (u16 0) with 0. lia. }
  apply part_grown; [done| |done|done|by rewrite start_field_has, bool_decide_true, orb_true_r].
  split; [by cbn; rewrite !length_alter|]. intros f. rewrite start_field_has, orb_true_iff, bool_decide_eq_true.
  intros Hf. destruct (decide (uf = f)) as [->|Hne].
  - split; [done|]. eapply within_mono; [exact Hw|lia].
  - rewrite start_field_ne by done. destruct Hf as [Hf|]; [by apply Hu|congruence].
Qed.

Lemma field_grown_ne uf f u : uf <> f -> field f (grown uf u) = field f u.
Proof. apply field_alter_ne. Qed.

Lemma parse_host_cases s c :
  match http_parse_host_char strict s c with
  | s_http_userinfo_start => False
  | s_http_userinfo => s = s_http_userinfo \/ s = s_http_userinfo_start
  | s_http_host_start | s_http_host_v6_start => before_host s = true
  | s_http_host => s = s_http_host \/ s = s_http_host_start
  | s_http_host_v6 => s = s_http_host_v6 \/ s = s_http_host_v6_start
  | s_http_host_v6_end | s_http_host_v6_zone | s_http_host_v6_zone_start | s_http_host_port_start => True
  | s_http_host_port => s = s_http_host_port \/ s = s_http_host_port_start
  | s_http_host_dead => True
  end.
Proof.
  unfold http_parse_host_char, host_v6_char, host_zone_char, host_end_char.
  destruct s; repeat case_match; simplify_eq/=; try done; tauto.
Qed.

Lemma host_same s i u :
  fields_before size u -> within i (field UF_HOST u) -> (before_host s = true -> len (field UF_HOST u) = 0) ->
  s <> s_http_host_port -> s <> s_http_userinfo -> host_ok s (i + 1) u.
Proof. intros Hu Hw He Hp Hus. split; try done. eapply within_mono; [done|lia]. Qed.

Lemma host_part i u v :
  fields_before size v -> within i (field UF_HOST u) -> field UF_HOST v = field UF_HOST u ->
  len (field UF_HOST u) = 0 -> within (i + 1) (field UF_USERINFO v) -> has_field UF_USERINFO v = true ->
  host_ok s_http_userinfo (i + 1) v.
Proof.
  intros Hv Hw Heq Hz Hwu Hhu. split; try done; rewrite Heq; [|done]. eapply within_mono; [done|lia].
Qed.

Lemma port_part i u v :
  fields_before size v -> within i (field UF_HOST u) -> field UF_HOST v = field UF_HOST u ->
  within (i + 1) (field UF_PORT v) -> has_field UF_PORT v = true -> host_ok s_http_host_port (i + 1) v.
Proof.
  intros Hv Hw Heq Hwu Hhu. split; try done. rewrite Heq. eapply within_mono; [done|lia].
Qed.

Lemma host_step s i u c :
  0 <= i < size -> host_ok s i u -> http_parse_host_char strict s c <> s_http_host_dead ->
  wp (host_fields s (http_parse_host_char strict s c) i)
    (fun _ v => host_ok (http_parse_host_char strict s c) (i + 1) v) u.
Proof.
  intros Hi [Hu Hw He Hp Hus]. generalize (parse_host_cases s c).
  destruct (http_parse_host_char strict s c); intros Hs Hne; try done; unfold host_fields.
  - assert (Hlen : len (field UF_HOST u) = 0) by (by apply He; destruct Hs as [-> | ->]).
    destruct Hs as [-> | ->].
    + change (host_ok s_http_userinfo (i + 1) (grown UF_USERINFO u)). destruct (Hus eq_refl) as [Hw' Hh].
      destruct (part_grown i u UF_USERINFO) as (? & ? & ?); [done|done|by apply Nat.ltb_lt|done|done|].
      apply (host_part i u); [done|done|by apply field_grown_ne|done|done|done].
    + change (host_ok s_http_userinfo (i + 1) (grown UF_USERINFO (start_field UF_USERINFO i 0 u))).
      destruct (part_started i u UF_USERINFO) as (? & ? & ?); [done|done|by apply Nat.ltb_lt|].
      apply (host_part i u); [done|done|by rewrite field_grown_ne, start_field_ne|done|done|done].
  - apply wp_ret, host_same; try done; auto.
  - apply wp_ret, host_same; try done; auto.
  - destruct Hs as [-> | ->].
    + change (host_ok s_http_host (i + 1) (grown UF_HOST u)). by apply host_grown.
    + change (host_ok s_http_host (i + 1) (grown UF_HOST (at_offset UF_HOST i u))). apply host_started; auto.
  - destruct Hs as [-> | ->].
    + change (host_ok s_http_host_v6 (i + 1) (grown UF_HOST u)). by apply host_grown.
    + change (host_ok s_http_host_v6 (i + 1) (grown UF_HOST (at_offset UF_HOST i u))). apply host_started; auto.
  - apply wp_ret, host_same; try done; auto.
  - change (host_ok s_http_host_v6_zone_start (i + 1) (grown UF_HOST u)). by apply host_grown.
  - change (host_ok s_http_host_v6_zone (i + 1) (grown UF_HOST u)). by apply host_grown.
  - apply wp_ret, host_same; try done; auto.
  - destruct Hs as [-> | ->].
    + change (host_ok s_http_host_port (i + 1) (grown UF_PORT u)). destruct (Hp eq_refl) as [Hw' Hh].
      destruct (part_grown i u UF_PORT) as (? & ? & ?); [done|done|by apply Nat.ltb_lt|done|done|].
      apply (port_part i u); [done|done|by apply field_grown_ne|done|done].
    + change (host_ok s_http_host_port (i + 1) (grown UF_PORT (start_field UF_PORT i 0 u))).
      destruct (part_started i u UF_PORT) as (? & ? & ?); [done|done|by apply Nat.ltb_lt|].
      apply (port_part i u); [done|done|by rewrite field_grown_ne, start_field_ne|done|done].
Qed.

(** Digits from [i] up to [j] *)
Definition digits_in (i j : Z) : Prop :=
  forall k, i <= k < j -> exists c, buf !! Z.to_nat k = Some c /\ IS_NUM c = true.

(** The port is the digits read so far, unless offsets wrap around. *)
Definition port_ok (s : http_host_state) (i : Z) (u : http_parser_url) : Prop :=
  if decide (s = s_http_host_port)
  then size < 2 ^ 16 -> off (field UF_PORT u) + len (field UF_PORT u) = i /\ digits_in (off (field UF_PORT u)) i
  else has_field UF_PORT u = false.

Definition port_digits (u : http_parser_url) : Prop :=
  has_field UF_PORT u = true -> size < 2 ^ 16 ->
  digits_in (off (field UF_PORT u)) (off (field UF_PORT u) + len (field UF_PORT u)).

Lemma port_ok_digits s i u : port_ok s i u -> port_digits u.
Proof.
  unfold port_ok, port_digits. case_decide; intros Hu Hh Hs; [|congruence].
  destruct (Hu Hs) as [-> Hd]. exact Hd.
Qed.

Lemma digits_snoc i j c :
  digits_in i j -> buf !! Z.to_nat j = Some c -> IS_NUM c = true -> digits_in i (j + 1).
Proof. intros Hd Hc Hn k Hk. destruct (decide (k = j)) as [->|]; [eauto|]. apply Hd. lia. Qed.

Lemma port_goes_on i u c :
  0 <= i < size -> buf !! Z.to_nat i = Some c -> IS_NUM c = true -> length (field_data u) = UF_MAX ->
  0 <= off (field UF_PORT u) -> 0 <= len (field UF_PORT u) ->
  (size < 2 ^ 16 -> off (field UF_PORT u) + len (field UF_PORT u) = i /\ digits_in (off (field UF_PORT u)) i) ->
  port_ok s_http_host_port (i + 1) (grown UF_PORT u).
Proof.
  intros Hi Hc Hn Hu Ho Hl Hp. unfold port_ok. rewrite decide_True by done. intros Hs.
  destruct (Hp Hs) as [Heq Hd]. unfold grown. rewrite field_alter_eq by (by rewrite Hu; apply Nat.ltb_lt).
  cbn [off len]. rewrite u16_small by lia. split; [lia|]. by eapply digits_snoc.
Qed.

(** A character of the port is a digit, and nothing follows the port. *)
Lemma port_char s c :
  s = s_http_host_port \/ s = s_http_host_port_start ->
  http_parse_host_char strict s c = s_http_host_dead \/
  http_parse_host_char strict s c = s_http_host_port /\ IS_NUM c = true.
Proof. intros [-> | ->]; cbn; destruct (IS_NUM c); tauto. Qed.

Lemma port_step s i u c :
  0 <= i < size -> buf !! Z.to_nat i = Some c -> host_ok s i u -> port_ok s i u ->
  http_parse_host_char strict s c <> s_http_host_dead ->
  wp (host_fields s (http_parse_host_char strict s c) i)
    (fun _ v => port_ok (http_parse_host_char strict s c) (i + 1) v) u.
Proof.
  intros Hi Hc Hs Hu Hne. destruct (decide (s = s_http_host_port \/ s = s_http_host_port_start)) as [Hport|Hport].
  - destruct (port_char s c Hport) as [|[-> Hn]]; [done|]. destruct Hport as [-> | ->].
    + change (port_ok s_http_host_port (i + 1) (grown UF_PORT u)).
      destruct (ho_port _ _ _ Hs eq_refl) as [(? & ? & ?) _].
      apply (port_goes_on i u c); try done. apply (ho_fields _ _ _ Hs).
    + change (port_ok s_http_host_port (i + 1) (grown UF_PORT (start_field UF_PORT i 0 u))).
      pose proof (ho_fields _ _ _ Hs) as [Hl Hf]. pose proof (u16_le i (proj1 Hi)).
      assert (Heq : field UF_PORT (start_field UF_PORT i 0 u) = Field (u16 i) 0).
      { rewrite start_field_eq; [done|done|by apply Nat.ltb_lt]. }
      apply (port_goes_on _ _ c); rewrite ?Heq; cbn; try done; try lia.
      * by rewrite !length_alter.
      * intros Hsize. rewrite u16_small by lia. split; [lia|]. intros k Hk. lia.
  - assert (Hno : has_field UF_PORT u = false).
    { unfold port_ok in Hu. rewrite decide_False in Hu by tauto. done. }
    generalize (parse_host_cases s c).
    destruct (http_parse_host_char strict s c); intros Hcases; try done; try tauto; unfold host_fields.
    all: try exact Hno.
    all: destruct Hcases as [-> | ->]; try exact Hno.
    change (has_field UF_PORT (start_field UF_USERINFO i 0 u) = false). by rewrite start_field_has, Hno.
Qed.

Lemma wp_host_loop n i s u :
  0 <= i -> i + Z.of_nat n <= size -> host_ok s i u -> port_ok s i u ->
  wp (host_loop strict buf n i s) (fun r v => r = None \/ fields_before size v /\ port_digits v) u.
Proof.
  revert i s u. induction n as [|n IH]; intros i s u Hi Hn Hu Hp; simpl.
  { apply wp_ret. right. split; [apply Hu|by eapply port_ok_digits]. }
  apply wp_bind, wp_url_char_at; [lia|]. intros c Hc. case_decide as Hdead; [apply wp_ret; by left|].
  apply wp_bind. eapply wp_mono; [apply wp_and; [apply host_step; [lia|done|done]|by apply port_step; [lia|..]]|].
  intros ? v [Hv Hpv]. apply IH; [lia|lia|done|done].
Qed.

Lemma wp_parse_host found u :
  fields_before size u -> has_field UF_HOST u = true -> has_field UF_PORT u = false ->
  wp (http_parse_host strict buf found) (fun r v => r = 1 \/ r = 0 /\ fields_before size v /\ port_digits v) u.
Proof.
  intros Hu Hh Hp. destruct (proj2 Hu _ Hh) as [Hlt (H1 & H2 & H3)]. unfold http_parse_host.
  apply wp_bind, wp_gets. cbn [id]. apply wp_bind, wp_assert; [done|]. apply wp_bind, wp_modify.
  set (v := alter_field UF_HOST (fun x => Field (off x) (u16 0)) u).
  assert (Hf : field UF_HOST v = Field (off (field UF_HOST u)) 0).
  { unfold v. rewrite field_alter_eq; [done|]. by eapply fields_length. }
  apply wp_bind. eapply wp_mono; [apply (wp_host_loop _ _ _ v); [lia|lia| |]|].
  - assert (Hw : within (off (field UF_HOST u)) (field UF_HOST v)) by (rewrite Hf; unfold within; cbn; lia).
    split; [|done|by rewrite Hf|by destruct found|by destruct found].
    apply fields_before_alter; [done|]. unfold within. cbn. change (u16 0) with 0. lia.
  - unfold port_ok. rewrite decide_False by (by destruct found). done.
  - intros [s|] w [Hn|Hw]; try done; [|by left|by left].
    cbv beta iota. destruct (host_unfinished s); [by left|by right].
Qed.

(** ** The port *)

(** The characters of a range *)
#[local] Abbreviation slice := (slice buf).

Lemma slice_cons i n c :
  0 <= i -> 0 <= n -> buf !! Z.to_nat i = Some c -> slice i (n + 1) = c :: slice (i + 1) n.
Proof.
  intros Hi Hn Hc. unfold slice. replace (Z.to_nat (n + 1)) with (S (Z.to_nat n)) by lia.
  rewrite (drop_S _ _ _ Hc). replace (Z.to_nat (i + 1)) with (S (Z.to_nat i)) by lia. done.
Qed.

Lemma slice_digits i n : 0 <= i -> 0 <= n -> digits_in i (i + n) -> Forall (fun c => IS_NUM c = true) (slice i n).
Proof.
  intros Hi Hn Hd. apply Forall_lookup. intros k c Hk. unfold slice in Hk.
  apply lookup_take_Some in Hk as [Hk Hlt]. rewrite lookup_drop in Hk.
  destruct (Hd (i + Z.of_nat k)) as (c' & Hc' & Hnum); [lia|].
  replace (Z.to_nat (i + Z.of_nat k)) with (Z.to_nat i + k)%nat in Hc' by lia. congruence.
Qed.

Lemma wp_port_loop_any n i v u :
  0 <= i -> i + Z.of_nat n <= size -> wp (port_loop buf n i v) (fun _ w => w = u) u.
Proof.
  revert i v. induction n as [|n IH]; intros i v Hi Hn; simpl; [done|].
  apply wp_bind, wp_url_char_at; [lia|]. intros c _. case_match; [done|]. apply IH; lia.
Qed.

Lemma wp_port_loop n i v u :
  0 <= i -> i + Z.of_nat n <= size -> 0 <= v <= 65535 -> digits_in i (i + Z.of_nat n) ->
  wp (port_loop buf n i v)
    (fun r w => w = u /\ (r = None \/ r = Some (decimal_from v (slice i (Z.of_nat n))) /\
       decimal_from v (slice i (Z.of_nat n)) <= 65535)) u.
Proof.
  revert i v. induction n as [|n IH]; intros i v Hi Hn Hv Hd; cbn [port_loop].
  { apply wp_ret. split; [done|]. right. change (decimal_from v (slice i (Z.of_nat 0))) with v. split; [done|lia]. }
  apply wp_bind, wp_url_char_at; [lia|]. intros c Hc.
  rewrite Nat2Z.inj_succ in *. unfold Z.succ in *.
  rewrite (slice_cons i _ c) by (done || lia).
  assert (Hnum : IS_NUM c = true) by (destruct (Hd i) as (c' & Hc' & ?); [lia|]; congruence).
  pose proof (digit_value c Hnum) as Hdig.
  assert (Hstep : u64 (u64 (v * 10) + (c - chr "0")) = v * 10 + (c - chr "0")).
  { unfold u64. rewrite (Z.mod_small (v * 10)), Z.mod_small by lia. done. }
  rewrite Hstep. destruct (Z.gtb_spec (v * 10 + (c - chr "0")) 65535); [by split; [|left]|].
  apply IH; [lia|lia|lia|]. intros k Hk. apply Hd. lia.
Qed.

(** The port a URL without wrapped offsets gets *)
Definition port_value (u : http_parser_url) : Prop :=
  size < 2 ^ 16 ->
  port u = (if has_field UF_PORT u then decimal (slice (off (field UF_PORT u)) (len (field UF_PORT u))) else 0) /\
  0 <= port u <= 65535.

Lemma wp_parse_port u :
  fields_before size u -> has_field UF_PORT u = true -> port_digits u ->
  wp (parse_port buf)
    (fun r v => r = 1 \/ r = 0 /\ fields_before size v /\ port_value v /\ field_set v = field_set u) u.
Proof.
  intros Hu Hh Hd. destruct (proj2 Hu _ Hh) as [_ (H1 & H2 & H3)]. unfold parse_port.
  apply wp_bind, wp_gets. cbn [id]. apply wp_bind, wp_assert; [apply Z.leb_le; fold size; lia|].
  set (n := Z.to_nat (len (field UF_PORT u))). set (i := off (field UF_PORT u)) in *.
  assert (Hn : len (field UF_PORT u) = Z.of_nat n) by lia.
  apply wp_bind. destruct (decide (size < 2 ^ 16)) as [Hs|Hs].
  - eapply wp_mono; [apply wp_port_loop; [done|lia|lia|]|].
    { rewrite <- Hn. by apply Hd. }
    intros r w [-> [-> |[-> Hle]]]; [by left|]. right. split; [done|]. split; [exact Hu|]. split; [|done]. intros _.
    cbn [port]. change (has_field UF_PORT (Url ?a ?b (field_data u))) with (has_field UF_PORT u).
    change (field UF_PORT (Url ?a ?b (field_data u))) with (field UF_PORT u). fold i. rewrite Hh, Hn.
    assert (0 <= decimal_from 0 (slice i (Z.of_nat n))) as Hge.
    { apply decimal_from_le; [lia|]. apply slice_digits; [done|lia|]. rewrite <- Hn. by apply Hd. }
    rewrite u16_small by lia. split; [done|lia].
  - eapply wp_mono; [apply wp_port_loop_any; lia|]. intros [v|] w ->; [|by left].
    right. split; [done|]. split; [exact Hu|]. split; [|done]. intros ?; lia.
Qed.

(** Nothing before the port is read stores a port. *)
Definition keeps_port {A} (m : M http_parser_url A) : Prop :=
  forall u a v, m u = Done (a, v) -> port v = port u.

Lemma keeps_bind {A B} (m : M http_parser_url A) (k : A -> M http_parser_url B) :
  keeps_port m -> (forall a, keeps_port (k a)) -> keeps_port (bind m k).
Proof.
  intros Hm Hk u b v. unfold bind. destruct (m u) as [[a w]|] eqn:Hmu; [|done].
  intros Hkw. rewrite (Hk _ _ _ _ Hkw). by apply (Hm _ _ _ Hmu).
Qed.

Lemma keeps_ret {A} (a : A) : keeps_port (ret a).
Proof. by intros u b v [= _ <-]. Qed.

Lemma keeps_or_fault {A} f (o : option A) : keeps_port (or_fault f o).
Proof. destruct o; [apply keeps_ret|by intros ???]. Qed.

Lemma keeps_assert b : keeps_port (assert_ b).
Proof. destruct b; [apply keeps_ret|by intros ???]. Qed.

Lemma keeps_when b m : keeps_port m -> keeps_port (when b m).
Proof. intros Hm. destruct b; [done|apply keeps_ret]. Qed.

Lemma keeps_modify f : (forall u, port (f u) = port u) -> keeps_port (modify f).
Proof. intros Hf u a v [= _ <-]. apply Hf. Qed.

Ltac keeps := repeat first
  [ apply keeps_bind; [|intros ?] | apply keeps_ret | apply keeps_or_fault | apply keeps_assert
  | apply keeps_when | (apply keeps_modify; done) | (intros ? ? ? [= _ <-]; done) | case_match; try done ].

Lemma keeps_url_loop n i s old found : keeps_port (url_loop strict buf n i s old found).
Proof. revert i s old found. induction n; intros; cbn [url_loop]; keeps; auto. Qed.

Lemma keeps_host_loop n i s : keeps_port (host_loop strict buf n i s).
Proof. revert i s. induction n; intros; cbn [host_loop]; unfold host_fields; keeps; auto. Qed.

Lemma keeps_parse_host found : keeps_port (http_parse_host strict buf found).
Proof. unfold http_parse_host. keeps; try apply keeps_host_loop. Qed.

Lemma wp_keeps {A} (m : M http_parser_url A) Q u :
  keeps_port m -> wp m Q u -> wp m (fun a v => Q a v /\ port v = port u) u.
Proof.
  intros Hk. unfold wp. specialize (Hk u). destruct (m u) as [[a v]|]; [|done]. intros HQ. split; [done|]. by apply (Hk a v).
Qed.

(** ** The whole *)

Lemma wp_parse_url is_connect u :
  length (field_data u) = UF_MAX ->
  wp (http_parser_parse_url strict buf is_connect)
    (fun r v => r = 1 \/ r = 0 /\ fields_before size v /\ port_value v /\
       (is_connect = true -> field_set v = Z.lor (uf_bit UF_HOST) (uf_bit UF_PORT))) u.
Proof.
  intros Hl. unfold http_parser_parse_url. fold size. destruct (Z.eqb_spec size 0); [by left|].
  apply wp_bind, wp_modify, wp_bind, wp_modify, wp_bind.
  assert (Hno : forall f d, has_field f (Url 0 0 d) = false) by (intros; by rewrite has_field_testbit, Z.bits_0).
  eapply (wp_mono _ (fun r v => r = None \/ (fields_before size v /\ has_field UF_PORT v = false) /\ port v = 0)).
  { replace size with (0 + Z.of_nat (length buf)) by (subst size; lia).
    eapply wp_mono; [apply wp_keeps; [apply keeps_url_loop|]|].
    - apply wp_url_loop; [lia|subst size; lia| |by intros []|apply Hno].
      split; [done|]. intros f. by rewrite Hno.
    - cbn. intros r v [[?|[? ?]] ?]; tauto. }
  intros [found|] v [Hv|[[Hv Hp] Hport]]; try done; [|by left|by left].
  apply wp_bind, wp_gets. cbn [id]. destruct (_ && _); [by left|].
  apply wp_bind. eapply (wp_mono _ (fun r w => r = 1 \/ r = 0 /\ (fields_before size w /\ port_digits w) /\ port w = 0)).
  { destruct (has_field UF_HOST v) eqn:Hh.
    - eapply wp_mono; [apply wp_keeps; [apply keeps_parse_host|by apply wp_parse_host]|].
      cbn. rewrite Hport. intros r w [[?|[? ?]] ?]; tauto.
    - apply wp_ret. right. split; [done|]. split; [|done]. split; [done|]. intros Hp'. congruence. }
  intros r w [-> |(-> & [Hw Hd] & Hz)]; [by left|]. cbn [negb Z.eqb].
  apply wp_bind, wp_gets. cbn [id]. destruct (is_connect && _) eqn:Hc; [by left|].
  assert (Hset : is_connect = true -> field_set w = Z.lor (uf_bit UF_HOST) (uf_bit UF_PORT)).
  { intros ->. cbn in Hc. by apply negb_false_iff, Z.eqb_eq in Hc. }
  destruct (has_field UF_PORT w) eqn:Hhp.
  - eapply wp_mono; [by apply wp_parse_port|]. intros r' w' [?|(? & ? & ? & Heq)]; [by left|right]. by rewrite Heq.
  - apply wp_ret. right. split; [done|]. split; [done|]. split; [|done]. intros _. rewrite Hhp, Hz. lia.
Qed.
End Loops.
