(* ===== verification/HttpChunks.v ===== *)
(** The size of a chunk as http_parser reads it
    (src/bazel/external/http_parser/http_parser.c, [s_chunk_size_start] and
    [s_chunk_size]): a call on the digits of a size, against the number that
    hex digits make by themselves. *)
From S2P Require Import Prelude HttpTypes HttpUrl HttpExec HttpStates HttpHeaders HttpParser HttpLogic HttpCross.

Local Open Scope Z_scope.
Local Open Scope exec_scope.

(** ** Hex digits *)

(** The digits of ASCII, of either case *)
Definition hex_char (c : Z) : bool :=
  ((48 <=? c) && (c <=? 57)) || ((65 <=? c) && (c <=? 70)) || ((97 <=? c) && (c <=? 102)).

Definition hex_value (c : Z) : Z := if c <=? 57 then c - 48 else if c <=? 70 then c - 55 else c - 87.

(** The number they make after [v], the most significant digit first *)
Definition hex_number (v : Z) (l : list Z) : Z := foldl (fun v c => v * 16 + hex_value c) v l.

Definition largest_size : Z := 2 ^ 64 - 17.

Lemma hex_char_range c : hex_char c = true -> 48 <= c <= 102.
Proof. unfold hex_char. intros Hc. lia. Qed.

Lemma hex_char_facts c :
  hex_char c = true -> 0 <= hex_value c < 16 /\ unhex_at c = hex_value c /\ (c =? CR) = false.
Proof.
  intros Hc. pose proof (hex_char_range c Hc) as Hr.
  assert (Hall : forallb (fun c => negb (hex_char c) ||
    ((0 <=? hex_value c) && (hex_value c <? 16) && (unhex_at c =? hex_value c) && negb (c =? CR)))
    (Z.of_nat <$> seq 0 103) = true) by (vm_compute; reflexivity).
  rewrite forallb_forall in Hall. specialize (Hall c). rewrite Hc in Hall. cbn [negb orb] in Hall.
  rewrite !andb_true_iff, negb_true_iff, Z.leb_le, Z.ltb_lt, Z.eqb_eq in Hall.
  destruct Hall as [[[Hlo Hhi] Hu] Hcr]; [|done].
  apply list_elem_of_In, list_elem_of_fmap. exists (Z.to_nat c). split; [lia|]. apply elem_of_seq. lia.
Qed.

Lemma hex_number_le v l : 0 <= v -> Forall (fun c => hex_char c = true) l -> v <= hex_number v l.
Proof.
  intros Hv Hl. revert v Hv. induction Hl as [|c l Hc Hl IH]; intros v Hv; cbn; [lia|].
  destruct (hex_char_facts c Hc) as [Hr _]. specialize (IH (v * 16 + hex_value c)). unfold hex_number in IH. lia.
Qed.

(** ** A call *)

Section Chunks.
Context {U : Type}.
Variable strict : bool.
Variable settings : http_parser_settings U.
Variable max_header_size : Z.
Variable lenient allow_chunked_length_ : bool.
Variable data : list Z.
Hypothesis Hmax : max_header_size < 2 ^ 32.
Implicit Types (s : exec U) (x : http_parser).

#[local] Abbreviation loop_on := (loop strict settings max_header_size lenient allow_chunked_length_ data).

(** The locals at a byte of a size, with no part of the message under way *)
Definition sizing st x n i c (u : U) : exec U := Exec x st n i c None None None None None u.

(** A byte that is counted and looked at once *)
Lemma size_turn st x n i c0 c u fuel :
  PARSING_HEADER st = true -> 0 <= n -> n + 1 <= max_header_size -> 0 <= i < Z.of_nat (length data) ->
  data !! Z.to_nat i = Some c ->
  loop_on (S fuel) true (sizing st x n i c0 u)
  = match dispatch strict settings max_header_size lenient allow_chunked_length_ data st (sizing st x (n + 1) i c u) with
    | Value _ s | Break s => loop_on fuel true (with_p (fun i => i + 1) s)
    | Reexecute s => loop_on fuel false s
    | GotoError s => returned (error_label s)
    | Return v s => Done (v, s)
    | Stuck f => Faulted f
    end.
Proof.
  intros Hst Hn Hle Hi Hc. cbn [loop]. change (p (sizing st x n i c0 u)) with i.
  rewrite (proj2 (Z.eqb_neq _ _)) by lia. cbn [andb].
  assert (Hbyte : next_byte max_header_size data (sizing st x n i c0 u) = Value tt (sizing st x (n + 1) i c u)).
  { rewrite (next_byte_eq _ _ c); [|cbn; lia|exact Hc]. change (p_state (sizing st x n i c0 u)) with st.
    rewrite Hst. rewrite (COUNT_small _ _ n); [done|done|lia|lia|lia|done]. }
  unfold ebind at 1. by rewrite Hbyte.
Qed.

(** The digits after the first *)
Lemma size_digit x n i c u :
  has_flag (flags x) F_CHUNKED = true -> 0 <= content_length x <= largest_size -> hex_char c = true ->
  do_chunk_size (sizing s_chunk_size x n i c u) =
    if decide (content_length x * 16 + hex_value c <= largest_size)
    then Break (sizing s_chunk_size (set_content_length (fun _ => content_length x * 16 + hex_value c) x) n i c u)
    else GotoError (set_error HPE_INVALID_CONTENT_LENGTH (sizing s_chunk_size x n i c u)).
Proof.
  unfold largest_size. intros Hch Hle Hc. destruct (hex_char_facts c Hc) as (Hr & Hv & Hcr).
  unfold do_chunk_size, assert_chunked, sizing. erun. rewrite Hcr. erun. rewrite Hv, (proj2 (Z.eqb_neq _ _)) by lia. erun.
  change ((ULLONG_MAX - 16) / 16) with (2 ^ 60 - 2). destruct (Z.ltb_spec (2 ^ 60 - 2) (content_length x)) as [Hgt|Hle'].
  - by rewrite decide_False by lia.
  - rewrite decide_True by lia. unfold u64. by rewrite (Z.mod_small (_ * _)), Z.mod_small by lia.
Qed.

(** The first digit *)
Lemma size_first x i c u :
  has_flag (flags x) F_CHUNKED = true -> hex_char c = true ->
  do_chunk_size_start (sizing s_chunk_size_start x 1 i c u) =
    Break (sizing s_chunk_size (set_content_length (fun _ => hex_value c) x) 1 i c u).
Proof.
  intros Hch Hc. destruct (hex_char_facts c Hc) as (Hr & Hv & _).
  unfold do_chunk_size_start, assert_chunked, sizing. erun. rewrite Hv, (proj2 (Z.eqb_neq _ _)) by lia. erun.
  unfold u64. by rewrite Z.mod_small by lia.
Qed.

(** The end of the buffer *)
Lemma size_end fuel x n c u :
  errno_ x = HPE_OK ->
  loop_on (S fuel) true (sizing s_chunk_size x n (Z.of_nat (length data)) c u) =
    Done (Z.of_nat (length data),
          sizing s_chunk_size (set_state (fun _ => s_chunk_size) (set_nread (fun _ => n) x)) n (Z.of_nat (length data)) c u).
Proof.
  intros He. cbn [loop]. change (p (sizing s_chunk_size x n (Z.of_nat (length data)) c u)) with (Z.of_nat (length data)).
  rewrite Z.eqb_refl. cbn [andb]. unfold leftovers. rewrite ebind_look, ebind_assert by done.
  do 5 (unfold CALLBACK_DATA_NOADVANCE at 1, CALLBACK_DATA_ at 1, assert_no_errno at 1;
    rewrite !ebind_assoc, ebind_look, !ebind_assoc, ebind_look, ebind_assert, !ebind_assoc, ebind_look
      by (by apply bool_decide_eq_true); cbn [mark_of sizing header_field_mark header_value_mark url_mark body_mark status_mark];
    rewrite ebind_done).
  done.
Qed.

(** A call that has read the digits [pre] of a size, with [l] to come *)
Lemma size_loop l pre fuel x n c u :
  data = pre ++ l -> (length l < fuel)%nat -> 0 <= n -> n + Z.of_nat (length l) <= max_header_size ->
  has_flag (flags x) F_CHUNKED = true -> errno_ x = HPE_OK -> 0 <= content_length x <= largest_size ->
  Forall (fun c => hex_char c = true) l ->
  exists v s, loop_on fuel true (sizing s_chunk_size x n (Z.of_nat (length pre)) c u) = Done (v, s) /\ user s = u /\
    if decide (hex_number (content_length x) l <= largest_size)
    then v = Z.of_nat (length data) /\ errno_ (parser s) = HPE_OK /\ state_ (parser s) = s_chunk_size /\
         content_length (parser s) = hex_number (content_length x) l
    else errno_ (parser s) = HPE_INVALID_CONTENT_LENGTH /\
         exists k, v = Z.of_nat (length pre + k) /\ (k < length l)%nat /\
           hex_number (content_length x) (take k l) <= largest_size < hex_number (content_length x) (take (S k) l).
Proof.
  intros Hdata Hfuel Hn Hsum Hch He Hlen Hl. revert pre fuel x n c Hdata Hfuel Hn Hsum Hch He Hlen.
  induction Hl as [|d l Hd Hl IH]; intros pre fuel x n c Hdata Hfuel Hn Hsum Hch He Hlen;
    (destruct fuel as [|fuel]; [lia|]).
  - rewrite app_nil_r in Hdata. subst pre. rewrite size_end by done. do 2 eexists. split; [reflexivity|]. split; [done|].
    by rewrite decide_True by (cbn; lia).
  - cbn [length] in Hfuel, Hsum.
    assert (Hat : data !! Z.to_nat (Z.of_nat (length pre)) = Some d).
    { rewrite Hdata, Nat2Z.id. by apply list_lookup_middle. }
    rewrite (size_turn _ _ _ _ _ d) by (first [done|lia|rewrite Hdata, length_app; cbn [length]; lia]).
    cbn [dispatch]. rewrite size_digit by done. set (v := content_length x * 16 + hex_value d).
    destruct (hex_char_facts d Hd) as [Hr _]. change (hex_number (content_length x) (d :: l)) with (hex_number v l).
    destruct (decide (v <= largest_size)) as [Hle|Hgt].
    + destruct (IH (pre ++ [d]) fuel (set_content_length (fun _ => v) x) (n + 1) d) as (r & s & Hrun & Hu & Hres);
        [by rewrite <- app_assoc|lia|lia|lia|done|done|cbn; lia|].
      rewrite length_app in Hrun, Hres. cbn [length] in Hrun, Hres. rewrite Nat2Z.inj_add in Hrun.
      exists r, s. split; [exact Hrun|]. split; [done|]. cbn [content_length set_content_length] in Hres.
      case_decide; [done|]. destruct Hres as (Herr & k & -> & Hk & Hbetween). split; [done|].
      exists (S k). cbn [length take]. split; [lia|]. split; [lia|exact Hbetween].
    + pose proof (hex_number_le v l ltac:(lia) Hl). do 2 eexists.
      split; [reflexivity|]. split; [done|]. rewrite decide_False by lia. split; [done|]. exists 0%nat. rewrite Nat.add_0_r. split; [done|].
      split; [cbn [length]; lia|]. change (content_length x <= largest_size < v). lia.
Qed.
End Chunks.

(** C29. The size of a chunk is exactly the number its hex digits make, first
    digit included, whatever callbacks are set: a call on the digits of a size
    reads them all and leaves that number as the length of the chunk, with no
    callback called; a number beyond [2^64 - 17] never wraps around, but stops
    the parser with an error at the first digit that makes it so large. *)
Theorem chunk_size_exact {U} (strict : bool) (settings : http_parser_settings U) (max_header_size : Z)
    (data : list Z) (x : http_parser) (u : U) :
  max_header_size < 2 ^ 32 -> Z.of_nat (length data) <= max_header_size ->
  parser_ok max_header_size x -> errno_ x = HPE_OK -> state_ x = s_chunk_size_start ->
  data <> [] -> Forall (fun c => hex_char c = true) data ->
  exists v x', http_parser_execute strict settings max_header_size data x u = Done (v, x', u) /\
    if decide (hex_number 0 data <= 2 ^ 64 - 17)
    then v = Z.of_nat (length data) /\ errno_ x' = HPE_OK /\ state_ x' = s_chunk_size /\
         content_length x' = hex_number 0 data
    else errno_ x' = HPE_INVALID_CONTENT_LENGTH /\
         exists k, v = Z.of_nat k /\ (k < length data)%nat /\
           hex_number 0 (take k data) <= 2 ^ 64 - 17 < hex_number 0 (take (S k) data).
Proof.
  intros Hmax Hlen Hx He Hst Hne Hdata. destruct data as [|d l]; [done|]. apply Forall_cons in Hdata as [Hd Hl].
  destruct (hex_char_facts d Hd) as [Hr _].
  pose proof (po_state _ _ Hx) as Hch. rewrite Hst in Hch. pose proof (po_chunk _ _ Hx Hst) as Hn.
  unfold http_parser_execute. rewrite decide_False by (by intros Hno). cbn [length] in *.
  rewrite (proj2 (Z.eqb_neq _ _)) by lia. unfold loop_fuel. cbn [length].
  replace (5 * S (S (length l)))%nat with (S (5 * S (length l) + 4)) by lia.
  replace (entry x u) with (sizing s_chunk_size_start x 0 0 0 u) by (unfold entry, sizing; by rewrite Hst, Hn).
  rewrite (size_turn strict settings max_header_size _ _ (d :: l) Hmax s_chunk_size_start x 0 0 0 d)
    by (first [done|cbn [length]; lia]).
  cbn [dispatch]. change (0 + 1) with 1. rewrite size_first by done.
  set (x1 := set_content_length (fun _ => hex_value d) x).
  destruct (size_loop strict settings max_header_size (negb (lenient_http_headers x =? 0)) (negb (allow_chunked_length x =? 0))
    (d :: l) Hmax l [d] (5 * S (length l) + 4) x1 1 d u) as (v & s & Hrun & Hu & Hres);
    [done|lia|lia|lia|done|done|unfold largest_size; cbn; lia|done|].
  exists v, (parser s). change (with_p _ (sizing s_chunk_size x1 1 0 d u)) with (sizing s_chunk_size x1 1 (Z.of_nat (length [d])) d u).
  rewrite Hrun, Hu. split; [done|]. change (hex_number 0 (d :: l)) with (hex_number (0 * 16 + hex_value d) l).
  replace (0 * 16 + hex_value d) with (content_length x1) by done. unfold largest_size in Hres. case_decide; [done|].
  destruct Hres as (Herr & k & -> & Hk & Hbetween). split; [done|]. exists (S k).
  cbn [length Nat.add take]. split; [done|]. split; [lia|exact Hbetween].
Qed.

(** ** Witness *)

(** A parser that expects the size of a chunk *)
Definition chunk_parser : http_parser :=
  set_flags (fun _ => F_CHUNKED) (set_state (fun _ => s_chunk_size_start) (http_parser_init HTTP_RESPONSE)).

Lemma chunk_parser_ok : parser_ok HTTP_MAX_HEADER_SIZE chunk_parser.
Proof. split; [vm_compute; reflexivity|split; split; vm_compute; congruence|split; vm_compute; congruence|reflexivity]. Qed.

Lemma chunk_size_exact_witness :
  (exists v x', http_parser_execute true recorder HTTP_MAX_HEADER_SIZE (chars "1fA0") chunk_parser [] = Done (v, x', []) /\
     v = 4 /\ errno_ x' = HPE_OK /\ state_ x' = s_chunk_size /\ content_length x' = 8096) /\
  (exists v x', http_parser_execute true recorder HTTP_MAX_HEADER_SIZE (chars "ffffffffffffffff") chunk_parser [] = Done (v, x', []) /\
     errno_ x' = HPE_INVALID_CONTENT_LENGTH /\
     exists k, v = Z.of_nat k /\ (k < 16)%nat /\
       hex_number 0 (take k (chars "ffffffffffffffff")) <= 2 ^ 64 - 17 < hex_number 0 (take (S k) (chars "ffffffffffffffff"))).
Proof.
  split.
  - apply (chunk_size_exact true recorder HTTP_MAX_HEADER_SIZE (chars "1fA0") chunk_parser []);
      [reflexivity|vm_compute; discriminate|exact chunk_parser_ok|reflexivity|reflexivity|discriminate|repeat constructor].
  - apply (chunk_size_exact true recorder HTTP_MAX_HEADER_SIZE (chars "ffffffffffffffff") chunk_parser []);
      [reflexivity|vm_compute; discriminate|exact chunk_parser_ok|reflexivity|reflexivity|discriminate|repeat constructor].
Defined.
