(* ===== verification/HttpTheorems.v ===== *)
(** What holds of http_parser (src/bazel/external/http_parser/http_parser.c):
    calls return, the user is told of ranges of the buffer, and lengths,
    methods, URLs and characters are read exactly. *)
From S2P Require Import Prelude HttpTypes HttpUrl HttpExec HttpStates HttpHeaders HttpParser HttpLogic HttpSafe HttpTotal HttpUrlProps.

Local Open Scope Z_scope.
Local Open Scope exec_scope.

(** What is computed for each of the first numbers holds for all of them. *)
Fixpoint below (n : nat) (P : nat -> Prop) : Prop :=
  match n with O => True | S n => P n /\ below n P end.

Lemma below_all n P : below n P -> forall k, (k < n)%nat -> P k.
Proof.
  induction n as [|n IH]; [lia|]. intros [Hn Hb] k Hk. destruct (decide (k = n)) as [->|]; [done|].
  apply IH; [done|lia].
Qed.

(** ** Sessions: the buffers of a connection, one after the other *)

(** What a program does between two buffers, besides: it sets the limit of the
    header size, which all parsers share. *)
Inductive input := Feed (data : list Z) | SetMax (size : Z).

Section Session.
Context {U : Type}.
Variable strict : bool.
Variable settings : http_parser_settings U.

(** A paused parser is resumed before the next buffer. *)
Definition resume (x : http_parser) : outcome http_parser :=
  if decide (errno_ x = HPE_PAUSED) then http_parser_pause false x else Done x.

Fixpoint session (inputs : list input) (max_header_size : Z) (x : http_parser) (u : U) : outcome (Z * http_parser * U) :=
  match inputs with
  | [] => Done (max_header_size, x, u)
  | SetMax size :: inputs => session inputs (http_parser_set_max_header_size size max_header_size) x u
  | Feed data :: inputs =>
      match resume x with
      | Done x =>
          match http_parser_execute strict settings max_header_size data x u with
          | Done (_, x, u) => session inputs max_header_size x u
          | Faulted f => Faulted f
          end
      | Faulted f => Faulted f
      end
  end.
End Session.

(** ** A log of the ranges the data callbacks are told *)

Section Logged.
Context {U : Type}.

(** A range: where it starts, and how long it is *)
Definition range_log : Type := list (Z * Z).

Definition logged_cb (f : http_cb U) : http_cb (U * range_log) :=
  fun x w => let '(r, y, u) := f x w.1 in (r, y, (u, w.2)).
Definition logged_data_cb (f : http_data_cb U) : http_data_cb (U * range_log) :=
  fun at_ n x w => let '(r, y, u) := f at_ n x w.1 in (r, y, (u, (at_, n) :: w.2)).

Definition logged (s : http_parser_settings U) : http_parser_settings (U * range_log) :=
  Settings _ (logged_cb <$> on_message_begin s) (logged_data_cb <$> on_url s) (logged_data_cb <$> on_status s)
    (logged_data_cb <$> on_header_field s) (logged_data_cb <$> on_header_value s)
    (logged_cb <$> on_headers_complete s) (logged_data_cb <$> on_body s) (logged_cb <$> on_message_complete s)
    (logged_cb <$> on_chunk_header s) (logged_cb <$> on_chunk_complete s).

Definition in_buffer (size : Z) (r : Z * Z) : Prop := 0 <= r.1 /\ 0 <= r.2 /\ r.1 + r.2 <= size.

Lemma logged_cb_ok (Iu : U -> Prop) (L : range_log -> Prop) cb :
  cb_ok Iu cb -> cb_ok (fun w => Iu w.1 /\ L w.2) (logged_cb <$> cb).
Proof.
  intros Hcb f Hf x [u l] [Hu Hl]. apply fmap_Some in Hf as (g & Hg & ->).
  destruct (Hcb g Hg x u Hu) as [Hx Hu']. unfold logged_cb. cbn. destruct (g x u) as [[r y] u'].
  cbn in *. done.
Qed.

Lemma logged_data_cb_ok (Iu : U -> Prop) size cb :
  data_cb_ok Iu size cb ->
  data_cb_ok (fun w => Iu w.1 /\ Forall (in_buffer size) w.2) size (logged_data_cb <$> cb).
Proof.
  intros Hcb f Hf at_ n x [u l] Ha Hn Hs [Hu Hl]. apply fmap_Some in Hf as (g & Hg & ->).
  destruct (Hcb g Hg at_ n x u Ha Hn Hs Hu) as [Hx Hu']. unfold logged_data_cb. cbn.
  destruct (g at_ n x u) as [[r y] u']. cbn in *. split; [done|]. split; [done|]. by constructor.
Qed.

Lemma logged_ok (Iu : U -> Prop) size s :
  settings_ok Iu size s -> settings_ok (fun w => Iu w.1 /\ Forall (in_buffer size) w.2) size (logged s).
Proof.
  intros [H1 H2 H3 H4 H5 H6]. split; try by apply logged_cb_ok.
  intros m. specialize (H6 m). destruct m; by apply logged_data_cb_ok.
Qed.
End Logged.

Lemma recorder_ok size : settings_ok (fun _ => True) size recorder.
Proof. split; [..|intros []]; intros f [= <-]; intros; split; try done; by destruct x. Qed.

(** A user that pauses the parser at each call *)
Definition pauser : http_parser_settings nat :=
  let cb : http_cb nat := fun x n => (0, set_errno (fun _ => HPE_PAUSED) x, S n) in
  let data : http_data_cb nat := fun _ _ x n => (0, set_errno (fun _ => HPE_PAUSED) x, S n) in
  Settings _ (Some cb) (Some data) (Some data) (Some data) (Some data) (Some cb) (Some data) (Some cb)
    (Some cb) (Some cb).

Lemma pauser_ok size : settings_ok (fun _ => True) size pauser.
Proof. split; [..|intros []]; intros f [= <-]; intros; by split. Qed.

(** ** Calls return *)

(** C3. [http_parser_execute] always returns: for any bytes, and any callbacks
    that leave the parser alone but for its errno, no assertion fails, no byte
    outside the buffer is read, and the loop ends.  The number returned is at
    most that of the bytes (1 at a premature end of input), and is that of the
    bytes unless there is an errno or an upgrade; the parser left behind can be
    used again, and what the callbacks keep is kept. *)
Theorem execute_total {U} (strict : bool) (settings : http_parser_settings U) (max_header_size : Z)
    (Iu : U -> Prop) (data : list Z) (x : http_parser) (u : U) :
  settings_ok Iu (Z.of_nat (length data)) settings -> parser_ok max_header_size x -> errno_ x = HPE_OK -> Iu u ->
  exists v x' u',
    http_parser_execute strict settings max_header_size data x u = Done (v, x', u') /\
    0 <= v <= Z.max 1 (Z.of_nat (length data)) /\
    resumable max_header_size x' /\
    (errno_ x' = HPE_OK -> v = Z.of_nat (length data) \/ upgrade x' <> 0) /\
    Iu u'.
Proof.
  intros Hset Hx He Hu. pose proof (po_nread _ _ Hx). apply execute_returns; [lia|done..].
Qed.

Definition sample_request : list Z := chars (lines ["GET /a?b HTTP/1.1"; "Host: x"; ""]).

Lemma execute_total_witness :
  exists v x' u',
    http_parser_execute true recorder HTTP_MAX_HEADER_SIZE sample_request (http_parser_init HTTP_REQUEST) []
      = Done (v, x', u') /\
    0 <= v <= Z.max 1 (Z.of_nat (length sample_request)) /\
    resumable HTTP_MAX_HEADER_SIZE x' /\
    (errno_ x' = HPE_OK -> v = Z.of_nat (length sample_request) \/ upgrade x' <> 0) /\ True.
Proof.
  apply (execute_total true recorder HTTP_MAX_HEADER_SIZE (fun _ => True)).
  - apply recorder_ok.
  - by apply init_ok.
  - reflexivity.
  - exact I.
Defined.

(** C17. A connection never goes wrong: from a fresh parser, any sequence of
    buffers can be given to [http_parser_execute], resuming the parser with
    [http_parser_pause] when a callback paused it, and setting the limit of the
    header size to anything in between, also below what has been counted. *)
Theorem session_total {U} (strict : bool) (settings : http_parser_settings U) (max_header_size : Z)
    (Iu : U -> Prop) (t : http_parser_type) (inputs : list input) (u : U) :
  0 <= max_header_size < 2 ^ 32 -> (forall size, settings_ok Iu size settings) -> Iu u ->
  exists max x' u', session strict settings inputs max_header_size (http_parser_init t) u = Done (max, x', u') /\
    0 <= max < 2 ^ 32 /\ resumable (2 ^ 32 - 1) x' /\ Iu u'.
Proof.
  intros Hm Hset Hu.
  assert (Hx : resumable (2 ^ 32 - 1) (http_parser_init t)).
  { intros _. rewrite set_errno_id by done. by apply init_ok. }
  revert Hm Hx Hu. generalize (http_parser_init t) as x. revert max_header_size u.
  induction inputs as [|[data|size] inputs IH]; intros max u x Hm Hx Hu; cbn [session];
    [by exists max, x, u| |by apply IH; [apply u32_range|..]]. unfold resume.
  assert (Hgo : forall y, resumable (2 ^ 32 - 1) y -> errno_ y <> HPE_PAUSED ->
    exists v y' u', http_parser_execute strict settings max data y u = Done (v, y', u') /\
      resumable (2 ^ 32 - 1) y' /\ Iu u').
  { intros y Hy Hne. destruct (decide (errno_ y = HPE_OK)) as [He|He].
    - destruct (execute_returns strict max (2 ^ 32 - 1) ltac:(lia) Iu settings data y u) as (v & y' & u' & Heq & _ & Hr & _ & Hu');
        [done| |done|done|eauto 6].
      rewrite <- (set_errno_id y He). apply Hy. by left.
    - exists 0, y, u. unfold http_parser_execute. by rewrite decide_True. }
  case_decide as Hp.
  - unfold http_parser_pause. rewrite decide_True by tauto.
    destruct (Hgo (set_errno (fun _ => HPE_OK) x)) as (v & y' & u' & -> & Hr & Hu'); [|done|by apply IH].
    intros _. apply Hx. tauto.
  - destruct (Hgo x Hx Hp) as (v & y' & u' & -> & Hr & Hu'). by apply IH.
Qed.

Lemma session_total_witness :
  exists max x' u', session true pauser [Feed sample_request; SetMax 8; Feed sample_request; Feed []] initial_max_header_size
      (http_parser_init HTTP_BOTH) O = Done (max, x', u') /\
    0 <= max < 2 ^ 32 /\ resumable (2 ^ 32 - 1) x' /\ True.
Proof.
  apply (session_total true pauser initial_max_header_size (fun _ => True)).
  - vm_compute. split; congruence.
  - apply pauser_ok.
  - exact I.
Defined.

(** C27. The data callbacks are told of ranges of the buffer only: with a log
    around any callbacks, every range in it starts in the buffer and ends
    there. *)
Theorem ranges_in_buffer {U} (strict : bool) (settings : http_parser_settings U) (max_header_size : Z)
    (data : list Z) (x : http_parser) (u : U) :
  settings_ok (fun _ => True) (Z.of_nat (length data)) settings -> parser_ok max_header_size x ->
  errno_ x = HPE_OK ->
  exists v x' u' l,
    http_parser_execute strict (logged settings) max_header_size data x (u, []) = Done (v, x', (u', l)) /\
    Forall (in_buffer (Z.of_nat (length data))) l.
Proof.
  intros Hset Hx He.
  pose proof (po_nread _ _ Hx).
  destruct (execute_returns strict max_header_size max_header_size ltac:(lia) (fun w => True /\ Forall (in_buffer (Z.of_nat (length data))) w.2)
    (logged settings) data x (u, [])) as (v & x' & [u' l] & Heq & _ & _ & _ & _ & Hl);
    [by apply (logged_ok (fun _ => True))|done|done|by split; [|constructor]|].
  by exists v, x', u', l.
Qed.

Lemma ranges_in_buffer_witness :
  exists v x' u' l,
    http_parser_execute true (logged recorder) HTTP_MAX_HEADER_SIZE sample_request
      (http_parser_init HTTP_REQUEST) ([], []) = Done (v, x', (u', l)) /\
    Forall (in_buffer (Z.of_nat (length sample_request))) l.
Proof.
  apply (ranges_in_buffer true recorder HTTP_MAX_HEADER_SIZE).
  - apply recorder_ok.
  - by apply init_ok.
  - reflexivity.
Defined.

(** ** Lengths *)

(** C40. The digits of a chunk size are those of ASCII, and, because the table
    of digits has 128 entries and C fills in zeros, every byte from 128 on is a
    digit 0. *)
Theorem unhex_digits (c : Z) :
  0 <= c < 256 ->
  unhex_at c =
    if 128 <=? c then 0
    else if IS_NUM c then c - chr "0"
    else if (chr "a" <=? c) && (c <=? chr "f") then c - chr "a" + 10
    else if (chr "A" <=? c) && (c <=? chr "F") then c - chr "A" + 10
    else -1.
Proof.
  intros Hc. assert (Hall : forall n, (n < 256)%nat -> let c := Z.of_nat n in unhex_at c =
    if 128 <=? c then 0
    else if IS_NUM c then c - chr "0"
    else if (chr "a" <=? c) && (c <=? chr "f") then c - chr "a" + 10
    else if (chr "A" <=? c) && (c <=? chr "F") then c - chr "A" + 10
    else -1).
  { apply (below_all 256). vm_compute. repeat split. }
  specialize (Hall (Z.to_nat c)). rewrite Z2Nat.id in Hall by lia. apply Hall. lia.
Qed.

Lemma unhex_digits_witness : 0 <= 255 < 256 /\ unhex_at 255 = 0.
Proof. split; [lia|]. apply (unhex_digits 255). lia. Defined.

(** The characters of a content length, from the second on *)
Fixpoint content_length_chars {U} (l : list Z) : E U header_states :=
  match l with
  | [] => done h_content_length_num
  | c :: l => content_length_char c;! content_length_chars l
  end.

Lemma content_length_digit {U} (s : exec U) c :
  0 <= content_length (parser s) <= 2 ^ 64 - 7 -> IS_NUM c = true ->
  content_length_char c s =
    if decide (content_length (parser s) * 10 + (c - chr "0") <= 2 ^ 64 - 7)
    then Value h_content_length_num
           (with_parser (set_content_length (fun _ => content_length (parser s) * 10 + (c - chr "0"))) s)
    else GotoError (with_parser (set_header_state (fun _ => h_content_length_num))
                      (set_error HPE_INVALID_CONTENT_LENGTH s)).
Proof.
  intros Hs Hc. pose proof (digit_value c Hc) as Hd. unfold content_length_char.
  destruct (Z.eqb_spec c (chr " ")) as [->|_]; [discriminate Hc|]. rewrite Hc. cbn [negb]. erun.
  assert (Hq : (ULLONG_MAX - 10) / 10 = 1844674407370955160) by reflexivity. rewrite Hq.
  destruct (Z.ltb_spec 1844674407370955160 (content_length (parser s))) as [Hgt|Hle].
  - rewrite decide_False by lia. done.
  - rewrite decide_True by lia. unfold u64. rewrite (Z.mod_small (_ * _)), Z.mod_small by lia. done.
Qed.

(** C28. The value of a Content-Length field is exactly the number its digits
    make, and never wraps around: beyond [2^64 - 7] the parser stops with an
    error instead, and [ULLONG_MAX], which stands for no length, is never
    reached. *)
Theorem content_length_exact {U} (s : exec U) (l : list Z) :
  0 <= content_length (parser s) <= 2 ^ 64 - 7 -> Forall (fun c => IS_NUM c = true) l ->
  if decide (decimal_from (content_length (parser s)) l <= 2 ^ 64 - 7)
  then exists s', content_length_chars l s = Value h_content_length_num s' /\
         content_length (parser s') = decimal_from (content_length (parser s)) l /\
         content_length (parser s') <> ULLONG_MAX
  else exists s', content_length_chars l s = GotoError s' /\ errno_ (parser s') = HPE_INVALID_CONTENT_LENGTH.
Proof.
  intros Hs Hl. revert s Hs. induction Hl as [|c l Hc Hl IH]; intros s Hs.
  - rewrite decide_True by apply Hs. exists s. split; [done|]. split; [done|]. unfold ULLONG_MAX. lia.
  - cbn [content_length_chars]. unfold ebind. rewrite content_length_digit by done.
    set (v := content_length (parser s) * 10 + (c - chr "0")).
    change (decimal_from (content_length (parser s)) (c :: l)) with (decimal_from v l).
    assert (Hv : 0 <= v) by (pose proof (digit_value c Hc); unfold v; lia).
    destruct (decide (v <= 2 ^ 64 - 7)) as [Hle|Hgt].
    + apply (IH (with_parser (set_content_length (fun _ => v)) s)). cbn. lia.
    + rewrite decide_False; [by eexists|]. pose proof (decimal_from_le v l Hv Hl). lia.
Qed.

Lemma content_length_exact_witness :
  exists s', content_length_chars (chars "1024") (entry (http_parser_init HTTP_REQUEST) tt)
      = Value h_content_length_num s' /\
    content_length (parser s') = 1024 /\ content_length (parser s') <> ULLONG_MAX.
Proof.
  apply (content_length_exact (entry (http_parser_init HTTP_REQUEST) tt) (chars "1024")).
  - vm_compute; split; congruence.
  - repeat constructor.
Defined.

(** ** Framing *)

(** Content-Length next to Transfer-Encoding, when that is not allowed *)
Definition conflicting (lenient allow_chunked_length_ : bool) (x : http_parser) : bool :=
  (uses_transfer_encoding x =? 1) && has_flag (flags x) F_CONTENTLENGTH &&
  (if has_flag (flags x) F_CHUNKED then negb allow_chunked_length_ else negb lenient).

(** C30. A message with both Content-Length and Transfer-Encoding is refused at
    the end of its headers, before [on_headers_complete] is told of it, unless
    the parser is lenient, or allows a length next to [chunked]. *)
Theorem conflicting_framing_refused {U} (strict : bool) (settings : http_parser_settings U)
    (lenient allow : bool) (s : exec U) :
  ch s = LF -> has_flag (flags (parser s)) F_TRAILING = false ->
  if conflicting lenient allow (parser s)
  then exists s', do_headers_almost_done strict settings lenient allow s = GotoError s' /\
         errno_ (parser s') = HPE_UNEXPECTED_CONTENT_LENGTH /\ user s' = user s
  else check_framing lenient allow s = Value tt s.
Proof.
  intros Hc Ht. unfold conflicting. destruct (_ && _) eqn:Hconf.
  - apply andb_true_iff in Hconf as [Hboth Hnot]. unfold do_headers_almost_done. erun. rewrite Hc.
    replace (STRICT_CHECK strict (negb (LF =? LF))) with (done (U := U) tt) by (by destruct strict).
    erun. rewrite Ht. unfold check_framing. erun. rewrite Hboth.
    destruct (has_flag (flags (parser s)) F_CHUNKED); rewrite Hnot; erun; by eexists.
  - unfold check_framing. erun. destruct (_ && has_flag _ F_CONTENTLENGTH); [|done]. cbn in Hconf.
    destruct (has_flag (flags (parser s)) F_CHUNKED); by rewrite Hconf.
Qed.

Definition conflicting_parser : http_parser :=
  set_flags (fun _ => Z.lor F_CHUNKED F_CONTENTLENGTH)
    (set_uses_transfer_encoding (fun _ => 1) (http_parser_init HTTP_REQUEST)).

Lemma conflicting_framing_refused_witness :
  exists s', do_headers_almost_done true recorder false false (with_ch LF (entry conflicting_parser [])) = GotoError s' /\
    errno_ (parser s') = HPE_UNEXPECTED_CONTENT_LENGTH /\ user s' = [].
Proof.
  apply (conflicting_framing_refused true recorder false false (with_ch LF (entry conflicting_parser []))).
  - reflexivity.
  - vm_compute. reflexivity.
Defined.

(** How long the body of a message is, at the end of its headers *)
Inductive framing := NoBody | Refused | Chunked | Length | UntilClose.

Definition framing_of (lenient : bool) (x : http_parser) : framing :=
  if has_flag (flags x) F_SKIPBODY then NoBody
  else if has_flag (flags x) F_CHUNKED then Chunked
  else if uses_transfer_encoding x =? 1 then
    if bool_decide (type x = HTTP_REQUEST) && negb lenient then Refused else UntilClose
  else if content_length x =? ULLONG_MAX then
    if bool_decide (type x = HTTP_REQUEST) || (status_code x / 100 =? 1) || (status_code x =? 204)
       || (status_code x =? 304) then NoBody else UntilClose
  else if content_length x =? 0 then NoBody
  else Length.

(** The state each leads to *)
Definition framing_state (f : framing) (st : state) : Prop :=
  match f with
  | NoBody => st = s_start_req \/ st = s_start_res \/ st = s_dead
  | Refused => st = s_headers_done
  | Chunked => st = s_chunk_size_start
  | Length => st = s_body_identity
  | UntilClose => st = s_body_identity_eof
  end.

Lemma framing_needs_eof lenient x :
  has_flag (flags x) F_SKIPBODY = false -> has_flag (flags x) F_CHUNKED = false ->
  (uses_transfer_encoding x =? 1) = false -> (content_length x =? ULLONG_MAX) = true ->
  framing_of lenient x = if http_message_needs_eof x then UntilClose else NoBody.
Proof.
  intros Hs Hc Ht Hl. unfold framing_of, http_message_needs_eof. rewrite Hs, Hc, Ht, Hl.
  case_decide as Hty; [by rewrite bool_decide_true|]. rewrite bool_decide_false by done. cbn [orb negb andb].
  rewrite orb_false_r. by destruct (_ || _).
Qed.

(** A callback that returns 0 and leaves the parser alone *)
Definition quiet {U} (cb : option (http_cb U)) : Prop :=
  forall f, cb = Some f -> forall x u, (f x u).1 = (0, x).

Lemma notify_quiet {U} cb e er (s : exec U) :
  quiet cb -> errno_ (parser s) = HPE_OK ->
  exists st u, CALLBACK_NOTIFY_ cb e er s = Value tt (called st u s).
Proof.
  intros Hq He. unfold CALLBACK_NOTIFY_, assert_no_errno. erun.
  rewrite ebind_assert by (by rewrite bool_decide_true). destruct cb as [f|].
  - erun. cbn [id]. specialize (Hq f eq_refl (set_state (fun _ => p_state s) (parser s)) (user s)).
    cbn [parser user with_parser]. destruct (f _ _) as [[r x] u]. cbn in Hq. injection Hq as -> ->.
    unfold after_callback. erun. unfold ewhen. rewrite Z.eqb_refl. cbn [negb]. erun.
    cbn [state_ errno_ set_state]. rewrite decide_False by (by intros Hne). by exists (p_state s), u.
  - exists (state_ (parser s)), (user s). by rewrite called_same.
Qed.

Lemma message_over_quiet {U} strict (settings : http_parser_settings U) (s : exec U) :
  quiet (on_message_complete settings) -> errno_ (parser s) = HPE_OK ->
  exists st u, message_over strict settings s = Value tt (called st u (with_state (NEW_MESSAGE strict (parser s)) s)).
Proof. intros Hq He. unfold message_over, CALLBACK_NOTIFY. erun. by apply notify_quiet. Qed.

(** C16. At the end of the headers the parser goes on with the body the headers
    announce: chunked before a length, a length before the end of the
    connection; a request whose Transfer-Encoding is not chunked is refused,
    and, unless the parser is lenient, no request is ever read up to the end of
    the connection. *)
Theorem body_framing {U} (strict lenient : bool) (settings : http_parser_settings U) (s : exec U) :
  quiet (on_message_complete settings) -> errno_ (parser s) = HPE_OK -> upgrade (parser s) = 0 ->
  ch s = LF -> p_state s = s_headers_done -> 0 <= content_length (parser s) < 2 ^ 64 ->
  let f := framing_of lenient (parser s) in
  (match f with
   | Refused => exists s', do_headers_done strict settings lenient s = Return (p s) s' /\
                  errno_ (parser s') = HPE_INVALID_TRANSFER_ENCODING
   | _ => exists s', do_headers_done strict settings lenient s = Break s' /\ framing_state f (p_state s')
   end) /\
  (type (parser s) = HTTP_REQUEST -> lenient = false -> f <> UntilClose).
Proof.
  intros Hq He Hu Hc Hst Hlen f. split.
  - set (s1 := with_nread (fun _ => 0) (with_parser (set_nread (fun _ => 0)) s)).
    assert (Hover : exists s', (message_over strict settings;! break) s1 = Break (U := U) (A := unit) s' /\
      framing_state NoBody (p_state s')).
    { destruct (message_over_quiet strict settings s1) as (st & u & Hm); [done|done|].
      eexists. unfold ebind. rewrite Hm. split; [reflexivity|]. apply NEW_MESSAGE_cases. }
    pose proof (framing_needs_eof lenient (parser s)) as Heof. unfold f.
    unfold do_headers_done, clear_nread. erun. rewrite Hc.
    replace (STRICT_CHECK strict (negb (LF =? LF))) with (done (U := U) tt) by (by destruct strict).
    erun. cbn [upgrade flags uses_transfer_encoding content_length type method set_nread]. rewrite Hu. cbn [negb andb Z.eqb].
    fold s1. unfold framing_of in *.
    destruct (has_flag (flags (parser s)) F_SKIPBODY) eqn:Hskip; [exact Hover|].
    destruct (has_flag (flags (parser s)) F_CHUNKED) eqn:Hchunk; [by eexists|].
    destruct (uses_transfer_encoding (parser s) =? 1) eqn:Hte.
    { destruct (_ && negb lenient) eqn:Hreq; by eexists. }
    destruct (Z.eqb_spec (content_length (parser s)) ULLONG_MAX) as [Hmax|Hmax].
    + specialize (Heof eq_refl eq_refl eq_refl eq_refl). rewrite Heof. clear Heof.
      rewrite Hmax. cbn [Z.eqb]. replace (ULLONG_MAX =? 0) with false by done. cbn [negb].
      change (http_message_needs_eof (set_nread (fun _ => 0) (parser s))) with (http_message_needs_eof (parser s)).
      destruct (http_message_needs_eof (parser s)); [by eexists|exact Hover].
    + destruct (content_length (parser s) =? 0); [exact Hover|]. by eexists.
  - intros Hty -> Hf. unfold f, framing_of in Hf. rewrite Hty in Hf. rewrite bool_decide_true in Hf by done.
    repeat case_match; done.
Qed.

Definition headers_read (n : Z) : exec (list event) :=
  with_ch LF (with_state s_headers_done
    (entry (set_content_length (fun _ => n) (http_parser_init HTTP_REQUEST)) [])).

Lemma body_framing_witness :
  (exists s', do_headers_done true recorder false (headers_read 5) = Break s' /\ p_state s' = s_body_identity) /\
  (HTTP_REQUEST = HTTP_REQUEST -> false = false -> framing_of false (parser (headers_read 5)) <> UntilClose).
Proof.
  apply (body_framing true false recorder (headers_read 5)).
  - intros f [= <-] x u. reflexivity.
  - reflexivity.
  - reflexivity.
  - reflexivity.
  - reflexivity.
  - split; [discriminate|reflexivity].
Defined.

(** ** Characters *)

(** The separators of RFC 2616, but for space, tab and the double quote *)
Definition separators : list Z := chars "()<>@,;:\/[]?={}".
Definition is_token_char (c : Z) : bool :=
  (32 <? c) && (c <? 127) && negb (c =? 34) && negb (existsb (Z.eqb c) separators).
Definition lower_case (c : Z) : Z := if (chr "A" <=? c) && (c <=? chr "Z") then c + 32 else c.

(** In strict mode the characters of a header field are exactly the token
    characters of RFC 2616, read in lower case, and the characters of a URL are
    exactly the visible ASCII characters but '#' and '?'. *)
Theorem strict_characters (c : Z) :
  0 <= c < 256 ->
  TOKEN true c = (if is_token_char c then lower_case c else 0) /\
  IS_URL_CHAR true c = ((32 <? c) && (c <? 127) && negb (c =? chr "#") && negb (c =? chr "?")).
Proof.
  intros Hc. assert (Hall : forall n, (n < 256)%nat -> let c := Z.of_nat n in
    TOKEN true c = (if is_token_char c then lower_case c else 0) /\
    IS_URL_CHAR true c = ((32 <? c) && (c <? 127) && negb (c =? chr "#") && negb (c =? chr "?"))).
  { apply (below_all 256). vm_compute. repeat split. }
  specialize (Hall (Z.to_nat c)). rewrite Z2Nat.id in Hall by lia. apply Hall. lia.
Qed.

Lemma strict_characters_witness : TOKEN true (chr "K") = chr "k" /\ IS_URL_CHAR true (chr "K") = true.
Proof. apply (strict_characters (chr "K")). split; [discriminate|reflexivity]. Defined.

(** ** URLs *)

(** C32. [http_parser_parse_url] always returns 0 or 1, whatever the bytes: no
    assertion fails and no byte outside the buffer is read.  When it returns 0,
    every part in the set is a range of the buffer. *)
Theorem url_in_bounds (strict is_connect : bool) (buf : list Z) (u : http_parser_url) :
  length (field_data u) = UF_MAX ->
  exists v w, http_parser_parse_url strict buf is_connect u = Done (v, w) /\ (v = 0 \/ v = 1) /\
    (v = 0 -> forall f, has_field f w = true ->
       (f < UF_MAX)%nat /\ 0 <= off (field f w) /\ 0 <= len (field f w) /\
       off (field f w) + len (field f w) <= Z.of_nat (length buf)).
Proof.
  intros Hl. apply wp_done. eapply wp_mono; [by apply wp_parse_url|].
  intros v w [-> |(-> & [_ Hw] & _)]; (split; [tauto|]); [done|]. intros _ f Hf.
  destruct (Hw f Hf) as [Hlt Hr]. by split.
Qed.

Lemma url_in_bounds_witness :
  exists v w, http_parser_parse_url true (chars "http://a:80/b") false http_parser_url_init = Done (v, w) /\
    (v = 0 \/ v = 1) /\
    (v = 0 -> forall f, has_field f w = true ->
       (f < UF_MAX)%nat /\ 0 <= off (field f w) /\ 0 <= len (field f w) /\
       off (field f w) + len (field f w) <= 13).
Proof. apply (url_in_bounds true false (chars "http://a:80/b")). reflexivity. Defined.

(** C31. The port of a URL is the number its digits make, at most 65535, and 0
    when there is none; a CONNECT target that is accepted is a host and a port
    and nothing else.  (Offsets are 16 bits wide: a longer buffer has them
    wrapped around, and is left out.) *)
Theorem url_port_exact (strict is_connect : bool) (buf : list Z) (u w : http_parser_url) :
  length (field_data u) = UF_MAX -> Z.of_nat (length buf) < 2 ^ 16 ->
  http_parser_parse_url strict buf is_connect u = Done (0, w) ->
  port w = (if has_field UF_PORT w then decimal (slice buf (off (field UF_PORT w)) (len (field UF_PORT w))) else 0) /\
  0 <= port w <= 65535 /\
  (is_connect = true -> field_set w = Z.lor (uf_bit UF_HOST) (uf_bit UF_PORT)).
Proof.
  intros Hl Hs Hw. destruct (wp_result _ _ _ _ _ (wp_parse_url strict buf is_connect u Hl) Hw) as [|(_ & _ & Hp & Hc)]; [done|].
  destruct (Hp Hs). done.
Qed.

Lemma url_port_exact_witness :
  exists w, http_parser_parse_url true (chars "host:8080") true http_parser_url_init = Done (0, w) /\
    (port w = 8080 /\ 0 <= port w <= 65535 /\ (true = true -> field_set w = 6)).
Proof.
  eexists. split; [vm_compute; reflexivity|].
  apply (url_port_exact true true (chars "host:8080") http_parser_url_init); [reflexivity|reflexivity|].
  vm_compute. reflexivity.
Defined.
